(** * extractor.py: block scanner, rule set, classifier and materializer

    A shallow embedding of [src/extractor.py] and the properties of its
    specification.

    Python [str] values are lists of code points; the embedding covers the
    code points 0..255, one [ascii] each.  The [re] module is embedded as a
    backtracking matcher over a fragment of its pattern language, the file
    system as a finite map from absolute paths to nodes with the limits of
    Linux on the length of names and paths, Python dictionaries as
    association lists in insertion order. *)

From Stdlib Require Import Ascii String List Bool Arith Lia NArith.
From stdpp Require Import base option list strings gmap.
Import ListNotations.

Local Open Scope bool_scope.
Local Open Scope nat_scope.

(** ** Python strings *)

Definition str := list ascii.

(** [py "lit"] is the Python string written ["lit"] (or [r"lit"]) in the
    source; a backslash in it is a backslash. *)
Definition py (s : string) : str := list_ascii_of_string s.

Definition nl : ascii := "010"%char.

Module Chars.

Definition code (c : ascii) : N := N_of_ascii c.

Definition in_range (lo hi : N) (c : ascii) : bool :=
  (lo <=? code c)%N && (code c <=? hi)%N.

(** [str.isspace] on one character, which is also what [\s] matches in a
    [str] pattern: TAB..CR, FS..US, SPACE, NEL, NBSP. *)
Definition is_space (c : ascii) : bool :=
  in_range 9 13 c || in_range 28 32 c
  || (code c =? 133)%N || (code c =? 160)%N.

(** [\d] in a [str] pattern. *)
Definition is_digit (c : ascii) : bool := in_range 48 57 c.

(** [\w] in a [str] pattern: alphanumerics and the underscore. *)
Definition is_word (c : ascii) : bool :=
  in_range 48 57 c || in_range 65 90 c || in_range 97 122 c
  || (code c =? 95)%N
  || (code c =? 170)%N || in_range 178 179 c || (code c =? 181)%N
  || in_range 185 186 c || in_range 188 190 c
  || in_range 192 214 c || in_range 216 246 c || in_range 248 255 c.

(** [str.lower] on one character. *)
Definition lower (c : ascii) : ascii :=
  if in_range 65 90 c || (in_range 192 222 c && negb (code c =? 215)%N)
  then ascii_of_N (code c + 32) else c.

Definition eqb (a b : ascii) : bool := (code a =? code b)%N.

End Chars.

(** [str.strip()]: drop leading and trailing whitespace. *)
Fixpoint lstrip (s : str) : str :=
  match s with
  | c :: t => if Chars.is_space c then lstrip t else s
  | [] => []
  end.

Definition rstrip (s : str) : str := rev (lstrip (rev s)).

Definition strip (s : str) : str := rstrip (lstrip s).

(** ** The [re] module *)

Module Re.

(** *** Compiled patterns *)

Inductive cset_item : Type :=
| CChar (c : ascii)
| CRange (lo hi : ascii)
| CSpace (neg : bool)      (* \s, \S *)
| CWord (neg : bool)       (* \w, \W *)
| CDigit (neg : bool).     (* \d, \D *)

Inductive regex : Type :=
| RLit (c : ascii)
| RAny                                     (* . *)
| RSet (neg : bool) (items : list cset_item) (* [..], [^..], \s, \w, .. *)
| RBol                                     (* ^ *)
| REol                                     (* $ *)
| RStart                                   (* \A *)
| REnd                                     (* \Z *)
| REmpty
| RSeq (a b : regex)
| RAlt (a b : regex)
| RStar (greedy : bool) (a : regex)        (* a*, a*? *)
| RPlus (greedy : bool) (a : regex)        (* a+, a+? *)
| ROpt (greedy : bool) (a : regex)         (* a?, a?? *)
| RGroup (i : nat) (a : regex)             (* capturing group number i *)
| RLook (neg : bool) (a : regex).          (* (?=a), (?!a) *)

Record flags : Type := { ignorecase : bool; multiline : bool }.

Definition no_flags : flags := {| ignorecase := false; multiline := false |}.
Definition IGNORECASE : flags := {| ignorecase := true; multiline := false |}.
Definition MULTILINE : flags := {| ignorecase := false; multiline := true |}.

(** *** Matching state

    The subject string split at the current position: [bef] is the part
    to the left, last character first, [aft] the part to the right.
    [caps] holds the spans of the groups closed so far, newest first. *)
Record mstate : Type :=
  { bef : list ascii; aft : list ascii; caps : list (nat * (nat * nat)) }.

Definition pos (s : mstate) : nat := length (bef s).

Definition subject (s : mstate) : str := rev (bef s) ++ aft s.

Definition adv (c : ascii) (t : list ascii) (s : mstate) : mstate :=
  {| bef := c :: bef s; aft := t; caps := caps s |}.

Fixpoint cap_get (i : nat) (l : list (nat * (nat * nat))) : option (nat * nat) :=
  match l with
  | [] => None
  | (j, sp) :: t => if j =? i then Some sp else cap_get i t
  end.

Definition set_cap (i : nat) (sp : nat * nat) (s : mstate) : mstate :=
  {| bef := bef s; aft := aft s; caps := (i, sp) :: caps s |}.

Definition lit_match (fl : flags) (c x : ascii) : bool :=
  if ignorecase fl then Chars.eqb (Chars.lower c) (Chars.lower x)
  else Chars.eqb c x.

Definition item_match (it : cset_item) (x : ascii) : bool :=
  match it with
  | CChar c => Chars.eqb c x
  | CRange lo hi => Chars.in_range (Chars.code lo) (Chars.code hi) x
  | CSpace neg => xorb neg (Chars.is_space x)
  | CWord neg => xorb neg (Chars.is_word x)
  | CDigit neg => xorb neg (Chars.is_digit x)
  end.

(** Under IGNORECASE a set item also matches the other case of a
    character it contains. *)
Definition upper (c : ascii) : ascii :=
  if Chars.in_range 97 122 c
     || (Chars.in_range 224 254 c && negb (Chars.code c =? 247)%N)
  then ascii_of_N (Chars.code c - 32) else c.

Definition item_match_fl (fl : flags) (it : cset_item) (x : ascii) : bool :=
  if ignorecase fl
  then item_match it x || item_match it (Chars.lower x) || item_match it (upper x)
  else item_match it x.

Definition set_match (fl : flags) (neg : bool) (items : list cset_item)
    (x : ascii) : bool :=
  xorb neg (existsb (fun it => item_match_fl fl it x) items).

Definition at_bol (fl : flags) (s : mstate) : bool :=
  match bef s with
  | [] => true
  | c :: _ => multiline fl && Chars.eqb c nl
  end.

Definition at_eol (fl : flags) (s : mstate) : bool :=
  match aft s with
  | [] => true
  | c :: t => Chars.eqb c nl && (multiline fl || match t with [] => true | _ => false end)
  end.

Definition at_start (s : mstate) : bool :=
  match bef s with [] => true | _ => false end.

Definition at_end (s : mstate) : bool :=
  match aft s with [] => true | _ => false end.

(** *** The backtracking matcher

    [mt fl r k s] matches [r] at [s] and hands every way of matching it,
    in the order the engine tries them, to the continuation [k]; the
    first one [k] accepts is the result. *)
Definition cont : Type := mstate -> option mstate.

Definition or_else (a b : option mstate) : option mstate :=
  match a with Some x => Some x | None => b end.

Definition one (p : ascii -> bool) (k : cont) (s : mstate) : option mstate :=
  match aft s with
  | c :: t => if p c then k (adv c t s) else None
  | [] => None
  end.

Definition test (b : bool) (k : cont) (s : mstate) : option mstate :=
  if b then k s else None.

(** A repetition: at most [n] further iterations of [step], each of which
    has to consume something. *)
Fixpoint rep_loop (step : cont -> cont) (greedy : bool) (k : cont)
    (n : nat) (s : mstate) : option mstate :=
  match n with
  | 0 => k s
  | S n' =>
      let again :=
        step (fun s' => if length (aft s') <? length (aft s)
                        then rep_loop step greedy k n' s' else None) s in
      if greedy then or_else again (k s) else or_else (k s) again
  end.

Definition rep (step : cont -> cont) (greedy : bool) (k : cont) : cont :=
  fun s => rep_loop step greedy k (length (aft s)) s.

Fixpoint mt (fl : flags) (r : regex) (k : cont) (s : mstate) {struct r}
    : option mstate :=
  match r with
  | RLit c => one (lit_match fl c) k s
  | RAny => one (fun x => negb (Chars.eqb x nl)) k s
  | RSet neg items => one (set_match fl neg items) k s
  | RBol => test (at_bol fl s) k s
  | REol => test (at_eol fl s) k s
  | RStart => test (at_start s) k s
  | REnd => test (at_end s) k s
  | REmpty => k s
  | RSeq a b => mt fl a (mt fl b k) s
  | RAlt a b => or_else (mt fl a k s) (mt fl b k s)
  | RStar g a => rep (mt fl a) g k s
  | RPlus g a => mt fl a (rep (mt fl a) g k) s
  | ROpt g a =>
      if g then or_else (mt fl a k s) (k s) else or_else (k s) (mt fl a k s)
  | RGroup i a => mt fl a (fun s' => k (set_cap i (pos s, pos s') s')) s
  | RLook neg a =>
      match mt fl a Some s with
      | Some s' =>
          if neg then None
          else k {| bef := bef s; aft := aft s; caps := caps s' |}
      | None => if neg then k s else None
      end
  end.

(** *** Searching

    [search] tries the positions from the current one rightwards.  With
    [must_advance] an empty match at the first position is refused. *)
Definition final (must_advance : bool) (s0 : mstate) : cont :=
  fun e => if must_advance && (pos e =? pos s0) then None else Some e.

Fixpoint search (fl : flags) (r : regex) (must_advance : bool)
    (b a : list ascii) {struct a} : option (mstate * mstate) :=
  let s := {| bef := b; aft := a; caps := [] |} in
  match mt fl r (final must_advance s) s with
  | Some e => Some (s, e)
  | None =>
      match a with
      | [] => None
      | c :: t => search fl r false (c :: b) t
      end
  end.

(** [re.search(pattern, string, flags)] as a truth value. *)
Definition search_bool (fl : flags) (r : regex) (subj : str) : bool :=
  match search fl r false [] subj with Some _ => true | None => false end.

(** Successive non-overlapping matches, left to right; after an empty
    match the next one may not be empty at the same position. *)
Fixpoint finditer_loop (fl : flags) (r : regex) (fuel : nat)
    (must_advance : bool) (b a : list ascii) : option (list (mstate * mstate)) :=
  match fuel with
  | 0 => None
  | S fuel' =>
      match search fl r must_advance b a with
      | None => Some []
      | Some (s, e) =>
          match finditer_loop fl r fuel' (pos e =? pos s) (bef e) (aft e) with
          | Some ms => Some ((s, e) :: ms)
          | None => None
          end
      end
  end.

Definition finditer_fuel (subj : str) : nat := 2 * length subj + 2.

Definition finditer (fl : flags) (r : regex) (subj : str) : list (mstate * mstate) :=
  match finditer_loop fl r (finditer_fuel subj) false [] subj with
  | Some ms => ms
  | None => []
  end.

Definition substr (subj : str) (sp : nat * nat) : str :=
  firstn (snd sp - fst sp) (skipn (fst sp) subj).

(** [m.group(i)] with [None] turned into the empty string, as [findall]
    does. *)
Definition group (i : nat) (e : mstate) : str :=
  match cap_get i (caps e) with
  | Some sp => substr (subject e) sp
  | None => []
  end.

Definition groups (n : nat) (e : mstate) : list str :=
  map (fun i => group i e) (seq 1 n).

(** [pattern.findall(string)] for a pattern with [n >= 2] groups. *)
Definition findall (fl : flags) (r : regex) (n : nat) (subj : str) : list (list str) :=
  map (fun m => groups n (snd m)) (finditer fl r subj).

(** *** Compiling a pattern string

    [compile] accepts a fragment of the pattern language: literals, [.],
    [^], [$], the escapes [\s \S \w \W \d \D \A \Z \n \t \r \f \v] and
    escaped punctuation, character sets with ranges, the groups [(..)],
    [(?:..)], [(?=..)], [(?!..)], alternation and the quantifiers
    [* + ?] with their lazy forms, applied to something that cannot match
    the empty string.  What [re.compile] rejects inside the fragment is
    [ReError]; what lies outside it is [Unsupported]. *)

Inductive pres (A : Type) : Type :=
| POk (a : A)
| PErr            (* re.error *)
| PUnsup.         (* outside the fragment *)
Arguments POk {A} a.
Arguments PErr {A}.
Arguments PUnsup {A}.

Definition pbind {A B} (x : pres A) (f : A -> pres B) : pres B :=
  match x with POk a => f a | PErr => PErr | PUnsup => PUnsup end.

Fixpoint nullable (r : regex) : bool :=
  match r with
  | RLit _ | RAny | RSet _ _ => false
  | RBol | REol | RStart | REnd | REmpty => true
  | RSeq a b => nullable a && nullable b
  | RAlt a b => nullable a || nullable b
  | RStar _ _ | ROpt _ _ | RLook _ _ => true
  | RPlus _ a | RGroup _ a => nullable a
  end.

Definition mkseq (a b : regex) : regex :=
  match b with REmpty => a | _ => RSeq a b end.

Definition is_punct (c : ascii) : bool :=
  negb (Chars.in_range 48 57 c || Chars.in_range 65 90 c
        || Chars.in_range 97 122 c || Chars.in_range 128 255 c).

(** The character or class an escape stands for, inside or outside a
    set. *)
Definition escape_item (c : ascii) : pres cset_item :=
  if Chars.eqb c "s" then POk (CSpace false)
  else if Chars.eqb c "S" then POk (CSpace true)
  else if Chars.eqb c "w" then POk (CWord false)
  else if Chars.eqb c "W" then POk (CWord true)
  else if Chars.eqb c "d" then POk (CDigit false)
  else if Chars.eqb c "D" then POk (CDigit true)
  else if Chars.eqb c "n" then POk (CChar nl)
  else if Chars.eqb c "t" then POk (CChar "009")
  else if Chars.eqb c "r" then POk (CChar "013")
  else if Chars.eqb c "f" then POk (CChar "012")
  else if Chars.eqb c "v" then POk (CChar "011")
  else if is_punct c then POk (CChar c)
  else PUnsup.

Definition item_regex (it : cset_item) : regex :=
  match it with
  | CChar c => RLit c
  | _ => RSet false [it]
  end.

(** The items of a set up to its closing bracket; [first] is true right
    after the opening, where a closing bracket is a literal. *)
Fixpoint p_set (fuel : nat) (first : bool) (inp : list ascii)
    : pres (list cset_item * list ascii) :=
  match fuel with
  | 0 => PUnsup
  | S f =>
      match inp with
      | [] => PErr
      | c :: t =>
          if Chars.eqb c "]" && negb first then POk ([], t)
          else
            pbind
              (if Chars.eqb c "\" then
                 match t with
                 | [] => PErr
                 | e :: t' => pbind (escape_item e) (fun it => POk (it, t'))
                 end
               else POk (CChar c, t))
              (fun '(it, t1) =>
                 match it, t1 with
                 | CChar lo, d :: h :: t2 =>
                     if Chars.eqb d "-" && negb (Chars.eqb h "]") then
                       if Chars.eqb h "\" then PUnsup
                       else if (Chars.code lo <=? Chars.code h)%N then
                         pbind (p_set f false t2)
                               (fun '(its, r) => POk (CRange lo h :: its, r))
                       else PErr
                     else pbind (p_set f false t1)
                                (fun '(its, r) => POk (it :: its, r))
                 | _, d :: h :: t2 =>
                     if Chars.eqb d "-" && negb (Chars.eqb h "]") then PUnsup
                     else pbind (p_set f false t1)
                                (fun '(its, r) => POk (it :: its, r))
                 | _, _ => pbind (p_set f false t1)
                                 (fun '(its, r) => POk (it :: its, r))
                 end)
      end
  end.

Definition is_quant (c : ascii) : bool :=
  Chars.eqb c "*" || Chars.eqb c "+" || Chars.eqb c "?".

(** The quantifier, if any, after the atom [a]. *)
Definition p_quant (a : regex) (inp : list ascii) : pres (regex * list ascii) :=
  match inp with
  | q :: t =>
      if is_quant q then
        let '(greedy, t1) :=
          match t with
          | l :: t' => if Chars.eqb l "?" then (false, t') else (true, t)
          | [] => (true, t)
          end in
        match t1 with
        | x :: _ => if is_quant x || Chars.eqb x "{" then PUnsup
                    else
                      if nullable a then PUnsup
                      else if Chars.eqb q "*" then POk (RStar greedy a, t1)
                      else if Chars.eqb q "+" then POk (RPlus greedy a, t1)
                      else POk (ROpt greedy a, t1)
        | [] => if nullable a then PUnsup
                else if Chars.eqb q "*" then POk (RStar greedy a, t1)
                else if Chars.eqb q "+" then POk (RPlus greedy a, t1)
                else POk (ROpt greedy a, t1)
        end
      else if Chars.eqb q "{" then PUnsup
      else POk (a, inp)
  | [] => POk (a, inp)
  end.

(** [p_alt], [p_seq] and [p_item] return the pattern read, the number of
    groups opened so far and the rest of the input. *)
Fixpoint p_alt (fuel : nat) (g : nat) (inp : list ascii)
    : pres (regex * nat * list ascii) :=
  match fuel with
  | 0 => PUnsup
  | S f =>
      pbind (p_seq f g inp) (fun '(a, g1, t) =>
        match t with
        | c :: t' =>
            if Chars.eqb c "|" then
              pbind (p_alt f g1 t') (fun '(b, g2, t'') => POk (RAlt a b, g2, t''))
            else POk (a, g1, t)
        | [] => POk (a, g1, t)
        end)
  end
with p_seq (fuel : nat) (g : nat) (inp : list ascii)
    : pres (regex * nat * list ascii) :=
  match fuel with
  | 0 => PUnsup
  | S f =>
      match inp with
      | [] => POk (REmpty, g, inp)
      | c :: _ =>
          if Chars.eqb c "|" || Chars.eqb c ")" then POk (REmpty, g, inp)
          else
            pbind (p_item f g inp) (fun '(a, g1, t) =>
              pbind (p_seq f g1 t) (fun '(b, g2, t') => POk (mkseq a b, g2, t')))
      end
  end
with p_item (fuel : nat) (g : nat) (inp : list ascii)
    : pres (regex * nat * list ascii) :=
  match fuel with
  | 0 => PUnsup
  | S f =>
      let quant (x : pres (regex * nat * list ascii)) :=
        pbind x (fun '(a, g1, t) =>
          pbind (p_quant a t) (fun '(a', t') => POk (a', g1, t'))) in
      let closing (x : pres (regex * nat * list ascii)) (wrap : regex -> regex) :=
        pbind x (fun '(a, g1, t) =>
          match t with
          | c :: t' => if Chars.eqb c ")" then POk (wrap a, g1, t') else PErr
          | [] => PErr
          end) in
      match inp with
      | [] => PUnsup
      | c :: t =>
          if Chars.eqb c "(" then
            match t with
            | q :: t1 =>
                if Chars.eqb q "?" then
                  match t1 with
                  | m :: t2 =>
                      if Chars.eqb m ":" then quant (closing (p_alt f g t2) (fun a => a))
                      else if Chars.eqb m "=" then quant (closing (p_alt f g t2) (RLook false))
                      else if Chars.eqb m "!" then quant (closing (p_alt f g t2) (RLook true))
                      else PUnsup
                  | [] => PErr
                  end
                else quant (closing (p_alt f (S g) t) (RGroup (S g)))
            | [] => PErr
            end
          else if Chars.eqb c "[" then
            let '(neg, t1) :=
              match t with
              | n :: t' => if Chars.eqb n "^" then (true, t') else (false, t)
              | [] => (false, t)
              end in
            quant (pbind (p_set (S (length t1)) true t1)
                         (fun '(its, t2) => POk (RSet neg its, g, t2)))
          else if Chars.eqb c "\" then
            match t with
            | [] => PErr
            | e :: t1 =>
                if Chars.eqb e "A" then quant (POk (RStart, g, t1))
                else if Chars.eqb e "Z" then quant (POk (REnd, g, t1))
                else quant (pbind (escape_item e)
                                  (fun it => POk (item_regex it, g, t1)))
            end
          else if Chars.eqb c "." then quant (POk (RAny, g, t))
          else if Chars.eqb c "^" then quant (POk (RBol, g, t))
          else if Chars.eqb c "$" then quant (POk (REol, g, t))
          else if is_quant c then PErr
          else if Chars.eqb c "{" then PUnsup
          else quant (POk (RLit c, g, t))
      end
  end.

Inductive compiled : Type :=
| Compiled (r : regex) (ngroups : nat)
| ReError
| Unsupported.

(** [re.compile(pattern)]. *)
Definition compile (pattern : str) : compiled :=
  match p_alt (4 * length pattern + 8) 0 pattern with
  | POk (r, n, []) => Compiled r n
  | POk (_, _, _ :: _) => ReError      (* an unbalanced closing parenthesis *)
  | PErr => ReError
  | PUnsup => Unsupported
  end.

End Re.

(** ** Scanning: the pattern of [extract_full_files] *)

Definition file_pattern_src : str :=
  py "^#\s*(\S+\.(py|js|jsx|html|css|json|yaml|yml|md))\s*\n(?:```(\w+)?\n)?([\s\S]*?)(?:```|(?=^# |\Z))".

(** [re.compile(file_pattern_src, re.MULTILINE)] *)
Definition file_pattern : Re.regex :=
  Eval vm_compute in
    match Re.compile file_pattern_src with
    | Re.Compiled r _ => r
    | _ => Re.REmpty
    end.

(** [file_pattern.findall(content)]: one tuple of four groups per match. *)
Definition scan_raw (content : str) : list (list str) :=
  Re.findall Re.MULTILINE file_pattern 4 content.

(** ** Python values, dictionaries, exceptions *)

#[local] Set Warnings "-register-all".

(** The values [json.load] produces, and tuples, which the built-in
    pattern table uses. *)
Inductive pyval : Type :=
| VNone
| VBool (b : bool)
| VNum (literal : str)
| VStr (s : str)
| VList (l : list pyval)
| VTuple (l : list pyval)
| VDict (d : list (str * pyval)).

(** A [dict]: its items in insertion order, keys distinct. *)
Definition dict : Type := list (str * pyval).

Definition str_eqb (a b : str) : bool := bool_decide (a = b).

Fixpoint dict_get (k : str) (d : dict) : option pyval :=
  match d with
  | [] => None
  | (k', v) :: t => if str_eqb k' k then Some v else dict_get k t
  end.

(** [d[k] = v]: an existing key keeps its place, a new one goes last. *)
Fixpoint dict_set (k : str) (v : pyval) (d : dict) : dict :=
  match d with
  | [] => [(k, v)]
  | (k', v') :: t => if str_eqb k' k then (k', v) :: t else (k', v') :: dict_set k v t
  end.

(** [del d[k]] for a key that is present. *)
Fixpoint dict_del (k : str) (d : dict) : dict :=
  match d with
  | [] => []
  | (k', v') :: t => if str_eqb k' k then t else (k', v') :: dict_del k t
  end.

(** [d.update(other)] *)
Definition dict_update (d other : dict) : dict :=
  fold_left (fun acc kv => dict_set (fst kv) (snd kv) acc) other d.

Definition keys (d : dict) : list str := map fst d.

Inductive exn : Type :=
| ReErrorExn            (* re.error *)
| TypeError
| ValueError
| RuntimeError
| AttributeError
| UnicodeDecodeError
| OSError.

(** ** The world: file system and log *)

Inductive node : Type :=
| NDir
| NFile (data : option str).   (* [None]: bytes that are not UTF-8 text *)

(** A [pathlib] path: whether it is absolute, and its components. *)
Record ppath : Type := { absolute : bool; parts : list str }.

Inductive level : Type := DEBUG | INFO | WARNING | ERROR.

(** The choices of [--log-level]. *)
Inductive level_choice : Type :=
| AtDebug | AtInfo | AtWarning | AtError | AtCritical.

Inductive message : Type :=
| MsgDetected (language file_name : str)
| MsgMime (mime_type file_name : str)
| MsgNoType (file_name : str)
| MsgSaved (file_path : ppath)
| MsgSaveFailed (file_name : str) (e : exn)
| MsgProcessing (file_path : str)
| MsgNoInput (file_path : str)
| MsgReadFailed (e : exn)
| MsgNoFiles
| MsgFound (n : nat)
| MsgExtracting (file_name language_specifier : str)
| MsgAllProcessed
| MsgNoConfig (config_path : str)
| MsgInvalidPattern (lang : str)
| MsgLoaded (config_path : str)
| MsgLoadFailed (e : exn)
| MsgCompleted.

(** Files and directories by absolute path (the components below the
    root); the root is a directory and has no entry.  No symbolic links
    and no permissions; the space for data is not bounded. *)
Record world : Type :=
  { fs : gmap (list str) node;
    cwd : list str;
    log : list (level * message) }.

Definition set_fs (f : gmap (list str) node) (w : world) : world :=
  {| fs := f; cwd := cwd w; log := log w |}.

(** *** Computations that may raise

    [Outside]: the run has left what the embedding covers (a pattern
    outside the fragment of [Re.compile]). *)
Inductive outcome (A : Type) : Type :=
| Ret (a : A)
| Raise (e : exn)
| Outside.
Arguments Ret {A} a.
Arguments Raise {A} e.
Arguments Outside {A}.

Definition M (A : Type) : Type := world -> outcome A * world.

Definition ret {A} (a : A) : M A := fun w => (Ret a, w).
Definition raise {A} (e : exn) : M A := fun w => (Raise e, w).
Definition outside {A} : M A := fun w => (Outside, w).

Definition bind {A B} (m : M A) (f : A -> M B) : M B :=
  fun w =>
    match m w with
    | (Ret a, w') => f a w'
    | (Raise e, w') => (Raise e, w')
    | (Outside, w') => (Outside, w')
    end.

Notation "x <- m ;; k" := (bind m (fun x => k))
  (at level 100, m at level 99, right associativity, only parsing).
Notation "m ;;; k" := (bind m (fun _ => k))
  (at level 100, k at level 100, right associativity, only parsing).

(** [try: body except Exception as e: handler(e)] *)
Definition try_except {A} (body : M A) (handler : exn -> M A) : M A :=
  fun w =>
    match body w with
    | (Raise e, w') => handler e w'
    | r => r
    end.

Definition logger (lv : level) (m : message) : M unit :=
  fun w => (Ret tt, {| fs := fs w; cwd := cwd w; log := log w ++ [(lv, m)] |}).

(** *** Paths *)

Fixpoint split_slash (cur : str) (s : str) : list str :=
  match s with
  | [] => [rev cur]
  | c :: t => if Chars.eqb c "/" then rev cur :: split_slash [] t
              else split_slash (c :: cur) t
  end.

Definition dotdot : str := py "..".

(** [Path(s)]: empty components and [.] are dropped, [..] is kept. *)
Definition Path (s : str) : ppath :=
  {| absolute := match s with c :: _ => Chars.eqb c "/" | [] => false end;
     parts := List.filter (fun p => negb (str_eqb p []) && negb (str_eqb p (py ".")))
                     (split_slash [] s) |}.

(** [p / seg]: an absolute segment replaces the path. *)
Definition join1 (p : ppath) (seg : str) : ppath :=
  let q := Path seg in
  if absolute q then q
  else {| absolute := absolute p; parts := parts p ++ parts q |}.

(** [p.joinpath] applied to the segments [segs]. *)
Definition joinpath (p : ppath) (segs : list str) : ppath :=
  fold_left join1 segs p.

Definition parent_dir (p : list str) : list str := removelast p.

Definition is_dir (f : gmap (list str) node) (p : list str) : bool :=
  match p with
  | [] => true
  | _ => match f !! p with Some NDir => true | _ => false end
  end.

Definition has_nul (p : ppath) : bool :=
  existsb (existsb (fun c => Chars.eqb c "000")) (parts p).

(** The bytes of the UTF-8 encoding of a string: one for a code point
    below 128, two for each of the others. *)
Definition utf8_length (s : str) : N :=
  fold_right (fun c n => ((if (Chars.code c <? 128)%N then 1 else 2) + n)%N) 0%N s.

(** The limits of the file system (Linux): the bytes of one component
    of a path, and the bytes of a path handed to the system, its final NUL
    included. *)
Definition NAME_MAX : N := 255.
Definition PATH_MAX : N := 4096.

Definition name_too_long (s : str) : bool := (NAME_MAX <? utf8_length s)%N.

Fixpoint join_slash (ps : list str) : str :=
  match ps with
  | [] => []
  | [p] => p
  | p :: rest => p ++ "/"%char :: join_slash rest
  end.

(** [str(p)] *)
Definition path_str (p : ppath) : str :=
  match parts p with
  | [] => if absolute p then py "/" else py "."
  | ps => (if absolute p then py "/" else []) ++ join_slash ps
  end.

(** The system refuses the string [s], whose components are [ps], with
    ENAMETOOLONG or, where a component before the long one is missing, with
    ENOENT: in both cases an [OSError], and nothing is done. *)
Definition too_long (s : str) (ps : list str) : bool :=
  (PATH_MAX <=? utf8_length s)%N || existsb name_too_long ps.

(** The string ends in a slash or in a component [.] (or is empty): what
    it names has to be a directory. *)
Definition dir_required (s : str) : bool :=
  let name := List.last (split_slash [] s) [] in
  str_eqb name [] || str_eqb name (py ".").

Definition base (w : world) (p : ppath) : list str :=
  if absolute p then [] else cwd w.

(** Follow the components from the directory [cur]; each has to lead to
    an existing directory. *)
Fixpoint walk (f : gmap (list str) node) (cur : list str) (ps : list str)
    : option (list str) :=
  match ps with
  | [] => Some cur
  | p :: ps' =>
      let nxt := if str_eqb p dotdot then parent_dir cur else cur ++ [p] in
      if is_dir f nxt then walk f nxt ps' else None
  end.

(** [p.mkdir(parents=True, exist_ok=True)] from the directory [cur]:
    missing directories are created on the way; a file on the way, or a
    component that is too long, is an error, after what lies before it has
    been created.  A path whose string is too long is refused before
    anything is created. *)
Fixpoint mkdir_walk (f : gmap (list str) node) (cur : list str) (ps : list str)
    : gmap (list str) node * bool :=
  match ps with
  | [] => (f, true)
  | p :: ps' =>
      if str_eqb p dotdot then mkdir_walk f (parent_dir cur) ps'
      else if name_too_long p then (f, false)
      else
        let nxt := cur ++ [p] in
        match f !! nxt with
        | None => mkdir_walk (<[nxt := NDir]> f) nxt ps'
        | Some NDir => mkdir_walk f nxt ps'
        | Some (NFile _) => (f, false)
        end
  end.

Definition mkdir_parents (p : ppath) : M unit :=
  fun w =>
    if has_nul p then (Raise ValueError, w)
    else if (PATH_MAX <=? utf8_length (path_str p))%N then (Raise OSError, w)
    else if is_dir (fs w) (base w p) then
      let '(f, ok) := mkdir_walk (fs w) (base w p) (parts p) in
      (if ok then Ret tt else Raise OSError, set_fs f w)
    else (Raise OSError, w).

(** The file a path names: the directory its parent resolves to and the
    last component. *)
Definition locate (w : world) (p : ppath) : option (list str) :=
  match parts p with
  | [] => None
  | _ =>
      let name := List.last (parts p) [] in
      if str_eqb name dotdot then None
      else
        if is_dir (fs w) (base w p) then
          match walk (fs w) (base w p) (removelast (parts p)) with
          | Some d => Some (d ++ [name])
          | None => None
          end
        else None
  end.

(** [with open(p, 'w', encoding='utf-8') as f: f.write(text)].  The text
    is made of code points that UTF-8 encodes, so the write that follows a
    successful [open] does not fail. *)
Definition write_text (p : ppath) (text : str) : M unit :=
  fun w =>
    if has_nul p then (Raise ValueError, w)
    else if too_long (path_str p) (parts p) then (Raise OSError, w)
    else
      match locate w p with
      | Some q =>
          match fs w !! q with
          | Some NDir => (Raise OSError, w)
          | _ => (Ret tt, set_fs (<[q := NFile (Some text)]> (fs w)) w)
          end
      | None => (Raise OSError, w)
      end.

(** Universal newlines: what reading in text mode makes of CR LF and CR. *)
Fixpoint universal_newlines (s : str) : str :=
  match s with
  | [] => []
  | c :: t =>
      if Chars.eqb c "013" then
        match t with
        | d :: t' => if Chars.eqb d nl then nl :: universal_newlines t'
                     else nl :: universal_newlines t
        | [] => [nl]
        end
      else c :: universal_newlines t
  end.

(** The content of the file at [p], as stored. *)
Definition file_content (w : world) (p : ppath) : option str :=
  if has_nul p then None
  else
    match locate w p with
    | Some q => match fs w !! q with Some (NFile d) => d | _ => None end
    | None => None
    end.

(** [os.path.isfile(path)] *)
Definition isfile (path : str) : M bool :=
  fun w =>
    let p := Path path in
    (Ret (negb (has_nul p) && negb (dir_required path)
          && negb (too_long path (parts p)) &&
          match locate w p with
          | Some q => match fs w !! q with Some (NFile _) => true | _ => false end
          | None => false
          end), w).

(** [with open(path, 'r', encoding='utf-8') as f: f.read()] *)
Definition read_text (path : str) : M str :=
  fun w =>
    let p := Path path in
    if has_nul p then (Raise ValueError, w)
    else if dir_required path || too_long path (parts p) then (Raise OSError, w)
    else
      match locate w p with
      | Some q =>
          match fs w !! q with
          | Some (NFile (Some t)) => (Ret (universal_newlines t), w)
          | Some (NFile None) => (Raise UnicodeDecodeError, w)
          | _ => (Raise OSError, w)
          end
      | None => (Raise OSError, w)
      end.

(** [os.path.abspath] on the components of a path: [..] is taken
    textually and goes no higher than the root. *)
Fixpoint normpath (acc ps : list str) : list str :=
  match ps with
  | [] => acc
  | p :: rest =>
      if str_eqb p dotdot then normpath (removelast acc) rest
      else normpath (acc ++ [p]) rest
  end.

(** [logging.FileHandler(path)]: the absolute path of the file is
    opened for appending at once; a file that is missing is created. *)
Definition file_handler (path : str) : M unit :=
  fun w =>
    let p := Path path in
    let a := {| absolute := true; parts := normpath (base w p) (parts p) |} in
    if has_nul a then (Raise ValueError, w)
    else if too_long (path_str a) (parts a) then (Raise OSError, w)
    else
      match locate w a with
      | Some q =>
          match fs w !! q with
          | Some NDir => (Raise OSError, w)
          | Some (NFile _) => (Ret tt, w)
          | None => (Ret tt, set_fs (<[q := NFile (Some [])]> (fs w)) w)
          end
      | None => (Raise OSError, w)
      end.

(** ** The program *)

Definition lift {A} (o : outcome A) : M A := fun w => (o, w).

(** Unpacking [a, b = v]. *)
Definition unpack2 (v : pyval) : outcome (pyval * pyval) :=
  match v with
  | VList [a; b] | VTuple [a; b] => Ret (a, b)
  | VStr [a; b] => Ret (VStr [a], VStr [b])
  | VDict [(a, _); (b, _)] => Ret (VStr a, VStr b)
  | VList _ | VTuple _ | VStr _ | VDict _ => Raise ValueError
  | VNone | VBool _ | VNum _ => Raise TypeError
  end.

(** The elements [*v] unpacks to. *)
Definition star_args (v : pyval) : outcome (list pyval) :=
  match v with
  | VList l | VTuple l => Ret l
  | VStr s => Ret (map (fun c => VStr [c]) s)
  | VDict d => Ret (map (fun kv => VStr (fst kv)) d)
  | VNone | VBool _ | VNum _ => Raise TypeError
  end.

Fixpoint all_str (l : list pyval) : option (list str) :=
  match l with
  | [] => Some []
  | VStr s :: t => match all_str t with Some r => Some (s :: r) | None => None end
  | _ :: _ => None
  end.

(** [re.search(pattern, string, re.IGNORECASE)] as a truth value. *)
Definition re_search (pattern : pyval) (subj : str) : outcome bool :=
  match pattern with
  | VStr p =>
      match Re.compile p with
      | Re.Compiled r _ => Ret (Re.search_bool Re.IGNORECASE r subj)
      | Re.ReError => Raise ReErrorExn
      | Re.Unsupported => Outside
      end
  | _ => Raise TypeError
  end.

(** One turn of the loop of [detect_language_and_directory]: unpack the
    rule, search its pattern in the file name. *)
Definition rule_test (v : pyval) (file_name : str) : outcome (pyval * bool) :=
  match unpack2 v with
  | Ret dp =>
      match re_search (snd dp) file_name with
      | Ret found => Ret (fst dp, found)
      | Raise e => Raise e
      | Outside => Outside
      end
  | Raise e => Raise e
  | Outside => Outside
  end.

Definition rule (directory : list string) (pattern : string) : pyval :=
  VTuple [VList (map (fun d => VStr (py d)) directory); VStr (py pattern)].

(** The default patterns of [detect_language_and_directory]. *)
Definition default_patterns : dict :=
  [ (py "python", rule ["backend"%string] "\.py$");
    (py "javascript", rule ["frontend"%string] "\.js$");
    (py "jsx", rule ["frontend"%string] "\.jsx$");
    (py "html", rule ["templates"%string] "\.html$");
    (py "css", rule ["static"%string; "css"%string] "\.css$");
    (py "json", rule ["static"%string; "data"%string] "\.json$");
    (py "yaml", rule ["config"%string] "\.(yaml|yml)$");
    (py "markdown", rule ["docs"%string] "\.md$") ].

(** [mime_type.split('/')[0]] *)
Fixpoint before_slash (s : str) : str :=
  match s with
  | [] => []
  | c :: t => if Chars.eqb c "/" then [] else c :: before_slash t
  end.

Section Program.

(** [mimetypes.guess_type(name)[0]], from the tables of the Python
    installation. *)
Variable guess_type : str -> option str.

(** [json.loads]; [None] when it raises. *)
Variable json_loads : str -> option pyval.

(** The loop of [detect_language_and_directory] over [patterns.items()]. *)
Fixpoint first_match (file_name : str) (items : dict) : M (option (str * pyval)) :=
  match items with
  | [] => ret None
  | (language, v) :: rest =>
      t <- lift (rule_test v file_name) ;;
      if snd t : bool then
        logger DEBUG (MsgDetected language file_name) ;;;
        ret (Some (language, fst t))
      else first_match file_name rest
  end.

(** [custom_patterns] is a dictionary, empty for [None] as well. *)
Definition detect_language_and_directory (file_name : str)
    (custom_patterns : dict) : M (str * pyval) :=
  let patterns := dict_update default_patterns custom_patterns in
  r <- first_match file_name patterns ;;
  match r with
  | Some ld => ret ld
  | None =>
      match guess_type file_name with
      | Some (c :: m) =>
          let mime_type := c :: m in
          let directory := VList [VStr (before_slash mime_type)] in
          logger DEBUG (MsgMime mime_type file_name) ;;;
          ret (mime_type, directory)
      | _ =>
          logger WARNING (MsgNoType file_name) ;;;
          ret (py "txt", VList [VStr (py "misc")])
      end
  end.

Definition save_file (file_name : str) (directory : pyval)
    (file_content : str) (output_dir : str) : M unit :=
  try_except
    (segs <- lift (star_args directory) ;;
     match all_str segs with
     | None => raise TypeError
     | Some segs =>
         let target_dir := joinpath (Path output_dir) segs in
         mkdir_parents target_dir ;;;
         let file_path := join1 target_dir file_name in
         write_text file_path (strip file_content) ;;;
         logger INFO (MsgSaved file_path)
     end)
    (fun e => logger ERROR (MsgSaveFailed file_name e)).

(** What the loop of [extract_full_files] takes from one match. *)
Record block : Type :=
  { fileName : str; declaredExtension : str;
    fenceLanguage : str; content : str }.

Definition nth_str (i : nat) (m : list str) : str := nth i m [].

Definition block_of (m : list str) : block :=
  {| fileName := strip (nth_str 0 m);
     declaredExtension := strip (nth_str 1 m);
     fenceLanguage := match nth_str 2 m with [] => [] | g => strip g end;
     content := strip (nth_str 3 m) |}.

(** The blocks of a document, in the order [findall] returns them. *)
Definition scan (document : str) : list block :=
  map block_of (scan_raw document).

(** The body of the loop over the matches. *)
Definition process_block (output_dir : str) (custom_patterns : dict)
    (b : block) : M unit :=
  logger DEBUG (MsgExtracting (fileName b) (fenceLanguage b)) ;;;
  ld <- detect_language_and_directory (fileName b) custom_patterns ;;
  save_file (fileName b) (snd ld) (content b) output_dir.

Fixpoint process_blocks (output_dir : str) (custom_patterns : dict)
    (bs : list block) : M unit :=
  match bs with
  | [] => ret tt
  | b :: rest =>
      process_block output_dir custom_patterns b ;;;
      process_blocks output_dir custom_patterns rest
  end.

Definition extract_full_files (file_path output_dir : str)
    (custom_patterns : dict) : M unit :=
  logger INFO (MsgProcessing file_path) ;;;
  present <- isfile file_path ;;
  if negb present then logger ERROR (MsgNoInput file_path)
  else
    r <- try_except (c <- read_text file_path ;; ret (Some c))
                    (fun e => logger ERROR (MsgReadFailed e) ;;; ret None) ;;
    match r with
    | None => ret tt
    | Some document =>
        let matches := scan document in
        match matches with
        | [] => logger ERROR MsgNoFiles
        | _ =>
            logger INFO (MsgFound (length matches)) ;;;
            process_blocks output_dir custom_patterns matches ;;;
            logger INFO MsgAllProcessed
        end
    end.

Definition is_list (v : pyval) : bool :=
  match v with VList _ => true | _ => false end.

Definition is_str (v : pyval) : bool :=
  match v with VStr _ => true | _ => false end.

(** The loop of [load_custom_patterns] over [patterns.items()], which
    deletes from [patterns] while it iterates.  The iterator is at entry
    [i] and was created when the dictionary had [used] items; asked for
    the next item of a dictionary whose size has changed, it raises.
    [n] bounds the entries still to come. *)
Fixpoint check_patterns (n i used : nat) (patterns : dict) : M dict :=
  if negb (length patterns =? used) then raise RuntimeError
  else
    match n, nth_error patterns i with
    | S n', Some (lang, v) =>
        dp <- lift (unpack2 v) ;;
        if negb (is_list (fst dp)) || negb (is_str (snd dp)) then
          logger WARNING (MsgInvalidPattern lang) ;;;
          check_patterns n' (S i) used (dict_del lang patterns)
        else check_patterns n' (S i) used patterns
    | _, _ => ret patterns
    end.

Definition load_custom_patterns (config_path : str) : M dict :=
  present <- isfile config_path ;;
  if negb present then logger ERROR (MsgNoConfig config_path) ;;; ret []
  else
    try_except
      (text <- read_text config_path ;;
       match json_loads text with
       | None => raise ValueError
       | Some (VDict patterns) =>
           d <- check_patterns (length patterns) 0 (length patterns) patterns ;;
           logger INFO (MsgLoaded config_path) ;;;
           ret d
       | Some (VList _) | Some (VStr _) | Some (VTuple _) | Some VNone
       | Some (VBool _) | Some (VNum _) => raise AttributeError
       end)
      (fun e => logger ERROR (MsgLoadFailed e) ;;; ret []).

(** [setup_logging(log_level, log_to_file)].  The console handler and
    the level are set without a failure; [log] keeps every call of the
    logger, whatever level is set.  With a log file the handler of the file
    is made, which can raise; the events it then appends to the file are not
    part of the embedding, and the run is [Outside]. *)
Definition setup_logging (log_level : level_choice) (log_to_file : option str)
    : M unit :=
  match log_to_file with
  | Some (c :: p) => file_handler (c :: p) ;;; outside
  | _ => ret tt
  end.

(** The script, after [parse_arguments]: [log_level], [log_file] and
    [config] are the values of [--log-level], [--log-file] and [--config],
    the last two if given. *)
Definition main (input_file output_directory : str) (log_level : level_choice)
    (log_file config : option str) : M unit :=
  setup_logging log_level log_file ;;;
  custom_patterns <-
    match config with
    | Some (c :: p) => load_custom_patterns (c :: p)
    | _ => ret []
    end ;;
  extract_full_files input_file output_directory custom_patterns ;;;
  logger INFO MsgCompleted.

End Program.

(** ** Vocabulary of the properties *)

(** A configuration entry that passes the check of [load_custom_patterns]:
    it unpacks to a list and a string. *)
Definition entry_ok (v : pyval) : bool :=
  match unpack2 v with
  | Ret dp => is_list (fst dp) && is_str (snd dp)
  | _ => false
  end.

(** A rule that [detect_language_and_directory] can evaluate: it unpacks
    to a pair whose second component is a string that compiles. *)
Definition rule_compiles (v : pyval) : bool :=
  match unpack2 v with
  | Ret (_, VStr p) =>
      match Re.compile p with Re.Compiled _ _ => true | _ => false end
  | _ => false
  end.

Definition has_key (k : str) (d : dict) : bool := existsb (str_eqb k) (keys d).

(** The rule set in use: the defaults with the caller's rules merged in. *)
Definition merged_patterns (custom_patterns : dict) : dict :=
  dict_update default_patterns custom_patterns.

(** The rule [kv] is evaluated on the file name and does not match. *)
Definition no_match (file_name : str) (kv : str * pyval) : Prop :=
  exists d, rule_test (snd kv) file_name = Ret (d, false).

Definition add_log (e : level * message) (w : world) : world :=
  {| fs := fs w; cwd := cwd w; log := log w ++ [e] |}.

Definition empty_world : world := {| fs := ∅; cwd := []; log := [] |}.

(** A caller's rule whose pattern is a string that does not compile. *)
Definition broken_rules : dict :=
  [ (py "broken", VList [VList [VStr (py "x")]; VStr (py "(")]) ].

(** A string that does not begin with whitespace. *)
Definition clean_head (s : str) : Prop :=
  match s with [] => True | c :: _ => Chars.is_space c = false end.

(** *** Positions in a subject *)

Abbreviation St := Re.Build_mstate.

(** [s'] is a position of the same subject at or to the right of [s]. *)
Definition later (s s' : Re.mstate) : Prop :=
  exists w, Re.aft s = w ++ Re.aft s' /\ Re.bef s' = rev w ++ Re.bef s.

(** The numbers of the groups of a pattern. *)
Fixpoint group_ids (r : Re.regex) : list nat :=
  match r with
  | Re.RSeq a b | Re.RAlt a b => group_ids a ++ group_ids b
  | Re.RStar _ a | Re.RPlus _ a | Re.ROpt _ a | Re.RLook _ a => group_ids a
  | Re.RGroup i a => i :: group_ids a
  | _ => []
  end.

(** [s'] lies at or to the right of [s], and has on top of the spans of
    [s] only spans of the groups [ids]. *)
Definition reaches (ids : list nat) (s s' : Re.mstate) : Prop :=
  later s s'
  /\ exists new, Re.caps s' = new ++ Re.caps s
                 /\ Forall (fun kv => In (fst kv) ids) new.

(** Whatever a step hands to its continuation is reached from where it
    starts. *)
Definition forward (ids : list nat) (step : Re.cont -> Re.cont) : Prop :=
  forall k s e, step k s = Some e -> exists s', k s' = Some e /\ reaches ids s s'.

(** What a greedy repetition of a one-character pattern does at the
    position [b | a]: the longest run first, then shorter ones. *)
Fixpoint greedy_spec (p : ascii -> bool) (k : Re.cont) (b a : list ascii)
    (cs : list (nat * (nat * nat))) : option Re.mstate :=
  match a with
  | c :: t =>
      if p c then Re.or_else (greedy_spec p k (c :: b) t cs) (k (St b a cs))
      else k (St b a cs)
  | [] => k (St b a cs)
  end.

(** And a lazy one: the shortest run first. *)
Fixpoint lazy_spec (p : ascii -> bool) (k : Re.cont) (b a : list ascii)
    (cs : list (nat * (nat * nat))) : option Re.mstate :=
  Re.or_else (k (St b a cs))
    match a with
    | c :: t => if p c then lazy_spec p k (c :: b) t cs else None
    | [] => None
    end.

(** The run cannot be extended into [t]. *)
Definition stop (p : ascii -> bool) (t : list ascii) : Prop :=
  match t with [] => True | c :: _ => p c = false end.

(** The continuation fails after every non-empty prefix of [w]. *)
Fixpoint fails_after (k : Re.cont) (b w t : list ascii)
    (cs : list (nat * (nat * nat))) : Prop :=
  match w with
  | [] => True
  | c :: w' => k (St (c :: b) (w' ++ t) cs) = None /\ fails_after k (c :: b) w' t cs
  end.

(** The continuation fails before every proper prefix of [u] has been
    read, and so at every position of [u] but its end. *)
Fixpoint fails_before (k : Re.cont) (b u v : list ascii)
    (cs : list (nat * (nat * nat))) : Prop :=
  match u with
  | [] => True
  | c :: u' => k (St b (u ++ v) cs) = None /\ fails_before k (c :: b) u' v cs
  end.

(** *** The parts of the pattern *)

Definition space_set : Re.regex := Re.RSet false [Re.CSpace false].
Definition nonspace_set : Re.regex := Re.RSet false [Re.CSpace true].
Definition word_set : Re.regex := Re.RSet false [Re.CWord false].
Definition any_set : Re.regex := Re.RSet false [Re.CSpace false; Re.CSpace true].

Definition extensions : list str :=
  [py "py"; py "js"; py "jsx"; py "html"; py "css"; py "json"; py "yaml";
   py "yml"; py "md"].

(** The pattern a run of literal characters compiles to. *)
Fixpoint lit_word (w : list ascii) : Re.regex :=
  match w with
  | [] => Re.REmpty
  | [c] => Re.RLit c
  | c :: w' => Re.RSeq (Re.RLit c) (lit_word w')
  end.

Fixpoint alt_words (ws : list str) : Re.regex :=
  match ws with
  | [] => Re.REmpty
  | [w] => lit_word w
  | w :: ws' => Re.RAlt (lit_word w) (alt_words ws')
  end.

Definition ext_alt : Re.regex := alt_words extensions.

Definition backticks : Re.regex := lit_word (py "```").

Definition name_group : Re.regex :=
  Re.RGroup 1 (Re.RSeq (Re.RPlus true nonspace_set)
                 (Re.RSeq (Re.RLit ".") (Re.RGroup 2 ext_alt))).

Definition fence : Re.regex :=
  Re.RSeq (Re.RLit "`") (Re.RSeq (Re.RLit "`") (Re.RSeq (Re.RLit "`")
    (Re.RSeq (Re.ROpt true (Re.RGroup 3 (Re.RPlus true word_set))) (Re.RLit nl)))).

Definition content_group : Re.regex := Re.RGroup 4 (Re.RStar false any_set).

Definition lookahead : Re.regex :=
  Re.RLook false
    (Re.RAlt (Re.RSeq Re.RBol (Re.RSeq (Re.RLit "#") (Re.RLit " "))) Re.REnd).

Definition terminator : Re.regex := Re.RAlt backticks lookahead.

(** From the content on, from the optional fence on, after the name. *)
Definition body_pattern : Re.regex := Re.RSeq content_group terminator.
Definition fenced_pattern : Re.regex := Re.RSeq (Re.ROpt true fence) body_pattern.
Definition tail_pattern : Re.regex :=
  Re.RSeq (Re.RStar true space_set) (Re.RSeq (Re.RLit nl) fenced_pattern).

(** *** Boundaries *)

Fixpoint starts_with (pfx a : list ascii) : bool :=
  match pfx, a with
  | [], _ => true
  | p :: pfx', c :: a' => Chars.eqb p c && starts_with pfx' a'
  | _ :: _, [] => false
  end.

(** The position after [b] (last character first) is the start of a
    line. *)
Definition bolb (b : list ascii) : bool :=
  match b with [] => true | c :: _ => Chars.eqb c nl end.

(** Where the content of a block ends: before three backticks, before a
    line that starts with a heading marker and a space, or at the end. *)
Definition boundary (b a : list ascii) : bool :=
  starts_with (py "```") a
  || (bolb b && starts_with (py "# ") a)
  || match a with [] => true | _ => false end.

Definition boundary_at (document : str) (i : nat) : bool :=
  boundary (rev (firstn i document)) (skipn i document).

(** No position of [mid], read after [b], is a heading marker at the
    start of a line. *)
Fixpoint quiet (b mid : list ascii) : bool :=
  match mid with
  | [] => true
  | c :: t => negb (bolb b && Chars.eqb "#" c) && quiet (c :: b) t
  end.


(** The text [s] is empty or ends with a newline. *)
Definition ends_line (s : str) : bool := bolb (rev s).

(** *** Well-formed documents

    A document is a preamble followed by blocks; a block is a heading
    line, [# name.ext], and the text up to the next heading line. *)

Record heading_block : Type :=
  { hb_stem : str; hb_ext : str; hb_body : str }.

Definition block_name (h : heading_block) : str :=
  hb_stem h ++ "."%char :: hb_ext h.

Definition render_block (h : heading_block) : str :=
  "#"%char :: " "%char :: hb_stem h ++ "."%char :: hb_ext h ++ nl :: hb_body h.

Definition render_blocks (hs : list heading_block) : str :=
  concat (map render_block hs).

Definition document_of (preamble : str) (hs : list heading_block) : str :=
  preamble ++ render_blocks hs.

(** The name of a heading has no whitespace in it, its extension is a
    recognized one, and no line of the text under it starts with a
    heading marker. *)
Definition wf_heading (h : heading_block) : Prop :=
  hb_stem h <> []
  /\ Forall (fun c => Chars.is_space c = false) (hb_stem h)
  /\ In (hb_ext h) extensions
  /\ quiet [nl] (hb_body h) = true.

(** Every text that is followed by a heading ends its last line. *)
Fixpoint bodies_end_lines (hs : list heading_block) : Prop :=
  match hs with
  | [] => True
  | h :: rest =>
      match rest with
      | [] => True
      | _ :: _ => ends_line (hb_body h) = true /\ bodies_end_lines rest
      end
  end.

Definition well_formed (preamble : str) (hs : list heading_block) : Prop :=
  quiet [] preamble = true
  /\ ends_line preamble = true
  /\ Forall wf_heading hs
  /\ bodies_end_lines hs.

(** Paragraph text: no backticks in it. *)
Definition plain (s : str) : Prop := Forall (fun c => c <> "`"%char) s.

(** There is no boundary at a position of [u] before its end. *)
Fixpoint no_boundary (b u rest : list ascii) : Prop :=
  match u with
  | [] => True
  | c :: u' => boundary b (u ++ rest) = false /\ no_boundary (c :: b) u' rest
  end.

(** What follows a block: nothing, or a heading line at the start of a
    line. *)
Definition followed (body rest : str) : Prop :=
  rest = [] \/ (starts_with (py "# ") rest = true /\ ends_line body = true).

(** What the scanner makes of a block of a document, as far as its name
    goes, and in full when its text is paragraph text. *)
Definition named (h : heading_block) (e : Re.mstate) : Prop :=
  Re.group 1 e = block_name h /\ Re.group 2 e = hb_ext h.

Definition captured (h : heading_block) (e : Re.mstate) : Prop :=
  named h e /\ Re.group 3 e = [] /\ strip (Re.group 4 e) = strip (hb_body h).

Definition plain_heading (h : heading_block) : Prop :=
  wf_heading h /\ plain (hb_body h).

Definition block_of_heading (h : heading_block) : block :=
  {| fileName := block_name h; declaredExtension := hb_ext h;
     fenceLanguage := []; content := strip (hb_body h) |}.

(** *** Sample inputs *)

(** A configuration whose second entry gives a string where the path
    segments should be. *)
Definition sample_config : dict :=
  [ (py "python", VList [VList [VStr (py "src")]; VStr (py "\.pyw?$")]);
    (py "docs", VList [VStr (py "notalist"); VStr (py "\.rst$")]) ].

(** Well-formed rules: one overrides a built-in tag, one is new. *)
Definition good_rules : dict :=
  [ (py "python", VList [VList [VStr (py "src")]; VStr (py "\.pyw?$")]);
    (py "rust", VList [VList [VStr (py "crates")]; VStr (py "\.rs$")]) ].

(** A world with a configuration file, and an output directory in which
    [docs] is a file. *)
Definition sample_world : world :=
  {| fs := {[ [py "rules.json"] := NFile (Some (py "rules"));
              [py "out"] := NDir;
              [py "out"; py "docs"] := NFile (Some (py "in the way")) ]};
     cwd := [];
     log := [] |}.

Definition sample_match (name ext body : string) : list str :=
  [py name; py ext; []; py body].

(** A document of two blocks, the first fenced, after a title line. *)
Definition sample_preamble : str := py "Project files" ++ [nl].

Definition sample_headings : list heading_block :=
  [ {| hb_stem := py "app"; hb_ext := py "py";
       hb_body := py "```python" ++ nl :: py "print(1)" ++ nl :: py "```" ++ [nl] |};
    {| hb_stem := py "notes"; hb_ext := py "md";
       hb_body := py "hello" ++ nl :: py "world" ++ [nl] |} ].

(** Two headings without fences, each followed by a paragraph. *)
Definition sample_paragraphs : list heading_block :=
  [ {| hb_stem := py "a"; hb_ext := py "md";
       hb_body := py "first paragraph" ++ [nl] |};
    {| hb_stem := py "b"; hb_ext := py "md";
       hb_body := py "second paragraph" ++ [nl] |} ].

(** A world whose input file holds only whitespace. *)
Definition blank_world : world :=
  {| fs := {[ [py "in.md"] := NFile (Some (py "  " ++ [nl; nl])) ]};
     cwd := [];
     log := [] |}.

(** A world whose input file holds one fenced block of three lines. *)
Definition fenced_document : str :=
  py "# app.py" ++ nl :: py "```python" ++ nl :: py "import sys" ++ nl
  :: py "print(sys.argv)" ++ nl :: py "sys.exit(0)" ++ nl :: py "```" ++ [nl].

Definition fenced_world : world :=
  {| fs := {[ [py "in.md"] := NFile (Some fenced_document) ]};
     cwd := [];
     log := [] |}.

Definition not_debug (e : level * message) : bool :=
  match fst e with DEBUG => false | _ => true end.
(** *** Built-in rules *)

(** The pattern a literal suffix followed by [$] compiles to. *)
Fixpoint lit_eol (w : list ascii) : Re.regex :=
  match w with
  | [] => Re.REol
  | c :: w' => Re.RSeq (Re.RLit c) (lit_eol w')
  end.

(** The built-in tag of an extension, from the default patterns. *)
Definition extension_tags : list (str * str) :=
  [ (py "py", py "python"); (py "js", py "javascript"); (py "jsx", py "jsx");
    (py "html", py "html"); (py "css", py "css"); (py "json", py "json");
    (py "yaml", py "yaml"); (py "yml", py "yaml"); (py "md", py "markdown") ].

(** The caller's rules bring new tags only. *)
Definition new_tags (custom_patterns : dict) : Prop :=
  Forall (fun k => has_key k default_patterns = false) (keys custom_patterns).

(** The pattern of the built-in rule for YAML files. *)
Definition yaml_rule : Re.regex :=
  Re.RSeq (Re.RLit ".")
    (Re.RSeq (Re.RGroup 1 (Re.RAlt (lit_word (py "yaml")) (lit_word (py "yml"))))
       Re.REol).

(** What cannot be: the name ends in one extension and, up to a final
    newline, in another. *)
Definition clash (ext w : str) : Prop :=
  forall L U r, r = [] \/ r = [nl] ->
    rev ext ++ "."%char :: L = rev r ++ rev w ++ "."%char :: U -> False.


(** *** The file system before and after *)

(** Nothing is removed or changed between [f] and [g]; what is new in
    [g] is directories. *)
Definition grown (f g : gmap (list str) node) : Prop :=
  forall k, g !! k = f !! k \/ (f !! k = None /\ g !! k = Some NDir).

(** [s] is one component of a path: not empty, not [.], without a
    slash. *)
Definition component (s : str) : bool :=
  negb (str_eqb s []) && negb (str_eqb s (py "."))
  && forallb (fun c => negb (Chars.eqb c "/")) s.

(** *** Events *)

(** The event that tells what became of a block. *)
Definition is_outcome (e : level * message) : bool :=
  match snd e with
  | MsgSaved _ | MsgSaveFailed _ _ => true
  | _ => false
  end.

Definition outcome_of (b : block) (e : level * message) : Prop :=
  (exists p, e = (INFO, MsgSaved p))
  \/ (exists x, e = (ERROR, MsgSaveFailed (fileName b) x)).

(** Two worlds with the same files, whatever their logs. *)
Definition same_files (w1 w2 : world) : Prop :=
  fs w1 = fs w2 /\ cwd w1 = cwd w2.


(** No log file is asked for: [--log-file] is absent or empty. *)
Definition console_only (log_file : option str) : bool :=
  match log_file with
  | Some (_ :: _) => false
  | _ => true
  end.

(** The rules [main] hands to [extract_full_files]. *)
Definition loaded_rules (json_loads : str -> option pyval)
    (config : option str) (w : world) : dict :=
  match config with
  | Some (c :: p) =>
      match fst (load_custom_patterns json_loads (c :: p) w) with
      | Ret d => d
      | _ => []
      end
  | _ => []
  end.

(** *** Documents of paragraphs and fenced texts *)

(** A heading whose text is fenced: the opening fence with its language
    tag, which may be empty, the text, the closing fence, and what follows
    it up to the next heading. *)
Record fenced_block : Type :=
  { fb_stem : str; fb_ext : str; fb_lang : str; fb_text : str; fb_after : str }.

Definition fenced_body (f : fenced_block) : str :=
  py "```" ++ fb_lang f ++ nl :: fb_text f ++ py "```" ++ fb_after f.

Definition fenced_heading (f : fenced_block) : heading_block :=
  {| hb_stem := fb_stem f; hb_ext := fb_ext f; hb_body := fenced_body f |}.

Inductive entry : Type :=
| Paragraph (h : heading_block)
| Fenced (f : fenced_block).

Definition heading_of (s : entry) : heading_block :=
  match s with
  | Paragraph h => h
  | Fenced f => fenced_heading f
  end.

(** In both kinds no line of the text starts with a heading marker; a
    paragraph has no backticks, a fenced text has none inside the fence,
    and the language tag is made of word characters. *)
Definition wf_entry (s : entry) : Prop :=
  match s with
  | Paragraph h => plain_heading h
  | Fenced f =>
      wf_heading (fenced_heading f)
      /\ Forall (fun c => Chars.is_word c = true) (fb_lang f)
      /\ plain (fb_text f)
  end.

Definition block_of_entry (s : entry) : block :=
  match s with
  | Paragraph h => block_of_heading h
  | Fenced f =>
      {| fileName := fb_stem f ++ "."%char :: fb_ext f;
         declaredExtension := fb_ext f;
         fenceLanguage := fb_lang f;
         content := strip (fb_text f) |}
  end.

(** *** Where the blocks come from *)

(** For each block of [scan], in order, where its match starts and
    where it ends in the document. *)
Definition spans (document : str) : list (nat * nat) :=
  map (fun m => (Re.pos (fst m), Re.pos (snd m)))
    (Re.finditer Re.MULTILINE file_pattern document).

(** Stretches that are not empty and follow one another from [from]
    on without overlap. *)
Fixpoint in_order (from : nat) (l : list (nat * nat)) : Prop :=
  match l with
  | [] => True
  | (i, j) :: t => from <= i /\ i < j /\ in_order j t
  end.

(** *** Letter case *)



(** *** Where the blocks of a run go *)

(** The directory segments of the built-in rule of an extension. *)
Definition builtin_segments (ext : str) : list str :=
  match List.find (fun et => str_eqb (fst et) ext) extension_tags with
  | Some (_, tag) =>
      match dict_get tag default_patterns with
      | Some (VTuple [VList l; _]) =>
          match all_str l with Some segs => segs | None => [] end
      | _ => []
      end
  | None => []
  end.

Definition block_path (output_dir : str) (b : block) : ppath :=
  {| absolute := absolute (Path output_dir);
     parts := parts (Path output_dir)
              ++ builtin_segments (declaredExtension b) ++ [fileName b] |}.

(** The key of a path without [..] in the file system. *)
Definition key_of (w : world) (p : ppath) : list str := base w p ++ parts p.

Definition dotted (s : str) : bool := existsb (fun c => Chars.eqb c ".") s.

(** A name without a slash and without a NUL character. *)
Definition plain_name (s : str) : bool :=
  forallb (fun c => negb (Chars.eqb c "/") && negb (Chars.eqb c "000")) s.

(** The path is within the limits of the file system: its string is
    shorter than [PATH_MAX] bytes and no component has more than
    [NAME_MAX]. *)
Definition path_fits (p : ppath) : bool :=
  negb (too_long (path_str p) (parts p)).

(** No file lies on the way from [cur] along [ps]. *)
Definition way_clear (f : gmap (list str) node) (cur ps : list str) : Prop :=
  forall i d, 1 <= i <= length ps -> f !! (cur ++ firstn i ps) <> Some (NFile d).

(** The output directory can be used: the path to it has neither [..]
    nor NUL, it starts at a directory, no file lies on the way to it, and
    below it the names of directories have no dot and the names of files
    have one.  An output directory that does not exist yet, or is empty, is
    ready. *)
Definition output_ready (w : world) (output_dir : str) : Prop :=
  let po := Path output_dir in
  has_nul po = false
  /\ Forall (fun s => s <> dotdot) (parts po)
  /\ is_dir (fs w) (base w po) = true
  /\ way_clear (fs w) (base w po) (parts po)
  /\ forall k c n,
       fs w !! (key_of w po ++ k ++ [c]) = Some n ->
       dotted c = match n with NDir => false | NFile _ => true end.

(** A block as the scanner emits it, with a name that is one component
    of a path. *)
Definition good_block (b : block) : Prop :=
  (exists stem, stem <> [] /\ fileName b = stem ++ "."%char :: declaredExtension b)
  /\ In (declaredExtension b) extensions
  /\ plain_name (fileName b) = true.

(** From [w] to [w'] directories stay directories and files stay files,
    whatever they hold. *)
Definition kept (w w' : world) : Prop :=
  cwd w' = cwd w
  /\ (forall k, fs w !! k = Some NDir -> fs w' !! k = Some NDir)
  /\ (forall k d, fs w !! k = Some (NFile d) -> exists d', fs w' !! k = Some (NFile d')).

(** The directory of the block has been made as far as it can be, and
    the block is in its file if its path is within the limits. *)
Definition block_settled (output_dir : str) (b : block) (w : world) : Prop :=
  let po := Path output_dir in
  let target := {| absolute := absolute po;
                   parts := parts po ++ builtin_segments (declaredExtension b) |} in
  (exists r, mkdir_parents target w = (r, w))
  /\ (path_fits (block_path output_dir b) = true ->
      mkdir_parents target w = (Ret tt, w)
      /\ locate w (block_path output_dir b) = Some (key_of w (block_path output_dir b))
      /\ fs w !! key_of w (block_path output_dir b)
         = Some (NFile (Some (strip (content b))))).

(** *** What a save attempts *)



(** *** The headings of the specification

    What follows is written from the words of the specification, not from
    the pattern of the source: "a line beginning with a heading marker
    followed by whitespace and a filename token ending in one of a fixed set
    of recognized extensions".  It says which lines of a document are
    headings, to compare the blocks of [scan] with them. *)

Fixpoint split_lines (cur s : str) : list str :=
  match s with
  | [] => [rev cur]
  | c :: t => if Chars.eqb c nl then rev cur :: split_lines [] t
              else split_lines (c :: cur) t
  end.

(** The token at the start of a string, and what follows it. *)
Fixpoint token (s : str) : str * str :=
  match s with
  | [] => ([], [])
  | c :: t =>
      if Chars.is_space c then ([], s)
      else let '(tok, rest) := token t in (c :: tok, rest)
  end.

Definition ends_in_extension (tok : str) : bool :=
  existsb (fun ext => starts_with (rev ("."%char :: ext)) (rev tok)
                      && (length ext + 1 <? length tok))
    extensions.

(** The file name of a heading line of the specification. *)
Definition spec_heading_name (line : str) : option str :=
  match line with
  | c :: d :: rest =>
      if Chars.eqb c "#" && Chars.is_space d then
        let '(tok, after) := token (lstrip rest) in
        if ends_in_extension tok && forallb Chars.is_space after then Some tok
        else None
      else None
  | _ => None
  end.

Definition spec_headings (document : str) : list str :=
  flat_map (fun line => match spec_heading_name line with
                        | Some name => [name]
                        | None => []
                        end)
    (split_lines [] document).

(** Two headings whose marker is followed by a tab, each with a
    paragraph. *)
Definition tab_document : str :=
  py "#" ++ "009"%char :: py "a.py" ++ nl :: py "one" ++ nl
  :: py "#" ++ "009"%char :: py "b.py" ++ nl :: py "two" ++ [nl].

(** A file name of 256 letters and an extension. *)
Definition long_name : str := List.repeat "a"%char 256 ++ py ".py".

(** *** More sample inputs *)

(** One rule with a tag the built-in table does not have. *)
Definition rust_rules : dict :=
  [ (py "rust", VList [VList [VStr (py "crates")]; VStr (py "\.rs$")]) ].

(** A world with a directory [/srv], an input that is not text and an
    input with one fenced block. *)
Definition served_world : world :=
  {| fs := {[ [py "srv"] := NDir;
              [py "blob.md"] := NFile None;
              [py "in.md"] := NFile (Some fenced_document) ]};
     cwd := [];
     log := [] |}.

Definition app_block : block :=
  {| fileName := py "app.py"; declaredExtension := py "py";
     fenceLanguage := py "python";
     content := py "import sys" ++ nl :: py "print(sys.argv)" ++ nl :: py "sys.exit(0)" |}.

(** The document of [sample_headings] as entries: a fenced text and a
    paragraph. *)
Definition sample_entries : list entry :=
  [ Fenced {| fb_stem := py "app"; fb_ext := py "py"; fb_lang := py "python";
              fb_text := py "print(1)" ++ [nl]; fb_after := [nl] |};
    Paragraph {| hb_stem := py "notes"; hb_ext := py "md";
                 hb_body := py "hello" ++ nl :: py "world" ++ [nl] |} ].

Definition first_paragraph : heading_block :=
  {| hb_stem := py "a"; hb_ext := py "md"; hb_body := py "first paragraph" ++ [nl] |}.

(** * Properties *)

(** ** Characters *)

Lemma chars_eqb_eq a b : Chars.eqb a b = true <-> a = b.
Proof.
  unfold Chars.eqb, Chars.code. rewrite N.eqb_eq. split; [|congruence].
  intros H. rewrite <- (ascii_N_embedding a), <- (ascii_N_embedding b).
  congruence.
Qed.

Lemma chars_eqb_refl a : Chars.eqb a a = true.
Proof. apply chars_eqb_eq. reflexivity. Qed.

Lemma chars_eqb_neq a b : Chars.eqb a b = false <-> a <> b.
Proof.
  rewrite <- chars_eqb_eq. destruct (Chars.eqb a b); split; congruence.
Qed.

(** ** Running computations *)

Lemma bind_ret {A B} (m : M A) (f : A -> M B) w a w' :
  m w = (Ret a, w') -> bind m f w = f a w'.
Proof. intros H. unfold bind. rewrite H. reflexivity. Qed.

Lemma bind_raise {A B} (m : M A) (f : A -> M B) w e w' :
  m w = (Raise e, w') -> bind m f w = (Raise e, w').
Proof. intros H. unfold bind. rewrite H. reflexivity. Qed.

Lemma try_except_ret {A} (body : M A) handler w a w' :
  body w = (Ret a, w') -> try_except body handler w = (Ret a, w').
Proof. intros H. unfold try_except. rewrite H. reflexivity. Qed.

Lemma logger_run lv m w :
  logger lv m w = (Ret tt, {| fs := fs w; cwd := cwd w; log := log w ++ [(lv, m)] |}).
Proof. reflexivity. Qed.

(** ** Loading the configuration *)

Lemma dict_del_length lang v (d : dict) :
  In (lang, v) d -> S (length (dict_del lang d)) = length d.
Proof.
  induction d as [|[k x] d IH]; simpl; [tauto|].
  intros [H|H].
  - inversion H; subst. unfold str_eqb. rewrite bool_decide_eq_true_2 by reflexivity.
    reflexivity.
  - destruct (str_eqb k lang); [reflexivity|]. simpl. rewrite IH by assumption.
    reflexivity.
Qed.

Lemma check_patterns_eq n i used (patterns : dict) :
  check_patterns n i used patterns =
  if negb (length patterns =? used) then raise RuntimeError
  else
    match n, nth_error patterns i with
    | S n', Some (lang, v) =>
        bind (lift (unpack2 v)) (fun dp =>
          if negb (is_list (fst dp)) || negb (is_str (snd dp)) then
            bind (logger WARNING (MsgInvalidPattern lang)) (fun _ =>
              check_patterns n' (S i) used (dict_del lang patterns))
          else check_patterns n' (S i) used patterns)
    | _, _ => ret patterns
    end.
Proof. destruct n; reflexivity. Qed.

Lemma nth_error_middle {A} (pre : list A) x post :
  nth_error (pre ++ x :: post) (length pre) = Some x.
Proof. induction pre; simpl; auto. Qed.

Lemma unpack2_not_outside v : unpack2 v <> Outside.
Proof.
  destruct v as [| | | s | l | l | d]; simpl;
    repeat match goal with
           | |- match ?x with _ => _ end <> _ => destruct x
           end; discriminate.
Qed.

(** The loop raises as soon as it meets an entry that fails the check:
    at once when the entry does not unpack, at the next turn, because the
    dictionary has shrunk, when it does. *)
Lemma check_patterns_raises (rest pre : dict) n w :
  length rest <= n ->
  Exists (fun kv => entry_ok (snd kv) = false) rest ->
  exists e w',
    check_patterns n (length pre) (length (pre ++ rest)) (pre ++ rest) w
    = (Raise e, w') /\ fs w' = fs w /\ exists l, log w' = log w ++ l.
Proof.
  revert pre n w. induction rest as [|[lang v] rest IH]; intros pre n w Hn Hex.
  - inversion Hex.
  - destruct n as [|n]; [simpl in Hn; lia|].
    rewrite check_patterns_eq. rewrite Nat.eqb_refl. simpl negb. cbv iota.
    rewrite nth_error_middle.
    unfold bind at 1, lift. unfold entry_ok in Hex.
    destruct (unpack2 v) as [dp|e|] eqn:Hu.
    + destruct (negb (is_list (fst dp)) || negb (is_str (snd dp))) eqn:Hbad.
      * unfold bind, logger. rewrite check_patterns_eq.
        assert (Hlen : (length (dict_del lang (pre ++ (lang, v) :: rest))
                        =? length (pre ++ (lang, v) :: rest)) = false).
        { apply Nat.eqb_neq.
          pose proof (dict_del_length lang v (pre ++ (lang, v) :: rest)) as Hd.
          rewrite <- Hd; [lia|]. apply in_or_app. right. left. reflexivity. }
        rewrite Hlen. simpl. eexists _, _. split; [reflexivity|].
        split; [reflexivity|]. simpl. eexists. reflexivity.
      * assert (Hrest : Exists (fun kv => entry_ok (snd kv) = false) rest).
        { inversion Hex as [? ? Hh|? ? Ht]; subst; [|exact Ht].
          simpl in Hh. rewrite Hu in Hh.
          apply orb_false_iff in Hbad. destruct Hbad as [H1 H2].
          apply negb_false_iff in H1, H2. rewrite H1, H2 in Hh. discriminate. }
        specialize (IH (pre ++ [(lang, v)]) n w).
        rewrite <- app_assoc in IH. simpl in IH.
        rewrite length_app in IH. simpl in IH.
        replace (length pre + 1) with (S (length pre)) in IH by lia.
        apply IH; [simpl in Hn; lia|exact Hrest].
    + eexists _, _. split; [reflexivity|]. split; [reflexivity|].
      exists []. rewrite app_nil_r. reflexivity.
    + exfalso. exact (unpack2_not_outside _ Hu).
Qed.

(** With well-formed entries only, the loop keeps them all. *)
Lemma check_patterns_keeps (rest pre : dict) n w :
  length rest <= n ->
  Forall (fun kv => entry_ok (snd kv) = true) rest ->
  check_patterns n (length pre) (length (pre ++ rest)) (pre ++ rest) w
  = (Ret (pre ++ rest), w).
Proof.
  revert pre n w. induction rest as [|[lang v] rest IH]; intros pre n w Hn Hok.
  - rewrite check_patterns_eq, Nat.eqb_refl. simpl negb. cbv iota.
    rewrite app_nil_r.
    replace (nth_error pre (length pre)) with (@None (str * pyval))
      by (symmetry; apply nth_error_None; lia).
    destruct n; reflexivity.
  - destruct n as [|n]; [simpl in Hn; lia|].
    inversion Hok as [|? ? Hv Hok']; subst. simpl in Hv. unfold entry_ok in Hv.
    rewrite check_patterns_eq, Nat.eqb_refl. simpl negb. cbv iota.
    rewrite nth_error_middle. unfold bind at 1, lift.
    destruct (unpack2 v) as [dp| |]; try discriminate.
    apply andb_true_iff in Hv. destruct Hv as [H1 H2]. rewrite H1, H2.
    simpl negb. simpl orb. cbv iota.
    specialize (IH (pre ++ [(lang, v)]) n w).
    rewrite <- app_assoc in IH. simpl in IH.
    rewrite length_app in IH. simpl in IH.
    replace (length pre + 1) with (S (length pre)) in IH by lia.
    apply IH; [simpl in Hn; lia|exact Hok'].
Qed.

(** C3, as the code has it: when the configuration holds an entry that
    fails the check (its path segments are not a list, its pattern is not a
    string, or it is not a pair at all), [load_custom_patterns] logs an
    error and returns the empty dictionary: the well-formed entries are
    lost with the malformed one. *)
Theorem load_custom_patterns_malformed_loses_all
    (json_loads : str -> option pyval) config_path text patterns w :
  isfile config_path w = (Ret true, w) ->
  read_text config_path w = (Ret text, w) ->
  json_loads text = Some (VDict patterns) ->
  Exists (fun kv => entry_ok (snd kv) = false) patterns ->
  exists e l w',
    load_custom_patterns json_loads config_path w = (Ret [], w')
    /\ fs w' = fs w
    /\ log w' = log w ++ l ++ [(ERROR, MsgLoadFailed e)].
Proof.
  intros Hfile Hread Hjson Hbad.
  destruct (check_patterns_raises patterns [] (length patterns) w (le_n _) Hbad)
    as (e & w1 & Hrun & Hfs & l & Hlog).
  simpl in Hrun.
  exists e, l, {| fs := fs w1; cwd := cwd w1;
                  log := log w1 ++ [(ERROR, MsgLoadFailed e)] |}.
  split.
  - unfold load_custom_patterns. rewrite (bind_ret _ _ _ _ _ Hfile).
    unfold try_except. cbn [negb]. cbv beta iota.
    rewrite (bind_ret _ _ _ _ _ Hread). rewrite Hjson.
    rewrite (bind_raise _ _ _ _ _ Hrun). reflexivity.
  - simpl. split; [exact Hfs|]. rewrite Hlog, <- app_assoc. reflexivity.
Qed.

(** ** Dictionaries *)

Lemma str_eqb_eq a b : str_eqb a b = true <-> a = b.
Proof. unfold str_eqb. apply bool_decide_eq_true. Qed.

Lemma str_eqb_refl a : str_eqb a a = true.
Proof. apply str_eqb_eq. reflexivity. Qed.

Lemma str_eqb_neq a b : str_eqb a b = false <-> a <> b.
Proof. unfold str_eqb. apply bool_decide_eq_false. Qed.

Lemma has_key_In k (d : dict) : has_key k d = true <-> In k (keys d).
Proof.
  unfold has_key. rewrite existsb_exists. split.
  - intros (x & Hx & Heq). apply str_eqb_eq in Heq. subst. exact Hx.
  - intros H. exists k. split; [exact H|apply str_eqb_refl].
Qed.

Lemma has_key_cons k k' v (d : dict) :
  has_key k ((k', v) :: d) = str_eqb k k' || has_key k d.
Proof. reflexivity. Qed.

Lemma str_eqb_sym a b : str_eqb a b = str_eqb b a.
Proof.
  destruct (str_eqb b a) eqn:H.
  - apply str_eqb_eq in H. subst. apply str_eqb_refl.
  - apply str_eqb_neq in H. apply str_eqb_neq. congruence.
Qed.

Lemma keys_dict_set k v (d : dict) :
  keys (dict_set k v d) = if has_key k d then keys d else keys d ++ [k].
Proof.
  induction d as [|[k' v'] d IH]; [reflexivity|].
  simpl dict_set. rewrite has_key_cons, (str_eqb_sym k k').
  destruct (str_eqb k' k); simpl; [reflexivity|].
  change (map fst (dict_set k v d)) with (keys (dict_set k v d)). rewrite IH.
  destruct (has_key k d); reflexivity.
Qed.

Lemma dict_get_set_eq k v (d : dict) : dict_get k (dict_set k v d) = Some v.
Proof.
  induction d as [|[k' v'] d IH]; simpl.
  - rewrite str_eqb_refl. reflexivity.
  - destruct (str_eqb k' k) eqn:H; simpl; rewrite H; [reflexivity|exact IH].
Qed.

Lemma dict_get_set_ne k k' v (d : dict) :
  k <> k' -> dict_get k' (dict_set k v d) = dict_get k' d.
Proof.
  intros Hne. induction d as [|[k0 v0] d IH]; simpl.
  - apply str_eqb_neq in Hne. rewrite Hne. reflexivity.
  - destruct (str_eqb k0 k) eqn:H; simpl.
    + apply str_eqb_eq in H. subst k0.
      apply str_eqb_neq in Hne. rewrite Hne. reflexivity.
    + rewrite IH. reflexivity.
Qed.

Lemma dict_get_None k (d : dict) : dict_get k d = None <-> ~ In k (keys d).
Proof.
  induction d as [|[k' v'] d IH]; simpl; [tauto|].
  destruct (str_eqb k' k) eqn:H.
  - apply str_eqb_eq in H. subst. split; [discriminate|tauto].
  - apply str_eqb_neq in H. rewrite IH. tauto.
Qed.

Lemma dict_set_Forall (P : str * pyval -> Prop) k v (d : dict) :
  Forall P d -> P (k, v) -> (forall v', P (k, v') -> P (k, v)) ->
  Forall P (dict_set k v d).
Proof.
  intros Hd Hkv _. induction Hd as [|[k' v'] d Hx Hd IH]; simpl.
  - constructor; [exact Hkv|constructor].
  - destruct (str_eqb k' k) eqn:H.
    + apply str_eqb_eq in H. subst. constructor; assumption.
    + constructor; assumption.
Qed.

Lemma dict_update_Forall (P : pyval -> Prop) (custom d : dict) :
  Forall (fun kv => P (snd kv)) d -> Forall (fun kv => P (snd kv)) custom ->
  Forall (fun kv => P (snd kv)) (dict_update d custom).
Proof.
  revert d. induction custom as [|[k v] custom IH]; intros d Hd Hc; [exact Hd|].
  inversion Hc; subst. unfold dict_update. simpl.
  apply IH; [|assumption].
  apply dict_set_Forall; auto.
Qed.

Lemma filter_ext_In' {A} (f g : A -> bool) (l : list A) :
  (forall x, In x l -> f x = g x) -> List.filter f l = List.filter g l.
Proof.
  induction l as [|x l IH]; intros H; [reflexivity|]. simpl.
  rewrite (H x) by (left; reflexivity). rewrite IH; [reflexivity|].
  intros y Hy. apply H. right. exact Hy.
Qed.

(** [update] keeps the keys of the dictionary in place and appends the new
    keys in the order of the argument. *)
Lemma keys_dict_update (custom d : dict) :
  List.NoDup (keys custom) ->
  keys (dict_update d custom)
  = keys d ++ List.filter (fun k => negb (has_key k d)) (keys custom).
Proof.
  revert d. induction custom as [|[k v] custom IH]; intros d Hnd.
  - simpl. rewrite app_nil_r. reflexivity.
  - simpl in Hnd. inversion Hnd as [|? ? Hk Hnd']; subst.
    change (dict_update d ((k, v) :: custom))
      with (dict_update (dict_set k v d) custom).
    rewrite IH by exact Hnd'. rewrite keys_dict_set. simpl.
    destruct (has_key k d) eqn:Hkd; simpl.
    + f_equal. apply filter_ext_In'. intros x Hx. f_equal.
      unfold has_key. rewrite keys_dict_set, Hkd. reflexivity.
    + rewrite <- app_assoc. simpl. f_equal. f_equal.
      apply filter_ext_In'. intros x Hx. f_equal.
      unfold has_key. rewrite keys_dict_set, Hkd.
      rewrite existsb_app. simpl. rewrite orb_false_r.
      destruct (str_eqb x k) eqn:Hxk; [|apply orb_false_r].
      apply str_eqb_eq in Hxk. subst. contradiction.
Qed.

Lemma dict_get_update_hit (custom d : dict) k v :
  List.NoDup (keys custom) -> dict_get k custom = Some v ->
  dict_get k (dict_update d custom) = Some v.
Proof.
  revert d. induction custom as [|[k' v'] custom IH]; intros d Hnd Hget.
  - discriminate.
  - simpl in Hnd. inversion Hnd as [|? ? Hk Hnd']; subst.
    change (dict_update d ((k', v') :: custom))
      with (dict_update (dict_set k' v' d) custom).
    simpl in Hget. destruct (str_eqb k' k) eqn:Hkk.
    + apply str_eqb_eq in Hkk. subst k'. inversion Hget; subst v'.
      clear IH Hget. revert d. induction custom as [|[k2 v2] custom IH2]; intros d.
      * apply dict_get_set_eq.
      * change (dict_update (dict_set k v d) ((k2, v2) :: custom))
          with (dict_update (dict_set k2 v2 (dict_set k v d)) custom).
        simpl in Hk. inversion Hnd'; subst.
        assert (Hne : k2 <> k) by tauto.
        assert (Hstep : forall d0, dict_get k d0 = Some v ->
                  dict_get k (dict_update d0 custom) = Some v).
        { clear -Hk. intros d0. revert d0.
          induction custom as [|[k3 v3] custom IH3]; intros d0 H0; [exact H0|].
          change (dict_update d0 ((k3, v3) :: custom))
            with (dict_update (dict_set k3 v3 d0) custom).
          apply IH3; [simpl in Hk; tauto|].
          rewrite dict_get_set_ne; [exact H0|]. simpl in Hk. tauto. }
        apply Hstep. rewrite dict_get_set_ne by exact Hne. apply dict_get_set_eq.
    + apply IH; assumption.
Qed.

Lemma dict_get_update_miss (custom d : dict) k :
  dict_get k custom = None ->
  dict_get k (dict_update d custom) = dict_get k d.
Proof.
  revert d. induction custom as [|[k' v'] custom IH]; intros d Hget; [reflexivity|].
  change (dict_update d ((k', v') :: custom))
    with (dict_update (dict_set k' v' d) custom).
  simpl in Hget. destruct (str_eqb k' k) eqn:Hkk; [discriminate|].
  rewrite IH by exact Hget. apply dict_get_set_ne. apply str_eqb_neq. exact Hkk.
Qed.

(** ** Classification *)

Lemma first_match_none file_name (items : dict) w :
  Forall (no_match file_name) items ->
  first_match file_name items w = (Ret None, w).
Proof.
  induction 1 as [|[k v] items (d & Hd) _ IH]; [reflexivity|].
  simpl in Hd. simpl. unfold bind at 1, lift. rewrite Hd. exact IH.
Qed.

Lemma first_match_hit file_name (pre : dict) lang v post d w :
  Forall (no_match file_name) pre ->
  rule_test v file_name = Ret (d, true) ->
  first_match file_name (pre ++ (lang, v) :: post) w
  = (Ret (Some (lang, d)), add_log (DEBUG, MsgDetected lang file_name) w).
Proof.
  intros Hpre Hv. induction Hpre as [|[k x] pre (d' & Hd) _ IH].
  - simpl. unfold bind at 1, lift. rewrite Hv. reflexivity.
  - simpl in Hd. simpl. unfold bind at 1, lift. rewrite Hd. exact IH.
Qed.

Lemma first_match_raises file_name (pre : dict) lang v post e w :
  Forall (no_match file_name) pre ->
  rule_test v file_name = Raise e ->
  first_match file_name (pre ++ (lang, v) :: post) w = (Raise e, w).
Proof.
  intros Hpre Hv. induction Hpre as [|[k x] pre (d' & Hd) _ IH].
  - simpl. unfold bind at 1, lift. rewrite Hv. reflexivity.
  - simpl in Hd. simpl. unfold bind at 1, lift. rewrite Hd. exact IH.
Qed.

Lemma rule_compiles_test v file_name :
  rule_compiles v = true -> exists d b, rule_test v file_name = Ret (d, b).
Proof.
  unfold rule_compiles, rule_test. destruct (unpack2 v) as [[d p]| |]; try discriminate.
  destruct p; try discriminate. simpl.
  destruct (Re.compile s); try discriminate. intros _. eauto.
Qed.

Lemma first_match_returns file_name (items : dict) w :
  Forall (fun kv => rule_compiles (snd kv) = true) items ->
  exists r w', first_match file_name items w = (Ret r, w')
               /\ fs w' = fs w /\ cwd w' = cwd w.
Proof.
  induction 1 as [|[k v] items Hv _ IH].
  - simpl. eexists _, _. split; [reflexivity|]. split; reflexivity.
  - simpl in Hv. destruct (rule_compiles_test v file_name Hv) as (d & b & Hd).
    simpl. unfold bind at 1, lift. rewrite Hd. destruct b; simpl.
    + eexists _, _. split; [reflexivity|]. split; reflexivity.
    + exact IH.
Qed.

Lemma default_patterns_compile :
  Forall (fun kv => rule_compiles (snd kv) = true) default_patterns.
Proof. repeat constructor. Qed.

Lemma detect_returns guess_type file_name custom w :
  Forall (fun kv => rule_compiles (snd kv) = true) custom ->
  exists r w',
    detect_language_and_directory guess_type file_name custom w = (Ret r, w')
    /\ fs w' = fs w /\ cwd w' = cwd w.
Proof.
  intros Hc.
  pose proof (dict_update_Forall (fun v => rule_compiles v = true) custom
                default_patterns default_patterns_compile Hc) as Hall.
  destruct (first_match_returns file_name _ w Hall) as (r & w1 & Hr & Hfs & Hcwd).
  unfold detect_language_and_directory. rewrite (bind_ret _ _ _ _ _ Hr).
  destruct r as [ld|].
  - eexists _, _. split; [reflexivity|]. split; assumption.
  - destruct (guess_type file_name) as [[|c m]|];
      (eexists _, _; split; [reflexivity|]; split; assumption).
Qed.

(** C4, amended: for every caller-supplied rule set in which every rule
    is a pair whose pattern compiles, [detect_language_and_directory]
    returns a (tag, path segments) result for every file name, and leaves
    the file system alone. *)
Theorem detect_returns_when_patterns_compile
    (guess_type : str -> option str) file_name custom w :
  Forall (fun kv => rule_compiles (snd kv) = true) custom ->
  exists tag segments w',
    detect_language_and_directory guess_type file_name custom w
    = (Ret (tag, segments), w')
    /\ fs w' = fs w.
Proof.
  intros Hc. destruct (detect_returns guess_type file_name custom w Hc)
    as ([tag segs] & w' & H & Hfs & _).
  exists tag, segs, w'. split; assumption.
Qed.

(** C4 fails as stated: a rule whose pattern is the string "(" passes the
    check of [load_custom_patterns] and is kept; with it in the rule set,
    classifying notes.txt raises [re.error]. *)
Lemma detect_raises_on_uncompilable_pattern :
  check_patterns 1 0 1 broken_rules empty_world = (Ret broken_rules, empty_world)
  /\ detect_language_and_directory (fun _ => None) (py "notes.txt")
       broken_rules empty_world
     = (Raise ReErrorExn, empty_world).
Proof. split; vm_compute; reflexivity. Qed.

(** C6: a file name that no rule of the rule set matches and for which
    no MIME type is guessed is classified as tag "txt", path ["misc"]. *)
Theorem detect_falls_back_to_misc
    (guess_type : str -> option str) file_name custom w :
  Forall (no_match file_name) (merged_patterns custom) ->
  guess_type file_name = None ->
  detect_language_and_directory guess_type file_name custom w
  = (Ret (py "txt", VList [VStr (py "misc")]),
     add_log (WARNING, MsgNoType file_name) w).
Proof.
  intros Hno Hmime. unfold detect_language_and_directory.
  rewrite (bind_ret _ _ _ _ _ (first_match_none file_name _ w Hno)).
  rewrite Hmime. reflexivity.
Qed.

(** C5: merging the caller's rules over the defaults keeps every built-in
    tag at its place, with the caller's pattern and path where the caller
    supplies that tag and the built-in ones where not, and puts the new
    tags after all built-ins, in the caller's order;
    [detect_language_and_directory] returns the tag and path of the first
    rule, in that order, whose pattern matches the file name. *)
Theorem merge_keeps_order_first_match_wins
    (guess_type : str -> option str) (custom : dict) :
  List.NoDup (keys custom) ->
  keys (merged_patterns custom)
  = keys default_patterns
    ++ List.filter (fun k => negb (has_key k default_patterns)) (keys custom)
  /\ (forall k v, dict_get k custom = Some v ->
        dict_get k (merged_patterns custom) = Some v)
  /\ (forall k, dict_get k custom = None ->
        dict_get k (merged_patterns custom) = dict_get k default_patterns)
  /\ (forall file_name pre tag v post segments w,
        merged_patterns custom = pre ++ (tag, v) :: post ->
        Forall (no_match file_name) pre ->
        rule_test v file_name = Ret (segments, true) ->
        detect_language_and_directory guess_type file_name custom w
        = (Ret (tag, segments), add_log (DEBUG, MsgDetected tag file_name) w)).
Proof.
  intros Hnd. split; [|split; [|split]].
  - apply keys_dict_update. exact Hnd.
  - intros k v. apply dict_get_update_hit. exact Hnd.
  - intros k. apply dict_get_update_miss.
  - intros file_name pre tag v post segments w Hsplit Hpre Hv.
    unfold detect_language_and_directory. fold (merged_patterns custom).
    rewrite Hsplit.
    rewrite (bind_ret _ _ _ _ _ (first_match_hit _ _ _ _ _ _ w Hpre Hv)).
    reflexivity.
Qed.

(** ** Trimming *)

Lemma lstrip_idem s : lstrip (lstrip s) = lstrip s.
Proof.
  induction s as [|c s IH]; [reflexivity|]. simpl.
  destruct (Chars.is_space c) eqn:H; [exact IH|]. simpl. rewrite H. reflexivity.
Qed.

Lemma lstrip_split s :
  exists ws, s = ws ++ lstrip s /\ Forall (fun c => Chars.is_space c = true) ws.
Proof.
  induction s as [|c s (ws & Hs & Hws)].
  - exists []. split; [reflexivity|constructor].
  - simpl. destruct (Chars.is_space c) eqn:H.
    + exists (c :: ws). split; [simpl; congruence|constructor; assumption].
    + exists []. split; [reflexivity|constructor].
Qed.

Lemma lstrip_spaces ws s :
  Forall (fun c => Chars.is_space c = true) ws -> lstrip (ws ++ s) = lstrip s.
Proof. induction 1 as [|c ws Hc _ IH]; [reflexivity|]. simpl. rewrite Hc. exact IH. Qed.

Lemma lstrip_clean s : clean_head (lstrip s).
Proof.
  induction s as [|c s IH]; simpl; [exact I|].
  destruct (Chars.is_space c) eqn:H; [exact IH|exact H].
Qed.

Lemma clean_lstrip s : clean_head s -> lstrip s = s.
Proof. destruct s as [|c s]; simpl; [reflexivity|]. intros ->. reflexivity. Qed.

(** A string with clean ends is what [strip] leaves alone. *)
Lemma strip_clean s : clean_head s -> clean_head (rev s) -> strip s = s.
Proof.
  intros H1 H2. unfold strip, rstrip. rewrite (clean_lstrip s H1).
  rewrite (clean_lstrip _ H2). apply rev_involutive.
Qed.

Lemma strip_clean_head s : clean_head (strip s).
Proof.
  unfold strip, rstrip.
  destruct (lstrip_split (rev (lstrip s))) as (ws & Hs & Hws).
  pose proof (lstrip_clean s) as Hc.
  assert (Hr : lstrip s = rev (lstrip (rev (lstrip s))) ++ rev ws).
  { rewrite <- rev_app_distr, <- Hs, rev_involutive. reflexivity. }
  destruct (rev (lstrip (rev (lstrip s)))) as [|c r]; [exact I|].
  rewrite Hr in Hc. exact Hc.
Qed.

Lemma strip_clean_last s : clean_head (rev (strip s)).
Proof. unfold strip, rstrip. rewrite rev_involutive. apply lstrip_clean. Qed.

Lemma strip_idem s : strip (strip s) = strip s.
Proof. apply strip_clean; [apply strip_clean_head|apply strip_clean_last]. Qed.

(** ** The file system *)

Lemma is_dir_insert_file (f : gmap (list str) node) q d x :
  f !! q <> Some NDir -> is_dir (<[q := NFile d]> f) x = is_dir f x.
Proof.
  intros Hq. destruct x as [|c x]; [reflexivity|]. unfold is_dir.
  destruct (decide (q = c :: x)) as [->|Hne].
  - rewrite lookup_insert_eq.
    destruct (f !! (c :: x)) as [[|?]|]; try reflexivity. congruence.
  - rewrite lookup_insert_ne by exact Hne. reflexivity.
Qed.

Lemma walk_insert_file (f : gmap (list str) node) q d ps cur :
  f !! q <> Some NDir -> walk (<[q := NFile d]> f) cur ps = walk f cur ps.
Proof.
  intros Hq. revert cur. induction ps as [|p ps IH]; intros cur; [reflexivity|].
  simpl. rewrite is_dir_insert_file by exact Hq.
  destruct (is_dir f _); [apply IH|reflexivity].
Qed.

Lemma locate_insert_file w q d p :
  fs w !! q <> Some NDir ->
  locate (set_fs (<[q := NFile d]> (fs w)) w) p = locate w p.
Proof.
  intros Hq. unfold locate, base. simpl.
  rewrite is_dir_insert_file, walk_insert_file by exact Hq. reflexivity.
Qed.

(** What has been written is what the file holds. *)
Lemma write_text_content p text w w' :
  write_text p text w = (Ret tt, w') ->
  file_content w' p = Some text /\ log w' = log w /\ cwd w' = cwd w.
Proof.
  unfold write_text, file_content.
  destruct (has_nul p); [discriminate|].
  destruct (too_long (path_str p) (parts p)); [discriminate|].
  destruct (locate w p) as [q|] eqn:Hloc; [|discriminate].
  destruct (fs w !! q) as [n|] eqn:Hq.
  - destruct n; [discriminate|]. intros H. inversion H; subst w'; clear H.
    rewrite locate_insert_file, Hloc by congruence. simpl.
    rewrite lookup_insert_eq. auto.
  - intros H. inversion H; subst w'; clear H.
    rewrite locate_insert_file, Hloc by congruence. simpl.
    rewrite lookup_insert_eq. auto.
Qed.

Lemma mkdir_parents_log p w r w' :
  mkdir_parents p w = (r, w') -> log w' = log w /\ cwd w' = cwd w /\ r <> Outside.
Proof.
  unfold mkdir_parents. destruct (has_nul p).
  { intros H; inversion H; subst. repeat split; discriminate. }
  destruct (PATH_MAX <=? utf8_length (path_str p))%N.
  { intros H; inversion H; subst. repeat split; discriminate. }
  destruct (is_dir (fs w) (base w p)).
  2:{ intros H; inversion H; subst. repeat split; discriminate. }
  destruct (mkdir_walk (fs w) (base w p) (parts p)) as [f ok].
  intros H; inversion H; subst. simpl. repeat split. destruct ok; discriminate.
Qed.

Lemma write_text_fail p text w e w' :
  write_text p text w = (Raise e, w') -> w' = w.
Proof.
  unfold write_text. destruct (has_nul p); [congruence|].
  destruct (too_long (path_str p) (parts p)); [congruence|].
  destruct (locate w p) as [q|]; [|congruence].
  destruct (fs w !! q) as [[|?]|]; congruence.
Qed.

Lemma write_text_not_outside p text w w' :
  write_text p text w <> (Outside, w').
Proof.
  unfold write_text. destruct (has_nul p); [congruence|].
  destruct (too_long (path_str p) (parts p)); [congruence|].
  destruct (locate w p) as [q|]; [|congruence].
  destruct (fs w !! q) as [[|?]|]; congruence.
Qed.

(** ** Materializing *)

(** [save_file] always returns: either the file is written, holds the
    trimmed content and "Saved" is logged, or the failure is logged. *)
Lemma save_file_outcome file_name directory file_content_ output_dir w :
  exists w',
    save_file file_name directory file_content_ output_dir w = (Ret tt, w')
    /\ cwd w' = cwd w
    /\ ((exists p, log w' = log w ++ [(INFO, MsgSaved p)]
                   /\ file_content w' p = Some (strip file_content_))
        \/ (exists e, log w' = log w ++ [(ERROR, MsgSaveFailed file_name e)])).
Proof.
  unfold save_file, try_except. unfold bind at 1, lift.
  assert (Hfail : forall e w1, log w1 = log w -> cwd w1 = cwd w ->
            exists w',
              logger ERROR (MsgSaveFailed file_name e) w1 = (Ret tt, w')
              /\ cwd w' = cwd w
              /\ ((exists p, log w' = log w ++ [(INFO, MsgSaved p)]
                             /\ file_content w' p = Some (strip file_content_))
                  \/ (exists e, log w' = log w ++ [(ERROR, MsgSaveFailed file_name e)]))).
  { intros e w1 Hl Hc. eexists. split; [reflexivity|]. simpl.
    split; [exact Hc|]. right. exists e. rewrite Hl. reflexivity. }
  destruct (star_args directory) as [segs|e|] eqn:Hargs.
  2:{ apply Hfail; reflexivity. }
  2:{ destruct directory; discriminate. }
  destruct (all_str segs) as [ss|]; [|apply Hfail; reflexivity].
  unfold bind at 1.
  destruct (mkdir_parents (joinpath (Path output_dir) ss) w) as [r1 w1] eqn:Hmk.
  destruct (mkdir_parents_log _ _ _ _ Hmk) as (Hl1 & Hc1 & Hno1).
  destruct r1 as [[]|e|]; [|apply Hfail; assumption|congruence].
  unfold bind at 1.
  destruct (write_text (join1 (joinpath (Path output_dir) ss) file_name)
              (strip file_content_) w1) as [r2 w2] eqn:Hwr.
  destruct r2 as [[]|e|].
  - destruct (write_text_content _ _ _ _ Hwr) as (Hread & Hl2 & Hc2).
    eexists. split; [reflexivity|]. simpl. split; [congruence|].
    left. eexists. split; [rewrite Hl2, Hl1; reflexivity|].
    unfold file_content in *. exact Hread.
  - pose proof (write_text_fail _ _ _ _ _ Hwr). subst w2. apply Hfail; assumption.
  - exfalso. exact (write_text_not_outside _ _ _ _ Hwr).
Qed.


(** ** The driver *)





(** ** The matcher *)

Lemma later_refl s : later s s.
Proof. exists []. split; reflexivity. Qed.

Lemma later_trans s1 s2 s3 : later s1 s2 -> later s2 s3 -> later s1 s3.
Proof.
  intros (w1 & Ha1 & Hb1) (w2 & Ha2 & Hb2). exists (w1 ++ w2). split.
  - rewrite Ha1, Ha2, app_assoc. reflexivity.
  - rewrite Hb2, Hb1, rev_app_distr, app_assoc. reflexivity.
Qed.

Lemma later_subject s s' : later s s' -> Re.subject s' = Re.subject s.
Proof.
  intros (w & Ha & Hb). unfold Re.subject. rewrite Ha, Hb, rev_app_distr.
  rewrite rev_involutive, app_assoc. reflexivity.
Qed.

Lemma later_pos s s' : later s s' -> Re.pos s <= Re.pos s'.
Proof. intros (w & _ & Hb). unfold Re.pos. rewrite Hb, length_app. lia. Qed.

Lemma later_aft_length s s' :
  later s s' -> length (Re.aft s) = (Re.pos s' - Re.pos s) + length (Re.aft s').
Proof.
  intros (w & Ha & Hb). unfold Re.pos.
  rewrite Ha, Hb, !length_app, length_rev. lia.
Qed.

Lemma reaches_refl ids s : reaches ids s s.
Proof. split; [apply later_refl|]. exists []. split; [reflexivity|constructor]. Qed.

Lemma reaches_trans ids1 ids2 s1 s2 s3 :
  reaches ids1 s1 s2 -> reaches ids2 s2 s3 -> reaches (ids1 ++ ids2) s1 s3.
Proof.
  intros (Hl1 & n1 & Hc1 & Hf1) (Hl2 & n2 & Hc2 & Hf2).
  split; [eapply later_trans; eassumption|].
  exists (n2 ++ n1). split; [rewrite Hc2, Hc1, app_assoc; reflexivity|].
  apply Forall_app. split.
  - eapply List.Forall_impl; [|exact Hf2]. intros kv H. apply in_or_app. right. exact H.
  - eapply List.Forall_impl; [|exact Hf1]. intros kv H. apply in_or_app. left. exact H.
Qed.

Lemma reaches_weaken ids ids' s s' :
  (forall i, In i ids -> In i ids') -> reaches ids s s' -> reaches ids' s s'.
Proof.
  intros Hin (Hl & n & Hc & Hf). split; [exact Hl|]. exists n. split; [exact Hc|].
  eapply List.Forall_impl; [|exact Hf]. intros kv. apply Hin.
Qed.

Lemma forward_weaken ids ids' step :
  (forall i, In i ids -> In i ids') -> forward ids step -> forward ids' step.
Proof.
  intros Hin Hf k s e H. destruct (Hf k s e H) as (s' & Hk & Hr).
  exists s'. split; [exact Hk|]. eapply reaches_weaken; eassumption.
Qed.

Lemma or_else_Some a b e :
  Re.or_else a b = Some e -> a = Some e \/ (a = None /\ b = Some e).
Proof. destruct a; simpl; intros H; [left|right]; auto. Qed.

Lemma or_else_None_r a : Re.or_else a None = a.
Proof. destruct a; reflexivity. Qed.

Lemma one_Some p k s e :
  Re.one p k s = Some e ->
  exists c t, Re.aft s = c :: t /\ p c = true /\ k (Re.adv c t s) = Some e.
Proof.
  unfold Re.one. destruct (Re.aft s) as [|c t]; [discriminate|].
  destruct (p c) eqn:Hp; [|discriminate]. intros H. exists c, t. auto.
Qed.

Lemma test_Some b k s e : Re.test b k s = Some e -> b = true /\ k s = Some e.
Proof. unfold Re.test. destruct b; [auto|discriminate]. Qed.

Lemma reaches_adv ids c t s : Re.aft s = c :: t -> reaches ids s (Re.adv c t s).
Proof.
  intros H. split.
  - exists [c]. split; [exact H|reflexivity].
  - exists []. split; [reflexivity|constructor].
Qed.

Lemma one_forward ids p : forward ids (Re.one p).
Proof.
  intros k s e H. apply one_Some in H. destruct H as (c & t & Ha & _ & Hk).
  exists (Re.adv c t s). split; [exact Hk|apply reaches_adv; exact Ha].
Qed.

Lemma test_forward ids b : forward ids (Re.test b).
Proof.
  intros k s e H. apply test_Some in H. destruct H as [_ H].
  exists s. split; [exact H|apply reaches_refl].
Qed.

Lemma reaches_idem ids s1 s2 s3 :
  reaches ids s1 s2 -> reaches ids s2 s3 -> reaches ids s1 s3.
Proof.
  intros H1 H2. apply (reaches_weaken (ids ++ ids)).
  - intros i Hi. apply in_app_or in Hi. tauto.
  - eapply reaches_trans; eassumption.
Qed.

Lemma rep_loop_forward ids step g n :
  forward ids step -> forward ids (fun k => Re.rep_loop step g k n).
Proof.
  intros Hstep. induction n as [|n IH]; intros k s e H; simpl in H.
  - exists s. split; [exact H|apply reaches_refl].
  - assert (Hagain : forall x,
              step (fun s' => if length (Re.aft s') <? length (Re.aft s)
                              then Re.rep_loop step g k n s' else None) s = Some x ->
              exists s', k s' = Some x /\ reaches ids s s').
    { intros x Hx. apply Hstep in Hx. destruct Hx as (s1 & H1 & Hl1).
      destruct (length (Re.aft s1) <? length (Re.aft s)); [|discriminate].
      apply IH in H1. destruct H1 as (s2 & H2 & Hl2).
      exists s2. split; [exact H2|]. eapply reaches_idem; eassumption. }
    destruct g.
    + apply or_else_Some in H. destruct H as [H|[_ H]]; [apply Hagain; exact H|].
      exists s. split; [exact H|apply reaches_refl].
    + apply or_else_Some in H. destruct H as [H|[_ H]]; [|apply Hagain; exact H].
      exists s. split; [exact H|apply reaches_refl].
Qed.

(** A match ends at or to the right of where it starts, in the same
    subject, and records spans of its own groups only. *)
Lemma mt_forward fl r : forward (group_ids r) (Re.mt fl r).
Proof.
  induction r as [c| |neg items| | | | | |a IHa b IHb|a IHa b IHb
                  |g a IHa|g a IHa|g a IHa|i a IHa|neg a IHa];
    intros k s e H; simpl in H.
  - exact (one_forward _ _ k s e H).
  - exact (one_forward _ _ k s e H).
  - exact (one_forward _ _ k s e H).
  - exact (test_forward _ _ k s e H).
  - exact (test_forward _ _ k s e H).
  - exact (test_forward _ _ k s e H).
  - exact (test_forward _ _ k s e H).
  - exists s. split; [exact H|apply reaches_refl].
  - apply IHa in H. destruct H as (s1 & H1 & Hl1).
    apply IHb in H1. destruct H1 as (s2 & H2 & Hl2).
    exists s2. split; [exact H2|]. eapply reaches_trans; eassumption.
  - apply or_else_Some in H. destruct H as [H|[_ H]].
    + apply IHa in H. destruct H as (s1 & H1 & Hl1). exists s1. split; [exact H1|].
      eapply reaches_weaken; [|exact Hl1]. intros i Hi. apply in_or_app. tauto.
    + apply IHb in H. destruct H as (s1 & H1 & Hl1). exists s1. split; [exact H1|].
      eapply reaches_weaken; [|exact Hl1]. intros i Hi. apply in_or_app. tauto.
  - unfold Re.rep in H. exact (rep_loop_forward _ _ g _ IHa k s e H).
  - apply IHa in H. destruct H as (s1 & H1 & Hl1). unfold Re.rep in H1.
    apply (rep_loop_forward _ _ g _ IHa) in H1. destruct H1 as (s2 & H2 & Hl2).
    exists s2. split; [exact H2|]. eapply reaches_idem; eassumption.
  - destruct g; apply or_else_Some in H; destruct H as [H|[_ H]];
      try (apply IHa; exact H); exists s; (split; [exact H|apply reaches_refl]).
  - apply IHa in H. destruct H as (s1 & H1 & (Hl1 & n & Hc & Hf)).
    exists (Re.set_cap i (Re.pos s, Re.pos s1) s1). split; [exact H1|]. split.
    + destruct Hl1 as (w & Ha & Hb). exists w. split; assumption.
    + exists ((i, (Re.pos s, Re.pos s1)) :: n). simpl. split; [rewrite Hc; reflexivity|].
      constructor; [left; reflexivity|].
      eapply List.Forall_impl; [|exact Hf]. intros kv Hkv. right. exact Hkv.
  - destruct (Re.mt fl a Some s) as [s'|] eqn:Hm; destruct neg; try discriminate.
    + apply IHa in Hm. destruct Hm as (s1 & H1 & (_ & n & Hc & Hf)).
      inversion H1; subst s1.
      exists {| Re.bef := Re.bef s; Re.aft := Re.aft s; Re.caps := Re.caps s' |}.
      split; [exact H|]. split.
      * exists []. split; reflexivity.
      * exists n. split; [exact Hc|exact Hf].
    + exists s. split; [exact H|apply reaches_refl].
Qed.

(** *** Repetitions of a one-character pattern *)

Lemma state_eta (s : Re.mstate) : St (Re.bef s) (Re.aft s) (Re.caps s) = s.
Proof. destruct s; reflexivity. Qed.

Lemma rep_loop_one_greedy p k n s :
  length (Re.aft s) <= n ->
  Re.rep_loop (Re.one p) true k n s
  = greedy_spec p k (Re.bef s) (Re.aft s) (Re.caps s).
Proof.
  revert s. induction n as [|n IH]; intros s Hn.
  - destruct s as [b a cs]. simpl in *. destruct a; [reflexivity|simpl in Hn; lia].
  - destruct s as [b a cs]. simpl in *. unfold Re.one at 1. simpl.
    destruct a as [|c t]; [reflexivity|]. simpl.
    destruct (p c); [|reflexivity]. simpl.
    replace (length t <? S (length t)) with true
      by (symmetry; apply Nat.ltb_lt; lia).
    rewrite IH by (simpl in *; lia). reflexivity.
Qed.

Lemma rep_loop_one_lazy p k n s :
  length (Re.aft s) <= n ->
  Re.rep_loop (Re.one p) false k n s
  = lazy_spec p k (Re.bef s) (Re.aft s) (Re.caps s).
Proof.
  revert s. induction n as [|n IH]; intros s Hn.
  - destruct s as [b a cs]. simpl in *. destruct a; [|simpl in Hn; lia].
    simpl. destruct (k _); reflexivity.
  - destruct s as [b a cs]. simpl in *. unfold Re.one at 1. simpl.
    destruct a as [|c t]; [reflexivity|]. simpl.
    destruct (p c); [|reflexivity]. simpl.
    replace (length t <? S (length t)) with true
      by (symmetry; apply Nat.ltb_lt; lia).
    rewrite IH by (simpl in *; lia). reflexivity.
Qed.

Lemma star_set_greedy fl neg items k b a cs :
  Re.mt fl (Re.RStar true (Re.RSet neg items)) k (St b a cs)
  = greedy_spec (Re.set_match fl neg items) k b a cs.
Proof.
  simpl. unfold Re.rep.
  change (Re.mt fl (Re.RSet neg items)) with (Re.one (Re.set_match fl neg items)).
  rewrite rep_loop_one_greedy by (simpl; lia). reflexivity.
Qed.

Lemma star_set_lazy fl neg items k b a cs :
  Re.mt fl (Re.RStar false (Re.RSet neg items)) k (St b a cs)
  = lazy_spec (Re.set_match fl neg items) k b a cs.
Proof.
  simpl. unfold Re.rep.
  change (Re.mt fl (Re.RSet neg items)) with (Re.one (Re.set_match fl neg items)).
  rewrite rep_loop_one_lazy by (simpl; lia). reflexivity.
Qed.

Lemma greedy_inv p k cs e a b :
  greedy_spec p k b a cs = Some e ->
  exists w t, a = w ++ t /\ Forall (fun c => p c = true) w
              /\ k (St (rev w ++ b) t cs) = Some e.
Proof.
  revert b. induction a as [|c t IH]; intros b H; simpl in H.
  - exists [], []. repeat split; [constructor|exact H].
  - destruct (p c) eqn:Hp.
    + apply or_else_Some in H. destruct H as [H|[_ H]].
      * apply IH in H. destruct H as (w & t' & Ht & Hw & Hk).
        exists (c :: w), t'. split; [simpl; congruence|]. split; [constructor; assumption|].
        simpl. rewrite <- app_assoc. exact Hk.
      * exists [], (c :: t). repeat split; [constructor|exact H].
    + exists [], (c :: t). repeat split; [constructor|exact H].
Qed.

Lemma greedy_deep p k cs e w t b :
  Forall (fun c => p c = true) w ->
  greedy_spec p k (rev w ++ b) t cs = Some e ->
  greedy_spec p k b (w ++ t) cs = Some e.
Proof.
  intros Hw. revert b. induction Hw as [|c w Hc _ IH]; intros b H; [exact H|].
  simpl. rewrite Hc. rewrite (IH (c :: b)); [reflexivity|].
  simpl in H. rewrite <- app_assoc in H. exact H.
Qed.

Lemma greedy_stop p k cs t b :
  stop p t -> greedy_spec p k b t cs = k (St b t cs).
Proof. destruct t as [|c t]; simpl; [reflexivity|]. intros ->. reflexivity. Qed.

Lemma greedy_backtrack p k cs w t b :
  Forall (fun c => p c = true) w -> stop p t -> fails_after k b w t cs ->
  greedy_spec p k b (w ++ t) cs = k (St b (w ++ t) cs).
Proof.
  intros Hw Ht. revert b. induction Hw as [|c w Hc _ IH]; intros b Hf.
  - apply greedy_stop. exact Ht.
  - simpl in Hf. destruct Hf as [Hf1 Hf2]. simpl. rewrite Hc.
    rewrite (IH (c :: b) Hf2), Hf1. reflexivity.
Qed.

Lemma lazy_inv p k cs e a b :
  lazy_spec p k b a cs = Some e ->
  exists w t, a = w ++ t /\ Forall (fun c => p c = true) w
              /\ k (St (rev w ++ b) t cs) = Some e
              /\ fails_before k b w t cs.
Proof.
  revert b. induction a as [|c t IH]; intros b H; simpl in H.
  - apply or_else_Some in H. destruct H as [H|[_ H]]; [|discriminate].
    exists [], []. repeat split; [constructor|exact H].
  - apply or_else_Some in H. destruct H as [H|[Hnone H]].
    + exists [], (c :: t). repeat split; [constructor|exact H].
    + destruct (p c) eqn:Hp; [|discriminate].
      apply IH in H. destruct H as (w & t' & Ht & Hw & Hk & Hmin).
      exists (c :: w), t'. split; [simpl; congruence|].
      split; [constructor; assumption|]. split.
      * simpl. rewrite <- app_assoc. exact Hk.
      * simpl. split; [rewrite <- Ht; exact Hnone|exact Hmin].
Qed.

Lemma lazy_exact p k cs u v b :
  Forall (fun c => p c = true) u -> fails_before k b u v cs ->
  lazy_spec p k b (u ++ v) cs = lazy_spec p k (rev u ++ b) v cs.
Proof.
  intros Hu. revert b. induction Hu as [|c u Hc _ IH]; intros b Hf; [reflexivity|].
  simpl in Hf. destruct Hf as [Hf1 Hf2].
  change (lazy_spec p k b ((c :: u) ++ v) cs)
    with (Re.or_else (k (St b (c :: u ++ v) cs))
            (if p c then lazy_spec p k (c :: b) (u ++ v) cs else None)).
  rewrite Hf1, Hc. simpl. rewrite (IH (c :: b) Hf2), <- app_assoc. reflexivity.
Qed.

Lemma lazy_here p k cs e a b :
  k (St b a cs) = Some e -> lazy_spec p k b a cs = Some e.
Proof. intros H. destruct a; simpl; rewrite H; reflexivity. Qed.

(** A lazy repetition over characters it accepts stops at the first
    position the continuation accepts, no later than any given one. *)
Lemma lazy_fwd p k cs e' u v b :
  Forall (fun c => p c = true) u ->
  k (St (rev u ++ b) v cs) = Some e' ->
  exists x y e, u = x ++ y
                /\ lazy_spec p k b (u ++ v) cs = Some e
                /\ k (St (rev x ++ b) (y ++ v) cs) = Some e.
Proof.
  intros Hu. revert b. induction Hu as [|c u Hc _ IH]; intros b Hk.
  - exists [], [], e'. split; [reflexivity|]. split; [apply lazy_here|]; exact Hk.
  - destruct (k (St b ((c :: u) ++ v) cs)) as [e0|] eqn:H0.
    + exists [], (c :: u), e0. split; [reflexivity|].
      split; [apply lazy_here|]; exact H0.
    + simpl in Hk. rewrite <- app_assoc in Hk.
      destruct (IH (c :: b) Hk) as (x & y & e & Hxy & Hl & Hkx).
      exists (c :: x), y, e. split; [simpl; congruence|]. split.
      * change (lazy_spec p k b ((c :: u) ++ v) cs)
          with (Re.or_else (k (St b ((c :: u) ++ v) cs))
                  (if p c then lazy_spec p k (c :: b) (u ++ v) cs else None)).
        rewrite H0, Hc. exact Hl.
      * simpl. rewrite <- app_assoc. exact Hkx.
Qed.

(** *** The sets of the pattern *)

Lemma space_set_match c :
  Re.set_match Re.MULTILINE false [Re.CSpace false] c = Chars.is_space c.
Proof. unfold Re.set_match. simpl. unfold Re.item_match_fl. simpl.
  destruct (Chars.is_space c); reflexivity. Qed.

Lemma nonspace_set_match c :
  Re.set_match Re.MULTILINE false [Re.CSpace true] c = negb (Chars.is_space c).
Proof. unfold Re.set_match. simpl. unfold Re.item_match_fl. simpl.
  destruct (Chars.is_space c); reflexivity. Qed.

Lemma word_set_match c :
  Re.set_match Re.MULTILINE false [Re.CWord false] c = Chars.is_word c.
Proof. unfold Re.set_match. simpl. unfold Re.item_match_fl. simpl.
  destruct (Chars.is_word c); reflexivity. Qed.

Lemma any_set_match c :
  Re.set_match Re.MULTILINE false [Re.CSpace false; Re.CSpace true] c = true.
Proof. unfold Re.set_match. simpl. unfold Re.item_match_fl. simpl.
  destruct (Chars.is_space c); reflexivity. Qed.

Lemma file_pattern_parts :
  file_pattern
  = Re.RSeq Re.RBol (Re.RSeq (Re.RLit "#")
      (Re.RSeq (Re.RStar true space_set) (Re.RSeq name_group tail_pattern))).
Proof. reflexivity. Qed.

(** *** Searching *)

Lemma final_Some ma s x e : Re.final ma s x = Some e -> x = e.
Proof.
  unfold Re.final. destruct (ma && (Re.pos x =? Re.pos s)); [discriminate|].
  congruence.
Qed.

Lemma search_Some fl r a : forall ma b s e,
  Re.search fl r ma b a = Some (s, e) ->
  exists w t,
    a = w ++ t /\ s = St (rev w ++ b) t []
    /\ Re.mt fl r (Re.final (ma && match w with [] => true | _ => false end) s) s
       = Some e.
Proof.
  induction a as [|c a IH]; intros ma b s e H; simpl in H.
  - destruct (Re.mt fl r _ _) as [e0|] eqn:Hm; [|discriminate].
    inversion H; subst. exists [], []. repeat split.
    rewrite andb_true_r. exact Hm.
  - destruct (Re.mt fl r _ _) as [e0|] eqn:Hm.
    + inversion H; subst. exists [], (c :: a). repeat split.
      rewrite andb_true_r. exact Hm.
    + apply IH in H. destruct H as (w & t & Ha & Hs & Hmt).
      exists (c :: w), t. split; [simpl; congruence|].
      split; [simpl; rewrite <- app_assoc; exact Hs|].
      rewrite andb_false_r. simpl in Hmt. exact Hmt.
Qed.

Lemma subject_St b a cs : Re.subject (St b a cs) = rev b ++ a.
Proof. reflexivity. Qed.

(** Every match [finditer] returns is a match of the pattern at a
    position of the document. *)
Lemma finditer_loop_In fl r fuel : forall ma b a ms s e,
  Re.finditer_loop fl r fuel ma b a = Some ms ->
  In (s, e) ms ->
  exists ma', Re.mt fl r (Re.final ma' s) s = Some e
              /\ Re.caps s = [] /\ Re.subject s = rev b ++ a.
Proof.
  induction fuel as [|fuel IH]; intros ma b a ms s e H Hin; [discriminate|].
  simpl in H. destruct (Re.search fl r ma b a) as [[s0 e0]|] eqn:Hs.
  - destruct (Re.finditer_loop fl r fuel _ _ _) as [ms'|] eqn:Hl; [|discriminate].
    inversion H; subst ms; clear H.
    apply search_Some in Hs. destruct Hs as (w & t & Ha & Hs0 & Hm).
    assert (Hsub : Re.subject s0 = rev b ++ a).
    { rewrite Hs0, subject_St, Ha, rev_app_distr, rev_involutive, app_assoc.
      reflexivity. }
    destruct Hin as [Heq|Hin].
    + inversion Heq; subst s e. eexists. split; [exact Hm|].
      split; [rewrite Hs0; reflexivity|exact Hsub].
    + destruct (IH _ _ _ _ _ _ Hl Hin) as (ma2 & Hm2 & Hc2 & Hsub2).
      exists ma2. split; [exact Hm2|]. split; [exact Hc2|].
      rewrite Hsub2, <- Hsub.
      apply mt_forward in Hm. destruct Hm as (s1 & Hf & (Hlater & _)).
      apply final_Some in Hf. subst s1.
      apply later_subject in Hlater. exact Hlater.
  - inversion H; subst. destruct Hin.
Qed.

Lemma finditer_In fl r document s e :
  In (s, e) (Re.finditer fl r document) ->
  exists ma, Re.mt fl r (Re.final ma s) s = Some e
             /\ Re.caps s = [] /\ Re.subject s = document.
Proof.
  unfold Re.finditer.
  destruct (Re.finditer_loop fl r _ false [] document) as [ms|] eqn:H; [|intros []].
  intros Hin. exact (finditer_loop_In _ _ _ _ _ _ _ _ _ H Hin).
Qed.

(** [finditer] never runs out of fuel: a match that reads something
    shortens what is left, and an empty match is not repeated at its
    position. *)
Lemma finditer_loop_total fl r fuel : forall (ma : bool) b a,
  2 * length a + (if ma then 0 else 1) < fuel ->
  exists ms, Re.finditer_loop fl r fuel ma b a = Some ms.
Proof.
  induction fuel as [|fuel IH]; intros ma b a Hfuel; [lia|].
  simpl. destruct (Re.search fl r ma b a) as [[s e]|] eqn:Hs; [|eexists; reflexivity].
  apply search_Some in Hs. destruct Hs as (w & t & Ha & Hs0 & Hm).
  pose proof Hm as Hm'. apply mt_forward in Hm'.
  destruct Hm' as (s' & Hfin & Hlater & _).
  pose proof (final_Some _ _ _ _ Hfin) as E. subst s'.
  pose proof (later_pos _ _ Hlater) as Hpos.
  pose proof (later_aft_length _ _ Hlater) as Hlen.
  assert (Haft : length (Re.aft s) = length t) by (rewrite Hs0; reflexivity).
  assert (Hla : length a = length w + length t) by (rewrite Ha; apply length_app).
  destruct (IH (Re.pos e =? Re.pos s) (Re.bef e) (Re.aft e)) as (ms & Hms).
  - destruct (Re.pos e =? Re.pos s) eqn:Hp.
    + apply Nat.eqb_eq in Hp.
      destruct w as [|c w]; [|simpl in Hla; lia].
      destruct ma; [|simpl in *; lia].
      exfalso. unfold Re.final in Hfin. simpl in Hfin.
      rewrite Hp, Nat.eqb_refl in Hfin. discriminate.
    + apply Nat.eqb_neq in Hp. destruct ma; lia.
  - rewrite Hms. eexists. reflexivity.
Qed.

Lemma finditer_total fl r document :
  exists ms,
    Re.finditer_loop fl r (Re.finditer_fuel document) false [] document = Some ms
    /\ Re.finditer fl r document = ms.
Proof.
  destruct (finditer_loop_total fl r (Re.finditer_fuel document) false [] document)
    as (ms & H); [unfold Re.finditer_fuel; lia|].
  exists ms. split; [exact H|]. unfold Re.finditer. rewrite H. reflexivity.
Qed.

(** The pattern of [extract_full_files] is in the fragment and compiles
    to [file_pattern], with four groups. *)
Lemma file_pattern_compiled :
  Re.compile file_pattern_src = Re.Compiled file_pattern 4.
Proof. vm_compute. reflexivity. Qed.

(** *** Stepping through a pattern *)

Lemma mt_seq fl a b k s : Re.mt fl (Re.RSeq a b) k s = Re.mt fl a (Re.mt fl b k) s.
Proof. reflexivity. Qed.

Lemma mt_alt fl a b k s :
  Re.mt fl (Re.RAlt a b) k s = Re.or_else (Re.mt fl a k s) (Re.mt fl b k s).
Proof. reflexivity. Qed.

Lemma mt_group fl i a k s :
  Re.mt fl (Re.RGroup i a) k s
  = Re.mt fl a (fun s' => k (Re.set_cap i (Re.pos s, Re.pos s') s')) s.
Proof. reflexivity. Qed.

Lemma mt_opt fl a k s :
  Re.mt fl (Re.ROpt true a) k s = Re.or_else (Re.mt fl a k s) (k s).
Proof. reflexivity. Qed.

Lemma mt_lit c k b a cs :
  Re.mt Re.MULTILINE (Re.RLit c) k (St b a cs)
  = match a with
    | x :: t => if Chars.eqb c x then k (St (x :: b) t cs) else None
    | [] => None
    end.
Proof. reflexivity. Qed.

Lemma mt_plus_set fl neg items k b a cs :
  Re.mt fl (Re.RPlus true (Re.RSet neg items)) k (St b a cs)
  = match a with
    | c :: t => if Re.set_match fl neg items c
                then greedy_spec (Re.set_match fl neg items) k (c :: b) t cs
                else None
    | [] => None
    end.
Proof.
  simpl. unfold Re.one at 1. simpl. destruct a as [|c t]; [reflexivity|].
  destruct (Re.set_match fl neg items c); [|reflexivity].
  unfold Re.adv. simpl. unfold Re.rep.
  change (Re.mt fl (Re.RSet neg items)) with (Re.one (Re.set_match fl neg items)).
  rewrite rep_loop_one_greedy by (simpl; lia). reflexivity.
Qed.

Lemma starts_with_split w a :
  starts_with w a = true -> a = w ++ skipn (length w) a.
Proof.
  revert a. induction w as [|c w IH]; intros a H; [reflexivity|].
  destruct a as [|x a]; [discriminate|]. simpl in H.
  apply andb_true_iff in H. destruct H as [Hc Hw].
  apply chars_eqb_eq in Hc. subst x. simpl. f_equal. apply IH. exact Hw.
Qed.

Lemma starts_with_app w t : starts_with w (w ++ t) = true.
Proof. induction w as [|c w IH]; simpl; [reflexivity|]. rewrite chars_eqb_refl. exact IH. Qed.

Lemma skipn_app_exact {A} (w t : list A) : skipn (length w) (w ++ t) = t.
Proof. induction w; simpl; auto. Qed.

(** A run of literal characters matches exactly itself. *)
Lemma mt_lit_word w k b a cs :
  w <> [] ->
  Re.mt Re.MULTILINE (lit_word w) k (St b a cs)
  = if starts_with w a then k (St (rev w ++ b) (skipn (length w) a) cs) else None.
Proof.
  revert b a. induction w as [|c w IH]; intros b a Hne; [congruence|].
  destruct w as [|c' w].
  - simpl lit_word. rewrite mt_lit. destruct a as [|x t]; [reflexivity|]. simpl.
    destruct (Chars.eqb c x) eqn:Hc; [|reflexivity].
    apply chars_eqb_eq in Hc. subst x. reflexivity.
  - change (lit_word (c :: c' :: w)) with (Re.RSeq (Re.RLit c) (lit_word (c' :: w))).
    rewrite mt_seq, mt_lit. destruct a as [|x t]; [reflexivity|].
    change (starts_with (c :: c' :: w) (x :: t))
      with (Chars.eqb c x && starts_with (c' :: w) t).
    destruct (Chars.eqb c x) eqn:Hc; [|reflexivity].
    apply chars_eqb_eq in Hc. subst x.
    rewrite IH by discriminate. cbn [andb].
    destruct (starts_with (c' :: w) t); [|reflexivity].
    f_equal. f_equal. change (rev (c :: c' :: w)) with (rev (c' :: w) ++ [c]).
    rewrite <- app_assoc. reflexivity.
Qed.

Lemma mt_alt_words_inv ws k b a cs e :
  Forall (fun w => w <> []) ws ->
  Re.mt Re.MULTILINE (alt_words ws) k (St b a cs) = Some e ->
  ws <> [] ->
  exists w t, In w ws /\ a = w ++ t /\ k (St (rev w ++ b) t cs) = Some e.
Proof.
  intros Hws. induction Hws as [|w ws Hw Hws IH]; intros H Hne; [congruence|].
  destruct ws as [|w' ws].
  - simpl alt_words in H. rewrite mt_lit_word in H by exact Hw.
    destruct (starts_with w a) eqn:Hs; [|discriminate].
    exists w, (skipn (length w) a). split; [left; reflexivity|].
    split; [apply starts_with_split; exact Hs|exact H].
  - change (alt_words (w :: w' :: ws))
      with (Re.RAlt (lit_word w) (alt_words (w' :: ws))) in H.
    rewrite mt_alt in H. apply or_else_Some in H. destruct H as [H|[_ H]].
    + rewrite mt_lit_word in H by exact Hw.
      destruct (starts_with w a) eqn:Hs; [|discriminate].
      exists w, (skipn (length w) a). split; [left; reflexivity|].
      split; [apply starts_with_split; exact Hs|exact H].
    + destruct (IH H) as (x & t & Hin & Ha & Hk); [discriminate|].
      exists x, t. split; [right; exact Hin|]. split; assumption.
Qed.

Lemma extensions_nonempty : Forall (fun w : str => w <> []) extensions.
Proof. repeat constructor; discriminate. Qed.

(** *** The heading *)

Lemma heading_start rest k b a cs :
  Re.mt Re.MULTILINE (Re.RSeq Re.RBol (Re.RSeq (Re.RLit "#") rest)) k (St b a cs)
  = match a with
    | c :: t => if bolb b && Chars.eqb "#" c
                then Re.mt Re.MULTILINE rest k (St (c :: b) t cs) else None
    | [] => None
    end.
Proof.
  destruct b as [|x b]; destruct a as [|c t]; try reflexivity.
  - change (bolb (x :: b)) with (Chars.eqb x nl).
    change (Re.mt Re.MULTILINE (Re.RSeq Re.RBol (Re.RSeq (Re.RLit "#") rest)) k
              (St (x :: b) [] cs))
      with (if true && Chars.eqb x nl
            then @None Re.mstate else None).
    destruct (Chars.eqb x nl); reflexivity.
  - change (bolb (x :: b)) with (Chars.eqb x nl).
    change (Re.mt Re.MULTILINE (Re.RSeq Re.RBol (Re.RSeq (Re.RLit "#") rest)) k
              (St (x :: b) (c :: t) cs))
      with (if true && Chars.eqb x nl
            then (if Chars.eqb "#" c
                  then Re.mt Re.MULTILINE rest k (St (c :: x :: b) t cs) else None)
            else None).
    destruct (Chars.eqb x nl); reflexivity.
Qed.

(** Where a line does not start with the heading marker the pattern does
    not match. *)
Lemma file_pattern_none k b a cs :
  match a with c :: _ => bolb b && Chars.eqb "#" c = false | [] => True end ->
  Re.mt Re.MULTILINE file_pattern k (St b a cs) = None.
Proof.
  intros H. rewrite file_pattern_parts, heading_start.
  destruct a as [|c t]; [reflexivity|]. rewrite H. reflexivity.
Qed.

(** The file name and the extension a match has read: the name is a run
    without whitespace, a dot and one of the extensions, and the groups 1
    and 2 span the name and the extension. *)
Lemma name_group_inv k b a cs e :
  Re.mt Re.MULTILINE name_group k (St b a cs) = Some e ->
  exists stem ext t,
    a = stem ++ "."%char :: ext ++ t
    /\ stem <> []
    /\ Forall (fun c => Chars.is_space c = false) stem
    /\ In ext extensions
    /\ k (St (rev (stem ++ "."%char :: ext) ++ b) t
            ((1, (length b, length (rev (stem ++ "."%char :: ext) ++ b)))
             :: (2, (length ("."%char :: rev stem ++ b),
                     length (rev ext ++ "."%char :: rev stem ++ b)))
             :: cs))
       = Some e.
Proof.
  unfold name_group. rewrite mt_group, mt_seq. unfold nonspace_set.
  rewrite mt_plus_set. destruct a as [|c0 t0]; [discriminate|].
  rewrite nonspace_set_match. destruct (Chars.is_space c0) eqn:Hc0; [discriminate|].
  simpl negb. cbv iota. intros H. apply greedy_inv in H.
  destruct H as (w & t1 & Ht0 & Hw & H).
  rewrite mt_seq, mt_lit in H. destruct t1 as [|x t2]; [discriminate|].
  destruct (Chars.eqb "." x) eqn:Hx; [|discriminate].
  apply chars_eqb_eq in Hx. subst x.
  rewrite mt_group in H. unfold ext_alt in H.
  apply mt_alt_words_inv in H; [|exact extensions_nonempty|discriminate].
  destruct H as (ext & t & Hin & Ht2 & H).
  exists (c0 :: w), ext, t. split; [simpl; rewrite Ht0, Ht2; reflexivity|].
  split; [discriminate|]. split.
  - constructor; [exact Hc0|].
    eapply List.Forall_impl; [|exact Hw]. intros c Hc. cbv beta in Hc.
    rewrite nonspace_set_match in Hc. destruct (Chars.is_space c); [discriminate|reflexivity].
  - split; [exact Hin|].
    unfold Re.set_cap, Re.pos in H. cbn [Re.bef Re.aft Re.caps] in H.
    assert (E1 : rev ((c0 :: w) ++ "."%char :: ext) ++ b
                 = rev ext ++ "."%char :: rev w ++ c0 :: b).
    { simpl. rewrite rev_app_distr. simpl. rewrite <- !app_assoc. reflexivity. }
    assert (E2 : rev (c0 :: w) ++ b = rev w ++ c0 :: b).
    { simpl. rewrite <- app_assoc. reflexivity. }
    rewrite E1, E2. exact H.
Qed.

Lemma heading_inv k b a cs e :
  Re.mt Re.MULTILINE file_pattern k (St b a cs) = Some e ->
  exists ws stem ext t,
    a = "#"%char :: ws ++ stem ++ "."%char :: ext ++ t
    /\ bolb b = true
    /\ stem <> []
    /\ Forall (fun c => Chars.is_space c = false) stem
    /\ In ext extensions
    /\ let b1 := rev ws ++ "#"%char :: b in
       Re.mt Re.MULTILINE tail_pattern k
         (St (rev (stem ++ "."%char :: ext) ++ b1) t
            ((1, (length b1, length (rev (stem ++ "."%char :: ext) ++ b1)))
             :: (2, (length ("."%char :: rev stem ++ b1),
                     length (rev ext ++ "."%char :: rev stem ++ b1)))
             :: cs))
       = Some e.
Proof.
  rewrite file_pattern_parts, heading_start. destruct a as [|c t0]; [discriminate|].
  destruct (bolb b && Chars.eqb "#" c) eqn:Hb; [|discriminate].
  apply andb_true_iff in Hb. destruct Hb as [Hbol Hc].
  apply chars_eqb_eq in Hc. subst c.
  rewrite mt_seq. unfold space_set at 1. rewrite star_set_greedy. intros H.
  apply greedy_inv in H. destruct H as (ws & t1 & Ht0 & _ & H).
  rewrite mt_seq in H. apply name_group_inv in H.
  destruct H as (stem & ext & t & Ht1 & Hne & Hstem & Hin & H).
  exists ws, stem, ext, t. split; [rewrite Ht0, Ht1; reflexivity|].
  repeat split; assumption.
Qed.

(** ** Scanning *)

Lemma search_eq fl r ma b a :
  Re.search fl r ma b a
  = match Re.mt fl r (Re.final ma (St b a [])) (St b a []) with
    | Some e => Some (St b a [], e)
    | None => match a with
              | [] => None
              | c :: t => Re.search fl r false (c :: b) t
              end
    end.
Proof. destruct a; reflexivity. Qed.

Lemma finditer_loop_eq fl r fuel ma b a :
  Re.finditer_loop fl r (S fuel) ma b a
  = match Re.search fl r ma b a with
    | None => Some []
    | Some (s, e) =>
        match Re.finditer_loop fl r fuel (Re.pos e =? Re.pos s) (Re.bef e) (Re.aft e) with
        | Some ms => Some ((s, e) :: ms)
        | None => None
        end
    end.
Proof. reflexivity. Qed.

(** Searching skips what holds no heading marker at the start of a
    line. *)
Lemma search_quiet mid : forall ma b rest,
  quiet b mid = true -> mid <> [] \/ ma = false ->
  Re.search Re.MULTILINE file_pattern ma b (mid ++ rest)
  = Re.search Re.MULTILINE file_pattern false (rev mid ++ b) rest.
Proof.
  induction mid as [|c mid IH]; intros ma b rest Hq Hma.
  - destruct Hma as [Hma|Hma]; [congruence|]. subst ma. reflexivity.
  - simpl in Hq. apply andb_true_iff in Hq. destruct Hq as [Hc Hq].
    apply negb_true_iff in Hc.
    rewrite search_eq. change ((c :: mid) ++ rest) with (c :: mid ++ rest).
    rewrite file_pattern_none by exact Hc.
    rewrite IH by (auto). simpl. rewrite <- app_assoc. reflexivity.
Qed.

Lemma search_at_end ma b :
  Re.search Re.MULTILINE file_pattern ma b [] = None.
Proof. rewrite search_eq, file_pattern_none by exact I. reflexivity. Qed.

Lemma search_quiet_none document :
  quiet [] document = true ->
  Re.search Re.MULTILINE file_pattern false [] document = None.
Proof.
  intros Hq. rewrite <- (app_nil_r document).
  rewrite search_quiet by (auto). apply search_at_end.
Qed.

Lemma quiet_no_marker b mid :
  Forall (fun c => c <> "#"%char) mid -> quiet b mid = true.
Proof.
  intros H. revert b. induction H as [|c mid Hc _ IH]; intros b; [reflexivity|].
  simpl. rewrite IH. apply chars_eqb_neq in Hc.
  assert (Hc' : Chars.eqb "#" c = false).
  { apply chars_eqb_neq. intros E. apply chars_eqb_neq in Hc. congruence. }
  rewrite Hc'. rewrite andb_false_r. reflexivity.
Qed.

(** A document without a heading marker at the start of a line has no
    blocks. *)
Lemma scan_quiet document : quiet [] document = true -> scan document = [].
Proof.
  intros Hq. unfold scan, scan_raw, Re.findall, Re.finditer, Re.finditer_fuel.
  replace (2 * length document + 2) with (S (2 * length document + 1)) by lia.
  rewrite finditer_loop_eq, (search_quiet_none _ Hq). reflexivity.
Qed.

Lemma scan_whitespace document :
  Forall (fun c => Chars.is_space c = true) document -> scan document = [].
Proof.
  intros H. apply scan_quiet. apply quiet_no_marker.
  eapply List.Forall_impl; [|exact H]. intros c Hc E. subst c. discriminate Hc.
Qed.

Lemma isfile_log path w b e :
  isfile path w = (Ret b, w) -> isfile path (add_log e w) = (Ret b, add_log e w).
Proof.
  unfold isfile. intros H. injection H as Hb. f_equal. f_equal. exact Hb.
Qed.

Lemma read_text_log path w t e :
  read_text path w = (Ret t, w) -> read_text path (add_log e w) = (Ret t, add_log e w).
Proof.
  unfold read_text.
  change (locate (add_log e w) (Path path)) with (locate w (Path path)).
  change (fs (add_log e w)) with (fs w).
  destruct (has_nul (Path path)); [discriminate|].
  destruct (dir_required path || too_long path (parts (Path path))); [discriminate|].
  destruct (locate w (Path path)) as [q|]; [|discriminate].
  destruct (fs w !! q) as [[|[tx|]]|]; try discriminate.
  intros H. inversion H; subst. reflexivity.
Qed.

(** C8: a document that is empty or all whitespace has no blocks; and
    when the document read has no blocks, [extract_full_files] logs the
    error "No files found", returns, and leaves the file system as it
    was. *)
Theorem no_blocks_is_reported
    (guess_type : str -> option str) file_path output_dir custom
    (w : world) (document : str) :
  isfile file_path w = (Ret true, w) ->
  read_text file_path w = (Ret document, w) ->
  (Forall (fun c => Chars.is_space c = true) document -> scan document = [])
  /\ (scan document = [] ->
      exists w',
        extract_full_files guess_type file_path output_dir custom w = (Ret tt, w')
        /\ fs w' = fs w
        /\ log w' = log w ++ [(INFO, MsgProcessing file_path); (ERROR, MsgNoFiles)]).
Proof.
  intros Hfile Hread. split; [apply scan_whitespace|]. intros Hscan.
  eexists. unfold extract_full_files.
  rewrite (bind_ret _ _ _ _ _ (logger_run _ _ _)).
  fold (add_log (INFO, MsgProcessing file_path) w).
  rewrite (bind_ret _ _ _ _ _ (isfile_log _ _ _ _ Hfile)).
  cbn [negb]. cbv beta iota.
  assert (Hbody : bind (read_text file_path) (fun c => ret (Some c))
                    (add_log (INFO, MsgProcessing file_path) w)
                  = (Ret (Some document), add_log (INFO, MsgProcessing file_path) w)).
  { rewrite (bind_ret _ _ _ _ _ (read_text_log _ _ _ _ Hread)). reflexivity. }
  rewrite (bind_ret _ _ _ _ _ (try_except_ret _ _ _ _ _ Hbody)).
  cbv beta iota. rewrite Hscan.
  split; [reflexivity|]. simpl. split; [reflexivity|].
  rewrite <- app_assoc. reflexivity.
Qed.

(** ** The groups of a match *)

Lemma substr_zipper b w t :
  Re.substr (rev b ++ w ++ t) (length b, length (rev w ++ b)) = w.
Proof.
  unfold Re.substr. simpl fst. simpl snd.
  rewrite <- (length_rev b) at 2. rewrite skipn_app_exact.
  rewrite length_app, length_rev.
  replace (length w + length b - length b) with (length w) by lia.
  rewrite firstn_app, Nat.sub_diag, firstn_all. simpl. apply app_nil_r.
Qed.

Lemma cap_get_new i ids new cs :
  Forall (fun kv : nat * (nat * nat) => In (fst kv) ids) new -> ~ In i ids ->
  Re.cap_get i (new ++ cs) = Re.cap_get i cs.
Proof.
  intros Hnew Hi. induction Hnew as [|[j sp] new Hj _ IH]; [reflexivity|].
  simpl. destruct (j =? i) eqn:E; [|exact IH].
  apply Nat.eqb_eq in E. subst j. contradiction.
Qed.

Lemma extension_chars ext :
  In ext extensions ->
  ext <> [] /\ Forall (fun c => Chars.is_space c = false) ext.
Proof.
  intros H. repeat (destruct H as [H|H]; [subst ext; split; [discriminate|repeat constructor]|]).
  destruct H.
Qed.

Lemma clean_head_rev_app x y : y <> [] -> clean_head (rev y) -> clean_head (rev (x ++ y)).
Proof.
  intros Hy H. rewrite rev_app_distr. destruct (rev y) as [|c r] eqn:E.
  - exfalso. apply Hy. apply (f_equal (@rev ascii)) in E.
    rewrite rev_involutive in E. exact E.
  - exact H.
Qed.

Lemma Forall_clean_head s :
  Forall (fun c => Chars.is_space c = false) s -> clean_head s.
Proof. intros H. destruct H; simpl; auto. Qed.

Lemma strip_no_space s :
  Forall (fun c => Chars.is_space c = false) s -> strip s = s.
Proof.
  intros H. apply strip_clean; apply Forall_clean_head; [exact H|].
  apply Forall_rev. exact H.
Qed.

(** What a match of the pattern in a document has in its groups 1 and 2. *)
Lemma match_groups document s e :
  In (s, e) (Re.finditer Re.MULTILINE file_pattern document) ->
  exists stem ext,
    stem <> []
    /\ Forall (fun c => Chars.is_space c = false) stem
    /\ In ext extensions
    /\ Re.group 1 e = stem ++ "."%char :: ext
    /\ Re.group 2 e = ext.
Proof.
  intros Hin. apply finditer_In in Hin. destruct Hin as (ma & Hm & Hcaps & Hsub).
  destruct s as [b a cs]. simpl in Hcaps. subst cs.
  apply heading_inv in Hm.
  destruct Hm as (ws & stem & ext & t & Ha & _ & Hne & Hstem & Hext & Hm).
  cbv zeta in Hm. set (b1 := rev ws ++ "#"%char :: b) in *.
  apply mt_forward in Hm. destruct Hm as (s' & Hfin & Hlater & new & Hnew & Hids).
  apply final_Some in Hfin. subst s'.
  exists stem, ext. repeat split; try assumption.
  - unfold Re.group. rewrite Hnew. cbn [Re.caps].
    rewrite (cap_get_new 1 _ _ _ Hids) by (simpl; intuition discriminate).
    cbn [Re.cap_get Nat.eqb]. rewrite (later_subject _ _ Hlater), subject_St.
    rewrite rev_app_distr, rev_involutive, <- app_assoc. apply substr_zipper.
  - unfold Re.group. rewrite Hnew. cbn [Re.caps].
    rewrite (cap_get_new 2 _ _ _ Hids) by (simpl; intuition discriminate).
    cbn [Re.cap_get Nat.eqb]. rewrite (later_subject _ _ Hlater), subject_St.
    replace (rev (rev (stem ++ "."%char :: ext) ++ b1) ++ t)
      with (rev ("."%char :: rev stem ++ b1) ++ ext ++ t).
    + apply substr_zipper.
    + repeat (rewrite rev_app_distr || rewrite rev_involutive
              || rewrite <- app_assoc || (progress simpl)).
      reflexivity.
Qed.

Lemma scan_In document blk :
  In blk (scan document) ->
  exists s e, In (s, e) (Re.finditer Re.MULTILINE file_pattern document)
              /\ blk = block_of (Re.groups 4 e).
Proof.
  unfold scan, scan_raw, Re.findall. rewrite map_map. intros H.
  apply in_map_iff in H. destruct H as ([s e] & Hb & Hin).
  exists s, e. split; [exact Hin|symmetry; exact Hb].
Qed.

(** C10: the file name of every block the scanner emits has no
    whitespace in it and ends with a dot and one of the nine extensions,
    and the block's extension is that suffix. *)
Theorem scanned_file_names (document : str) (blk : block) :
  In blk (scan document) ->
  Forall (fun c => Chars.is_space c = false) (fileName blk)
  /\ exists stem ext,
       stem <> []
       /\ In ext extensions
       /\ fileName blk = stem ++ "."%char :: ext
       /\ declaredExtension blk = ext.
Proof.
  intros H. apply scan_In in H. destruct H as (s & e & Hin & ->).
  apply match_groups in Hin.
  destruct Hin as (stem & ext & Hne & Hstem & Hext & Hg1 & Hg2).
  destruct (extension_chars ext Hext) as [Hen Hec].
  assert (Hname : Forall (fun c => Chars.is_space c = false) (stem ++ "."%char :: ext)).
  { apply Forall_app. split; [exact Hstem|]. constructor; [reflexivity|exact Hec]. }
  unfold block_of, Re.groups, nth_str. cbn [seq map nth fileName declaredExtension].
  rewrite Hg1, Hg2, !strip_no_space by assumption.
  split; [exact Hname|]. exists stem, ext. repeat split; assumption.
Qed.

(** ** Where the content ends *)

Lemma final_later ma s x : Re.pos s < Re.pos x -> Re.final ma s x = Some x.
Proof.
  intros H. unfold Re.final.
  replace (Re.pos x =? Re.pos s) with false by (symmetry; apply Nat.eqb_neq; lia).
  rewrite andb_false_r. reflexivity.
Qed.

Lemma lookahead_spec k b a cs :
  Re.mt Re.MULTILINE lookahead k (St b a cs)
  = if (bolb b && starts_with (py "# ") a) || match a with [] => true | _ => false end
    then k (St b a cs) else None.
Proof.
  unfold lookahead.
  destruct a as [|c1 a].
  - destruct b as [|x b]; [reflexivity|].
    change (bolb (x :: b)) with (Chars.eqb x nl).
    change (Re.mt Re.MULTILINE
              (Re.RLook false
                 (Re.RAlt (Re.RSeq Re.RBol (Re.RSeq (Re.RLit "#") (Re.RLit " "))) Re.REnd))
              k (St (x :: b) [] cs))
      with (match Re.or_else (if true && Chars.eqb x nl then None else None)
                    (Some (St (x :: b) [] cs)) with
            | Some s' => k (St (x :: b) [] (Re.caps s'))
            | None => None
            end).
    destruct (Chars.eqb x nl); reflexivity.
  - assert (Hin : forall r : option Re.mstate,
              Re.mt Re.MULTILINE
                (Re.RLook false
                   (Re.RAlt (Re.RSeq Re.RBol (Re.RSeq (Re.RLit "#") (Re.RLit " "))) Re.REnd))
                k (St b (c1 :: a) cs)
              = match Re.or_else
                        (Re.mt Re.MULTILINE
                           (Re.RSeq Re.RBol (Re.RSeq (Re.RLit "#") (Re.RLit " ")))
                           Some (St b (c1 :: a) cs))
                        None with
                | Some s' => k (St b (c1 :: a) (Re.caps s'))
                | None => None
                end) by reflexivity.
    rewrite (Hin None). rewrite heading_start, or_else_None_r.
    rewrite orb_false_r.
    change (starts_with (py "# ") (c1 :: a))
      with (Chars.eqb "#" c1 && match a with
                                | [] => false
                                | c2 :: _ => Chars.eqb " " c2 && true
                                end).
    destruct (bolb b); [|reflexivity]. cbn [andb].
    destruct (Chars.eqb "#" c1); [|reflexivity]. cbn [andb].
    rewrite mt_lit. destruct a as [|c2 a]; [reflexivity|].
    destruct (Chars.eqb " " c2); reflexivity.
Qed.

Lemma backticks_not_lookahead b a :
  starts_with (py "```") a = true ->
  (bolb b && starts_with (py "# ") a) || match a with [] => true | _ => false end
  = false.
Proof.
  destruct a as [|c a]; [discriminate|]. simpl. intros H.
  apply andb_true_iff in H. destruct H as [H _]. apply chars_eqb_eq in H. subst c.
  rewrite andb_false_r. reflexivity.
Qed.

(** The terminator accepts exactly the boundaries: it reads three
    backticks, or stays before a heading line or at the end. *)
Lemma terminator_spec k b a cs :
  Re.mt Re.MULTILINE terminator k (St b a cs)
  = if starts_with (py "```") a
    then k (St (rev (py "```") ++ b) (skipn 3 a) cs)
    else if (bolb b && starts_with (py "# ") a)
            || match a with [] => true | _ => false end
         then k (St b a cs) else None.
Proof.
  unfold terminator. rewrite mt_alt. unfold backticks.
  rewrite mt_lit_word by discriminate. rewrite lookahead_spec.
  destruct (starts_with (py "```") a) eqn:Hs.
  - rewrite (backticks_not_lookahead b a Hs). apply or_else_None_r.
  - reflexivity.
Qed.

Lemma terminator_boundary k b a cs e :
  Re.mt Re.MULTILINE terminator k (St b a cs) = Some e -> boundary b a = true.
Proof.
  rewrite terminator_spec. unfold boundary.
  destruct (starts_with (py "```") a); [reflexivity|]. simpl.
  destruct (_ || _); [reflexivity|discriminate].
Qed.

Lemma terminator_caps k b a cs e :
  (forall x, k x = Some e -> x = e) ->
  Re.mt Re.MULTILINE terminator k (St b a cs) = Some e -> Re.caps e = cs.
Proof.
  intros Hk. rewrite terminator_spec.
  destruct (starts_with (py "```") a).
  - intros H. apply Hk in H. subst e. reflexivity.
  - destruct (_ || _); [|discriminate]. intros H. apply Hk in H. subst e. reflexivity.
Qed.

Lemma terminator_none s0 ma b a cs :
  Re.pos s0 < length b ->
  Re.mt Re.MULTILINE terminator (Re.final ma s0) (St b a cs) = None ->
  boundary b a = false.
Proof.
  intros Hpos. rewrite terminator_spec. unfold boundary.
  destruct (starts_with (py "```") a).
  - rewrite final_later; [discriminate|]. unfold Re.pos in *. simpl. lia.
  - simpl. destruct (_ || _); [|reflexivity].
    rewrite final_later; [discriminate|]. exact Hpos.
Qed.

Lemma fails_before_nth k b w t cs :
  fails_before k b w t cs ->
  forall m, m < length w ->
    k (St (rev (firstn m w) ++ b) (skipn m w ++ t) cs) = None.
Proof.
  revert b. induction w as [|c w IH]; intros b Hf m Hm; [simpl in Hm; lia|].
  simpl in Hf. destruct Hf as [H0 Hf]. destruct m as [|m]; [exact H0|].
  simpl. rewrite <- app_assoc. simpl. apply IH; [exact Hf|simpl in Hm; lia].
Qed.

Lemma boundary_at_zipper b w t m :
  m <= length w ->
  boundary_at (rev b ++ w ++ t) (length b + m)
  = boundary (rev (firstn m w) ++ b) (skipn m w ++ t).
Proof.
  intros Hm. unfold boundary_at.
  assert (Hl : length (rev b) = length b) by apply length_rev.
  rewrite firstn_app, skipn_app, Hl.
  replace (length b + m - length b) with m by lia.
  rewrite firstn_all2 by lia. rewrite skipn_all2 by lia.
  rewrite firstn_app, skipn_app.
  replace (m - length w) with 0 by lia. simpl.
  rewrite app_nil_r. rewrite rev_app_distr, rev_involutive. reflexivity.
Qed.

(** The span of group 4 in a match: it ends at a boundary, and there is
    no boundary in it before its end. *)
Lemma content_span document s e :
  In (s, e) (Re.finditer Re.MULTILINE file_pattern document) ->
  exists i j,
    Re.cap_get 4 (Re.caps e) = Some (i, j)
    /\ i <= j <= length document
    /\ boundary_at document j = true
    /\ (forall n, i <= n < j -> boundary_at document n = false).
Proof.
  intros Hin. apply finditer_In in Hin. destruct Hin as (ma & Hm & Hcaps & Hsub).
  destruct s as [b a cs]. simpl in Hcaps. subst cs.
  set (s0 := St b a []) in *.
  apply heading_inv in Hm.
  destruct Hm as (ws & stem & ext & t & Ha & _ & Hne & Hstem & Hext & Hm).
  cbv zeta in Hm.
  set (s1 := St _ t _) in Hm.
  assert (Hpos1 : Re.pos s0 < Re.pos s1).
  { unfold s0, s1, Re.pos. cbn [Re.bef].
    repeat (rewrite length_app || rewrite length_rev || (progress simpl)). lia. }
  assert (Hsub1 : Re.subject s1 = document).
  { rewrite <- Hsub. unfold s1, s0. rewrite !subject_St, Ha.
    repeat (rewrite rev_app_distr || rewrite rev_involutive
            || rewrite <- app_assoc || (progress simpl)).
    reflexivity. }
  unfold tail_pattern in Hm. rewrite mt_seq in Hm.
  apply mt_forward in Hm. destruct Hm as (s2 & Hm & (Hl2 & _)).
  rewrite mt_seq in Hm. apply mt_forward in Hm. destruct Hm as (s3 & Hm & (Hl3 & _)).
  unfold fenced_pattern in Hm. rewrite mt_seq in Hm.
  apply mt_forward in Hm. destruct Hm as (s4 & Hm & (Hl4 & _)).
  assert (Hl : later s1 s4) by (eapply later_trans; [eapply later_trans|]; eassumption).
  assert (Hpos4 : Re.pos s0 < Re.pos s4) by (apply later_pos in Hl; lia).
  assert (Hsub4 : Re.subject s4 = document) by (rewrite (later_subject _ _ Hl); exact Hsub1).
  clear Hl2 Hl3 Hl4 Hl Hsub1 Hpos1. clearbody s1. clear s1 s2 s3.
  destruct s4 as [b4 a4 cs4]. unfold Re.pos in Hpos4. simpl in Hpos4.
  rewrite subject_St in Hsub4.
  unfold body_pattern, content_group in Hm. rewrite mt_seq, mt_group in Hm.
  unfold any_set in Hm. rewrite star_set_lazy in Hm.
  apply lazy_inv in Hm. destruct Hm as (w & t' & Ha4 & _ & Hk & Hmin).
  unfold Re.set_cap, Re.pos in Hk. cbn [Re.bef Re.aft Re.caps] in Hk.
  exists (length b4), (length (rev w ++ b4)).
  assert (Hdoc : document = rev b4 ++ w ++ t') by (rewrite <- Hsub4, Ha4; reflexivity).
  split; [|split; [|split]].
  - rewrite (terminator_caps _ _ _ _ _ (fun x => final_Some ma s0 x e) Hk). simpl. reflexivity.
  - rewrite Hdoc, !length_app, !length_rev. lia.
  - rewrite Hdoc. rewrite length_app, length_rev, Nat.add_comm.
    rewrite boundary_at_zipper by lia.
    rewrite firstn_all, skipn_all. simpl.
    eapply terminator_boundary. exact Hk.
  - intros n Hn. rewrite length_app, length_rev in Hn.
    replace n with (length b4 + (n - length b4)) by lia.
    rewrite Hdoc, boundary_at_zipper by lia.
    pose proof (fails_before_nth _ _ _ _ _ Hmin (n - length b4)) as Hf.
    cbv beta in Hf. unfold Re.set_cap, Re.pos in Hf. cbn [Re.bef Re.aft Re.caps] in Hf.
    eapply terminator_none; [|apply Hf; lia].
    unfold s0, Re.pos. simpl. rewrite length_app. lia.
Qed.

Ltac list_norm :=
  repeat (rewrite rev_app_distr || rewrite rev_involutive
          || rewrite <- app_assoc || (progress simpl)).

(** ** Matching a heading *)

Lemma space_not_nl c : Chars.is_space c = false -> Chars.eqb nl c = false.
Proof.
  intros H. apply chars_eqb_neq. intros E. subst c. discriminate H.
Qed.

(** After the name there has to be whitespace up to a newline. *)
Lemma tail_pattern_none k b c rest cs :
  Chars.is_space c = false ->
  Re.mt Re.MULTILINE tail_pattern k (St b (c :: rest) cs) = None.
Proof.
  intros Hc. unfold tail_pattern. rewrite mt_seq. unfold space_set.
  rewrite star_set_greedy, greedy_stop by (unfold stop; rewrite space_set_match; exact Hc).
  rewrite mt_seq, mt_lit, (space_not_nl c Hc). reflexivity.
Qed.

(** The alternatives are tried in order; an earlier one that is a prefix
    of the extension is given up when what follows it is not
    whitespace. *)
Lemma ext_fwd K b ext t cs :
  In ext extensions ->
  (forall c rest b', Chars.is_space c = false -> K (St b' (c :: rest) cs) = None) ->
  Re.mt Re.MULTILINE ext_alt K (St b (ext ++ nl :: t) cs)
  = K (St (rev ext ++ b) (nl :: t) cs).
Proof.
  intros Hin HK. unfold ext_alt, extensions in *.
  repeat (destruct Hin as [Hin|Hin];
          [subst ext; cbn [alt_words]; rewrite ?mt_alt, !mt_lit_word by discriminate;
           simpl; rewrite ?HK by reflexivity; simpl;
           rewrite ?or_else_None_r; reflexivity|]).
  destruct Hin.
Qed.

Lemma nonspace_run s :
  Forall (fun c => Chars.is_space c = false) s ->
  Forall (fun c => Re.set_match Re.MULTILINE false [Re.CSpace true] c = true) s.
Proof.
  intros H. eapply List.Forall_impl; [|exact H]. intros c Hc. cbv beta.
  rewrite nonspace_set_match, Hc. reflexivity.
Qed.

Lemma dot_ext_fails K b ext t cs :
  In ext extensions ->
  fails_after (Re.mt Re.MULTILINE (Re.RSeq (Re.RLit ".") K.1) K.2) b
    ("."%char :: ext) (nl :: t) cs.
Proof.
  intros Hin. unfold extensions in Hin.
  repeat (destruct Hin as [Hin|Hin];
          [subst ext; simpl; repeat split; reflexivity|]).
  destruct Hin.
Qed.

Lemma name_group_fwd k b c0 stem ext t cs e :
  Chars.is_space c0 = false ->
  Forall (fun c => Chars.is_space c = false) stem ->
  In ext extensions ->
  Re.mt Re.MULTILINE tail_pattern k
    (St (rev ext ++ "."%char :: rev stem ++ c0 :: b) (nl :: t)
       ((1, (length b, length (rev ext ++ "."%char :: rev stem ++ c0 :: b)))
        :: (2, (length ("."%char :: rev stem ++ c0 :: b),
                length (rev ext ++ "."%char :: rev stem ++ c0 :: b)))
        :: cs))
  = Some e ->
  Re.mt Re.MULTILINE name_group (Re.mt Re.MULTILINE tail_pattern k)
    (St b (c0 :: stem ++ "."%char :: ext ++ nl :: t) cs)
  = Some e.
Proof.
  intros Hc0 Hstem Hext Htail.
  unfold name_group. rewrite mt_group, mt_seq. unfold nonspace_set.
  rewrite mt_plus_set, nonspace_set_match, Hc0. cbn [negb].
  apply greedy_deep; [apply nonspace_run; exact Hstem|].
  change ("."%char :: ext ++ nl :: t) with (("."%char :: ext) ++ nl :: t).
  rewrite greedy_backtrack.
  - rewrite mt_seq, mt_lit. cbn [app]. rewrite chars_eqb_refl.
    rewrite mt_group. rewrite ext_fwd.
    + unfold Re.set_cap, Re.pos. cbn [Re.bef Re.aft Re.caps]. exact Htail.
    + exact Hext.
    + intros c rest b' Hc. apply tail_pattern_none. exact Hc.
  - apply nonspace_run. constructor; [reflexivity|].
    apply (extension_chars ext Hext).
  - unfold stop. rewrite nonspace_set_match. reflexivity.
  - apply (dot_ext_fails (_, _)). exact Hext.
Qed.

(** A heading line matches up to its name when what follows the name
    matches. *)
Lemma heading_fwd k b stem ext t cs e :
  bolb b = true ->
  stem <> [] ->
  Forall (fun c => Chars.is_space c = false) stem ->
  In ext extensions ->
  let b1 := " "%char :: "#"%char :: b in
  Re.mt Re.MULTILINE tail_pattern k
    (St (rev (stem ++ "."%char :: ext) ++ b1) (nl :: t)
       ((1, (length b1, length (rev (stem ++ "."%char :: ext) ++ b1)))
        :: (2, (length ("."%char :: rev stem ++ b1),
                length (rev ext ++ "."%char :: rev stem ++ b1)))
        :: cs))
  = Some e ->
  Re.mt Re.MULTILINE file_pattern k
    (St b ("#"%char :: " "%char :: stem ++ "."%char :: ext ++ nl :: t) cs)
  = Some e.
Proof.
  intros Hbol Hne Hstem Hext b1 Htail.
  rewrite file_pattern_parts, heading_start, Hbol, chars_eqb_refl. cbn [andb].
  rewrite mt_seq. unfold space_set at 1. rewrite star_set_greedy.
  destruct stem as [|c0 stem]; [congruence|].
  inversion Hstem as [|? ? Hc0 Hstem']; subst. cbn [app].
  apply (greedy_deep _ _ _ _ [" "%char]); [repeat constructor|].
  rewrite greedy_stop by (unfold stop; rewrite space_set_match; exact Hc0).
  rewrite mt_seq. apply name_group_fwd; try assumption.
  assert (E1 : rev ((c0 :: stem) ++ "."%char :: ext) ++ b1
               = rev ext ++ "."%char :: rev stem ++ c0 :: b1).
  { simpl. rewrite rev_app_distr. simpl. rewrite <- !app_assoc. reflexivity. }
  assert (E2 : rev (c0 :: stem) ++ b1 = rev stem ++ c0 :: b1).
  { simpl. rewrite <- app_assoc. reflexivity. }
  rewrite E1, E2 in Htail. exact Htail.
Qed.

(** ** After the heading *)

Lemma prefix_split (P : ascii -> Prop) w : forall u R t,
  Forall P w ->
  (R = [] \/ exists c R', R = c :: R' /\ ~ P c) ->
  u ++ R = w ++ t ->
  exists u', u = w ++ u' /\ t = u' ++ R.
Proof.
  induction w as [|c w IH]; intros u R t Hw HR Heq.
  - exists u. split; [reflexivity|]. symmetry. exact Heq.
  - inversion Hw as [|? ? Hc Hw']; subst.
    destruct u as [|c' u].
    + simpl in Heq. destruct HR as [HR|(x & R' & HR & Hx)]; subst R; [discriminate|].
      inversion Heq; subst. contradiction.
    + simpl in Heq. inversion Heq; subst c'.
      destruct (IH u R t Hw' HR) as (u' & Hu & Ht); [assumption|].
      exists u'. split; [simpl; congruence|exact Ht].
Qed.

Lemma last_nl_split ws :
  In nl ws -> exists w1 w2, ws = w1 ++ nl :: w2 /\ Forall (fun c => c <> nl) w2.
Proof.
  induction ws as [|c ws IH]; intros Hin; [destruct Hin|].
  destruct (in_dec ascii_dec nl ws) as [Hws|Hws].
  - destruct (IH Hws) as (w1 & w2 & Heq & Hw2).
    exists (c :: w1), w2. split; [simpl; congruence|exact Hw2].
  - destruct Hin as [Hc|Hin]; [|contradiction]. subst c.
    exists [], ws. split; [reflexivity|].
    apply List.Forall_forall. intros x Hx E. subst x. contradiction.
Qed.

Lemma nl_fails_after X k cs w2 : forall r b,
  Forall (fun c => c <> nl) w2 ->
  stop Chars.is_space r ->
  Re.mt Re.MULTILINE (Re.RSeq (Re.RLit nl) X) k (St b (w2 ++ r) cs) = None
  /\ fails_after (Re.mt Re.MULTILINE (Re.RSeq (Re.RLit nl) X) k) b w2 r cs.
Proof.
  induction w2 as [|c w2 IH]; intros r b Hw Hr.
  - split; [|exact I]. rewrite mt_seq, mt_lit. simpl.
    destruct r as [|c r]; [reflexivity|]. simpl in Hr.
    rewrite (space_not_nl c Hr). reflexivity.
  - inversion Hw as [|? ? Hc Hw']; subst.
    destruct (IH r (c :: b) Hw' Hr) as [H1 H2]. split.
    + rewrite mt_seq, mt_lit. simpl.
      replace (Chars.eqb nl c) with false; [reflexivity|].
      symmetry. apply chars_eqb_neq. congruence.
    + simpl. split; assumption.
Qed.

Lemma space_run s :
  Forall (fun c => Chars.is_space c = true) s ->
  Forall (fun c => Re.set_match Re.MULTILINE false [Re.CSpace false] c = true) s.
Proof.
  intros H. eapply List.Forall_impl; [|exact H]. intros c Hc. cbv beta.
  rewrite space_set_match. exact Hc.
Qed.

(** The whitespace after the name is read up to its last newline. *)
Lemma tail_fwd k b l cs :
  exists w1 w2 r,
    nl :: l = w1 ++ nl :: w2 ++ r
    /\ Forall (fun c => Chars.is_space c = true) (w1 ++ nl :: w2)
    /\ stop Chars.is_space r
    /\ forall e,
         Re.mt Re.MULTILINE fenced_pattern k (St (nl :: rev w1 ++ b) (w2 ++ r) cs)
         = Some e ->
         Re.mt Re.MULTILINE tail_pattern k (St b (nl :: l) cs) = Some e.
Proof.
  destruct (lstrip_split (nl :: l)) as (ws & Hsplit & Hws).
  assert (Hin : In nl ws).
  { destruct ws as [|c ws]; [|simpl in Hsplit; inversion Hsplit; left; reflexivity].
    exfalso. simpl in Hsplit.
    pose proof (lstrip_clean l) as Hc. rewrite <- Hsplit in Hc. discriminate Hc. }
  destruct (last_nl_split ws Hin) as (w1 & w2 & Hw & Hw2).
  exists w1, w2, (lstrip (nl :: l)).
  assert (Hstop : stop Chars.is_space (lstrip (nl :: l))).
  { pose proof (lstrip_clean (nl :: l)) as Hc. unfold clean_head in Hc. unfold stop.
    destruct (lstrip (nl :: l)); auto. }
  subst ws. split; [rewrite Hsplit at 1; rewrite <- app_assoc; reflexivity|].
  split; [exact Hws|]. split; [exact Hstop|].
  intros e He. unfold tail_pattern. rewrite mt_seq. unfold space_set.
  rewrite star_set_greedy. rewrite Hsplit, <- app_assoc.
  apply Forall_app in Hws. destruct Hws as [Hw1 Hnw2].
  apply greedy_deep; [apply space_run; exact Hw1|].
  change ((nl :: w2) ++ lstrip (nl :: l)) with (nl :: w2 ++ lstrip (nl :: l)).
  change (nl :: w2 ++ lstrip (nl :: l)) with ((nl :: w2) ++ lstrip (nl :: l)).
  rewrite greedy_backtrack.
  - rewrite mt_seq, mt_lit. cbn [app]. rewrite chars_eqb_refl. exact He.
  - apply space_run. exact Hnw2.
  - unfold stop in *. destruct (lstrip (nl :: l)) as [|c r]; [exact I|].
    rewrite space_set_match. exact Hstop.
  - cbn [fails_after]. apply nl_fails_after; assumption.
Qed.

Lemma word_not_marker c : Chars.is_word c = true -> c <> "#"%char.
Proof. intros H E. subst c. discriminate H. Qed.

(** A fence opener reads no heading marker. *)
Lemma fence_inv K b a cs e :
  Re.mt Re.MULTILINE fence K (St b a cs) = Some e ->
  exists w t cs',
    a = w ++ t /\ Forall (fun c => c <> "#"%char) w
    /\ K (St (rev w ++ b) t cs') = Some e.
Proof.
  unfold fence. intros H.
  rewrite mt_seq, mt_lit in H. destruct a as [|c1 a]; [discriminate|].
  destruct (Chars.eqb "`" c1) eqn:E1; [|discriminate]. apply chars_eqb_eq in E1. subst c1.
  rewrite mt_seq, mt_lit in H. destruct a as [|c2 a]; [discriminate|].
  destruct (Chars.eqb "`" c2) eqn:E2; [|discriminate]. apply chars_eqb_eq in E2. subst c2.
  rewrite mt_seq, mt_lit in H. destruct a as [|c3 a]; [discriminate|].
  destruct (Chars.eqb "`" c3) eqn:E3; [|discriminate]. apply chars_eqb_eq in E3. subst c3.
  rewrite mt_seq, mt_opt in H. apply or_else_Some in H. destruct H as [H|[_ H]].
  - rewrite mt_group in H. unfold word_set in H. rewrite mt_plus_set in H.
    destruct a as [|c a]; [discriminate|]. rewrite word_set_match in H.
    destruct (Chars.is_word c) eqn:Hc; [|discriminate].
    apply greedy_inv in H. destruct H as (w & t1 & Ha & Hw & H).
    cbv beta in H. unfold Re.set_cap in H. cbn [Re.bef Re.aft Re.caps] in H.
    rewrite mt_lit in H. destruct t1 as [|x t]; [discriminate|].
    destruct (Chars.eqb nl x) eqn:Ex; [|discriminate]. apply chars_eqb_eq in Ex. subst x.
    exists (py "```" ++ c :: w ++ [nl]), t. eexists. split; [|split].
    + simpl. rewrite Ha, <- app_assoc. reflexivity.
    + simpl. repeat (constructor; [discriminate|]). constructor; [apply word_not_marker; exact Hc|].
      apply Forall_app. split.
      * eapply List.Forall_impl; [|exact Hw]. intros x Hx. cbv beta in Hx.
        rewrite word_set_match in Hx. apply word_not_marker. exact Hx.
      * constructor; [discriminate|constructor].
    + replace (rev (py "```" ++ c :: w ++ [nl]) ++ b)
        with (nl :: rev w ++ c :: "`"%char :: "`"%char :: "`"%char :: b).
      * exact H.
      * simpl. rewrite rev_app_distr. simpl. rewrite <- !app_assoc. reflexivity.
  - rewrite mt_lit in H. destruct a as [|x t]; [discriminate|].
    destruct (Chars.eqb nl x) eqn:Ex; [|discriminate]. apply chars_eqb_eq in Ex. subst x.
    exists (py "```" ++ [nl]), t, cs. split; [reflexivity|]. split.
    + repeat (constructor; [discriminate|]). constructor.
    + exact H.
Qed.

Lemma marker_not_backticks R :
  starts_with (py "# ") R = true -> starts_with (py "```") R = false.
Proof.
  destruct R as [|c R]; [discriminate|]. simpl. intros H.
  apply andb_true_iff in H. destruct H as [H _]. apply chars_eqb_eq in H. subst c.
  reflexivity.
Qed.

Lemma backticks_within y R :
  starts_with (py "```") (y ++ R) = true ->
  (R = [] \/ starts_with (py "# ") R = true) ->
  exists y', y = py "```" ++ y'.
Proof.
  intros H HR.
  assert (HnR : forall c R', R = c :: R' -> Chars.eqb "`" c = false).
  { intros c R' E. destruct HR as [HR|HR]; [congruence|]. subst R. simpl in HR.
    apply andb_true_iff in HR. destruct HR as [HR _]. apply chars_eqb_eq in HR.
    subst c. reflexivity. }
  destruct y as [|c1 [|c2 [|c3 y]]]; simpl in H.
  - destruct R as [|c R]; [discriminate|]. rewrite (HnR c R eq_refl) in H. discriminate.
  - apply andb_true_iff in H. destruct H as [_ H].
    destruct R as [|c R]; [discriminate|]. rewrite (HnR c R eq_refl) in H. discriminate.
  - apply andb_true_iff in H. destruct H as [_ H].
    apply andb_true_iff in H. destruct H as [_ H].
    destruct R as [|c R]; [discriminate|]. rewrite (HnR c R eq_refl) in H. discriminate.
  - apply andb_true_iff in H. destruct H as [H1 H].
    apply andb_true_iff in H. destruct H as [H2 H].
    apply andb_true_iff in H. destruct H as [H3 _].
    apply chars_eqb_eq in H1, H2, H3. subst. exists y. reflexivity.
Qed.

Lemma any_run u :
  Forall (fun c => Re.set_match Re.MULTILINE false
                     [Re.CSpace false; Re.CSpace true] c = true) u.
Proof. apply List.Forall_forall. intros c _. apply any_set_match. Qed.

(** The content and its terminator always match, and end no later than
    the next heading line or the end of the document. *)
Lemma body_fwd b u R cs :
  (R = [] \/ (starts_with (py "# ") R = true /\ bolb (rev u ++ b) = true)) ->
  exists e x y,
    u = x ++ y
    /\ Re.mt Re.MULTILINE body_pattern Some (St b (u ++ R) cs) = Some e
    /\ Re.bef e = rev x ++ b /\ Re.aft e = y ++ R.
Proof.
  intros HR. unfold body_pattern, content_group. rewrite mt_seq, mt_group.
  unfold any_set. rewrite star_set_lazy.
  set (K := fun s' : Re.mstate =>
              Re.mt Re.MULTILINE terminator Some
                (Re.set_cap 4 (Re.pos (St b (u ++ R) cs), Re.pos s') s')).
  assert (Hend : exists e', K (St (rev u ++ b) R cs) = Some e').
  { unfold K. unfold Re.set_cap, Re.pos. cbn [Re.bef Re.aft Re.caps].
    rewrite terminator_spec.
    destruct HR as [HR|[HR Hbol]].
    - subst R. simpl. rewrite andb_false_r. simpl. eexists. reflexivity.
    - rewrite (marker_not_backticks R HR), Hbol, HR. simpl. eexists. reflexivity. }
  destruct Hend as (e' & Hend).
  destruct (lazy_fwd _ K cs e' u R b (any_run u) Hend) as (x & y & e & Hu & Hl & Hk).
  exists e.
  unfold K in Hk. unfold Re.set_cap, Re.pos in Hk. cbn [Re.bef Re.aft Re.caps] in Hk.
  rewrite terminator_spec in Hk.
  destruct (starts_with (py "```") (y ++ R)) eqn:Hbt.
  - destruct (backticks_within y R Hbt) as (y' & Hy).
    { destruct HR as [HR|[HR _]]; auto. }
    exists (x ++ py "```"), y'. subst y.
    split; [rewrite Hu, <- app_assoc; reflexivity|]. split; [exact Hl|].
    inversion Hk; subst e. simpl. split.
    + rewrite rev_app_distr. simpl. reflexivity.
    + reflexivity.
  - exists x, y. split; [exact Hu|]. split; [exact Hl|].
    destruct (_ || _); [|discriminate]. inversion Hk; subst e. split; reflexivity.
Qed.

Lemma fenced_fwd b u R cs :
  (R = [] \/ (starts_with (py "# ") R = true /\ bolb (rev u ++ b) = true)) ->
  exists e x y,
    u = x ++ y
    /\ Re.mt Re.MULTILINE fenced_pattern Some (St b (u ++ R) cs) = Some e
    /\ Re.bef e = rev x ++ b /\ Re.aft e = y ++ R.
Proof.
  intros HR. unfold fenced_pattern. rewrite mt_seq, mt_opt.
  destruct (Re.mt Re.MULTILINE fence (Re.mt Re.MULTILINE body_pattern Some)
              (St b (u ++ R) cs)) as [e|] eqn:Hf.
  - apply fence_inv in Hf. destruct Hf as (w & t & cs' & Hsplit & Hw & Hk).
    destruct (prefix_split (fun c => c <> "#"%char) w u R t Hw) as (u' & Hu & Ht).
    { destruct HR as [HR|[HR _]]; [left; exact HR|right].
      destruct R as [|c R']; [discriminate|]. simpl in HR.
      apply andb_true_iff in HR. destruct HR as [HR _]. apply chars_eqb_eq in HR.
      subst c. exists "#"%char, R'. split; [reflexivity|]. intros E. apply E. reflexivity. }
    { exact Hsplit. }
    subst u t.
    destruct (body_fwd (rev w ++ b) u' R cs') as (e2 & x & y & Hu' & Hm & Hb & Ha).
    { destruct HR as [HR|[HR Hbol]]; [left; exact HR|right]. split; [exact HR|].
      rewrite rev_app_distr, <- app_assoc in Hbol. exact Hbol. }
    rewrite Hk in Hm. inversion Hm; subst e2.
    exists e, (w ++ x), y. split; [rewrite Hu', app_assoc; reflexivity|].
    split; [reflexivity|]. split; [|exact Ha].
    rewrite Hb, rev_app_distr, <- app_assoc. reflexivity.
  - simpl. apply body_fwd. exact HR.
Qed.

Lemma bolb_app x c y : bolb (x ++ c :: y) = bolb (x ++ [c]).
Proof. destruct x; reflexivity. Qed.

Lemma ends_line_bol body b : ends_line body = true -> bolb (rev body ++ nl :: b) = true.
Proof.
  unfold ends_line. intros H. destruct (rev body) as [|c r]; [reflexivity|exact H].
Qed.

(** After the name of a heading line the pattern always matches, and the
    match ends within the text that follows the name, before the next
    heading line. *)
Lemma tail_bound b body R cs :
  (R = [] \/ (starts_with (py "# ") R = true /\ ends_line body = true)) ->
  exists e x y,
    nl :: body = x ++ y /\ x <> []
    /\ Re.mt Re.MULTILINE tail_pattern Some (St b (nl :: body ++ R) cs) = Some e
    /\ Re.bef e = rev x ++ b /\ Re.aft e = y ++ R.
Proof.
  intros HR.
  destruct (tail_fwd Some b (body ++ R) cs) as (w1 & w2 & r & Hsplit & Hws & Hstop & Hfwd).
  destruct (prefix_split (fun c => Chars.is_space c = true) (w1 ++ nl :: w2)
              (nl :: body) R r Hws) as (r0 & Hbody & Hr).
  { destruct HR as [HR|[HR _]]; [left; exact HR|right].
    destruct R as [|c R']; [discriminate|]. simpl in HR.
    apply andb_true_iff in HR. destruct HR as [HR _]. apply chars_eqb_eq in HR.
    subst c. exists "#"%char, R'. split; [reflexivity|]. discriminate. }
  { simpl. rewrite Hsplit, <- app_assoc. reflexivity. }
  subst r.
  destruct (fenced_fwd (nl :: rev w1 ++ b) (w2 ++ r0) R cs) as (e & x & y & Hu & Hm & Hb & Ha).
  { destruct HR as [HR|[HR Hel]]; [left; exact HR|right]. split; [exact HR|].
    assert (E : rev (w2 ++ r0) ++ nl :: rev w1 ++ b = rev body ++ nl :: b).
    { change (rev body ++ nl :: b) with (rev body ++ [nl] ++ b).
      rewrite (app_assoc (rev body)).
      change (rev body ++ [nl]) with (rev (nl :: body)).
      rewrite Hbody. list_norm. reflexivity. }
    rewrite E. apply ends_line_bol. exact Hel. }
  exists e, (w1 ++ nl :: x), y. split.
  { rewrite Hbody. list_norm. rewrite Hu. reflexivity. }
  split; [destruct w1; discriminate|]. split.
  { apply Hfwd. rewrite <- app_assoc in Hm. exact Hm. }
  split; [|exact Ha].
  rewrite Hb. list_norm. reflexivity.
Qed.

(** ** Scanning a well-formed document *)

Lemma finditer_loop_quiet fuel mid b rest :
  quiet b mid = true ->
  Re.finditer_loop Re.MULTILINE file_pattern fuel false b (mid ++ rest)
  = Re.finditer_loop Re.MULTILINE file_pattern fuel false (rev mid ++ b) rest.
Proof.
  intros Hq. destruct fuel as [|fuel]; [reflexivity|].
  rewrite !finditer_loop_eq, search_quiet by auto. reflexivity.
Qed.

Lemma quiet_bol mid : forall b b', bolb b = bolb b' -> quiet b mid = quiet b' mid.
Proof.
  induction mid as [|x mid IH]; intros b b' H; [reflexivity|].
  simpl. rewrite H. f_equal. apply IH. reflexivity.
Qed.

Lemma quiet_head c b mid : quiet (c :: b) mid = quiet [c] mid.
Proof. apply quiet_bol. reflexivity. Qed.

Lemma quiet_suffix x : forall b y, quiet b (x ++ y) = true -> quiet (rev x ++ b) y = true.
Proof.
  induction x as [|c x IH]; intros b y H; [exact H|].
  simpl in H. apply andb_true_iff in H. destruct H as [_ H].
  simpl. rewrite <- app_assoc. apply IH. exact H.
Qed.

Lemma quiet_after_heading b body :
  quiet [nl] body = true -> quiet b (nl :: body) = true.
Proof.
  intros H. simpl. rewrite quiet_head, H.
  replace (Chars.eqb "#" nl) with false by reflexivity.
  rewrite andb_false_r. reflexivity.
Qed.

(** The groups 1 and 2 of a match whose heading has been read. *)
Lemma tail_groups k b1 stem ext t cs e :
  (forall x, k x = Some e -> x = e) ->
  Re.mt Re.MULTILINE tail_pattern k
    (St (rev (stem ++ "."%char :: ext) ++ b1) t
       ((1, (length b1, length (rev (stem ++ "."%char :: ext) ++ b1)))
        :: (2, (length ("."%char :: rev stem ++ b1),
                length (rev ext ++ "."%char :: rev stem ++ b1)))
        :: cs))
  = Some e ->
  Re.group 1 e = stem ++ "."%char :: ext /\ Re.group 2 e = ext.
Proof.
  intros Hk Hm.
  apply mt_forward in Hm. destruct Hm as (s' & Hfin & Hlater & new & Hnew & Hids).
  apply Hk in Hfin. subst s'. split.
  - unfold Re.group. rewrite Hnew. cbn [Re.caps].
    rewrite (cap_get_new 1 _ _ _ Hids) by (simpl; intuition discriminate).
    cbn [Re.cap_get Nat.eqb]. rewrite (later_subject _ _ Hlater), subject_St.
    rewrite rev_app_distr, rev_involutive, <- app_assoc. apply substr_zipper.
  - unfold Re.group. rewrite Hnew. cbn [Re.caps].
    rewrite (cap_get_new 2 _ _ _ Hids) by (simpl; intuition discriminate).
    cbn [Re.cap_get Nat.eqb]. rewrite (later_subject _ _ Hlater), subject_St.
    replace (rev (rev (stem ++ "."%char :: ext) ++ b1) ++ t)
      with (rev ("."%char :: rev stem ++ b1) ++ ext ++ t).
    + apply substr_zipper.
    + list_norm. reflexivity.
Qed.

Lemma length_render_blocks hs : length hs <= length (render_blocks hs).
Proof.
  induction hs as [|h hs IH]; [simpl; lia|].
  unfold render_blocks in *. simpl. rewrite length_app. simpl. lia.
Qed.

Lemma render_blocks_followed h hs :
  bodies_end_lines (h :: hs) -> followed (hb_body h) (render_blocks hs).
Proof.
  destruct hs as [|h' hs]; [left; reflexivity|].
  intros [He _]. right. split; [reflexivity|exact He].
Qed.

Lemma bodies_end_lines_tail h hs : bodies_end_lines (h :: hs) -> bodies_end_lines hs.
Proof. destruct hs as [|h' hs]; [intros _; exact I|]. intros [_ H]. exact H. Qed.

Section Loop.

(** The blocks under consideration, and what is known of the match of
    one of them. *)
Variable good : heading_block -> Prop.
Variable result : heading_block -> Re.mstate -> Prop.

Hypothesis good_quiet : forall h, good h -> quiet [nl] (hb_body h) = true.

(** At a heading line the pattern matches, and the match ends within
    the block. *)
Hypothesis good_match : forall h b rest,
  good h -> bolb b = true -> followed (hb_body h) rest ->
  exists e x y,
    nl :: hb_body h = x ++ y /\ x <> []
    /\ Re.mt Re.MULTILINE file_pattern Some (St b (render_block h ++ rest) [])
       = Some e
    /\ Re.bef e = rev x ++ rev (block_name h) ++ " "%char :: "#"%char :: b
    /\ Re.aft e = y ++ rest
    /\ result h e.

(** The matches are the blocks, one for one and in order. *)
Lemma loop_blocks hs : forall fuel b,
  length hs < fuel ->
  Forall good hs ->
  bodies_end_lines hs ->
  hs = [] \/ bolb b = true ->
  exists ms,
    Re.finditer_loop Re.MULTILINE file_pattern fuel false b (render_blocks hs)
    = Some ms
    /\ Forall2 (fun h m => result h (snd m)) hs ms.
Proof using good_quiet good_match.
  induction hs as [|h hs IH]; intros fuel b Hfuel Hgood Hends Hbol.
  - destruct fuel as [|fuel]; [lia|]. exists [].
    unfold render_blocks. simpl concat.
    rewrite finditer_loop_eq, search_at_end. split; [reflexivity|constructor].
  - destruct fuel as [|fuel]; [lia|].
    destruct Hbol as [Hbol|Hbol]; [discriminate|].
    inversion Hgood as [|? ? Hh Hgood']; subst.
    pose proof (render_blocks_followed h hs Hends) as Hfol.
    destruct (good_match h b (render_blocks hs) Hh Hbol Hfol)
      as (e & x & y & Hsplit & Hx & Hm & Hb & Ha & Hres).
    change (render_blocks (h :: hs)) with (render_block h ++ render_blocks hs).
    rewrite finditer_loop_eq, search_eq.
    change (Re.final false (St b (render_block h ++ render_blocks hs) []))
      with (@Some Re.mstate).
    rewrite Hm.
    assert (Hpos : (Re.pos e
                    =? Re.pos (St b (render_block h ++ render_blocks hs) [])) = false).
    { apply Nat.eqb_neq. unfold Re.pos. rewrite Hb. cbn [Re.bef].
      rewrite !length_app. simpl. lia. }
    rewrite Hpos, Hb, Ha.
    assert (Hq : quiet (rev x ++ rev (block_name h) ++ " "%char :: "#"%char :: b) y
                 = true).
    { apply quiet_suffix. rewrite <- Hsplit. apply quiet_after_heading.
      apply good_quiet. exact Hh. }
    rewrite (finditer_loop_quiet _ _ _ _ Hq).
    destruct (IH fuel (rev y ++ rev x ++ rev (block_name h)
                         ++ " "%char :: "#"%char :: b))
      as (ms & Hloop & Hall).
    + simpl in Hfuel. lia.
    + exact Hgood'.
    + exact (bodies_end_lines_tail h hs Hends).
    + destruct hs as [|h' hs]; [left; reflexivity|right].
      destruct Hfol as [Hfol|[_ Hel]]; [discriminate|].
      rewrite app_assoc, <- rev_app_distr, <- Hsplit. simpl.
      rewrite <- app_assoc. apply ends_line_bol. exact Hel.
    + rewrite Hloop. eexists. split; [reflexivity|].
      constructor; [exact Hres|exact Hall].
Qed.

End Loop.

Lemma render_block_app h rest :
  render_block h ++ rest
  = "#"%char :: " "%char :: hb_stem h ++ "."%char :: hb_ext h
      ++ nl :: hb_body h ++ rest.
Proof. unfold render_block. list_norm. reflexivity. Qed.

(** The pattern matches at every heading line of a well-formed
    document. *)
Lemma heading_match h b rest :
  wf_heading h -> bolb b = true -> followed (hb_body h) rest ->
  exists e x y,
    nl :: hb_body h = x ++ y /\ x <> []
    /\ Re.mt Re.MULTILINE file_pattern Some (St b (render_block h ++ rest) [])
       = Some e
    /\ Re.bef e = rev x ++ rev (block_name h) ++ " "%char :: "#"%char :: b
    /\ Re.aft e = y ++ rest
    /\ named h e.
Proof.
  intros (Hne & Hstem & Hext & Hq) Hbol Hfol.
  set (b1 := " "%char :: "#"%char :: b).
  destruct (tail_bound (rev (block_name h) ++ b1) (hb_body h) rest
              ((1, (length b1, length (rev (block_name h) ++ b1)))
               :: (2, (length ("."%char :: rev (hb_stem h) ++ b1),
                       length (rev (hb_ext h) ++ "."%char :: rev (hb_stem h) ++ b1)))
               :: []) Hfol)
    as (e & x & y & Hsplit & Hx & Hm & Hb & Ha).
  exists e, x, y. split; [exact Hsplit|]. split; [exact Hx|]. split; [|split; [|split]].
  - rewrite render_block_app. apply heading_fwd; assumption.
  - exact Hb.
  - exact Ha.
  - destruct (tail_groups Some b1 (hb_stem h) (hb_ext h)
                (nl :: hb_body h ++ rest) [] e) as (H1 & H2).
    + intros z Hz. congruence.
    + exact Hm.
    + split; assumption.
Qed.

Lemma wf_heading_quiet h : wf_heading h -> quiet [nl] (hb_body h) = true.
Proof. intros (_ & _ & _ & H). exact H. Qed.

Lemma wf_name_chars h :
  wf_heading h ->
  Forall (fun c => Chars.is_space c = false) (block_name h)
  /\ Forall (fun c => Chars.is_space c = false) (hb_ext h).
Proof.
  intros (_ & Hstem & Hext & _). destruct (extension_chars _ Hext) as [_ He].
  split; [|exact He]. unfold block_name. apply Forall_app.
  split; [exact Hstem|]. constructor; [reflexivity|exact He].
Qed.

Lemma named_blocks hs ms :
  Forall wf_heading hs ->
  Forall2 (fun h (m : Re.mstate * Re.mstate) => named h (snd m)) hs ms ->
  map fileName (map block_of (map (fun m => Re.groups 4 (snd m)) ms))
  = map block_name hs
  /\ map declaredExtension (map block_of (map (fun m => Re.groups 4 (snd m)) ms))
     = map hb_ext hs.
Proof.
  intros Hwf H. induction H as [|h m hs ms [H1 H2] _ IH]; [split; reflexivity|].
  inversion Hwf as [|? ? Hh Hwf']; subst.
  destruct (IH Hwf') as [IH1 IH2]. destruct (wf_name_chars h Hh) as [Hn He].
  split; simpl; [rewrite IH1|rewrite IH2]; f_equal.
  - unfold nth_str. cbn [nth Re.groups seq map]. rewrite H1. apply strip_no_space. exact Hn.
  - unfold nth_str. cbn [nth Re.groups seq map]. rewrite H2. apply strip_no_space. exact He.
Qed.

Lemma scan_document preamble hs good result :
  (forall h, good h -> quiet [nl] (hb_body h) = true) ->
  (forall h b rest,
     good h -> bolb b = true -> followed (hb_body h) rest ->
     exists e x y,
       nl :: hb_body h = x ++ y /\ x <> []
       /\ Re.mt Re.MULTILINE file_pattern Some (St b (render_block h ++ rest) [])
          = Some e
       /\ Re.bef e = rev x ++ rev (block_name h) ++ " "%char :: "#"%char :: b
       /\ Re.aft e = y ++ rest
       /\ result h e) ->
  quiet [] preamble = true -> ends_line preamble = true ->
  Forall good hs -> bodies_end_lines hs ->
  exists ms,
    scan (document_of preamble hs)
    = map block_of (map (fun m => Re.groups 4 (snd m)) ms)
    /\ Forall2 (fun h (m : Re.mstate * Re.mstate) => result h (snd m)) hs ms.
Proof.
  intros Hquiet Hmatch Hpre Hend Hgood Hends.
  unfold scan, scan_raw, Re.findall, Re.finditer, document_of.
  rewrite (finditer_loop_quiet _ _ _ _ Hpre), app_nil_r.
  destruct (loop_blocks good result Hquiet Hmatch hs
              (Re.finditer_fuel (preamble ++ render_blocks hs)) (rev preamble))
    as (ms & Hloop & Hall).
  - unfold Re.finditer_fuel. rewrite length_app.
    pose proof (length_render_blocks hs). lia.
  - exact Hgood.
  - exact Hends.
  - right. exact Hend.
  - exists ms. rewrite Hloop. split; [reflexivity|exact Hall].
Qed.

(** In a document made of a preamble and N heading lines written
    [# name.ext] (the marker, one space, a name without whitespace that ends
    in a recognized extension), each followed by text that has no heading
    marker at the start of a line, the scan returns exactly N blocks, and
    they carry the names of the headings in the order of the headings. *)
Theorem scan_returns_blocks_in_heading_order
    (preamble : str) (hs : list heading_block) :
  well_formed preamble hs ->
  length (scan (document_of preamble hs)) = length hs
  /\ map fileName (scan (document_of preamble hs)) = map block_name hs
  /\ map declaredExtension (scan (document_of preamble hs)) = map hb_ext hs.
Proof.
  intros (Hpre & Hend & Hwf & Hends).
  destruct (scan_document preamble hs wf_heading named wf_heading_quiet
              heading_match Hpre Hend Hwf Hends) as (ms & Hscan & Hall).
  destruct (named_blocks hs ms Hwf Hall) as [H1 H2].
  rewrite Hscan. split; [|split; assumption].
  rewrite !length_map. symmetry. eapply Forall2_length. exact Hall.
Qed.

(** ** Paragraph text *)

Lemma terminator_fails n0 rest cs u : forall b,
  plain u -> quiet b u = true ->
  fails_before
    (fun s' => Re.mt Re.MULTILINE terminator Some
                 (Re.set_cap 4 (n0, Re.pos s') s'))
    b u rest cs.
Proof.
  induction u as [|c u IH]; intros b Hp Hq; [exact I|].
  inversion Hp as [|? ? Hc Hp']; subst.
  simpl in Hq. apply andb_true_iff in Hq. destruct Hq as [Hm Hq].
  apply negb_true_iff in Hm.
  cbn [fails_before]. split; [|apply IH; assumption].
  unfold Re.set_cap, Re.pos. cbn [Re.bef Re.aft Re.caps].
  rewrite terminator_spec. cbn [app].
  change (starts_with (py "```") (c :: u ++ rest))
    with (Chars.eqb "`" c && starts_with (py "``") (u ++ rest)).
  change (starts_with (py "# ") (c :: u ++ rest))
    with (Chars.eqb "#" c && starts_with (py " ") (u ++ rest)).
  replace (Chars.eqb "`" c) with false
    by (symmetry; apply chars_eqb_neq; congruence).
  cbn [andb]. rewrite andb_assoc, Hm. reflexivity.
Qed.

(** Paragraph text is captured whole, up to the next heading line or the
    end of the document. *)
Lemma fenced_exact b u rest cs :
  plain u -> quiet b u = true ->
  (rest = [] \/ (starts_with (py "# ") rest = true /\ bolb (rev u ++ b) = true)) ->
  Re.mt Re.MULTILINE fenced_pattern Some (St b (u ++ rest) cs)
  = Some (St (rev u ++ b) rest ((4, (length b, length (rev u ++ b))) :: cs)).
Proof.
  intros Hp Hq HR. unfold fenced_pattern. rewrite mt_seq, mt_opt.
  assert (Hfence : Re.mt Re.MULTILINE fence (Re.mt Re.MULTILINE body_pattern Some)
                     (St b (u ++ rest) cs) = None).
  { unfold fence. rewrite mt_seq, mt_lit.
    destruct u as [|c u].
    - simpl. destruct HR as [HR|[HR _]]; [subst rest; reflexivity|].
      destruct rest as [|c r]; [reflexivity|]. simpl in HR.
      apply andb_true_iff in HR. destruct HR as [HR _]. apply chars_eqb_eq in HR.
      subst c. reflexivity.
    - inversion Hp as [|? ? Hc _]; subst. cbn [app].
      replace (Chars.eqb "`" c) with false
        by (symmetry; apply chars_eqb_neq; congruence).
      reflexivity. }
  rewrite Hfence. cbn [Re.or_else].
  unfold body_pattern, content_group. rewrite mt_seq, mt_group.
  unfold any_set. rewrite star_set_lazy.
  rewrite lazy_exact; [|apply any_run|apply terminator_fails; assumption].
  apply lazy_here. unfold Re.set_cap, Re.pos. cbn [Re.bef Re.aft Re.caps].
  rewrite terminator_spec.
  destruct HR as [HR|[HR Hbol]].
  - subst rest. simpl. rewrite andb_false_r. reflexivity.
  - rewrite (marker_not_backticks rest HR), Hbol, HR. reflexivity.
Qed.

Lemma plain_app x y : plain (x ++ y) -> plain y.
Proof. unfold plain. intros H. apply Forall_app in H. tauto. Qed.

Lemma strip_spaces ws s :
  Forall (fun c => Chars.is_space c = true) ws -> strip (ws ++ s) = strip s.
Proof. intros H. unfold strip. rewrite lstrip_spaces by exact H. reflexivity. Qed.

Lemma plain_match h b rest :
  plain_heading h -> bolb b = true -> followed (hb_body h) rest ->
  exists e x y,
    nl :: hb_body h = x ++ y /\ x <> []
    /\ Re.mt Re.MULTILINE file_pattern Some (St b (render_block h ++ rest) [])
       = Some e
    /\ Re.bef e = rev x ++ rev (block_name h) ++ " "%char :: "#"%char :: b
    /\ Re.aft e = y ++ rest
    /\ captured h e.
Proof.
  intros [(Hne & Hstem & Hext & Hq) Hplain] Hbol Hfol.
  set (b1 := " "%char :: "#"%char :: b).
  set (b2 := rev (block_name h) ++ b1).
  set (cs1 := [(1, (length b1, length b2));
               (2, (length ("."%char :: rev (hb_stem h) ++ b1),
                    length (rev (hb_ext h) ++ "."%char :: rev (hb_stem h) ++ b1)))]).
  destruct (tail_fwd Some b2 (hb_body h ++ rest) cs1)
    as (w1 & w2 & r & Hsplit & Hws & Hstop & Hfwd).
  destruct (prefix_split (fun c => Chars.is_space c = true) (w1 ++ nl :: w2)
              (nl :: hb_body h) rest r Hws) as (r0 & Hbody & Hr).
  { destruct Hfol as [HR|[HR _]]; [left; exact HR|right].
    destruct rest as [|c R']; [discriminate|]. simpl in HR.
    apply andb_true_iff in HR. destruct HR as [HR _]. apply chars_eqb_eq in HR.
    subst c. exists "#"%char, R'. split; [reflexivity|]. discriminate. }
  { simpl. rewrite Hsplit, <- app_assoc. reflexivity. }
  subst r.
  assert (Hbody' : nl :: hb_body h = (w1 ++ [nl]) ++ w2 ++ r0).
  { rewrite Hbody. list_norm. reflexivity. }
  assert (Hrev : rev (w2 ++ r0) ++ nl :: rev w1 ++ b2 = rev (nl :: hb_body h) ++ b2).
  { rewrite Hbody'. list_norm. reflexivity. }
  assert (Hexact :
            Re.mt Re.MULTILINE fenced_pattern Some
              (St (nl :: rev w1 ++ b2) ((w2 ++ r0) ++ rest) cs1)
            = Some (St (rev (w2 ++ r0) ++ nl :: rev w1 ++ b2) rest
                      ((4, (length (nl :: rev w1 ++ b2),
                            length (rev (w2 ++ r0) ++ nl :: rev w1 ++ b2))) :: cs1))).
  { apply fenced_exact.
    - apply (plain_app (nl :: w1)). unfold plain in *.
      assert (E : (nl :: w1) ++ w2 ++ r0 = nl :: w1 ++ (w2 ++ r0)) by reflexivity.
      rewrite E. constructor; [discriminate|].
      assert (Hall : Forall (fun c => c <> "`"%char) (nl :: hb_body h))
        by (constructor; [discriminate|exact Hplain]).
      rewrite Hbody' in Hall. apply Forall_app in Hall. destruct Hall as [Hl Hrr].
      apply Forall_app in Hl. destruct Hl as [Hl _].
      apply Forall_app. split; assumption.
    - replace (nl :: rev w1 ++ b2) with (rev (w1 ++ [nl]) ++ b2) by (list_norm; reflexivity).
      apply quiet_suffix. rewrite <- Hbody'. apply quiet_after_heading. exact Hq.
    - destruct Hfol as [HR|[HR Hel]]; [left; exact HR|right]. split; [exact HR|].
      rewrite Hrev. simpl. rewrite <- app_assoc. apply ends_line_bol. exact Hel. }
  eexists. exists (nl :: hb_body h), [].
  split; [rewrite app_nil_r; reflexivity|]. split; [discriminate|].
  assert (Htail : Re.mt Re.MULTILINE tail_pattern Some
                    (St b2 (nl :: hb_body h ++ rest) cs1)
                  = Some (St (rev (w2 ++ r0) ++ nl :: rev w1 ++ b2) rest
                            ((4, (length (nl :: rev w1 ++ b2),
                                  length (rev (w2 ++ r0) ++ nl :: rev w1 ++ b2))) :: cs1))).
  { apply Hfwd. rewrite <- app_assoc in Hexact. exact Hexact. }
  split; [|split; [|split]].
  - rewrite render_block_app. apply heading_fwd; try assumption. exact Htail.
  - cbn [Re.bef]. exact Hrev.
  - reflexivity.
  - split; [|split].
    + destruct (tail_groups Some b1 (hb_stem h) (hb_ext h)
                  (nl :: hb_body h ++ rest) [] _ (fun z Hz => f_equal (fun o => match o with Some a => a | None => z end) Hz) Htail)
        as (H1 & H2).
      split; assumption.
    + reflexivity.
    + unfold Re.group. cbn [Re.caps Re.cap_get Nat.eqb]. rewrite subject_St.
      replace (rev (rev (w2 ++ r0) ++ nl :: rev w1 ++ b2) ++ rest)
        with (rev (nl :: rev w1 ++ b2) ++ (w2 ++ r0) ++ rest)
        by (list_norm; reflexivity).
      rewrite substr_zipper.
      transitivity (strip (nl :: hb_body h)).
      * rewrite Hbody'. symmetry. apply strip_spaces.
        apply Forall_app in Hws. destruct Hws as [Hw1 _].
        apply Forall_app. split; [exact Hw1|repeat constructor].
      * apply (strip_spaces [nl]). repeat constructor.
Qed.

Lemma plain_heading_quiet h : plain_heading h -> quiet [nl] (hb_body h) = true.
Proof. intros [H _]. apply wf_heading_quiet. exact H. Qed.

Lemma captured_blocks hs ms :
  Forall plain_heading hs ->
  Forall2 (fun h (m : Re.mstate * Re.mstate) => captured h (snd m)) hs ms ->
  map block_of (map (fun m => Re.groups 4 (snd m)) ms) = map block_of_heading hs.
Proof.
  intros Hwf H. induction H as [|h m hs ms ([H1 H2] & H3 & H4) _ IH]; [reflexivity|].
  inversion Hwf as [|? ? [Hh _] Hwf']; subst.
  destruct (wf_name_chars h Hh) as [Hn He].
  simpl. rewrite (IH Hwf'). f_equal.
  unfold block_of, block_of_heading, nth_str. cbn [nth Re.groups seq map].
  rewrite H1, H2, H3, H4, !strip_no_space by assumption. reflexivity.
Qed.

(** Paragraph blocks are scanned as they are written. *)
Lemma scan_plain_blocks hs :
  Forall plain_heading hs -> bodies_end_lines hs ->
  scan (document_of [] hs) = map block_of_heading hs.
Proof.
  intros Hwf Hends.
  destruct (scan_document [] hs plain_heading captured plain_heading_quiet
              plain_match eq_refl eq_refl Hwf Hends) as (ms & Hscan & Hall).
  rewrite Hscan. apply captured_blocks; assumption.
Qed.

Lemma block_content document s e :
  In (s, e) (Re.finditer Re.MULTILINE file_pattern document) ->
  forall sp, Re.cap_get 4 (Re.caps e) = Some sp ->
    content (block_of (Re.groups 4 e)) = strip (Re.substr document sp).
Proof.
  intros Hin sp Hsp. apply finditer_In in Hin. destruct Hin as (ma & Hm & _ & Hsub).
  apply mt_forward in Hm. destruct Hm as (s' & Hfin & Hlater & _).
  apply final_Some in Hfin. subst s'.
  unfold block_of, nth_str. cbn [nth Re.groups seq map content].
  unfold Re.group. rewrite Hsp, (later_subject _ _ Hlater), Hsub. reflexivity.
Qed.

(** The content of every block the scanner emits is, trimmed, a span
    of the document that ends where the pattern lets it end (before three
    backticks, before a line that starts with [# ], the marker and a space,
    or at the end of the document) and has no such place in it before its
    end; and a document of two heading lines written [# name.ext] without
    fences, each followed by paragraph text, yields two blocks, each holding
    its own paragraph and nothing of the other's. *)
Theorem content_stops_at_nearest_boundary :
  (forall document blk,
     In blk (scan document) ->
     exists s e i j,
       In (s, e) (Re.finditer Re.MULTILINE file_pattern document)
       /\ blk = block_of (Re.groups 4 e)
       /\ Re.cap_get 4 (Re.caps e) = Some (i, j)
       /\ content blk = strip (Re.substr document (i, j))
       /\ i <= j <= length document
       /\ boundary_at document j = true
       /\ (forall n, i <= n < j -> boundary_at document n = false))
  /\ (forall h1 h2,
        plain_heading h1 -> plain_heading h2 -> ends_line (hb_body h1) = true ->
        scan (document_of [] [h1; h2])
        = [block_of_heading h1; block_of_heading h2]).
Proof.
  split.
  - intros document blk Hin. apply scan_In in Hin. destruct Hin as (s & e & Hin & ->).
    destruct (content_span document s e Hin) as (i & j & Hcap & Hij & Hb & Hmin).
    exists s, e, i, j. repeat split; try assumption; try lia.
    apply (block_content document s e Hin). exact Hcap.
  - intros h1 h2 H1 H2 Hend.
    apply (scan_plain_blocks [h1; h2]).
    + constructor; [exact H1|constructor; [exact H2|constructor]].
    + simpl. auto.
Qed.
(** ** Built-in rules on file names *)

Lemma search_found fl r u : forall b v,
  Re.mt fl r Some (St (rev u ++ b) v []) <> None ->
  Re.search fl r false b (u ++ v) <> None.
Proof.
  induction u as [|c u IH]; intros b v H.
  - simpl in *. rewrite search_eq.
    change (Re.final false (St b v [])) with (@Some Re.mstate).
    destruct (Re.mt fl r Some (St b v [])); [discriminate|contradiction].
  - rewrite search_eq. simpl app.
    destruct (Re.mt fl r (Re.final false _) _); [discriminate|].
    apply IH. simpl in H. rewrite <- app_assoc in H. exact H.
Qed.

Lemma search_bool_true fl r u v :
  Re.mt fl r Some (St (rev u) v []) <> None ->
  Re.search_bool fl r (u ++ v) = true.
Proof.
  intros H. unfold Re.search_bool.
  pose proof (search_found fl r u [] v) as Hs. rewrite app_nil_r in Hs.
  specialize (Hs H). destruct (Re.search fl r false [] (u ++ v)); [reflexivity|contradiction].
Qed.

Lemma search_bool_false fl r name :
  (forall u v e, name = u ++ v -> Re.mt fl r Some (St (rev u) v []) = Some e -> False) ->
  Re.search_bool fl r name = false.
Proof.
  intros H. unfold Re.search_bool.
  destruct (Re.search fl r false [] name) as [[s e]|] eqn:Hs; [|reflexivity].
  exfalso. apply search_Some in Hs. destruct Hs as (u & v & Hn & Hst & Hm).
  subst s. rewrite app_nil_r in Hm.
  change (Re.final (false && _) _) with (@Some Re.mstate) in Hm.
  exact (H u v e Hn Hm).
Qed.

Lemma mt_lit_ci c k b a cs :
  Re.mt Re.IGNORECASE (Re.RLit c) k (St b a cs)
  = match a with
    | x :: t => if Chars.eqb (Chars.lower c) (Chars.lower x)
                then k (St (x :: b) t cs) else None
    | [] => None
    end.
Proof. reflexivity. Qed.

Lemma mt_eol_ci k b a cs :
  Re.mt Re.IGNORECASE Re.REol k (St b a cs)
  = match a with
    | [] => k (St b a cs)
    | c :: t => if Chars.eqb c nl && match t with [] => true | _ => false end
                then k (St b a cs) else None
    end.
Proof. destruct a as [|c [|d t]]; reflexivity. Qed.

Lemma lower_nl : Chars.lower nl = nl.
Proof. reflexivity. Qed.

(** A literal suffix pattern matches at a position exactly when what is
    left of the subject is the suffix, in any case, and at most a final
    newline. *)
Lemma mt_lit_eol_inv w : forall k b a cs e,
  Re.mt Re.IGNORECASE (lit_eol w) k (St b a cs) = Some e ->
  exists x r, a = x ++ r /\ map Chars.lower x = map Chars.lower w
              /\ (r = [] \/ r = [nl]).
Proof.
  induction w as [|c w IH]; intros k b a cs e H.
  - simpl lit_eol in H. rewrite mt_eol_ci in H.
    destruct a as [|d t].
    + exists [], []. auto.
    + destruct (Chars.eqb d nl) eqn:Hd; [|discriminate].
      destruct t; [|discriminate]. apply chars_eqb_eq in Hd. subst d.
      exists [], [nl]. auto.
  - simpl lit_eol in H. rewrite mt_seq, mt_lit_ci in H.
    destruct a as [|x t]; [discriminate|].
    destruct (Chars.eqb (Chars.lower c) (Chars.lower x)) eqn:Hc; [|discriminate].
    apply chars_eqb_eq in Hc.
    destruct (IH _ _ _ _ _ H) as (x' & r & Ht & Hl & Hr).
    exists (x :: x'), r. subst t. simpl. rewrite Hl, Hc. auto.
Qed.

Lemma mt_lit_eol_fwd w : forall k b x cs,
  map Chars.lower x = map Chars.lower w ->
  Re.mt Re.IGNORECASE (lit_eol w) k (St b x cs) = k (St (rev x ++ b) [] cs).
Proof.
  induction w as [|c w IH]; intros k b x cs H.
  - destruct x; [|discriminate]. reflexivity.
  - destruct x as [|d x]; [discriminate|]. simpl in H. injection H as Hd Hx.
    simpl lit_eol. rewrite mt_seq, mt_lit_ci. rewrite Hd, chars_eqb_refl.
    rewrite IH by exact Hx. simpl. rewrite <- app_assoc. reflexivity.
Qed.

Lemma mt_lit_word_ci_inv w : forall k b a cs e,
  w <> [] ->
  Re.mt Re.IGNORECASE (lit_word w) k (St b a cs) = Some e ->
  exists x t, a = x ++ t /\ map Chars.lower x = map Chars.lower w
              /\ k (St (rev x ++ b) t cs) = Some e.
Proof.
  induction w as [|c w IH]; intros k b a cs e Hw H; [contradiction|].
  destruct w as [|c' w].
  - simpl lit_word in H. rewrite mt_lit_ci in H.
    destruct a as [|x t]; [discriminate|].
    destruct (Chars.eqb (Chars.lower c) (Chars.lower x)) eqn:Hc; [|discriminate].
    apply chars_eqb_eq in Hc. exists [x], t. simpl. rewrite Hc. auto.
  - change (lit_word (c :: c' :: w)) with (Re.RSeq (Re.RLit c) (lit_word (c' :: w))) in H.
    rewrite mt_seq, mt_lit_ci in H.
    destruct a as [|x t]; [discriminate|].
    destruct (Chars.eqb (Chars.lower c) (Chars.lower x)) eqn:Hc; [|discriminate].
    apply chars_eqb_eq in Hc.
    destruct (IH _ _ _ _ _ ltac:(discriminate) H) as (x' & t' & Ht & Hl & Hk).
    exists (x :: x'), t'. subst t. simpl. rewrite Hl, Hc.
    split; [reflexivity|]. split; [reflexivity|].
    rewrite <- app_assoc. exact Hk.
Qed.

Lemma mt_lit_word_ci_fwd w : forall k b x t cs,
  w <> [] ->
  map Chars.lower x = map Chars.lower w ->
  Re.mt Re.IGNORECASE (lit_word w) k (St b (x ++ t) cs) = k (St (rev x ++ b) t cs).
Proof.
  induction w as [|c w IH]; intros k b x t cs Hw H; [contradiction|].
  destruct x as [|d x]; [discriminate|]. simpl in H. injection H as Hd Hx.
  destruct w as [|c' w].
  - destruct x; [|discriminate]. simpl lit_word. simpl app. rewrite mt_lit_ci.
    rewrite Hd, chars_eqb_refl. reflexivity.
  - change (lit_word (c :: c' :: w)) with (Re.RSeq (Re.RLit c) (lit_word (c' :: w))).
    simpl app. rewrite mt_seq, mt_lit_ci, Hd, chars_eqb_refl.
    rewrite IH by (discriminate || exact Hx). simpl. rewrite <- app_assoc. reflexivity.
Qed.

Lemma map_lower_ends r : r = [] \/ r = [nl] -> map Chars.lower r = r.
Proof. intros [->| ->]; reflexivity. Qed.

(** Both sides of a match of a suffix, read backwards in lower case. *)
Lemma suffix_backwards stem e u x r w :
  stem ++ "."%char :: e = u ++ x ++ r ->
  map Chars.lower x = "."%char :: map Chars.lower w ->
  r = [] \/ r = [nl] ->
  rev (map Chars.lower e) ++ "."%char :: rev (map Chars.lower stem)
  = rev r ++ rev (map Chars.lower w) ++ "."%char :: rev (map Chars.lower u).
Proof.
  intros Hn Hx Hr.
  apply (f_equal (fun s => rev (map Chars.lower s))) in Hn.
  rewrite !map_app, !rev_app_distr in Hn. simpl map in Hn.
  rewrite Hx, (map_lower_ends r Hr) in Hn.
  change (Chars.lower ".") with "."%char in Hn.
  simpl rev in Hn. repeat rewrite <- app_assoc in Hn. simpl in Hn.
  repeat rewrite <- app_assoc. exact Hn.
Qed.

Lemma lit_rule_hit stem e w :
  map Chars.lower e = map Chars.lower w ->
  Re.search_bool Re.IGNORECASE (lit_eol ("."%char :: w)) (stem ++ "."%char :: e) = true.
Proof.
  intros H. apply search_bool_true.
  rewrite mt_lit_eol_fwd by (simpl; rewrite H; reflexivity). discriminate.
Qed.

Lemma lit_rule_miss stem e w :
  clash (map Chars.lower e) (map Chars.lower w) ->
  Re.search_bool Re.IGNORECASE (lit_eol ("."%char :: w)) (stem ++ "."%char :: e) = false.
Proof.
  intros Hc. apply search_bool_false. intros u v m Hn Hm.
  apply mt_lit_eol_inv in Hm. destruct Hm as (x & r & Hv & Hx & Hr). subst v.
  simpl in Hx. change (Chars.lower ".") with "."%char in Hx.
  exact (Hc _ _ _ Hr (suffix_backwards _ _ _ _ _ _ Hn Hx Hr)).
Qed.

Lemma yaml_rule_hit stem e :
  map Chars.lower e = py "yaml" \/ map Chars.lower e = py "yml" ->
  Re.search_bool Re.IGNORECASE yaml_rule (stem ++ "."%char :: e) = true.
Proof.
  intros H. apply search_bool_true. unfold yaml_rule.
  rewrite mt_seq, mt_lit_ci. change (Chars.eqb (Chars.lower ".") (Chars.lower ".")) with true.
  cbv iota. rewrite mt_seq, mt_group, mt_alt.
  rewrite <- (app_nil_r e).
  destruct H as [H|H].
  - rewrite (mt_lit_word_ci_fwd (py "yaml")) by (discriminate || exact H).
    discriminate.
  - rewrite (mt_lit_word_ci_fwd (py "yml") _ _ e) by (discriminate || exact H).
    destruct (Re.mt Re.IGNORECASE (lit_word (py "yaml")) _ _); discriminate.
Qed.

Lemma mt_eol_inv k b a cs e :
  Re.mt Re.IGNORECASE Re.REol k (St b a cs) = Some e -> a = [] \/ a = [nl].
Proof.
  rewrite mt_eol_ci. destruct a as [|c t]; [auto|].
  destruct (Chars.eqb c nl) eqn:Hc; [|discriminate].
  destruct t; [|discriminate]. apply chars_eqb_eq in Hc. subst. auto.
Qed.

Lemma yaml_rule_miss stem e :
  clash (map Chars.lower e) (py "yaml") -> clash (map Chars.lower e) (py "yml") ->
  Re.search_bool Re.IGNORECASE yaml_rule (stem ++ "."%char :: e) = false.
Proof.
  intros H1 H2. apply search_bool_false. intros u v m Hn Hm.
  unfold yaml_rule in Hm. rewrite mt_seq, mt_lit_ci in Hm.
  destruct v as [|d v]; [discriminate|].
  destruct (Chars.eqb (Chars.lower ".") (Chars.lower d)) eqn:Hd; [|discriminate].
  apply chars_eqb_eq in Hd. rewrite mt_seq, mt_group, mt_alt in Hm.
  apply or_else_Some in Hm.
  assert (Hw : forall w, w <> [] ->
            Re.mt Re.IGNORECASE (lit_word w)
              (fun s' => Re.mt Re.IGNORECASE Re.REol Some
                           (Re.set_cap 1 (Re.pos (St (d :: rev u) v []), Re.pos s') s'))
              (St (d :: rev u) v []) = Some m ->
            clash (map Chars.lower e) (map Chars.lower w) -> False).
  { intros w Hne Hmw Hc.
    apply mt_lit_word_ci_inv in Hmw; [|exact Hne].
    destruct Hmw as (x & r & Hv & Hx & Hr). subst v.
    apply mt_eol_inv in Hr.
    refine (Hc _ _ _ Hr (suffix_backwards stem e u (d :: x) r w Hn _ Hr)).
    simpl. rewrite <- Hd, Hx. reflexivity. }
  destruct Hm as [Hm|[_ Hm]].
  - exact (Hw (py "yaml") ltac:(discriminate) Hm H1).
  - exact (Hw (py "yml") ltac:(discriminate) Hm H2).
Qed.

Lemma first_match_cons file_name language v (rest : dict) w :
  first_match file_name ((language, v) :: rest) w
  = match rule_test v file_name with
    | Ret (d, true) =>
        (Ret (Some (language, d)), add_log (DEBUG, MsgDetected language file_name) w)
    | Ret (d, false) => first_match file_name rest w
    | Raise e => (Raise e, w)
    | Outside => (Outside, w)
    end.
Proof.
  simpl. unfold bind, lift.
  destruct (rule_test v file_name) as [[d [|]]| |]; reflexivity.
Qed.

Lemma rule_test_rule directory pattern file_name r n :
  Re.compile (py pattern) = Re.Compiled r n ->
  rule_test (rule directory pattern) file_name
  = Ret (VList (map (fun d => VStr (py d)) directory),
         Re.search_bool Re.IGNORECASE r file_name).
Proof.
  intros H. unfold rule_test, rule, unpack2, re_search. cbn [fst snd].
  rewrite H. reflexivity.
Qed.

Lemma dict_set_app k v (d x : dict) :
  has_key k d = false -> dict_set k v (d ++ x) = d ++ dict_set k v x.
Proof.
  induction d as [|[k' v'] d IH]; intros H; [reflexivity|].
  rewrite has_key_cons in H. apply orb_false_iff in H. destruct H as [H1 H2].
  simpl. rewrite str_eqb_sym, H1. rewrite IH by exact H2. reflexivity.
Qed.

(** Rules with new tags go after the ones that are there. *)
Lemma dict_update_new (custom d : dict) :
  Forall (fun k => has_key k d = false) (keys custom) ->
  exists x, dict_update d custom = d ++ x.
Proof.
  intros H. unfold dict_update.
  assert (G : forall x, exists x',
            fold_left (fun acc kv => dict_set (fst kv) (snd kv) acc) custom (d ++ x)
            = d ++ x').
  { induction custom as [|[k v] custom IH]; intros x.
    - exists x. reflexivity.
    - simpl in H. inversion H as [|? ? Hk Hrest]; subst.
      simpl. rewrite dict_set_app by exact Hk. apply IH. exact Hrest. }
  destruct (G []) as [x' Hx]. rewrite app_nil_r in Hx. exists x'. exact Hx.
Qed.

Lemma compile_suffix_rules :
  Re.compile (py "\.py$") = Re.Compiled (lit_eol ("."%char :: py "py")) 0
  /\ Re.compile (py "\.js$") = Re.Compiled (lit_eol ("."%char :: py "js")) 0
  /\ Re.compile (py "\.jsx$") = Re.Compiled (lit_eol ("."%char :: py "jsx")) 0
  /\ Re.compile (py "\.html$") = Re.Compiled (lit_eol ("."%char :: py "html")) 0
  /\ Re.compile (py "\.css$") = Re.Compiled (lit_eol ("."%char :: py "css")) 0
  /\ Re.compile (py "\.json$") = Re.Compiled (lit_eol ("."%char :: py "json")) 0
  /\ Re.compile (py "\.(yaml|yml)$") = Re.Compiled yaml_rule 1
  /\ Re.compile (py "\.md$") = Re.Compiled (lit_eol ("."%char :: py "md")) 0.
Proof. vm_compute. repeat split; reflexivity. Qed.

Ltac clash_tac :=
  let H := fresh in
  intros ? ? ? [->| ->] H; vm_compute in H; discriminate H.

Ltac rule_miss He :=
  rewrite first_match_cons;
  first
    [ erewrite rule_test_rule by (apply compile_suffix_rules);
      first [ rewrite lit_rule_miss by (rewrite He; clash_tac)
            | rewrite yaml_rule_miss by (rewrite He; clash_tac) ] ].

Ltac rule_hit He :=
  rewrite first_match_cons;
  erewrite rule_test_rule by (apply compile_suffix_rules);
  first [ rewrite lit_rule_hit by (rewrite He; reflexivity)
        | rewrite yaml_rule_hit by (rewrite He; auto) ].

Lemma first_match_extension stem e tag directory pattern (x : dict) w :
  In (map Chars.lower e, tag) extension_tags ->
  dict_get tag default_patterns = Some (VTuple [directory; pattern]) ->
  first_match (stem ++ "."%char :: e) (default_patterns ++ x) w
  = (Ret (Some (tag, directory)),
     add_log (DEBUG, MsgDetected tag (stem ++ "."%char :: e)) w).
Proof.
  intros Hin Hget.
  unfold default_patterns. cbn [app].
  unfold extension_tags in Hin. cbn [In] in Hin.
  repeat (destruct Hin as [Hin|Hin]; [|]); try contradiction;
    injection Hin as He Ht; subst tag; symmetry in He;
    vm_compute in Hget; injection Hget as <- _;
    repeat (rule_miss He); rule_hit He; reflexivity.
Qed.

Lemma detect_first_match guess_type file_name custom ld w w' :
  first_match file_name (dict_update default_patterns custom) w
  = (Ret (Some ld), w') ->
  detect_language_and_directory guess_type file_name custom w = (Ret ld, w').
Proof.
  intros H. unfold detect_language_and_directory, bind. rewrite H. reflexivity.
Qed.

(** A file name that ends, in any case, in a dot and one of the nine
    extensions gets the tag and the directory of the built-in rule of that
    extension, whatever comes before the dot and whatever rules with new
    tags the caller adds: those come later in the order and are not looked
    at. *)
Theorem detect_by_extension
    (guess_type : str -> option str) stem e tag directory pattern custom w :
  In (map Chars.lower e, tag) extension_tags ->
  dict_get tag default_patterns = Some (VTuple [directory; pattern]) ->
  new_tags custom ->
  detect_language_and_directory guess_type (stem ++ "."%char :: e) custom w
  = (Ret (tag, directory),
     add_log (DEBUG, MsgDetected tag (stem ++ "."%char :: e)) w).
Proof.
  intros Hin Hget Hnew.
  destruct (dict_update_new custom default_patterns Hnew) as [x Hx].
  apply detect_first_match. rewrite Hx.
  exact (first_match_extension stem e tag directory pattern x w Hin Hget).
Qed.

(** ** The scanner's names under the built-in rules *)

Lemma block_names document blk :
  In blk (scan document) ->
  exists stem ext,
    stem <> []
    /\ Forall (fun c => Chars.is_space c = false) stem
    /\ In ext extensions
    /\ fileName blk = stem ++ "."%char :: ext
    /\ declaredExtension blk = ext.
Proof.
  intros H. apply scan_In in H. destruct H as (s & e & Hin & ->).
  apply match_groups in Hin.
  destruct Hin as (stem & ext & Hne & Hstem & Hext & Hg1 & Hg2).
  destruct (extension_chars ext Hext) as [Hen Hec].
  assert (Hname : Forall (fun c => Chars.is_space c = false) (stem ++ "."%char :: ext)).
  { apply Forall_app. split; [exact Hstem|]. constructor; [reflexivity|exact Hec]. }
  unfold block_of, Re.groups, nth_str. cbn [seq map nth fileName declaredExtension].
  rewrite Hg1, Hg2, !strip_no_space by assumption.
  exists stem, ext. repeat split; assumption.
Qed.

Lemma extension_has_tag ext :
  In ext extensions ->
  map Chars.lower ext = ext
  /\ exists tag directory pattern,
       In (ext, tag) extension_tags
       /\ dict_get tag default_patterns = Some (VTuple [directory; pattern]).
Proof.
  unfold extensions. cbn [In]. intros H.
  repeat (destruct H as [H|H]; [subst ext; split; [reflexivity|];
                                eexists _, _, _; split;
                                [unfold extension_tags; cbn [In]; auto 12
                                |vm_compute; reflexivity]|]).
  contradiction.
Qed.

(** Every block the scanner emits is classified by the built-in rule of
    its extension: with the built-in rules, and with rules with new tags
    added, neither the media type nor the default bucket is ever used for
    a block. *)
Theorem scanned_blocks_match_builtin_rules
    (guess_type : str -> option str) document blk custom w :
  In blk (scan document) ->
  new_tags custom ->
  exists tag directory pattern,
    In (declaredExtension blk, tag) extension_tags
    /\ dict_get tag default_patterns = Some (VTuple [directory; pattern])
    /\ detect_language_and_directory guess_type (fileName blk) custom w
       = (Ret (tag, directory),
          add_log (DEBUG, MsgDetected tag (fileName blk)) w).
Proof.
  intros Hin Hnew.
  destruct (block_names _ _ Hin) as (stem & ext & _ & _ & Hext & Hname & Hde).
  destruct (extension_has_tag ext Hext) as (Hlow & tag & directory & pattern & Htag & Hget).
  exists tag, directory, pattern. rewrite Hde, Hname.
  split; [exact Htag|]. split; [exact Hget|].
  destruct (dict_update_new custom default_patterns Hnew) as [x Hx].
  apply detect_first_match. rewrite Hx.
  apply (first_match_extension stem ext tag directory pattern);
    [rewrite Hlow; exact Htag|exact Hget].
Qed.

(** ** The fallbacks of the classifier *)

Lemma before_slash_split s :
  Forall (fun c => c <> "/"%char) (before_slash s)
  /\ (s = before_slash s \/ exists rest, s = before_slash s ++ "/"%char :: rest).
Proof.
  induction s as [|c s [IH1 IH2]]; simpl.
  - split; [constructor|left; reflexivity].
  - destruct (Chars.eqb c "/") eqn:Hc.
    + apply chars_eqb_eq in Hc. subst c. split; [constructor|].
      right. exists s. reflexivity.
    + apply chars_eqb_neq in Hc. split; [constructor; assumption|].
      destruct IH2 as [IH2|[rest IH2]].
      * left. congruence.
      * right. exists rest. simpl. congruence.
Qed.

(** When no rule matches and a media type is guessed for the name, the
    tag is the media type itself and the directory is its main type: one
    segment, the part before the first slash. *)
Theorem detect_falls_back_to_media_type
    (guess_type : str -> option str) file_name custom c m w :
  Forall (no_match file_name) (merged_patterns custom) ->
  guess_type file_name = Some (c :: m) ->
  detect_language_and_directory guess_type file_name custom w
  = (Ret (c :: m, VList [VStr (before_slash (c :: m))]),
     add_log (DEBUG, MsgMime (c :: m) file_name) w)
  /\ Forall (fun x => x <> "/"%char) (before_slash (c :: m))
  /\ (c :: m = before_slash (c :: m)
      \/ exists rest, c :: m = before_slash (c :: m) ++ "/"%char :: rest).
Proof.
  intros Hno Hg. split; [|apply before_slash_split].
  unfold detect_language_and_directory, bind.
  unfold merged_patterns in Hno. rewrite (first_match_none _ _ _ Hno), Hg.
  reflexivity.
Qed.

Lemma first_match_effect file_name (items : dict) : forall w r w',
  first_match file_name items w = (r, w') ->
  (exists language d, r = Ret (Some (language, d))
                      /\ In language (keys items)
                      /\ w' = add_log (DEBUG, MsgDetected language file_name) w)
  \/ (w' = w /\ forall ld, r <> Ret (Some ld)).
Proof.
  induction items as [|[language v] items IH]; intros w r w' H.
  - simpl in H. inversion H; subst. right. split; [reflexivity|]. discriminate.
  - rewrite first_match_cons in H.
    destruct (rule_test v file_name) as [[d [|]]|e|].
    + inversion H; subst. left. exists language, d.
      split; [reflexivity|]. split; [left; reflexivity|reflexivity].
    + destruct (IH _ _ _ H) as [(l & d' & Hr & Hin & Hw)|Hr].
      * left. exists l, d'. split; [exact Hr|]. split; [right; exact Hin|exact Hw].
      * right. exact Hr.
    + inversion H; subst. right. split; [reflexivity|]. discriminate.
    + inversion H; subst. right. split; [reflexivity|]. discriminate.
Qed.

(** Classifying touches nothing but the log: when it returns it has
    logged one event, a debug event for a rule or a media type, a warning
    for the default; when it raises it has logged nothing. *)
Theorem detect_logs_one_event
    (guess_type : str -> option str) file_name custom w r w' :
  detect_language_and_directory guess_type file_name custom w = (r, w') ->
  fs w' = fs w /\ cwd w' = cwd w
  /\ match r with
     | Ret (tag, _) =>
         log w' = log w ++ [(DEBUG, MsgDetected tag file_name)]
         \/ log w' = log w ++ [(DEBUG, MsgMime tag file_name)]
         \/ (tag = py "txt" /\ log w' = log w ++ [(WARNING, MsgNoType file_name)])
     | _ => log w' = log w
     end.
Proof.
  unfold detect_language_and_directory, bind.
  destruct (first_match file_name (dict_update default_patterns custom) w)
    as [r1 w1] eqn:H1.
  destruct (first_match_effect _ _ _ _ _ H1) as [(l & d & -> & _ & ->)|[-> Hr]].
  - intros H. inversion H; subst. simpl. auto.
  - destruct r1 as [[ld|]|e|].
    + exfalso. exact (Hr ld eq_refl).
    + destruct (guess_type file_name) as [[|c m]|];
        intros H; inversion H; subst; cbn [fs cwd log];
        (split; [reflexivity|]); (split; [reflexivity|]); auto.
    + intros H; inversion H; subst. auto.
    + intros H; inversion H; subst. auto.
Qed.

(** ** What saving does to the file system *)

Lemma save_file_eq file_name directory file_content_ output_dir w :
  save_file file_name directory file_content_ output_dir w
  = match star_args directory with
    | Ret l =>
        match all_str l with
        | Some segs =>
            let target_dir := joinpath (Path output_dir) segs in
            match mkdir_parents target_dir w with
            | (Ret _, w1) =>
                match write_text (join1 target_dir file_name) (strip file_content_) w1 with
                | (Ret _, w2) =>
                    (Ret tt, add_log (INFO, MsgSaved (join1 target_dir file_name)) w2)
                | (Raise e, w2) => (Ret tt, add_log (ERROR, MsgSaveFailed file_name e) w2)
                | (Outside, w2) => (Outside, w2)
                end
            | (Raise e, w1) => (Ret tt, add_log (ERROR, MsgSaveFailed file_name e) w1)
            | (Outside, w1) => (Outside, w1)
            end
        | None => (Ret tt, add_log (ERROR, MsgSaveFailed file_name TypeError) w)
        end
    | Raise e => (Ret tt, add_log (ERROR, MsgSaveFailed file_name e) w)
    | Outside => (Outside, w)
    end.
Proof.
  unfold save_file, try_except. unfold bind at 1, lift.
  destruct (star_args directory) as [l|e|]; try reflexivity.
  destruct (all_str l) as [segs|]; [|reflexivity].
  cbv zeta. unfold bind at 1.
  destruct (mkdir_parents _ w) as [[[]|e|] w1]; try reflexivity.
  unfold bind.
  destruct (write_text _ _ w1) as [[[]|e|] w2]; reflexivity.
Qed.

Lemma grown_refl f : grown f f.
Proof. intros k. left. reflexivity. Qed.

Lemma grown_trans f g h : grown f g -> grown g h -> grown f h.
Proof.
  intros H1 H2 k. destruct (H1 k) as [E1|[E1 E1']], (H2 k) as [E2|[E2 E2']].
  - left. congruence.
  - right. split; congruence.
  - right. split; congruence.
  - congruence.
Qed.

Lemma grown_insert_dir (f : gmap (list str) node) k :
  f !! k = None -> grown f (<[k := NDir]> f).
Proof.
  intros H k'. destruct (decide (k = k')) as [->|Hne].
  - right. rewrite lookup_insert_eq. auto.
  - left. apply lookup_insert_ne. exact Hne.
Qed.

(** [mkdir] only adds directories, also when it fails on the way. *)
Lemma mkdir_walk_grown ps : forall f cur f' ok,
  mkdir_walk f cur ps = (f', ok) -> grown f f'.
Proof.
  induction ps as [|p ps IH]; intros f cur f' ok H.
  - simpl in H. inversion H; subst. apply grown_refl.
  - simpl in H. destruct (str_eqb p dotdot).
    + exact (IH _ _ _ _ H).
    + destruct (name_too_long p); [inversion H; subst; apply grown_refl|].
      destruct (f !! (cur ++ [p])) as [[|d]|] eqn:Hk.
      * exact (IH _ _ _ _ H).
      * inversion H; subst. apply grown_refl.
      * eapply grown_trans; [apply grown_insert_dir; exact Hk|exact (IH _ _ _ _ H)].
Qed.

Lemma mkdir_parents_grown p w r w' :
  mkdir_parents p w = (r, w') -> grown (fs w) (fs w').
Proof.
  unfold mkdir_parents. destruct (has_nul p).
  { intros H; inversion H; subst. apply grown_refl. }
  destruct (PATH_MAX <=? utf8_length (path_str p))%N.
  { intros H; inversion H; subst. apply grown_refl. }
  destruct (is_dir (fs w) (base w p)).
  2:{ intros H; inversion H; subst. apply grown_refl. }
  destruct (mkdir_walk (fs w) (base w p) (parts p)) as [f ok] eqn:Hw.
  intros H; inversion H; subst. simpl. exact (mkdir_walk_grown _ _ _ _ _ Hw).
Qed.

(** A second [mkdir] of the same path finds every directory in place,
    whatever files have been written since. *)
Lemma mkdir_walk_again ps : forall f cur f',
  mkdir_walk f cur ps = (f', true) ->
  forall g, (forall k, f' !! k = Some NDir -> g !! k = Some NDir) ->
  mkdir_walk g cur ps = (g, true).
Proof.
  induction ps as [|p ps IH]; intros f cur f' H g Hg; [reflexivity|].
  simpl in H |- *. destruct (str_eqb p dotdot).
  - exact (IH _ _ _ H g Hg).
  - destruct (name_too_long p); [discriminate|].
    assert (Hdir : g !! (cur ++ [p]) = Some NDir).
    { apply Hg.
      destruct (f !! (cur ++ [p])) as [[|d]|] eqn:Hk.
      - destruct (mkdir_walk_grown _ _ _ _ _ H (cur ++ [p])) as [E|[E _]]; congruence.
      - discriminate.
      - destruct (mkdir_walk_grown _ _ _ _ _ H (cur ++ [p])) as [E|[E _]].
        + rewrite E. apply lookup_insert_eq.
        + rewrite lookup_insert_eq in E. discriminate. }
    rewrite Hdir.
    destruct (f !! (cur ++ [p])) as [[|d]|]; [| discriminate |]; exact (IH _ _ _ H g Hg).
Qed.

Lemma is_dir_grown f g x : grown f g -> is_dir f x = true -> is_dir g x = true.
Proof.
  intros Hg. destruct x as [|c x]; [reflexivity|]. unfold is_dir.
  destruct (Hg (c :: x)) as [E|[E _]]; rewrite E; [auto|discriminate].
Qed.

Lemma set_fs_same w : set_fs (fs w) w = w.
Proof. destruct w; reflexivity. Qed.


(** What a successful [save_file] has done. *)
Lemma save_file_saved file_name directory file_content_ output_dir w w' p :
  save_file file_name directory file_content_ output_dir w = (Ret tt, w') ->
  log w' = log w ++ [(INFO, MsgSaved p)] ->
  exists l segs w1 w2,
    star_args directory = Ret l /\ all_str l = Some segs
    /\ p = join1 (joinpath (Path output_dir) segs) file_name
    /\ mkdir_parents (joinpath (Path output_dir) segs) w = (Ret tt, w1)
    /\ write_text p (strip file_content_) w1 = (Ret tt, w2)
    /\ w' = add_log (INFO, MsgSaved p) w2.
Proof.
  rewrite save_file_eq.
  assert (Hno : forall e (w0 : world), log w0 = log w ->
            (Ret tt, add_log (ERROR, MsgSaveFailed file_name e) w0) = (Ret tt, w') ->
            log w' = log w ++ [(INFO, MsgSaved p)] -> False).
  { intros e w0 Hl H Hlog. inversion H; subst w'. simpl in Hlog. rewrite Hl in Hlog.
    apply app_inv_head in Hlog. discriminate. }
  destruct (star_args directory) as [l|e|] eqn:Hargs;
    [|intros H1 H2; exfalso; eauto|discriminate].
  destruct (all_str l) as [segs|] eqn:Hsegs; [|intros H1 H2; exfalso; eauto].
  cbv zeta.
  destruct (mkdir_parents _ w) as [[[]|e|] w1] eqn:Hmk; [| |discriminate].
  2:{ intros H1 H2; exfalso. destruct (mkdir_parents_log _ _ _ _ Hmk) as (Hl & _ & _).
      eauto. }
  destruct (mkdir_parents_log _ _ _ _ Hmk) as (Hl1 & _ & _).
  destruct (write_text _ _ w1) as [[[]|e|] w2] eqn:Hwr; [| |discriminate].
  2:{ intros H1 H2; exfalso. pose proof (write_text_fail _ _ _ _ _ Hwr). subst w2. eauto. }
  destruct (write_text_content _ _ _ _ Hwr) as (_ & Hl2 & _).
  intros H Hlog. inversion H; subst w'. simpl in Hlog. rewrite Hl2, Hl1 in Hlog.
  apply app_inv_head in Hlog. inversion Hlog; subst p.
  exists l, segs, w1, w2. repeat split; assumption || reflexivity.
Qed.



Lemma mkdir_parents_inv p w w1 :
  mkdir_parents p w = (Ret tt, w1) ->
  has_nul p = false /\ is_dir (fs w) (base w p) = true
  /\ mkdir_walk (fs w) (base w p) (parts p) = (fs w1, true)
  /\ w1 = set_fs (fs w1) w
  /\ (PATH_MAX <=? utf8_length (path_str p))%N = false.
Proof.
  unfold mkdir_parents. destruct (has_nul p); [discriminate|].
  destruct (PATH_MAX <=? utf8_length (path_str p))%N; [discriminate|].
  destruct (is_dir (fs w) (base w p)); [|discriminate].
  destruct (mkdir_walk (fs w) (base w p) (parts p)) as [f [|]]; [|discriminate].
  intros H. inversion H; subst. auto.
Qed.

Lemma write_text_inv p text w w2 :
  write_text p text w = (Ret tt, w2) ->
  exists q, has_nul p = false /\ locate w p = Some q /\ fs w !! q <> Some NDir
            /\ w2 = set_fs (<[q := NFile (Some text)]> (fs w)) w
            /\ too_long (path_str p) (parts p) = false.
Proof.
  unfold write_text. destruct (has_nul p); [discriminate|].
  destruct (too_long (path_str p) (parts p)); [discriminate|].
  destruct (locate w p) as [q|]; [|discriminate].
  destruct (fs w !! q) as [[|d]|] eqn:Hq; [discriminate| |];
    intros H; inversion H; subst; exists q; repeat split; congruence.
Qed.

(** Saving the same block again changes nothing in the file system and
    succeeds again. *)
Theorem save_file_again
    file_name directory file_content_ output_dir (w w1 : world) p :
  save_file file_name directory file_content_ output_dir w = (Ret tt, w1) ->
  log w1 = log w ++ [(INFO, MsgSaved p)] ->
  save_file file_name directory file_content_ output_dir w1
  = (Ret tt, add_log (INFO, MsgSaved p) w1).
Proof.
  intros Hrun Hlog.
  destruct (save_file_saved _ _ _ _ _ _ _ Hrun Hlog)
    as (l & segs & wm & ww & Hargs & Hsegs & Hp & Hmk & Hwr & Hw1).
  destruct (mkdir_parents_inv _ _ _ Hmk) as (Hnul & Hbase & Hwalk & Hwm & Hfit).
  destruct (write_text_inv _ _ _ _ Hwr) as (q & Hnulp & Hloc & Hq & Hww & Hfitp).
  assert (Hfs1 : fs w1 = <[q := NFile (Some (strip file_content_))]> (fs wm))
    by (subst w1 ww; reflexivity).
  assert (Hcwd1 : cwd w1 = cwd w) by (subst w1 ww; rewrite Hwm; reflexivity).
  assert (Hdirs : forall k, fs wm !! k = Some NDir -> fs w1 !! k = Some NDir).
  { intros k Hk. rewrite Hfs1. rewrite lookup_insert_ne; [exact Hk|congruence]. }
  assert (Hmk1 : mkdir_parents (joinpath (Path output_dir) segs) w1 = (Ret tt, w1)).
  { unfold mkdir_parents. rewrite Hnul, Hfit.
    assert (Hb : base w1 (joinpath (Path output_dir) segs)
                 = base w (joinpath (Path output_dir) segs))
      by (unfold base; rewrite Hcwd1; reflexivity).
    rewrite Hb.
    assert (Hd : is_dir (fs w1) (base w (joinpath (Path output_dir) segs)) = true).
    { rewrite Hfs1, is_dir_insert_file by exact Hq.
      exact (is_dir_grown _ _ _ (mkdir_walk_grown _ _ _ _ _ Hwalk) Hbase). }
    rewrite Hd, (mkdir_walk_again _ _ _ _ Hwalk (fs w1) Hdirs), set_fs_same.
    reflexivity. }
  assert (Hloc1 : locate w1 p = Some q).
  { rewrite <- Hloc. subst w1 ww. apply (locate_insert_file wm q _ p Hq). }
  assert (Hwr1 : write_text p (strip file_content_) w1 = (Ret tt, w1)).
  { unfold write_text. rewrite Hnulp, Hfitp, Hloc1.
    assert (Hq1 : fs w1 !! q = Some (NFile (Some (strip file_content_))))
      by (rewrite Hfs1; apply lookup_insert_eq).
    rewrite Hq1. rewrite insert_id by exact Hq1. rewrite set_fs_same. reflexivity. }
  rewrite save_file_eq, Hargs, Hsegs. cbv zeta. rewrite Hmk1, <- Hp, Hwr1.
  reflexivity.
Qed.

(** A successful save writes one file: every other path holds what it
    held before or is a directory that has been created, and the path
    written was free or a file. *)
Theorem save_writes_one_file
    file_name directory file_content_ output_dir (w w' : world) p :
  save_file file_name directory file_content_ output_dir w = (Ret tt, w') ->
  log w' = log w ++ [(INFO, MsgSaved p)] ->
  exists q,
    locate w' p = Some q
    /\ fs w' !! q = Some (NFile (Some (strip file_content_)))
    /\ fs w !! q <> Some NDir
    /\ forall k, k <> q ->
         fs w' !! k = fs w !! k \/ (fs w !! k = None /\ fs w' !! k = Some NDir).
Proof.
  intros Hrun Hlog.
  destruct (save_file_saved _ _ _ _ _ _ _ Hrun Hlog)
    as (l & segs & wm & ww & Hargs & Hsegs & Hp & Hmk & Hwr & Hw1).
  pose proof (mkdir_parents_grown _ _ _ _ Hmk) as Hg.
  destruct (write_text_inv _ _ _ _ Hwr) as (q & Hnulp & Hloc & Hq & Hww & Hfitp).
  exists q. subst w' ww. cbn [add_log fs set_fs].
  split; [rewrite <- Hloc; apply (locate_insert_file wm q _ p Hq)|].
  split; [apply lookup_insert_eq|].
  split.
  - intros Hd. destruct (Hg q) as [E|[E1 E2]]; congruence.
  - intros k Hk. rewrite lookup_insert_ne by congruence. apply Hg.
Qed.

(** ** Where a block is saved *)

Lemma split_slash_component s : forall cur,
  forallb (fun c => negb (Chars.eqb c "/")) s = true ->
  split_slash cur s = [rev cur ++ s].
Proof.
  induction s as [|c s IH]; intros cur H; simpl.
  - rewrite app_nil_r. reflexivity.
  - simpl in H. apply andb_true_iff in H. destruct H as [Hc Hs].
    apply negb_true_iff in Hc. rewrite Hc, IH by exact Hs.
    simpl. rewrite <- app_assoc. reflexivity.
Qed.

Lemma Path_component s :
  component s = true -> Path s = {| absolute := false; parts := [s] |}.
Proof.
  unfold component, Path. intros H.
  apply andb_true_iff in H. destruct H as [H Hs].
  apply andb_true_iff in H. destruct H as [He Hd].
  rewrite split_slash_component by exact Hs.
  change (rev [] ++ s) with s. cbn [List.filter]. rewrite He, Hd. cbn [andb].
  f_equal. destruct s as [|c s]; [reflexivity|].
  simpl in Hs. apply andb_true_iff in Hs. destruct Hs as [Hc _].
  apply negb_true_iff in Hc. exact Hc.
Qed.

Lemma join1_component p s :
  component s = true ->
  join1 p s = {| absolute := absolute p; parts := parts p ++ [s] |}.
Proof. intros H. unfold join1. rewrite (Path_component s H). reflexivity. Qed.

Lemma joinpath_components segs : forall p,
  Forall (fun s => component s = true) segs ->
  joinpath p segs = {| absolute := absolute p; parts := parts p ++ segs |}.
Proof.
  induction segs as [|s segs IH]; intros p H.
  - unfold joinpath. simpl. rewrite app_nil_r. destruct p; reflexivity.
  - inversion H as [|? ? Hs Hrest]; subst.
    change (joinpath p (s :: segs)) with (joinpath (join1 p s) segs).
    rewrite IH by exact Hrest. rewrite join1_component by exact Hs. simpl.
    rewrite <- app_assoc. reflexivity.
Qed.

Lemma all_str_strs segs : all_str (map VStr segs) = Some segs.
Proof. induction segs as [|s segs IH]; simpl; [|rewrite IH]; reflexivity. Qed.

(** A block whose name and directory segments are single components is
    saved at the output directory, then the segments in order, then the
    name. *)
Theorem saved_path_layout
    file_name segs file_content_ output_dir (w w' : world) p :
  Forall (fun s => component s = true) segs ->
  component file_name = true ->
  save_file file_name (VList (map VStr segs)) file_content_ output_dir w
  = (Ret tt, w') ->
  log w' = log w ++ [(INFO, MsgSaved p)] ->
  p = {| absolute := absolute (Path output_dir);
         parts := parts (Path output_dir) ++ segs ++ [file_name] |}.
Proof.
  intros Hsegs Hname Hrun Hlog.
  destruct (save_file_saved _ _ _ _ _ _ _ Hrun Hlog)
    as (l & segs' & _ & _ & Hargs & Hall & Hp & _).
  simpl in Hargs. inversion Hargs; subst l. rewrite all_str_strs in Hall.
  inversion Hall; subst segs'. rewrite Hp.
  rewrite joinpath_components by exact Hsegs.
  rewrite join1_component by exact Hname. simpl. rewrite <- app_assoc. reflexivity.
Qed.

(** A block whose name starts with a slash is saved at that absolute
    path: neither the output directory nor the directory of its rule has
    a part in it. *)
Theorem absolute_name_leaves_output_directory
    rest directory file_content_ output_dir (w w' : world) p :
  save_file ("/"%char :: rest) directory file_content_ output_dir w = (Ret tt, w') ->
  log w' = log w ++ [(INFO, MsgSaved p)] ->
  p = Path ("/"%char :: rest) /\ absolute p = true.
Proof.
  intros Hrun Hlog.
  destruct (save_file_saved _ _ _ _ _ _ _ Hrun Hlog)
    as (l & segs & _ & _ & _ & _ & Hp & _).
  rewrite Hp. unfold join1. split; reflexivity.
Qed.

Lemma split_slash_app d f : forall cur,
  forallb (fun c => negb (Chars.eqb c "/")) d = true ->
  split_slash cur (d ++ "/"%char :: f) = (rev cur ++ d) :: split_slash [] f.
Proof.
  induction d as [|c d IH]; intros cur H; simpl.
  - rewrite app_nil_r. reflexivity.
  - simpl in H. apply andb_true_iff in H. destruct H as [Hc Hs].
    apply negb_true_iff in Hc. rewrite Hc, IH by exact Hs.
    simpl. rewrite <- app_assoc. reflexivity.
Qed.

Lemma component_parts s :
  component s = true ->
  (negb (str_eqb s []) && negb (str_eqb s (py "."))) = true
  /\ forallb (fun c => negb (Chars.eqb c "/")) s = true
  /\ exists c t, s = c :: t /\ Chars.eqb c "/" = false.
Proof.
  unfold component. intros H. apply andb_true_iff in H. destruct H as [H Hs].
  split; [exact H|]. split; [exact Hs|].
  destruct s as [|c t]; [discriminate|]. exists c, t. split; [reflexivity|].
  simpl in Hs. apply andb_true_iff in Hs. destruct Hs as [Hc _].
  apply negb_true_iff in Hc. exact Hc.
Qed.

(** A name with a directory in front: two components. *)
Lemma Path_nested d f :
  component d = true -> component f = true ->
  Path (d ++ "/"%char :: f) = {| absolute := false; parts := [d; f] |}.
Proof.
  intros Hd Hf.
  destruct (component_parts d Hd) as (Hd1 & Hd2 & c & t & -> & Hc).
  destruct (component_parts f Hf) as (Hf1 & Hf2 & _).
  unfold Path. rewrite split_slash_app by exact Hd2.
  rewrite split_slash_component by exact Hf2.
  change (rev [] ++ c :: t) with (c :: t). change (rev [] ++ f) with f.
  cbn [List.filter]. rewrite Hd1, Hf1. cbn [app]. rewrite Hc. reflexivity.
Qed.

Lemma walk_app f a : forall cur b,
  walk f cur (a ++ b)
  = match walk f cur a with Some c => walk f c b | None => None end.
Proof.
  induction a as [|p a IH]; intros cur b; [reflexivity|].
  simpl. destruct (is_dir f _); [apply IH|reflexivity].
Qed.

Lemma walk_plain f ps : forall cur c,
  Forall (fun s => s <> dotdot) ps -> walk f cur ps = Some c -> c = cur ++ ps.
Proof.
  induction ps as [|p ps IH]; intros cur c Hps H.
  - simpl in H. inversion H. rewrite app_nil_r. reflexivity.
  - inversion Hps as [|? ? Hp Hrest]; subst. simpl in H.
    apply str_eqb_neq in Hp. rewrite Hp in H.
    destruct (is_dir f (cur ++ [p])); [|discriminate].
    rewrite (IH _ _ Hrest H), <- app_assoc. reflexivity.
Qed.

Lemma parent_dir_length cur : length (parent_dir cur) <= length cur.
Proof.
  unfold parent_dir. rewrite removelast_firstn_len, length_firstn. lia.
Qed.

(** [mkdir] leaves what lies deeper than the path alone. *)
Lemma mkdir_walk_deeper ps : forall f cur f' ok k,
  mkdir_walk f cur ps = (f', ok) ->
  length cur + length ps < length k -> f' !! k = f !! k.
Proof.
  induction ps as [|p ps IH]; intros f cur f' ok k H Hk.
  - simpl in H. inversion H. reflexivity.
  - simpl in H, Hk. destruct (str_eqb p dotdot).
    + apply (IH _ _ _ _ _ H). pose proof (parent_dir_length cur). lia.
    + assert (Hn : length (cur ++ [p]) + length ps < length k)
        by (rewrite length_app; simpl; lia).
      destruct (name_too_long p); [inversion H; reflexivity|].
      destruct (f !! (cur ++ [p])) as [[|d]|] eqn:Hq.
      * exact (IH _ _ _ _ _ H Hn).
      * inversion H. reflexivity.
      * rewrite (IH _ _ _ _ _ H Hn). apply lookup_insert_ne.
        intros E. rewrite <- E, length_app in Hk. simpl in Hk. lia.
Qed.

(** A block named [d/f] is saved only if [d] is already a directory where
    the block goes: the directory of the rule is created, [d] is not. *)
Theorem nested_name_needs_its_directory
    d f segs file_content_ output_dir (w : world) :
  component d = true -> d <> dotdot -> component f = true ->
  Forall (fun s => component s = true) segs ->
  Forall (fun s => s <> dotdot) (parts (Path output_dir) ++ segs) ->
  fs w !! (base w (Path output_dir) ++ parts (Path output_dir) ++ segs ++ [d])
    <> Some NDir ->
  exists e w',
    save_file (d ++ "/"%char :: f) (VList (map VStr segs)) file_content_ output_dir w
    = (Ret tt, w')
    /\ log w' = log w ++ [(ERROR, MsgSaveFailed (d ++ "/"%char :: f) e)].
Proof.
  intros Hd Hdd Hf Hsegs Hplain Hfree.
  rewrite save_file_eq. cbn [star_args]. rewrite all_str_strs. cbv zeta.
  rewrite joinpath_components by exact Hsegs.
  set (target := {| absolute := absolute (Path output_dir);
                    parts := parts (Path output_dir) ++ segs |}).
  destruct (mkdir_parents target w) as [[[]|e|] w1] eqn:Hmk.
  2:{ destruct (mkdir_parents_log _ _ _ _ Hmk) as (Hl & _ & _).
      eexists _, _. split; [reflexivity|]. simpl. rewrite Hl. reflexivity. }
  2:{ destruct (mkdir_parents_log _ _ _ _ Hmk) as (_ & _ & Hno). congruence. }
  destruct (mkdir_parents_log _ _ _ _ Hmk) as (Hl1 & Hc1 & _).
  destruct (mkdir_parents_inv _ _ _ Hmk) as (_ & _ & Hwalk & _).
  assert (Hfail : exists e, write_text (join1 target (d ++ "/"%char :: f))
                              (strip file_content_) w1 = (Raise e, w1)).
  { unfold write_text. destruct (has_nul _); [eexists; reflexivity|].
    destruct (too_long _ _); [eexists; reflexivity|].
    assert (Hloc : locate w1 (join1 target (d ++ "/"%char :: f)) = None).
    { unfold join1. rewrite (Path_nested d f Hd Hf). cbn [absolute parts].
      unfold locate. cbn [parts absolute].
      destruct (parts target ++ [d; f]) as [|x y] eqn:Hparts.
      { destruct (parts target); discriminate. }
      rewrite <- Hparts. clear Hparts x y.
      destruct (str_eqb (List.last (parts target ++ [d; f]) []) dotdot); [reflexivity|].
      assert (Hb : base w1 {| absolute := absolute target;
                              parts := parts target ++ [d; f] |}
                   = base w (Path output_dir))
        by (unfold base; cbn [absolute target]; rewrite Hc1; reflexivity).
      rewrite Hb. destruct (is_dir (fs w1) (base w (Path output_dir))); [|reflexivity].
      replace (removelast (parts target ++ [d; f])) with (parts target ++ [d]).
      2:{ change [d; f] with ([d] ++ [f]). rewrite app_assoc, removelast_last.
          reflexivity. }
      rewrite walk_app.
      destruct (walk (fs w1) (base w (Path output_dir)) (parts target)) as [c|] eqn:Hw;
        [|reflexivity].
      apply walk_plain in Hw; [|exact Hplain]. subst c. cbn [walk].
      apply str_eqb_neq in Hdd. rewrite Hdd.
      assert (Hk : fs w1 !! ((base w (Path output_dir) ++ parts target) ++ [d])
                   = fs w !! ((base w (Path output_dir) ++ parts target) ++ [d])).
      { apply (mkdir_walk_deeper _ _ _ _ _ _ Hwalk).
        unfold base at 1. cbn [absolute target parts].
        fold (base w (Path output_dir)). rewrite !length_app. simpl. lia. }
      unfold is_dir.
      destruct ((base w (Path output_dir) ++ parts target) ++ [d]) as [|x y] eqn:Hkey.
      { destruct (base w (Path output_dir) ++ parts target); discriminate. }
      rewrite <- Hkey in *. rewrite Hk.
      cbn [target parts] in *. rewrite <- !app_assoc in *.
      destruct (fs w !! _) as [[|?]|]; [contradiction|reflexivity|reflexivity]. }
    rewrite Hloc. eexists; reflexivity. }
  destruct Hfail as [e He]. rewrite He.
  eexists _, _. split; [reflexivity|]. simpl. rewrite Hl1. reflexivity.
Qed.

(** ** The driver on its inputs *)

Lemma isfile_run path w : exists b, isfile path w = (Ret b, w).
Proof. unfold isfile. eexists. reflexivity. Qed.

Lemma read_text_run path w r w' :
  read_text path w = (r, w') -> w' = w /\ r <> Outside.
Proof.
  unfold read_text. destruct (has_nul (Path path)).
  { intros H; inversion H; subst. split; [reflexivity|discriminate]. }
  destruct (dir_required path || too_long path (parts (Path path))).
  { intros H; inversion H; subst. split; [reflexivity|discriminate]. }
  destruct (locate w (Path path)) as [q|].
  2:{ intros H; inversion H; subst. split; [reflexivity|discriminate]. }
  destruct (fs w !! q) as [[|[t|]]|]; intros H; inversion H; subst;
    (split; [reflexivity|discriminate]).
Qed.

Lemma isfile_add_log path w b e :
  isfile path w = (Ret b, w) -> isfile path (add_log e w) = (Ret b, add_log e w).
Proof.
  unfold isfile. intros H. injection H as Hb. f_equal. f_equal. exact Hb.
Qed.

Lemma read_text_add_log path w r e :
  read_text path w = (r, w) -> read_text path (add_log e w) = (r, add_log e w).
Proof.
  unfold read_text.
  change (locate (add_log e w) (Path path)) with (locate w (Path path)).
  change (fs (add_log e w)) with (fs w).
  destruct (has_nul (Path path)); [intros H; inversion H; reflexivity|].
  destruct (dir_required path || too_long path (parts (Path path)));
    [intros H; inversion H; reflexivity|].
  destruct (locate w (Path path)) as [q|]; [|intros H; inversion H; reflexivity].
  destruct (fs w !! q) as [[|[tx|]]|]; intros H; inversion H; subst; reflexivity.
Qed.

(** How [extract_full_files] begins. *)
Lemma extract_full_files_eq guess_type file_path output_dir custom w :
  extract_full_files guess_type file_path output_dir custom w
  = let w0 := add_log (INFO, MsgProcessing file_path) w in
    match isfile file_path w with
    | (Ret true, _) =>
        match read_text file_path w with
        | (Ret document, _) =>
            match scan document with
            | [] => (Ret tt, add_log (ERROR, MsgNoFiles) w0)
            | b :: bs =>
                bind (process_blocks guess_type output_dir custom (b :: bs))
                  (fun _ => logger INFO MsgAllProcessed)
                  (add_log (INFO, MsgFound (length (b :: bs))) w0)
            end
        | (Raise e, _) => (Ret tt, add_log (ERROR, MsgReadFailed e) w0)
        | (Outside, _) => (Outside, w0)
        end
    | (Ret false, _) => (Ret tt, add_log (ERROR, MsgNoInput file_path) w0)
    | (_, _) => (Outside, w0)
    end.
Proof.
  cbv zeta. unfold extract_full_files.
  rewrite (bind_ret _ _ _ _ _ (logger_run _ _ _)).
  fold (add_log (INFO, MsgProcessing file_path) w).
  destruct (isfile_run file_path w) as [b Hb]. rewrite Hb.
  rewrite (bind_ret _ _ _ _ _ (isfile_add_log _ _ _ _ Hb)).
  destruct b; cbn [negb]; cbv beta iota; [|reflexivity].
  destruct (read_text file_path w) as [r w1] eqn:Hr.
  destruct (read_text_run _ _ _ _ Hr) as [-> Hno].
  pose proof (read_text_add_log _ _ _ (INFO, MsgProcessing file_path) Hr) as Hr0.
  unfold bind at 1. unfold try_except. unfold bind at 1. rewrite Hr0.
  destruct r as [document|e|]; [| |congruence].
  - cbn [ret]. cbv beta iota.
    destruct (scan document) as [|b bs] eqn:Hs; [reflexivity|].
    rewrite (bind_ret _ _ _ _ _ (logger_run _ _ _)). reflexivity.
  - reflexivity.
Qed.

(** An input path that is not a file, because nothing is there or
    because a directory is, is reported as an error; the run returns with
    the file system as it was, whatever the rules are. *)
Theorem missing_input_is_reported
    (guess_type : str -> option str) file_path output_dir custom (w : world) :
  isfile file_path w = (Ret false, w) ->
  extract_full_files guess_type file_path output_dir custom w
  = (Ret tt, add_log (ERROR, MsgNoInput file_path)
               (add_log (INFO, MsgProcessing file_path) w)).
Proof. intros H. rewrite extract_full_files_eq, H. reflexivity. Qed.

(** An input file that cannot be read as text is reported as an error
    with its cause; nothing is scanned or written. *)
Theorem unreadable_input_is_reported
    (guess_type : str -> option str) file_path output_dir custom (w : world) e :
  isfile file_path w = (Ret true, w) ->
  read_text file_path w = (Raise e, w) ->
  extract_full_files guess_type file_path output_dir custom w
  = (Ret tt, add_log (ERROR, MsgReadFailed e)
               (add_log (INFO, MsgProcessing file_path) w)).
Proof. intros H1 H2. rewrite extract_full_files_eq, H1, H2. reflexivity. Qed.

(** What one block adds to the log, and the blocks of a list. *)
Lemma process_block_log guess_type output_dir custom b w :
  Forall (fun kv => rule_compiles (snd kv) = true) custom ->
  exists l e w',
    process_block guess_type output_dir custom b w = (Ret tt, w')
    /\ log w' = log w ++ l ++ [e]
    /\ List.filter is_outcome l = [] /\ is_outcome e = true /\ outcome_of b e.
Proof.
  intros Hc. unfold process_block.
  rewrite (bind_ret _ _ _ _ _ (logger_run _ _ _)).
  fold (add_log (DEBUG, MsgExtracting (fileName b) (fenceLanguage b)) w).
  set (w0 := add_log (DEBUG, MsgExtracting (fileName b) (fenceLanguage b)) w).
  destruct (detect_language_and_directory guess_type (fileName b) custom w0)
    as [r w1] eqn:Hd.
  destruct (detect_returns guess_type (fileName b) custom w0 Hc)
    as (ld & w1' & Hd' & _). rewrite Hd in Hd'. inversion Hd'; subst r w1'. clear Hd'.
  assert (Hl1 : exists m, log w1 = log w0 ++ [m] /\ is_outcome m = false).
  { clear -Hd. unfold detect_language_and_directory, bind in Hd.
    destruct (first_match (fileName b) _ w0) as [r1 wa] eqn:H1.
    destruct (first_match_effect _ _ _ _ _ H1) as [(l & d & -> & _ & ->)|[-> Hr]].
    - inversion Hd; subst. eexists. split; reflexivity.
    - destruct r1 as [[x|]|e|]; try discriminate.
      + exfalso. exact (Hr x eq_refl).
      + destruct (guess_type (fileName b)) as [[|c m]|]; inversion Hd; subst;
          eexists; split; reflexivity. }
  destruct Hl1 as (m & Hl1 & Hm).
  rewrite (bind_ret _ _ _ _ _ Hd).
  destruct (save_file_outcome (fileName b) (snd ld) (content b) output_dir w1)
    as (w2 & Hs & _ & Hcase).
  exists [(DEBUG, MsgExtracting (fileName b) (fenceLanguage b)); m].
  destruct Hcase as [(p & Hl & _)|(e & Hl)].
  - exists (INFO, MsgSaved p), w2. split; [exact Hs|].
    split; [rewrite Hl, Hl1; unfold w0; simpl; rewrite <- !app_assoc; reflexivity|].
    split; [simpl; rewrite Hm; reflexivity|].
    split; [reflexivity|]. left. exists p. reflexivity.
  - exists (ERROR, MsgSaveFailed (fileName b) e), w2. split; [exact Hs|].
    split; [rewrite Hl, Hl1; unfold w0; simpl; rewrite <- !app_assoc; reflexivity|].
    split; [simpl; rewrite Hm; reflexivity|].
    split; [reflexivity|]. right. exists e. reflexivity.
Qed.

Lemma filter_app_single {A} (f : A -> bool) l e :
  List.filter f l = [] -> f e = true -> List.filter f (l ++ [e]) = [e].
Proof.
  intros Hl He. rewrite List.filter_app, Hl. simpl. rewrite He. reflexivity.
Qed.

Lemma process_blocks_log guess_type output_dir custom bs : forall w,
  Forall (fun kv => rule_compiles (snd kv) = true) custom ->
  exists l w',
    process_blocks guess_type output_dir custom bs w = (Ret tt, w')
    /\ log w' = log w ++ l
    /\ Forall2 outcome_of bs (List.filter is_outcome l).
Proof.
  induction bs as [|b bs IH]; intros w Hc.
  - exists [], w. split; [reflexivity|]. rewrite app_nil_r.
    split; [reflexivity|constructor].
  - destruct (process_block_log guess_type output_dir custom b w Hc)
      as (l1 & e & w1 & Hb & Hl1 & Hf & He & Ho).
    destruct (IH w1 Hc) as (l2 & w2 & Hbs & Hl2 & Hall).
    exists ((l1 ++ [e]) ++ l2), w2. simpl process_blocks.
    rewrite (bind_ret _ _ _ _ _ Hb).
    split; [exact Hbs|].
    split; [rewrite Hl2, Hl1; repeat rewrite <- app_assoc; reflexivity|].
    rewrite List.filter_app, (filter_app_single _ _ _ Hf He). simpl.
    constructor; assumption.
Qed.

(** When the document has blocks and the rules compile, the run logs
    their number, then one outcome for each block in the order of the
    scan, saved or failed with the block's name, and then that all files
    have been processed, failures or not. *)
Theorem every_block_is_accounted_for
    (guess_type : str -> option str) file_path output_dir custom
    (w : world) (document : str) :
  isfile file_path w = (Ret true, w) ->
  read_text file_path w = (Ret document, w) ->
  scan document <> [] ->
  Forall (fun kv => rule_compiles (snd kv) = true) custom ->
  exists l w',
    extract_full_files guess_type file_path output_dir custom w = (Ret tt, w')
    /\ log w' = log w ++ [(INFO, MsgProcessing file_path);
                          (INFO, MsgFound (length (scan document)))]
                      ++ l ++ [(INFO, MsgAllProcessed)]
    /\ Forall2 outcome_of (scan document) (List.filter is_outcome l).
Proof.
  intros Hfile Hread Hscan Hc.
  rewrite extract_full_files_eq, Hfile, Hread. cbv zeta.
  destruct (scan document) as [|b bs] eqn:Hs; [contradiction|].
  destruct (process_blocks_log guess_type output_dir custom (b :: bs)
              (add_log (INFO, MsgFound (length (b :: bs)))
                 (add_log (INFO, MsgProcessing file_path) w)) Hc)
    as (l & w1 & Hrun & Hl & Hall).
  exists l. eexists. rewrite (bind_ret _ _ _ _ _ Hrun).
  split; [reflexivity|]. split; [|exact Hall].
  simpl. rewrite Hl. simpl. repeat rewrite <- app_assoc. reflexivity.
Qed.

Lemma extract_returns
    (guess_type : str -> option str) file_path output_dir custom (w : world) :
  Forall (fun kv => rule_compiles (snd kv) = true) custom ->
  exists l w',
    extract_full_files guess_type file_path output_dir custom w = (Ret tt, w')
    /\ log w' = log w ++ (INFO, MsgProcessing file_path) :: l.
Proof.
  intros Hc. rewrite extract_full_files_eq. cbv zeta.
  destruct (isfile_run file_path w) as [b Hb]. rewrite Hb.
  destruct b.
  2:{ eexists _, _. split; [reflexivity|]. simpl. rewrite <- app_assoc.
      reflexivity. }
  destruct (read_text file_path w) as [r w1] eqn:Hr.
  destruct (read_text_run _ _ _ _ Hr) as [-> Hno].
  destruct r as [document|e|]; [| |congruence].
  2:{ eexists _, _. split; [reflexivity|]. simpl. rewrite <- app_assoc.
      reflexivity. }
  destruct (scan document) as [|b bs].
  { eexists _, _. split; [reflexivity|]. simpl. rewrite <- app_assoc.
    reflexivity. }
  destruct (process_blocks_log guess_type output_dir custom (b :: bs)
              (add_log (INFO, MsgFound (length (b :: bs)))
                 (add_log (INFO, MsgProcessing file_path) w)) Hc)
    as (l & w1 & Hrun & Hl & _).
  rewrite (bind_ret _ _ _ _ _ Hrun).
  eexists _, _. split; [reflexivity|]. simpl. rewrite Hl. simpl.
  rewrite <- !app_assoc. reflexivity.
Qed.

(** With rules that compile the run returns normally from every world:
    whether the input is missing or unreadable, has no blocks, or has
    blocks that cannot be saved. *)
Theorem extract_full_files_returns
    (guess_type : str -> option str) file_path output_dir custom (w : world) :
  Forall (fun kv => rule_compiles (snd kv) = true) custom ->
  exists l w',
    extract_full_files guess_type file_path output_dir custom w = (Ret tt, w')
    /\ log w' = log w ++ (INFO, MsgProcessing file_path) :: l.
Proof.
  intros Hc. exact (extract_returns guess_type file_path output_dir custom w Hc).
Qed.

(** ** Loading the rules *)

(** A configuration whose entries are all pairs of a list and a string is
    returned whole, in its order, and the loading is logged. *)
Theorem load_returns_well_formed_rules
    (json_loads : str -> option pyval) config_path text patterns (w : world) :
  isfile config_path w = (Ret true, w) ->
  read_text config_path w = (Ret text, w) ->
  json_loads text = Some (VDict patterns) ->
  Forall (fun kv => entry_ok (snd kv) = true) patterns ->
  load_custom_patterns json_loads config_path w
  = (Ret patterns, add_log (INFO, MsgLoaded config_path) w).
Proof.
  intros Hfile Hread Hjson Hok.
  pose proof (check_patterns_keeps patterns [] (length patterns) w (le_n _) Hok) as Hrun.
  simpl in Hrun.
  unfold load_custom_patterns. rewrite (bind_ret _ _ _ _ _ Hfile).
  cbn [negb]. cbv beta iota. unfold try_except.
  rewrite (bind_ret _ _ _ _ _ Hread), Hjson.
  rewrite (bind_ret _ _ _ _ _ Hrun).
  rewrite (bind_ret _ _ _ _ _ (logger_run _ _ _)). reflexivity.
Qed.

(** A configuration path that is not a file gives no rules and an
    error in the log; nothing is raised. *)
Theorem missing_configuration_gives_no_rules
    (json_loads : str -> option pyval) config_path (w : world) :
  isfile config_path w = (Ret false, w) ->
  load_custom_patterns json_loads config_path w
  = (Ret [], add_log (ERROR, MsgNoConfig config_path) w).
Proof.
  intros Hfile. unfold load_custom_patterns. rewrite (bind_ret _ _ _ _ _ Hfile).
  cbn [negb]. cbv beta iota.
  rewrite (bind_ret _ _ _ _ _ (logger_run _ _ _)). reflexivity.
Qed.

Lemma check_patterns_cases (patterns : dict) w :
  (Forall (fun kv => entry_ok (snd kv) = true) patterns
   /\ check_patterns (length patterns) 0 (length patterns) patterns w
      = (Ret patterns, w))
  \/ exists e w',
       check_patterns (length patterns) 0 (length patterns) patterns w = (Raise e, w')
       /\ fs w' = fs w.
Proof.
  destruct (@List.Forall_Exists_dec _ (fun kv : str * pyval => entry_ok (snd kv) = true)
              (fun kv => bool_dec (entry_ok (snd kv)) true) patterns) as [Hok|Hbad].
  - left. split; [exact Hok|].
    exact (check_patterns_keeps patterns [] (length patterns) w (le_n _) Hok).
  - right.
    assert (Hex : Exists (fun kv : str * pyval => entry_ok (snd kv) = false) patterns).
    { eapply List.Exists_impl; [|exact Hbad]. intros kv H.
      simpl in H. destruct (entry_ok (snd kv)); [exfalso; apply H; reflexivity|reflexivity]. }
    destruct (check_patterns_raises patterns [] (length patterns) w (le_n _) Hex)
      as (e & w' & Hrun & Hfs & _).
    exists e, w'. split; [exact Hrun|exact Hfs].
Qed.

(** Loading never raises and leaves the file system alone; what it
    returns is the whole dictionary of the file, all of whose entries pass
    the check, or nothing: never a part of it. *)
Theorem load_custom_patterns_all_or_nothing
    (json_loads : str -> option pyval) config_path (w : world) :
  exists d w',
    load_custom_patterns json_loads config_path w = (Ret d, w')
    /\ fs w' = fs w
    /\ (d = []
        \/ exists text,
             read_text config_path w = (Ret text, w)
             /\ json_loads text = Some (VDict d)
             /\ Forall (fun kv => entry_ok (snd kv) = true) d).
Proof.
  unfold load_custom_patterns.
  destruct (isfile_run config_path w) as [b Hb].
  rewrite (bind_ret _ _ _ _ _ Hb). destruct b; cbn [negb]; cbv beta iota.
  2:{ eexists _, _. split; [reflexivity|]. split; [reflexivity|]. left. reflexivity. }
  unfold try_except. unfold bind at 1.
  destruct (read_text config_path w) as [r w1] eqn:Hr.
  destruct (read_text_run _ _ _ _ Hr) as [-> Hno].
  destruct r as [text|e|]; [| |congruence].
  2:{ eexists _, _. split; [reflexivity|]. split; [reflexivity|]. left. reflexivity. }
  destruct (json_loads text) as [[| | | | | |patterns]|] eqn:Hj;
    try (eexists _, _; split; [reflexivity|]; split; [reflexivity|]; left; reflexivity).
  destruct (check_patterns_cases patterns w) as [[Hok Hrun]|(e & w' & Hrun & Hfs)].
  - rewrite (bind_ret _ _ _ _ _ Hrun).
    eexists _, _. split; [reflexivity|]. split; [reflexivity|].
    right. exists text. auto.
  - rewrite (bind_raise _ _ _ _ _ Hrun).
    eexists _, _. split; [reflexivity|]. split; [exact Hfs|]. left. reflexivity.
Qed.

(** ** The log has no part in what is done *)

Lemma same_files_refl w : same_files w w.
Proof. split; reflexivity. Qed.

Lemma same_files_sym w1 w2 : same_files w1 w2 -> same_files w2 w1.
Proof. intros [H1 H2]. split; congruence. Qed.

Lemma same_files_trans w1 w2 w3 :
  same_files w1 w2 -> same_files w2 w3 -> same_files w1 w3.
Proof. intros [H1 H2] [H3 H4]. split; congruence. Qed.

Lemma same_files_add_log e w : same_files (add_log e w) w.
Proof. split; reflexivity. Qed.

















(** ** The script *)

Lemma check_patterns_world n : forall i used (patterns : dict) w r w',
  check_patterns n i used patterns w = (r, w') ->
  same_files w' w /\ exists l, log w' = log w ++ l.
Proof.
  induction n as [|n IH]; intros i used patterns w r w' H.
  - rewrite check_patterns_eq in H.
    destruct (negb (length patterns =? used)); inversion H; subst;
      (split; [apply same_files_refl|exists []; rewrite app_nil_r; reflexivity]).
  - rewrite check_patterns_eq in H.
    destruct (negb (length patterns =? used)).
    { inversion H; subst.
      split; [apply same_files_refl|exists []; rewrite app_nil_r; reflexivity]. }
    destruct (nth_error patterns i) as [[lang v]|].
    2:{ inversion H; subst.
        split; [apply same_files_refl|exists []; rewrite app_nil_r; reflexivity]. }
    unfold bind at 1, lift in H.
    destruct (unpack2 v) as [dp|e|].
    2,3: inversion H; subst;
      (split; [apply same_files_refl|exists []; rewrite app_nil_r; reflexivity]).
    destruct (negb (is_list (fst dp)) || negb (is_str (snd dp))).
    + rewrite (bind_ret _ _ _ _ _ (logger_run _ _ _)) in H.
      destruct (IH _ _ _ _ _ _ H) as [Hs [l Hl]].
      split; [exact Hs|]. simpl in Hl. rewrite <- app_assoc in Hl.
      eexists. exact Hl.
    + exact (IH _ _ _ _ _ _ H).
Qed.



Lemma load_custom_patterns_run json_loads config_path w :
  exists d l w',
    load_custom_patterns json_loads config_path w = (Ret d, w')
    /\ same_files w' w /\ log w' = log w ++ l.
Proof.
  unfold load_custom_patterns.
  destruct (isfile_run config_path w) as [b Hb].
  rewrite (bind_ret _ _ _ _ _ Hb). destruct b; cbn [negb]; cbv beta iota.
  2:{ eexists _, _, _. split; [reflexivity|]. split; [apply same_files_add_log|].
      reflexivity. }
  unfold try_except. unfold bind at 1.
  destruct (read_text config_path w) as [r w1] eqn:Hr.
  destruct (read_text_run _ _ _ _ Hr) as [-> Hno].
  destruct r as [text|e|]; [| |congruence].
  2:{ eexists _, _, _. split; [reflexivity|]. split; [apply same_files_add_log|].
      reflexivity. }
  destruct (json_loads text) as [[| | | | | |patterns]|] eqn:Hj;
    try (eexists _, _, _; split; [reflexivity|];
         split; [apply same_files_add_log|reflexivity]).
  unfold bind at 1.
  destruct (check_patterns (length patterns) 0 (length patterns) patterns w)
    as [r w1] eqn:Hrun.
  destruct (check_patterns_world _ _ _ _ _ _ _ Hrun) as [Hs [l Hl]].
  destruct r as [d|e|].
  - eexists _, _, _. split; [reflexivity|]. simpl.
    split; [exact Hs|]. rewrite Hl, <- app_assoc. reflexivity.
  - eexists _, _, _. split; [reflexivity|]. simpl.
    split; [exact Hs|]. rewrite Hl, <- app_assoc. reflexivity.
  - exfalso.
    destruct (check_patterns_cases patterns w) as [[_ H]|(e & w2 & H & _)];
      rewrite H in Hrun; discriminate.
Qed.


(** When no log file is asked for and the rules that were loaded
    compile, the script returns and its last event is that the extraction
    is completed: also when the input was missing, nothing was found or no
    block could be saved. *)
Theorem main_reports_completion
    (guess_type : str -> option str) (json_loads : str -> option pyval)
    input_file output_directory log_level log_file config (w : world) :
  console_only log_file = true ->
  Forall (fun kv => rule_compiles (snd kv) = true) (loaded_rules json_loads config w) ->
  exists l w',
    main guess_type json_loads input_file output_directory log_level log_file
      config w = (Ret tt, w')
    /\ log w' = log w ++ l ++ [(INFO, MsgCompleted)].
Proof.
  intros Hfile Hc. unfold main.
  assert (Hset : setup_logging log_level log_file w = (Ret tt, w))
    by (destruct log_file as [[|c p]|]; [reflexivity|discriminate|reflexivity]).
  rewrite (bind_ret _ _ _ _ _ Hset).
  assert (Hload : exists d l1 w1,
            match config with
            | Some (c :: p) => load_custom_patterns json_loads (c :: p)
            | _ => ret []
            end w = (Ret d, w1)
            /\ log w1 = log w ++ l1
            /\ Forall (fun kv => rule_compiles (snd kv) = true) d).
  { destruct config as [[|c p]|].
    - exists [], [], w. rewrite app_nil_r. repeat split. constructor.
    - destruct (load_custom_patterns_run json_loads (c :: p) w)
        as (d & l & w' & H & _ & Hl).
      exists d, l, w'. split; [exact H|]. split; [exact Hl|].
      unfold loaded_rules in Hc. rewrite H in Hc. exact Hc.
    - exists [], [], w. rewrite app_nil_r. repeat split. constructor. }
  destruct Hload as (d & l1 & w1 & Hload & Hl1 & Hd).
  rewrite (bind_ret _ _ _ _ _ Hload).
  destruct (extract_returns guess_type input_file output_directory d w1 Hd)
    as (l2 & w2 & Hrun & Hl2).
  rewrite (bind_ret _ _ _ _ _ Hrun).
  exists (l1 ++ (INFO, MsgProcessing input_file) :: l2).
  eexists. split; [reflexivity|]. cbn [log]. rewrite Hl2, Hl1.
  repeat rewrite <- app_assoc. reflexivity.
Qed.

(** ** Fenced text *)

Lemma word_not_space c : Chars.is_word c = true -> Chars.is_space c = false.
Proof.
  destruct c as [[] [] [] [] [] [] [] []]; vm_compute; congruence.
Qed.

(** The content of a fenced text ends at the closing fence. *)
Lemma body_closed b text t cs :
  plain text -> quiet b text = true ->
  Re.mt Re.MULTILINE body_pattern Some (St b (text ++ py "```" ++ t) cs)
  = Some (St (rev (py "```") ++ rev text ++ b) t
            ((4, (length b, length (rev text ++ b))) :: cs)).
Proof.
  intros Hp Hq. unfold body_pattern, content_group. rewrite mt_seq, mt_group.
  unfold any_set. rewrite star_set_lazy.
  rewrite lazy_exact; [|apply any_run|apply terminator_fails; assumption].
  apply lazy_here. unfold Re.set_cap, Re.pos. cbn [Re.bef Re.aft Re.caps].
  rewrite terminator_spec. rewrite starts_with_app.
  replace (skipn 3 (py "```" ++ t)) with t by reflexivity. reflexivity.
Qed.

(** The opening fence: three backticks, the tag if there is one, the end
    of the line. *)
Lemma fence_open K b lang rest cs e :
  Forall (fun c => Chars.is_word c = true) lang ->
  K (St (nl :: rev lang ++ rev (py "```") ++ b) rest
       (match lang with
        | [] => cs
        | _ => (3, (length (rev (py "```") ++ b),
                    length (rev lang ++ rev (py "```") ++ b))) :: cs
        end)) = Some e ->
  Re.mt Re.MULTILINE fence K (St b (py "```" ++ lang ++ nl :: rest) cs) = Some e.
Proof.
  intros Hl HK. unfold fence.
  rewrite mt_seq, mt_lit. cbn [app py list_ascii_of_string].
  rewrite chars_eqb_refl. rewrite mt_seq, mt_lit, chars_eqb_refl.
  rewrite mt_seq, mt_lit, chars_eqb_refl. rewrite mt_seq, mt_opt.
  destruct lang as [|c lang].
  - rewrite mt_group. unfold word_set. rewrite mt_plus_set. cbn [app].
    rewrite word_set_match. replace (Chars.is_word nl) with false by reflexivity.
    cbn [Re.or_else]. rewrite mt_lit, chars_eqb_refl. exact HK.
  - inversion Hl as [|? ? Hc Hl']; subst.
    assert (Hm : Re.mt Re.MULTILINE (Re.RGroup 3 (Re.RPlus true word_set))
                   (Re.mt Re.MULTILINE (Re.RLit nl) K)
                   (St ("`"%char :: "`"%char :: "`"%char :: b)
                      ((c :: lang) ++ nl :: rest) cs) = Some e).
    { rewrite mt_group. unfold word_set. rewrite mt_plus_set. cbn [app].
      rewrite word_set_match, Hc.
      apply greedy_deep.
      { eapply List.Forall_impl; [|exact Hl']. intros a Ha.
        rewrite word_set_match. exact Ha. }
      rewrite greedy_stop by (cbn [stop]; rewrite word_set_match; reflexivity).
      unfold Re.set_cap, Re.pos. cbn [Re.bef Re.aft Re.caps].
      rewrite mt_lit, chars_eqb_refl.
      cbn [rev app py list_ascii_of_string] in HK.
      repeat rewrite <- app_assoc in HK. cbn [app] in HK.
      rewrite !length_app in *. cbn [length] in *.
      exact HK. }
    rewrite Hm. reflexivity.
Qed.

Lemma tail_at_text k b c l cs :
  Chars.is_space c = false ->
  Re.mt Re.MULTILINE tail_pattern k (St b (nl :: c :: l) cs)
  = Re.mt Re.MULTILINE fenced_pattern k (St (nl :: b) (c :: l) cs).
Proof.
  intros Hc. unfold tail_pattern. rewrite mt_seq. unfold space_set.
  rewrite star_set_greedy. cbn [greedy_spec]. rewrite !space_set_match, Hc.
  replace (Chars.is_space nl) with true by reflexivity.
  rewrite !mt_seq, !mt_lit, (space_not_nl c Hc), chars_eqb_refl. reflexivity.
Qed.

Lemma quiet_prefix x : forall b y, quiet b (x ++ y) = true -> quiet b x = true.
Proof.
  induction x as [|c x IH]; intros b y H; [reflexivity|].
  simpl in H |- *. apply andb_true_iff in H. destruct H as [H1 H2].
  rewrite H1. exact (IH _ _ H2).
Qed.

Lemma fenced_match f b rest :
  wf_entry (Fenced f) -> bolb b = true -> followed (fenced_body f) rest ->
  exists e x y,
    nl :: fenced_body f = x ++ y /\ x <> []
    /\ Re.mt Re.MULTILINE file_pattern Some
         (St b (render_block (fenced_heading f) ++ rest) [])
       = Some e
    /\ Re.bef e = rev x ++ rev (block_name (fenced_heading f))
                    ++ " "%char :: "#"%char :: b
    /\ Re.aft e = y ++ rest
    /\ block_of (Re.groups 4 e) = block_of_entry (Fenced f).
Proof.
  intros ((Hne & Hstem & Hext & Hq) & Hlang & Hplain) Hbol _.
  cbn [fenced_heading hb_stem hb_ext hb_body] in Hne, Hstem, Hext, Hq.
  set (b1 := " "%char :: "#"%char :: b).
  set (name := fb_stem f ++ "."%char :: fb_ext f).
  set (b2 := rev name ++ b1).
  set (cs1 := [(1, (length b1, length b2));
               (2, (length ("."%char :: rev (fb_stem f) ++ b1),
                    length (rev (fb_ext f) ++ "."%char :: rev (fb_stem f) ++ b1)))]).
  set (b4 := rev (py "```") ++ nl :: b2).
  set (b6 := nl :: rev (fb_lang f) ++ b4).
  set (cs3 := match fb_lang f with
              | [] => cs1
              | _ => (3, (length b4, length (rev (fb_lang f) ++ b4))) :: cs1
              end).
  set (e := St (rev (py "```") ++ rev (fb_text f) ++ b6) (fb_after f ++ rest)
              ((4, (length b6, length (rev (fb_text f) ++ b6))) :: cs3)).
  assert (Hq6 : quiet b6 (fb_text f) = true).
  { unfold fenced_body in Hq.
    replace (py "```" ++ fb_lang f ++ nl :: fb_text f ++ py "```" ++ fb_after f)
      with ((py "```" ++ fb_lang f ++ [nl]) ++ fb_text f ++ py "```" ++ fb_after f) in Hq
      by (repeat rewrite <- app_assoc; reflexivity).
    apply quiet_suffix in Hq. apply quiet_prefix in Hq.
    rewrite (quiet_bol _ _ b6) in Hq; [exact Hq|].
    rewrite !rev_app_distr. reflexivity. }
  assert (Htail : Re.mt Re.MULTILINE tail_pattern Some
                    (St b2 (nl :: fenced_body f ++ rest) cs1) = Some e).
  { assert (Ebody : fenced_body f ++ rest
                    = py "```" ++ fb_lang f
                        ++ nl :: (fb_text f ++ py "```" ++ fb_after f ++ rest))
      by (unfold fenced_body; list_norm; reflexivity).
    rewrite Ebody.
    set (L := fb_lang f ++ nl :: (fb_text f ++ py "```" ++ fb_after f ++ rest)).
    change (nl :: py "```" ++ L) with (nl :: "`"%char :: (py "``" ++ L)).
    rewrite tail_at_text by reflexivity.
    change ("`"%char :: (py "``" ++ L)) with (py "```" ++ L). unfold L.
    unfold fenced_pattern. rewrite mt_seq, mt_opt.
    rewrite (fence_open _ _ _ _ _ e Hlang); [reflexivity|].
    fold b4. fold b6. fold cs3. apply body_closed; assumption. }
  exists e, (nl :: py "```" ++ fb_lang f ++ nl :: fb_text f ++ py "```"), (fb_after f).
  split; [unfold fenced_body; list_norm; reflexivity|].
  split; [discriminate|].
  split.
  { rewrite render_block_app. cbn [fenced_heading hb_stem hb_ext hb_body].
    apply heading_fwd; assumption. }
  split.
  { unfold e, b6, b4, b2, name, block_name. cbn [Re.bef fenced_heading hb_stem hb_ext].
    list_norm. reflexivity. }
  split; [reflexivity|].
  destruct (tail_groups Some b1 (fb_stem f) (fb_ext f)
              (nl :: fenced_body f ++ rest) [] e
              (fun z Hz => f_equal (fun o => match o with Some a => a | None => z end) Hz)
              Htail) as (H1 & H2).
  destruct (extension_chars (fb_ext f) Hext) as [_ Hec].
  assert (Hn : Forall (fun c => Chars.is_space c = false) name).
  { apply Forall_app. split; [exact Hstem|]. constructor; [reflexivity|exact Hec]. }
  assert (H3 : Re.group 3 e = fb_lang f).
  { unfold Re.group, e, cs3. cbn [Re.caps Re.cap_get Nat.eqb].
    destruct (fb_lang f) as [|c lang] eqn:El; [reflexivity|].
    cbn [Re.cap_get Nat.eqb]. rewrite subject_St.
    replace (rev (rev (py "```") ++ rev (fb_text f) ++ b6) ++ fb_after f ++ rest)
      with (rev b4 ++ (c :: lang) ++ (nl :: fb_text f ++ py "```" ++ fb_after f ++ rest)).
    - apply substr_zipper.
    - unfold b6. try rewrite El. list_norm. reflexivity. }
  assert (H4 : Re.group 4 e = fb_text f).
  { unfold Re.group, e. cbn [Re.caps Re.cap_get Nat.eqb]. rewrite subject_St.
    replace (rev (rev (py "```") ++ rev (fb_text f) ++ b6) ++ fb_after f ++ rest)
      with (rev b6 ++ fb_text f ++ (py "```" ++ fb_after f ++ rest))
      by (list_norm; reflexivity).
    apply substr_zipper. }
  unfold block_of, block_of_entry, nth_str. cbn [nth Re.groups seq map].
  rewrite H1, H2, H3, H4. fold name.
  rewrite !strip_no_space by assumption.
  f_equal. destruct (fb_lang f) as [|c lang] eqn:El; [reflexivity|].
  apply strip_no_space. eapply List.Forall_impl; [|exact Hlang].
  intros a. apply word_not_space.
Qed.

Lemma captured_block h e :
  plain_heading h -> captured h e -> block_of (Re.groups 4 e) = block_of_heading h.
Proof.
  intros [Hh _] ([H1 H2] & H3 & H4).
  destruct (wf_name_chars h Hh) as [Hn He].
  unfold block_of, block_of_heading, nth_str. cbn [nth Re.groups seq map].
  rewrite H1, H2, H3, H4, !strip_no_space by assumption. reflexivity.
Qed.

Lemma entry_match s b rest :
  wf_entry s -> bolb b = true -> followed (hb_body (heading_of s)) rest ->
  exists e x y,
    nl :: hb_body (heading_of s) = x ++ y /\ x <> []
    /\ Re.mt Re.MULTILINE file_pattern Some
         (St b (render_block (heading_of s) ++ rest) [])
       = Some e
    /\ Re.bef e = rev x ++ rev (block_name (heading_of s)) ++ " "%char :: "#"%char :: b
    /\ Re.aft e = y ++ rest
    /\ block_of (Re.groups 4 e) = block_of_entry s.
Proof.
  destruct s as [h|f]; intros Hwf Hbol Hfol.
  - destruct (plain_match h b rest Hwf Hbol Hfol) as (e & x & y & H1 & H2 & H3 & H4 & H5 & H6).
    exists e, x, y. repeat split; try assumption.
    apply captured_block; assumption.
  - exact (fenced_match f b rest Hwf Hbol Hfol).
Qed.

Lemma run_unique (P : ascii -> Prop) c w : forall w' t t',
  Forall P w -> Forall P w' -> ~ P c ->
  w ++ c :: t = w' ++ c :: t' -> w = w' /\ t = t'.
Proof.
  induction w as [|a w IH]; intros w' t t' Hw Hw' Hc E.
  - destruct w' as [|a' w'].
    + inversion E. auto.
    + inversion E; subst. inversion Hw'; subst. contradiction.
  - destruct w' as [|a' w'].
    + inversion E; subst. inversion Hw; subst. contradiction.
    + inversion E; subst. inversion Hw; inversion Hw'; subst.
      destruct (IH w' t t') as [-> ->]; auto.
Qed.

(** A heading is written by one entry only, as far as its block goes. *)
Lemma entry_unique s s' :
  wf_entry s -> wf_entry s' -> heading_of s = heading_of s' ->
  block_of_entry s = block_of_entry s'.
Proof.
  destruct s as [h|f], s' as [h'|f']; simpl; intros Hs Hs' E.
  - subst. reflexivity.
  - exfalso. destruct Hs as [_ Hp]. rewrite E in Hp.
    cbn [fenced_heading hb_body] in Hp. unfold fenced_body in Hp.
    inversion Hp as [|? ? Hc _]. congruence.
  - exfalso. destruct Hs' as [_ Hp]. rewrite <- E in Hp.
    cbn [fenced_heading hb_body] in Hp. unfold fenced_body in Hp.
    inversion Hp as [|? ? Hc _]. congruence.
  - destruct Hs as (_ & Hl & Hp), Hs' as (_ & Hl' & Hp').
    unfold fenced_heading in E. injection E as E1 E2 E3.
    unfold fenced_body in E3. cbn [py list_ascii_of_string app] in E3.
    destruct (run_unique (fun c => Chars.is_word c = true) nl _ _ _ _ Hl Hl'
                ltac:(discriminate) E3) as [E4 E5].
    destruct (run_unique (fun c => c <> "`"%char) "`"%char _ _ _ _ Hp Hp'
                ltac:(congruence) E5) as [E6 _].
    unfold block_of_heading. rewrite E1, E2, E4, E6. reflexivity.
Qed.

Lemma entry_blocks ss : forall ms,
  Forall wf_entry ss ->
  Forall2 (fun h (m : Re.mstate * Re.mstate) =>
             exists s, heading_of s = h /\ wf_entry s
                       /\ block_of (Re.groups 4 (snd m)) = block_of_entry s)
    (map heading_of ss) ms ->
  map block_of (map (fun m => Re.groups 4 (snd m)) ms) = map block_of_entry ss.
Proof.
  induction ss as [|s ss IH]; intros ms Hwf H.
  - inversion H. reflexivity.
  - inversion Hwf as [|? ? Hs Hwf']; subst.
    simpl in H. inversion H as [|? m ? ms' (s' & E & Hs' & Hb) Hrest]; subst.
    simpl. rewrite Hb, (entry_unique s' s Hs' Hs E), (IH ms' Hwf' Hrest).
    reflexivity.
Qed.

(** A document of headings with paragraphs and with fenced texts is
    scanned as it is written: one block for each heading, in order, with
    the name and the extension of the heading; for a paragraph no language
    tag and the trimmed paragraph, for a fenced text the tag of the fence
    and the trimmed text between the fences.  What stands between a
    closing fence and the next heading is in no block. *)
Theorem scan_of_entries (preamble : str) (ss : list entry) :
  quiet [] preamble = true ->
  ends_line preamble = true ->
  Forall wf_entry ss ->
  bodies_end_lines (map heading_of ss) ->
  scan (document_of preamble (map heading_of ss)) = map block_of_entry ss.
Proof.
  intros Hq Hend Hwf Hends.
  destruct (scan_document preamble (map heading_of ss)
              (fun h => exists s, heading_of s = h /\ wf_entry s)
              (fun h e => exists s, heading_of s = h /\ wf_entry s
                                    /\ block_of (Re.groups 4 e) = block_of_entry s))
    as (ms & Hscan & Hall); try assumption.
  - intros h (s & <- & Hs). destruct s as [h|f].
    + apply plain_heading_quiet. exact Hs.
    + destruct Hs as [Hs _]. apply wf_heading_quiet. exact Hs.
  - intros h b rest (s & <- & Hs) Hbol Hfol.
    destruct (entry_match s b rest Hs Hbol Hfol) as (e & x & y & H1 & H2 & H3 & H4 & H5 & H6).
    exists e, x, y. repeat split; try assumption. exists s. auto.
  - apply Forall_map. eapply List.Forall_impl; [|exact Hwf].
    intros s Hs. exists s. auto.
  - rewrite Hscan. apply entry_blocks; assumption.
Qed.

(** ** The order of the matches *)

Lemma match_advances ma s e :
  Re.caps s = [] ->
  Re.mt Re.MULTILINE file_pattern (Re.final ma s) s = Some e ->
  Re.pos s < Re.pos e /\ later s e.
Proof.
  intros Hc Hm. split.
  - destruct s as [b a cs]. simpl in Hc. subst cs.
    apply heading_inv in Hm.
    destruct Hm as (ws & stem & ext & t & Ha & _ & _ & _ & _ & Hm).
    cbv zeta in Hm. apply mt_forward in Hm.
    destruct Hm as (s' & Hfin & [Hlater _]).
    apply final_Some in Hfin. subst s'.
    apply later_pos in Hlater. unfold Re.pos in *. cbn [Re.bef] in *.
    rewrite !length_app in Hlater. cbn [length] in Hlater. lia.
  - apply mt_forward in Hm. destruct Hm as (s' & Hfin & [Hlater _]).
    apply final_Some in Hfin. subst s'. exact Hlater.
Qed.

Lemma loop_in_order fuel : forall ma b a ms,
  Re.finditer_loop Re.MULTILINE file_pattern fuel ma b a = Some ms ->
  in_order (length b) (map (fun m => (Re.pos (fst m), Re.pos (snd m))) ms)
  /\ Forall (fun m => Re.pos (snd m) <= length b + length a) ms.
Proof.
  induction fuel as [|fuel IH]; intros ma b a ms H; [discriminate|].
  rewrite finditer_loop_eq in H.
  destruct (Re.search Re.MULTILINE file_pattern ma b a) as [[s e]|] eqn:Hs.
  2:{ inversion H; subst. split; constructor. }
  destruct (Re.finditer_loop Re.MULTILINE file_pattern fuel _ (Re.bef e) (Re.aft e))
    as [ms'|] eqn:Hrest; [|discriminate].
  inversion H; subst ms. clear H.
  apply search_Some in Hs. destruct Hs as (w & t & Ha & Hst & Hm).
  destruct (match_advances _ s e ltac:(subst s; reflexivity) Hm) as [Hlt Hlater].
  destruct (IH _ _ _ _ Hrest) as [Hord Hall].
  pose proof (later_aft_length _ _ Hlater) as Hlen.
  assert (Hps : Re.pos s = length w + length b)
    by (subst s; unfold Re.pos; cbn [Re.bef]; rewrite length_app, length_rev; reflexivity).
  assert (Has : length (Re.aft s) = length t) by (subst s; reflexivity).
  assert (Hla : length a = length w + length t) by (subst a; apply length_app).
  split.
  - cbn [map in_order fst snd]. split; [lia|]. split; [exact Hlt|exact Hord].
  - constructor.
    + cbn [snd]. unfold Re.pos in *. lia.
    + eapply List.Forall_impl; [|exact Hall]. intros m Hmm. cbn beta in Hmm.
      unfold Re.pos in *. lia.
Qed.

(** The blocks of a scan come from stretches of the document that are
    not empty, lie inside it and follow one another from left to right
    without overlap, whatever the document is. *)
Theorem blocks_come_in_document_order (document : str) :
  length (spans document) = length (scan document)
  /\ in_order 0 (spans document)
  /\ Forall (fun sp => snd sp <= length document) (spans document).
Proof.
  unfold spans, scan, scan_raw, Re.findall. rewrite !length_map.
  split; [reflexivity|].
  destruct (finditer_total Re.MULTILINE file_pattern document) as (ms & Hloop & ->).
  destruct (loop_in_order _ _ _ _ _ Hloop) as [Hord Hall].
  split; [exact Hord|].
  apply Forall_map. eapply List.Forall_impl; [|exact Hall].
  intros m Hm. exact Hm.
Qed.

(** ** Letter case *)



















(** ** Heading lines that name no block *)

Lemma heading_inv_spaces k b a cs e :
  Re.mt Re.MULTILINE file_pattern k (St b a cs) = Some e ->
  exists ws stem ext t,
    a = "#"%char :: ws ++ stem ++ "."%char :: ext ++ t
    /\ Forall (fun c => Chars.is_space c = true) ws
    /\ stem <> []
    /\ Forall (fun c => Chars.is_space c = false) stem
    /\ In ext extensions
    /\ exists b' cs', Re.mt Re.MULTILINE tail_pattern k (St b' t cs') = Some e.
Proof.
  rewrite file_pattern_parts, heading_start. destruct a as [|c t0]; [discriminate|].
  destruct (bolb b && Chars.eqb "#" c) eqn:Hb; [|discriminate].
  apply andb_true_iff in Hb. destruct Hb as [Hbol Hc].
  apply chars_eqb_eq in Hc. subst c.
  rewrite mt_seq. unfold space_set at 1. rewrite star_set_greedy. intros H.
  apply greedy_inv in H. destruct H as (ws & t1 & Ht0 & Hws & H).
  rewrite mt_seq in H. apply name_group_inv in H.
  destruct H as (stem & ext & t & Ht1 & Hne & Hstem & Hin & H).
  exists ws, stem, ext, t. split; [rewrite Ht0, Ht1; reflexivity|].
  split.
  { eapply List.Forall_impl; [|exact Hws]. intros c Hc. cbv beta in Hc.
    rewrite space_set_match in Hc. exact Hc. }
  repeat split; try assumption. eexists _, _. exact H.
Qed.

Lemma tail_pattern_end k b cs :
  Re.mt Re.MULTILINE tail_pattern k (St b [] cs) = None.
Proof.
  unfold tail_pattern. rewrite mt_seq. unfold space_set. rewrite star_set_greedy.
  cbn [greedy_spec]. rewrite mt_seq, mt_lit. reflexivity.
Qed.

(** Two runs that end at the same place are the same run. *)
Lemma run_eq (P : ascii -> Prop) w : forall w' c c' t t',
  Forall P w -> Forall P w' -> ~ P c -> ~ P c' ->
  w ++ c :: t = w' ++ c' :: t' -> w = w'.
Proof.
  induction w as [|a w IH]; intros w' c c' t t' Hw Hw' Hc Hc' E.
  - destruct w' as [|a' w']; [reflexivity|].
    inversion E; subst. inversion Hw'; subst. contradiction.
  - destruct w' as [|a' w'].
    + inversion E; subst. inversion Hw; subst. contradiction.
    + inversion E; subst. inversion Hw; inversion Hw'; subst.
      f_equal. apply (IH w' c c' t t'); assumption.
Qed.

(** A line [# tok] whose token is not a name with one of the extensions
    starts no block. *)
Lemma heading_line_dead k b tok text cs :
  tok <> [] ->
  Forall (fun c => Chars.is_space c = false) tok ->
  (forall stem ext, In ext extensions -> tok <> stem ++ "."%char :: ext) ->
  Re.mt Re.MULTILINE file_pattern k
    (St b ("#"%char :: " "%char :: tok ++ nl :: text) cs) = None.
Proof.
  intros Hne Htok Hno.
  destruct (Re.mt Re.MULTILINE file_pattern k _) as [e|] eqn:Hm; [|reflexivity].
  exfalso. apply heading_inv_spaces in Hm.
  destruct Hm as (ws & stem & ext & t & Ha & Hws & Hsne & Hstem & Hin & b' & cs' & Ht).
  injection Ha as Ha.
  destruct (extension_chars ext Hin) as [_ Hec].
  assert (Hname : Forall (fun c => Chars.is_space c = false) (stem ++ "."%char :: ext)).
  { apply Forall_app. split; [exact Hstem|]. constructor; [reflexivity|exact Hec]. }
  destruct tok as [|c0 tok]; [contradiction|].
  destruct stem as [|s0 stem]; [contradiction|].
  inversion Htok as [|? ? Hc0 Htok']; subst.
  inversion Hstem as [|? ? Hs0 Hstem']; subst.
  assert (Ews : [" "%char] = ws).
  { apply (run_eq (fun c => Chars.is_space c = true) [" "%char] ws c0 s0
             (tok ++ nl :: text) (stem ++ "."%char :: ext ++ t)).
    - repeat constructor.
    - exact Hws.
    - congruence.
    - congruence.
    - simpl. simpl in Ha. rewrite Ha. reflexivity. }
  subst ws. simpl in Ha. injection Ha as E0 Ha. subst s0.
  destruct t as [|c t].
  { rewrite tail_pattern_end in Ht. discriminate. }
  destruct (Chars.is_space c) eqn:Hc.
  2:{ rewrite tail_pattern_none in Ht by exact Hc. discriminate. }
  assert (E : tok = stem ++ "."%char :: ext).
  { apply (run_eq (fun c => Chars.is_space c = false) tok (stem ++ "."%char :: ext)
             nl c text t).
    - exact Htok'.
    - apply Forall_app. split; [exact Hstem'|]. constructor; [reflexivity|exact Hec].
    - discriminate.
    - congruence.
    - rewrite Ha, <- app_assoc. reflexivity. }
  apply (Hno (c0 :: stem) ext Hin). simpl. rewrite E. reflexivity.
Qed.

Lemma quiet_line l : forall b text,
  bolb b = false ->
  Forall (fun c => c <> nl) l ->
  quiet [nl] text = true ->
  quiet b (l ++ nl :: text) = true.
Proof.
  induction l as [|c l IH]; intros b text Hb Hl Ht.
  - simpl. rewrite Hb. simpl. rewrite quiet_head. exact Ht.
  - inversion Hl as [|? ? Hc Hl']; subst. simpl. rewrite Hb. simpl.
    apply IH; try assumption. simpl. apply chars_eqb_neq. congruence.
Qed.

(** After a paragraph block, a heading line with a marker, a space and
    a token that does not end in a dot and an extension ends the block like
    any heading line, and starts none: the paragraph is the last block, and
    the line and the text under it are in no block. *)
Theorem unrecognised_heading_drops_its_text
    (preamble : str) (h : heading_block) (tok text : str) :
  quiet [] preamble = true -> ends_line preamble = true ->
  plain_heading h -> ends_line (hb_body h) = true ->
  tok <> [] ->
  Forall (fun c => Chars.is_space c = false) tok ->
  (forall stem ext, In ext extensions -> tok <> stem ++ "."%char :: ext) ->
  quiet [nl] text = true ->
  scan (preamble ++ render_block h ++ py "# " ++ tok ++ nl :: text)
  = [block_of_heading h].
Proof.
  intros Hpre Hend Hh Hbody Hne Htok Hno Htext.
  set (junk := py "# " ++ tok ++ nl :: text).
  assert (Hfol : followed (hb_body h) junk) by (right; split; [reflexivity|exact Hbody]).
  destruct (plain_match h (rev preamble) junk Hh Hend Hfol)
    as (e & x & y & Hsplit & Hx & Hm & Hb & Ha & Hcap).
  unfold scan, scan_raw, Re.findall, Re.finditer.
  replace (Re.finditer_fuel (preamble ++ render_block h ++ junk))
    with (S (S (2 * length (preamble ++ render_block h ++ junk))))
    by (unfold Re.finditer_fuel; lia).
  rewrite (finditer_loop_quiet _ _ _ _ Hpre), app_nil_r.
  rewrite finditer_loop_eq, search_eq.
  change (Re.final false (St (rev preamble) (render_block h ++ junk) []))
    with (@Some Re.mstate).
  rewrite Hm.
  assert (Hpos : (Re.pos e =? Re.pos (St (rev preamble) (render_block h ++ junk) []))
                 = false).
  { apply Nat.eqb_neq. unfold Re.pos. rewrite Hb. cbn [Re.bef].
    rewrite !length_app. simpl. lia. }
  rewrite Hpos, Hb, Ha.
  assert (Hq : quiet (rev x ++ rev (block_name h) ++ " "%char :: "#"%char :: rev preamble) y
               = true).
  { apply quiet_suffix. rewrite <- Hsplit. apply quiet_after_heading.
    apply plain_heading_quiet. exact Hh. }
  rewrite (finditer_loop_quiet _ _ _ _ Hq).
  set (b' := rev y ++ rev x ++ rev (block_name h) ++ " "%char :: "#"%char :: rev preamble).
  rewrite finditer_loop_eq, search_eq.
  unfold junk. cbn [py list_ascii_of_string app].
  rewrite heading_line_dead by assumption.
  assert (Hrest : Re.search Re.MULTILINE file_pattern false ("#"%char :: b')
                    (" "%char :: tok ++ nl :: text) = None).
  { rewrite <- (app_nil_r (" "%char :: tok ++ nl :: text)).
    rewrite search_quiet; [apply search_at_end| |left; discriminate].
    change (" "%char :: tok ++ nl :: text) with ((" "%char :: tok) ++ nl :: text).
    apply quiet_line; [reflexivity| |exact Htext].
    constructor; [discriminate|].
    eapply List.Forall_impl; [|exact Htok]. intros c Hc E. subst c. discriminate Hc. }
  rewrite Hrest. cbn [map]. f_equal. apply captured_block; assumption.
Qed.
(** ** When a save succeeds *)

Lemma firstn_cons_S {A} i (p : A) ps : firstn (S i) (p :: ps) = p :: firstn i ps.
Proof. reflexivity. Qed.

(** What [mkdir] adds are directories on the path, whether it succeeds
    or fails on the way. *)
Lemma mkdir_walk_frame ps : forall f cur f' ok,
  Forall (fun s => s <> dotdot) ps ->
  mkdir_walk f cur ps = (f', ok) ->
  forall k, f' !! k = f !! k
            \/ (f !! k = None /\ f' !! k = Some NDir
                /\ exists i, 1 <= i <= length ps /\ k = cur ++ firstn i ps).
Proof.
  induction ps as [|p ps IH]; intros f cur f' ok Hps H k.
  - inversion H; subst. left. reflexivity.
  - inversion Hps as [|? ? Hp Hps']; subst. apply str_eqb_neq in Hp.
    simpl in H. rewrite Hp in H.
    destruct (name_too_long p); [inversion H; subst; left; reflexivity|].
    assert (Hkey : forall i, cur ++ firstn (S i) (p :: ps) = (cur ++ [p]) ++ firstn i ps).
    { intros i. simpl. rewrite <- app_assoc. reflexivity. }
    destruct (f !! (cur ++ [p])) as [[|d]|] eqn:Hq.
    + destruct (IH _ _ _ _ Hps' H k) as [E|(E1 & E2 & i & Hi & Ek)]; [left; exact E|].
      right. split; [exact E1|]. split; [exact E2|].
      exists (S i). split; [simpl; lia|]. rewrite Hkey. exact Ek.
    + inversion H; subst. left. reflexivity.
    + destruct (IH _ _ _ _ Hps' H k) as [E|(E1 & E2 & i & Hi & Ek)].
      * destruct (decide (cur ++ [p] = k)) as [<-|Hne].
        -- right. rewrite E, lookup_insert_eq. split; [exact Hq|]. split; [reflexivity|].
           exists 1. split; [simpl; lia|]. simpl. reflexivity.
        -- left. rewrite E. apply lookup_insert_ne. exact Hne.
      * destruct (decide (cur ++ [p] = k)) as [<-|Hne].
        -- rewrite lookup_insert_eq in E1. discriminate.
        -- rewrite lookup_insert_ne in E1 by exact Hne.
           right. split; [exact E1|]. split; [exact E2|].
           exists (S i). split; [simpl; lia|]. rewrite Hkey. exact Ek.
Qed.

(** After [mkdir], successful or not, a second [mkdir] of the same path
    changes nothing and ends the same way, whatever files have been written
    and directories made since. *)
Lemma mkdir_walk_settled ps : forall f cur f' ok,
  mkdir_walk f cur ps = (f', ok) ->
  forall g : gmap (list str) node,
    (forall k, f' !! k = Some NDir -> g !! k = Some NDir) ->
    (forall k d, f' !! k = Some (NFile d) -> exists d', g !! k = Some (NFile d')) ->
    mkdir_walk g cur ps = (g, ok).
Proof.
  induction ps as [|p ps IH]; intros f cur f' ok H g Hd Hf.
  - inversion H; subst. reflexivity.
  - simpl in H |- *. destruct (str_eqb p dotdot); [exact (IH _ _ _ _ H g Hd Hf)|].
    destruct (name_too_long p); [inversion H; subst; reflexivity|].
    destruct (f !! (cur ++ [p])) as [[|d]|] eqn:Hk.
    + assert (Hg : g !! (cur ++ [p]) = Some NDir).
      { apply Hd. destruct (mkdir_walk_grown _ _ _ _ _ H (cur ++ [p])) as [E|[E _]];
          congruence. }
      rewrite Hg. exact (IH _ _ _ _ H g Hd Hf).
    + inversion H; subst. destruct (Hf _ _ Hk) as [d' Hg]. rewrite Hg. reflexivity.
    + assert (Hg : g !! (cur ++ [p]) = Some NDir).
      { apply Hd. destruct (mkdir_walk_grown _ _ _ _ _ H (cur ++ [p])) as [E|[E _]].
        - rewrite E. apply lookup_insert_eq.
        - rewrite lookup_insert_eq in E. discriminate. }
      rewrite Hg. exact (IH _ _ _ _ H g Hd Hf).
Qed.

Lemma mkdir_walk_ok ps : forall f cur,
  Forall (fun s => s <> dotdot) ps ->
  Forall (fun s => name_too_long s = false) ps ->
  way_clear f cur ps ->
  exists f',
    mkdir_walk f cur ps = (f', true)
    /\ (forall i, 1 <= i <= length ps -> f' !! (cur ++ firstn i ps) = Some NDir).
Proof.
  induction ps as [|p ps IH]; intros f cur Hps Hfit Hway.
  - exists f. split; [reflexivity|]. simpl; intros; lia.
  - inversion Hps as [|? ? Hp Hps']; subst. apply str_eqb_neq in Hp.
    inversion Hfit as [|? ? Hfp Hfit']; subst.
    simpl mkdir_walk. rewrite Hp, Hfp.
    assert (Hkey : forall i, cur ++ firstn (S i) (p :: ps) = (cur ++ [p]) ++ firstn i ps).
    { intros i. simpl. rewrite <- app_assoc. reflexivity. }
    set (f1 := match f !! (cur ++ [p]) with None => <[cur ++ [p] := NDir]> f | _ => f end).
    assert (Hf1 : f1 !! (cur ++ [p]) = Some NDir
                  /\ match f !! (cur ++ [p]) with
                     | Some NDir => mkdir_walk f (cur ++ [p]) ps
                     | Some (NFile _) => (f, false)
                     | None => mkdir_walk (<[cur ++ [p] := NDir]> f) (cur ++ [p]) ps
                     end = mkdir_walk f1 (cur ++ [p]) ps
                  /\ forall k, f1 !! k = f !! k
                               \/ (f !! k = None /\ f1 !! k = Some NDir /\ k = cur ++ [p])).
    { unfold f1.
      destruct (f !! (cur ++ [p])) as [[|d]|] eqn:Hq.
      - split; [exact Hq|]. split; [reflexivity|]. intros k. left. reflexivity.
      - exfalso. apply (Hway 1 d); [simpl; lia|]. exact Hq.
      - split; [apply lookup_insert_eq|]. split; [reflexivity|]. intros k.
        destruct (decide (cur ++ [p] = k)) as [<-|Hne].
        + right. rewrite lookup_insert_eq. auto.
        + left. apply lookup_insert_ne. exact Hne. }
    destruct Hf1 as (Hdir & Hstep & Hdiff). rewrite Hstep.
    destruct (IH f1 (cur ++ [p]) Hps' Hfit') as (f' & Hrun & Hdirs).
    { intros i d Hi Hk. rewrite <- Hkey in Hk.
      destruct (Hdiff (cur ++ firstn (S i) (p :: ps))) as [E|(_ & E & _)].
      - rewrite E in Hk. apply (Hway (S i) d); [simpl; lia|exact Hk].
      - congruence. }
    exists f'. split; [exact Hrun|].
    intros i Hi. destruct i as [|i]; [lia|]. rewrite Hkey.
    destruct i as [|i].
    + simpl. rewrite app_nil_r.
      destruct (mkdir_walk_grown _ _ _ _ _ Hrun (cur ++ [p])) as [E|[E _]]; congruence.
    + apply Hdirs. simpl in Hi. lia.
Qed.

Lemma walk_dirs ps : forall f cur,
  Forall (fun s => s <> dotdot) ps ->
  (forall i, 1 <= i <= length ps -> f !! (cur ++ firstn i ps) = Some NDir) ->
  walk f cur ps = Some (cur ++ ps).
Proof.
  induction ps as [|p ps IH]; intros f cur Hps Hd.
  - simpl. rewrite app_nil_r. reflexivity.
  - inversion Hps as [|? ? Hp Hps']; subst. apply str_eqb_neq in Hp.
    simpl. rewrite Hp.
    assert (H1 : f !! (cur ++ [p]) = Some NDir).
    { specialize (Hd 1). simpl in Hd. apply Hd. lia. }
    assert (Hdir : is_dir f (cur ++ [p]) = true).
    { unfold is_dir. destruct (cur ++ [p]) eqn:E; [reflexivity|]. rewrite H1. reflexivity. }
    rewrite Hdir, IH.
    + rewrite <- app_assoc. reflexivity.
    + exact Hps'.
    + intros i Hi. specialize (Hd (S i)). simpl in Hd. rewrite <- app_assoc. simpl.
      apply Hd. lia.
Qed.

Lemma has_nul_app_false abs ps qs :
  has_nul {| absolute := abs; parts := ps ++ qs |} = false ->
  has_nul {| absolute := abs; parts := ps |} = false.
Proof.
  unfold has_nul. cbn [parts]. rewrite existsb_app. intros H.
  apply orb_false_iff in H. tauto.
Qed.

Lemma is_dir_frame (f f' : gmap (list str) node) x :
  (forall k, f' !! k = f !! k \/ (f !! k = None /\ f' !! k = Some NDir)) ->
  is_dir f x = true -> is_dir f' x = true.
Proof. intros H. apply is_dir_grown. exact H. Qed.

Lemma locate_snoc w a tp name :
  locate w {| absolute := a; parts := tp ++ [name] |}
  = if str_eqb name dotdot then None
    else if is_dir (fs w) (base w {| absolute := a; parts := tp ++ [name] |})
         then match walk (fs w) (base w {| absolute := a; parts := tp ++ [name] |}) tp with
              | Some d => Some (d ++ [name])
              | None => None
              end
         else None.
Proof.
  unfold locate. cbn [parts]. rewrite last_last, removelast_last.
  destruct (tp ++ [name]) as [|x y] eqn:E; [destruct tp; discriminate|]. reflexivity.
Qed.

(** *** The limits *)

Lemma utf8_length_app s t :
  utf8_length (s ++ t) = (utf8_length s + utf8_length t)%N.
Proof.
  induction s as [|c s IH]; [reflexivity|]. simpl. rewrite IH. lia.
Qed.

Lemma join_slash_snoc tp name :
  tp <> [] -> join_slash (tp ++ [name]) = join_slash tp ++ "/"%char :: name.
Proof.
  induction tp as [|p tp IH]; [contradiction|]. intros _.
  destruct tp as [|p' tp]; [reflexivity|].
  change (join_slash ((p :: p' :: tp) ++ [name]))
    with (p ++ "/"%char :: join_slash ((p' :: tp) ++ [name])).
  rewrite IH by discriminate.
  change (join_slash (p :: p' :: tp)) with (p ++ "/"%char :: join_slash (p' :: tp)).
  rewrite <- app_assoc. reflexivity.
Qed.

Lemma path_str_parts a ps :
  ps <> [] ->
  path_str {| absolute := a; parts := ps |}
  = (if a then py "/" else []) ++ join_slash ps.
Proof. destruct ps; [contradiction|reflexivity]. Qed.

(** A path within the limits has a parent within the limits. *)
Lemma parent_fits a tp name :
  too_long (path_str {| absolute := a; parts := tp ++ [name] |}) (tp ++ [name]) = false ->
  (PATH_MAX <=? utf8_length (path_str {| absolute := a; parts := tp |}))%N = false
  /\ Forall (fun s => name_too_long s = false) tp.
Proof.
  unfold too_long. intros H. apply orb_false_iff in H. destruct H as [Hs Hc].
  split.
  - destruct tp as [|p tp]; [destruct a; reflexivity|].
    rewrite path_str_parts in Hs by (destruct tp; discriminate).
    rewrite path_str_parts by discriminate.
    rewrite join_slash_snoc in Hs by discriminate.
    apply N.leb_gt in Hs. apply N.leb_gt.
    rewrite utf8_length_app in Hs |- *. rewrite utf8_length_app in Hs. lia.
  - rewrite existsb_app in Hc. apply orb_false_iff in Hc. destruct Hc as [Hc _].
    apply List.Forall_forall. intros s Hin.
    destruct (name_too_long s) eqn:E; [|reflexivity].
    assert (existsb name_too_long tp = true)
      by (apply existsb_exists; exists s; auto).
    congruence.
Qed.

(** What a save does when nothing lies in its way: the directory is made
    as far as the limits allow, and the file is written if its path is
    within them; whatever the outcome, making the directory again changes
    nothing. *)
Lemma save_file_cases file_name segs file_content_ output_dir w :
  let po := Path output_dir in
  let tp := parts po ++ segs in
  let q := base w po ++ tp ++ [file_name] in
  let p := {| absolute := absolute po; parts := tp ++ [file_name] |} in
  let target := {| absolute := absolute po; parts := tp |} in
  component file_name = true -> file_name <> dotdot ->
  Forall (fun s => component s = true) segs ->
  Forall (fun s => s <> dotdot) tp ->
  has_nul p = false ->
  is_dir (fs w) (base w po) = true ->
  way_clear (fs w) (base w po) tp ->
  fs w !! q <> Some NDir ->
  exists f' w',
    save_file file_name (VList (map VStr segs)) file_content_ output_dir w = (Ret tt, w')
    /\ (forall k, f' !! k = fs w !! k
                  \/ (fs w !! k = None /\ f' !! k = Some NDir
                      /\ exists i, 1 <= i <= length tp /\ k = base w po ++ firstn i tp))
    /\ f' !! q = fs w !! q
    /\ ((path_fits p = true
         /\ w' = add_log (INFO, MsgSaved p)
                   (set_fs (<[q := NFile (Some (strip file_content_))]> f') w)
         /\ (forall i, 1 <= i <= length tp -> f' !! (base w po ++ firstn i tp) = Some NDir)
         /\ mkdir_parents target w' = (Ret tt, w'))
        \/ (path_fits p = false
            /\ exists x, w' = add_log (ERROR, MsgSaveFailed file_name x) (set_fs f' w)))
    /\ exists r, mkdir_parents target w' = (r, w').
Proof.
  intros po tp q p target Hname Hdd Hsegs Hplain Hnul Hbase Hway Hq.
  assert (Hnult : has_nul target = false) by exact (has_nul_app_false _ _ _ Hnul).
  assert (Hlenq : forall i, q <> base w po ++ firstn i tp).
  { intros i E. apply (f_equal (@length _)) in E. unfold q in E.
    rewrite !length_app, length_firstn in E. simpl in E. lia. }
  rewrite save_file_eq. cbn [star_args]. rewrite all_str_strs. cbv zeta.
  rewrite joinpath_components by exact Hsegs. fold po. fold tp. fold target.
  rewrite join1_component by exact Hname. cbn [absolute parts target]. fold p.
  unfold mkdir_parents at 1. rewrite Hnult.
  destruct (PATH_MAX <=? utf8_length (path_str target))%N eqn:HG.
  { (* the string of the directory is too long *)
    assert (Hfit : path_fits p = false).
    { unfold path_fits. apply negb_false_iff.
      destruct (too_long (path_str p) (parts p)) eqn:E; [reflexivity|].
      destruct (parent_fits _ _ _ E) as [HG' _]. fold target in HG'. congruence. }
    exists (fs w). eexists. split; [reflexivity|].
    split; [intros k; left; reflexivity|]. split; [reflexivity|].
    split.
    - right. split; [exact Hfit|]. exists OSError. rewrite set_fs_same. reflexivity.
    - eexists. unfold mkdir_parents. rewrite Hnult, HG. reflexivity. }
  change (base w target) with (base w po). rewrite Hbase. cbn [parts target].
  destruct (mkdir_walk (fs w) (base w po) tp) as [f' ok] eqn:Hwalk.
  pose proof (mkdir_walk_frame _ _ _ _ _ Hplain Hwalk) as Hframe.
  (* what making the directory again does in the worlds the save ends in *)
  assert (Hagain : forall F e,
            F = f' \/ (F = <[q := NFile (Some (strip file_content_))]> f'
                       /\ f' !! q <> Some NDir) ->
            mkdir_parents target (add_log e (set_fs F w))
            = (if ok then Ret tt else Raise OSError, add_log e (set_fs F w))).
  { intros F e HF. unfold mkdir_parents. rewrite Hnult, HG.
    change (base (add_log e (set_fs F w)) target) with (base w po).
    cbn [fs add_log set_fs parts target].
    assert (Hdir : is_dir F (base w po) = true).
    { pose proof (is_dir_grown _ _ _ (mkdir_walk_grown _ _ _ _ _ Hwalk) Hbase) as Hd.
      destruct HF as [->|[-> Hnd]]; [exact Hd|].
      rewrite is_dir_insert_file by exact Hnd. exact Hd. }
    rewrite Hdir.
    rewrite (mkdir_walk_settled tp _ _ _ _ Hwalk F).
    - reflexivity.
    - intros k Hk. destruct HF as [->|[-> Hnd]]; [exact Hk|].
      rewrite lookup_insert_ne; [exact Hk|congruence].
    - intros k d Hk. destruct HF as [->|[-> Hnd]]; [eauto|].
      destruct (decide (q = k)) as [<-|Hne].
      + rewrite lookup_insert_eq. eauto.
      + rewrite lookup_insert_ne by exact Hne. eauto. }
  assert (Hq' : f' !! q = fs w !! q).
  { destruct (Hframe q) as [E|(_ & _ & i & Hi & E)]; [exact E|].
    exfalso. exact (Hlenq i E). }
  destruct (path_fits p) eqn:Hfit.
  - (* within the limits: the directory is made and the file written *)
    unfold path_fits in Hfit. apply negb_true_iff in Hfit.
    destruct (parent_fits _ _ _ Hfit) as [_ Hnames].
    destruct (mkdir_walk_ok tp (fs w) (base w po) Hplain Hnames Hway)
      as (f'' & Hrun & Hdirs).
    rewrite Hwalk in Hrun. inversion Hrun; subst f'' ok. clear Hrun.
    assert (Hwr : write_text p (strip file_content_) (set_fs f' w)
                  = (Ret tt, set_fs (<[q := NFile (Some (strip file_content_))]> f') w)).
    { unfold write_text. rewrite Hnul, Hfit.
      assert (Hloc : locate (set_fs f' w) p = Some q).
      { unfold p. rewrite locate_snoc.
        apply str_eqb_neq in Hdd. rewrite Hdd.
        change (base (set_fs f' w) {| absolute := absolute po; parts := tp ++ [file_name] |})
          with (base w po).
        cbn [fs set_fs].
        rewrite (is_dir_grown _ _ _ (mkdir_walk_grown _ _ _ _ _ Hwalk) Hbase).
        rewrite (walk_dirs tp f' (base w po) Hplain Hdirs).
        unfold q. rewrite <- app_assoc. reflexivity. }
      rewrite Hloc. cbn [fs set_fs].
      rewrite Hq'. destruct (fs w !! q) as [[|d]|]; [contradiction| |]; reflexivity. }
    rewrite Hwr.
    assert (Hmk : mkdir_parents target
                    (add_log (INFO, MsgSaved p)
                       (set_fs (<[q := NFile (Some (strip file_content_))]> f') w))
                  = (Ret tt, add_log (INFO, MsgSaved p)
                       (set_fs (<[q := NFile (Some (strip file_content_))]> f') w))).
    { apply Hagain. right. split; [reflexivity|].
      rewrite Hq'. exact Hq. }
    exists f'. eexists. split; [reflexivity|]. split; [exact Hframe|].
    split; [exact Hq'|]. split.
    + left. split; [reflexivity|]. split; [reflexivity|]. split; [exact Hdirs|exact Hmk].
    + eexists. exact Hmk.
  - (* beyond the limits: the save fails at the directory or at the file *)
    assert (Hend : exists x w',
              match (if ok then Ret tt else Raise OSError, set_fs f' w) with
              | (Ret _, w1) =>
                  match write_text p (strip file_content_) w1 with
                  | (Ret _, w2) => (Ret tt, add_log (INFO, MsgSaved p) w2)
                  | (Raise e, w2) =>
                      (Ret tt, add_log (ERROR, MsgSaveFailed file_name e) w2)
                  | (Outside, w2) => (Outside, w2)
                  end
              | (Raise e, w1) => (Ret tt, add_log (ERROR, MsgSaveFailed file_name e) w1)
              | (Outside, w1) => (Outside, w1)
              end = (Ret tt, w')
              /\ w' = add_log (ERROR, MsgSaveFailed file_name x) (set_fs f' w)).
    { destruct ok.
      - unfold write_text. rewrite Hnul.
        unfold path_fits in Hfit. apply negb_false_iff in Hfit. rewrite Hfit.
        eexists _, _. split; reflexivity.
      - eexists _, _. split; reflexivity. }
    destruct Hend as (x & w' & Hrun & Hw').
    exists f', w'. split; [exact Hrun|]. split; [exact Hframe|]. split; [exact Hq'|].
    split.
    + right. split; [reflexivity|]. exists x. exact Hw'.
    + eexists. rewrite Hw'. apply Hagain. left. reflexivity.
Qed.

(** A save succeeds when the path of the file is within the limits of
    the file system (no component longer than 255 bytes, the whole path
    shorter than 4096), no file lies on the way to the directory of the
    block and the place of the block is not a directory: the directory is
    created as far as it is missing, and the file then holds the trimmed
    content. *)
Theorem save_file_succeeds
    file_name segs file_content_ output_dir (w : world) :
  let po := Path output_dir in
  let tp := parts po ++ segs in
  let p := {| absolute := absolute po; parts := tp ++ [file_name] |} in
  component file_name = true -> file_name <> dotdot ->
  Forall (fun s => component s = true) segs ->
  Forall (fun s => s <> dotdot) tp ->
  has_nul p = false ->
  path_fits p = true ->
  is_dir (fs w) (base w po) = true ->
  way_clear (fs w) (base w po) tp ->
  fs w !! (base w po ++ tp ++ [file_name]) <> Some NDir ->
  exists w',
    save_file file_name (VList (map VStr segs)) file_content_ output_dir w
    = (Ret tt, w')
    /\ log w' = log w ++ [(INFO, MsgSaved p)]
    /\ file_content w' p = Some (strip file_content_).
Proof.
  intros po tp p Hname Hdd Hsegs Hplain Hnul Hfit Hbase Hway Hq.
  destruct (save_file_cases file_name segs file_content_ output_dir w
              Hname Hdd Hsegs Hplain Hnul Hbase Hway Hq)
    as (f' & w' & Hrun & _ & _ & Hcase & _).
  fold po tp p in Hrun, Hcase.
  destruct Hcase as [(_ & Hw' & _)|(Hno & _)]; [|congruence].
  destruct (save_file_outcome file_name (VList (map VStr segs)) file_content_
              output_dir w) as (w'' & Hrun' & _ & Hcase).
  exists w'. split; [exact Hrun|].
  rewrite Hrun in Hrun'. inversion Hrun'; subst w''. clear Hrun'.
  rewrite Hw' in Hcase |- *.
  destruct Hcase as [(p' & Hl & Hc)|(e & Hl)].
  - cbn [log add_log set_fs] in Hl. apply app_inv_head in Hl. inversion Hl; subst p'.
    split; [reflexivity|exact Hc].
  - cbn [log add_log set_fs] in Hl. apply app_inv_head in Hl. discriminate.
Qed.

(** ** A run into an output directory that is ready *)

Lemma builtin_segments_of ext :
  In ext extensions ->
  (exists tag pattern,
     In (ext, tag) extension_tags
     /\ dict_get tag default_patterns
        = Some (VTuple [VList (map VStr (builtin_segments ext)); pattern]))
  /\ Forall (fun s => component s = true /\ s <> dotdot /\ dotted s = false
                      /\ existsb (fun c => Chars.eqb c "000") s = false)
       (builtin_segments ext).
Proof.
  unfold extensions. cbn [In]. intros H.
  repeat (destruct H as [H|H];
          [subst ext; split;
           [eexists _, _; split;
            [unfold extension_tags; cbn [In]; auto 12|vm_compute; reflexivity]
           |vm_compute; repeat constructor; discriminate]|]).
  contradiction.
Qed.

Lemma forallb_and {A} (f g : A -> bool) l :
  forallb (fun x => f x && g x) l = forallb f l && forallb g l.
Proof.
  induction l as [|x l IH]; [reflexivity|]. simpl. rewrite IH.
  destruct (f x), (g x), (forallb f l); reflexivity.
Qed.

Lemma forallb_negb_existsb {A} (f : A -> bool) l :
  forallb (fun x => negb (f x)) l = negb (existsb f l).
Proof.
  induction l as [|x l IH]; [reflexivity|]. simpl. rewrite IH, negb_orb. reflexivity.
Qed.

Lemma good_block_name b :
  good_block b ->
  component (fileName b) = true /\ fileName b <> dotdot
  /\ dotted (fileName b) = true
  /\ existsb (fun c => Chars.eqb c "000") (fileName b) = false.
Proof.
  intros ((stem & Hne & Hname) & Hext & Hplain).
  destruct (extension_chars _ Hext) as [Hen _].
  unfold plain_name in Hplain. rewrite forallb_and in Hplain.
  apply andb_true_iff in Hplain. destruct Hplain as [Hslash Hnul].
  rewrite forallb_negb_existsb in Hnul. apply negb_true_iff in Hnul.
  destruct stem as [|c stem]; [contradiction|].
  split; [|split; [|split; [|exact Hnul]]].
  - assert (E0 : str_eqb (fileName b) [] = false)
      by (apply str_eqb_neq; rewrite Hname; discriminate).
    assert (E1 : str_eqb (fileName b) (py ".") = false).
    { apply str_eqb_neq. rewrite Hname. intros E. inversion E. destruct stem; discriminate. }
    unfold component. rewrite E0, E1, Hslash. reflexivity.
  - rewrite Hname. intros E. inversion E as [[E1 E2]].
    destruct stem as [|c' stem]; [|inversion E2; destruct stem; discriminate].
    simpl in E2. inversion E2 as [E3]. apply Hen. inversion E3. reflexivity.
  - rewrite Hname. unfold dotted.
    change (c :: stem ++ "."%char :: declaredExtension b)
      with ((c :: stem) ++ "."%char :: declaredExtension b).
    rewrite existsb_app. simpl. rewrite orb_true_r. reflexivity.
Qed.

Lemma output_ready_same_files w1 w2 output_dir :
  same_files w1 w2 -> output_ready w1 output_dir -> output_ready w2 output_dir.
Proof.
  intros [Hf Hc] (H1 & H2 & H3 & H4 & H5).
  unfold output_ready, key_of, base in *. rewrite <- Hf, <- Hc. auto.
Qed.

Lemma firstn_app_cases {A} (l1 l2 : list A) i :
  1 <= i <= length (l1 ++ l2) ->
  (i <= length l1 /\ firstn i (l1 ++ l2) = firstn i l1)
  \/ (exists k c, firstn i (l1 ++ l2) = l1 ++ k ++ [c] /\ In c l2).
Proof.
  intros Hi. rewrite firstn_app. destruct (le_lt_dec i (length l1)) as [Hle|Hlt].
  - left. split; [exact Hle|].
    replace (i - length l1) with 0 by lia. simpl. apply app_nil_r.
  - right. rewrite firstn_all2 by lia.
    rewrite length_app in Hi.
    destruct (exists_last (l := firstn (i - length l1) l2)) as (k & c & E).
    { intros E. apply (f_equal (@length _)) in E. rewrite length_firstn in E.
      simpl in E. lia. }
    exists k, c. split; [rewrite E; reflexivity|].
    rewrite <- (firstn_skipn (i - length l1) l2), E.
    apply in_or_app. left. apply in_or_app. right. left. reflexivity.
Qed.

(** One block into an output directory that is ready: the block is
    saved where the built-in rule of its extension puts it if its path is
    within the limits, it is reported as failed if not, and the output
    directory is ready for the next block. *)
Lemma process_block_writes guess_type output_dir custom b w :
  new_tags custom -> output_ready w output_dir -> good_block b ->
  exists w',
    process_block guess_type output_dir custom b w = (Ret tt, w')
    /\ output_ready w' output_dir
    /\ kept w w'
    /\ (forall k n, k <> key_of w (block_path output_dir b) ->
          fs w !! k = Some n -> fs w' !! k = Some n)
    /\ block_settled output_dir b w'.
Proof.
  intros Hnew (Hnul & Hpo & Hbase & Hway & HJ) Hgood.
  destruct (good_block_name b Hgood) as (Hcomp & Hdd & Hdot & Hnn).
  destruct Hgood as ((stem & Hsne & Hname) & Hext & _).
  destruct (builtin_segments_of _ Hext) as ((tag & pattern & Htag & Hget) & Hsegs).
  destruct (extension_has_tag _ Hext) as (Hlow & _).
  set (po := Path output_dir) in *.
  set (segs := builtin_segments (declaredExtension b)) in *.
  set (tp := parts po ++ segs).
  set (q := base w po ++ tp ++ [fileName b]).
  set (p := {| absolute := absolute po; parts := tp ++ [fileName b] |}).
  set (target := {| absolute := absolute po; parts := tp |}).
  assert (Eq : forall w0, cwd w0 = cwd w -> key_of w0 (block_path output_dir b) = q).
  { intros w0 Hc. unfold key_of, block_path, q, tp, base. cbn [parts absolute].
    fold po segs. rewrite Hc, <- app_assoc. reflexivity. }
  assert (Ep : block_path output_dir b = p).
  { unfold block_path, p, tp. fold po segs. rewrite <- app_assoc. reflexivity. }
  assert (Eroot : forall k c, key_of w po ++ k ++ [c] = base w po ++ parts po ++ k ++ [c]).
  { intros k c. unfold key_of. rewrite <- app_assoc. reflexivity. }
  (* the classification *)
  set (w0 := add_log (DEBUG, MsgExtracting (fileName b) (fenceLanguage b)) w).
  assert (Hdet : detect_language_and_directory guess_type (fileName b) custom w0
                 = (Ret (tag, VList (map VStr segs)),
                    add_log (DEBUG, MsgDetected tag (fileName b)) w0)).
  { destruct (dict_update_new custom default_patterns Hnew) as [x Hx].
    apply detect_first_match. rewrite Hx, Hname.
    apply (first_match_extension stem (declaredExtension b) tag _ pattern);
      [rewrite Hlow; exact Htag|exact Hget]. }
  set (w1 := add_log (DEBUG, MsgDetected tag (fileName b)) w0) in *.
  (* the save *)
  assert (Hsegs_comp : Forall (fun s => component s = true) segs)
    by (eapply List.Forall_impl; [|exact Hsegs]; intros s (H1 & _); exact H1).
  assert (Hplain : Forall (fun s => s <> dotdot) tp).
  { apply Forall_app. split; [exact Hpo|].
    eapply List.Forall_impl; [|exact Hsegs]. intros s (_ & H2 & _). exact H2. }
  assert (Hnulp : has_nul p = false).
  { unfold has_nul in *. cbn [parts p]. unfold tp. rewrite !existsb_app.
    apply orb_false_iff. split; [apply orb_false_iff; split; [exact Hnul|]|].
    - apply not_true_is_false. intros E.
      apply existsb_exists in E. destruct E as (s & Hin & Hs).
      rewrite List.Forall_forall in Hsegs. destruct (Hsegs s Hin) as (_ & _ & _ & Hz).
      congruence.
    - cbn [existsb]. rewrite orb_false_r. exact Hnn. }
  assert (Hway' : way_clear (fs w1) (base w1 po) tp).
  { intros i d Hi Hk. change (fs w1) with (fs w) in Hk.
    change (base w1 po) with (base w po) in Hk.
    destruct (firstn_app_cases (parts po) segs i Hi) as [[Hle E]|(k & c & E & Hin)];
      fold tp in E; rewrite E in Hk.
    - apply (Hway i d); [lia|exact Hk].
    - rewrite <- Eroot in Hk. apply HJ in Hk.
      rewrite List.Forall_forall in Hsegs. destruct (Hsegs c Hin) as (_ & _ & Hd & _).
      congruence. }
  assert (Hq : fs w !! q <> Some NDir).
  { intros Hk. unfold q, tp in Hk. rewrite <- app_assoc, <- Eroot in Hk.
    apply HJ in Hk. congruence. }
  destruct (save_file_cases (fileName b) segs (content b) output_dir w1
              Hcomp Hdd Hsegs_comp Hplain Hnulp Hbase Hway' Hq)
    as (f' & w' & Hrun & Hframe & Hfq & Hcase & Hsettled).
  change (fs w1) with (fs w) in Hframe, Hfq.
  change (base w1 (Path output_dir)) with (base w po) in Hrun, Hframe, Hfq, Hcase, Hsettled.
  fold po tp q p target in Hrun, Hframe, Hfq, Hcase, Hsettled.
  assert (Hlenq : forall i, q <> base w po ++ firstn i tp).
  { intros i E. apply (f_equal (@length _)) in E. unfold q in E.
    rewrite !length_app, length_firstn in E. simpl in E. lia. }
  (* what holds of the file system after the directory has been made *)
  assert (Hgrown : forall k, f' !! k = fs w !! k \/ (fs w !! k = None /\ f' !! k = Some NDir)).
  { intros k. destruct (Hframe k) as [E|(E1 & E2 & _)]; auto. }
  assert (Hold' : forall k n, fs w !! k = Some n -> f' !! k = Some n).
  { intros k n Hn. destruct (Hgrown k) as [E|(E & _)]; congruence. }
  assert (Hbase' : is_dir f' (base w po) = true)
    by (apply (is_dir_grown (fs w) f'); assumption).
  assert (Hway1 : way_clear f' (base w po) (parts po)).
  { intros i d Hi Hk.
    destruct (Hframe (base w po ++ firstn i (parts po))) as [E|(_ & E & _)].
    - rewrite E in Hk. exact (Hway i d Hi Hk).
    - congruence. }
  assert (HJ' : forall k c n, f' !! (key_of w po ++ k ++ [c]) = Some n ->
                  dotted c = match n with NDir => false | NFile _ => true end).
  { intros k c n Hk.
    destruct (Hframe (key_of w po ++ k ++ [c])) as [E|(_ & E & i & Hi & Ek)].
    - rewrite E in Hk. exact (HJ k c n Hk).
    - rewrite E in Hk. inversion Hk; subst n.
      destruct (firstn_app_cases (parts po) segs i Hi) as [[Hle E']|(k' & c' & E' & Hin)];
        fold tp in E'; rewrite E' in Ek.
      + exfalso. apply (f_equal (@length _)) in Ek. unfold key_of in Ek.
        rewrite !length_app, length_firstn in Ek. simpl in Ek. lia.
      + rewrite Eroot in Ek. apply app_inv_head in Ek. apply app_inv_head in Ek.
        apply app_inj_tail in Ek. destruct Ek as [_ ->].
        rewrite List.Forall_forall in Hsegs.
        destruct (Hsegs c' Hin) as (_ & _ & Hd & _). exact Hd. }
  assert (Hproc : process_block guess_type output_dir custom b w = (Ret tt, w')).
  { unfold process_block. rewrite (bind_ret _ _ _ _ _ (logger_run _ _ _)).
    fold (add_log (DEBUG, MsgExtracting (fileName b) (fenceLanguage b)) w). fold w0.
    rewrite (bind_ret _ _ _ _ _ Hdet). cbn [snd]. exact Hrun. }
  exists w'. split; [exact Hproc|].
  destruct Hcase as [(Hfit & Hw' & Hdirs & Hmk)|(Hfit & x & Hw')].
  - (* the file is written *)
    assert (Hfq' : f' !! q <> Some NDir) by (rewrite Hfq; exact Hq).
    assert (Hold : forall k n, k <> q -> fs w !! k = Some n ->
                     <[q := NFile (Some (strip (content b)))]> f' !! k = Some n).
    { intros k n Hk Hn. rewrite lookup_insert_ne by congruence. exact (Hold' k n Hn). }
    assert (Hloc : locate w' p = Some q).
    { rewrite Hw'. unfold p. rewrite locate_snoc.
      apply str_eqb_neq in Hdd. rewrite Hdd.
      change (base _ {| absolute := absolute po; parts := tp ++ [fileName b] |})
        with (base w po). cbn [fs cwd add_log set_fs].
      rewrite is_dir_insert_file by exact Hfq'. rewrite Hbase'.
      rewrite (walk_dirs tp _ (base w po) Hplain).
      + unfold q. rewrite <- app_assoc. reflexivity.
      + intros i Hi. rewrite lookup_insert_ne by apply Hlenq. apply Hdirs. exact Hi. }
    split; [|split; [|split]].
    + rewrite Hw'. unfold output_ready. fold po.
      change (base _ po) with (base w po). cbn [fs cwd add_log set_fs].
      split; [exact Hnul|]. split; [exact Hpo|]. split; [|split].
      * rewrite is_dir_insert_file by exact Hfq'. exact Hbase'.
      * intros i d Hi Hk.
        assert (Hne : q <> base w po ++ firstn i (parts po)).
        { intros E. apply (f_equal (@length _)) in E. unfold q, tp in E.
          rewrite !length_app, length_firstn in E. simpl in E. lia. }
        rewrite lookup_insert_ne in Hk by exact Hne. exact (Hway1 i d Hi Hk).
      * intros k c n Hk. unfold key_of in Hk. change (base _ po) with (base w po) in Hk.
        fold (key_of w po) in Hk. cbn [fs cwd add_log set_fs] in Hk.
        destruct (decide (q = key_of w po ++ k ++ [c])) as [E|Hne].
        -- rewrite <- E, lookup_insert_eq in Hk. inversion Hk; subst n.
           unfold q, tp in E. rewrite Eroot, <- !app_assoc in E.
           apply app_inv_head in E. apply app_inv_head in E.
           apply app_inj_tail in E. destruct E as [_ <-].
           exact Hdot.
        -- rewrite lookup_insert_ne in Hk by exact Hne. exact (HJ' k c n Hk).
    + rewrite Hw'. split; [reflexivity|]. cbn [fs add_log set_fs]. split.
      * intros k Hk. apply Hold; [|exact Hk]. intros E. subst k. apply Hq. exact Hk.
      * intros k d Hk. destruct (decide (q = k)) as [<-|Hne].
        -- rewrite lookup_insert_eq. eauto.
        -- rewrite lookup_insert_ne by exact Hne. rewrite (Hold' _ _ Hk). eauto.
    + rewrite (Eq w eq_refl). intros k n Hk Hn. rewrite Hw'. cbn [fs add_log set_fs].
      exact (Hold k n Hk Hn).
    + unfold block_settled. fold po segs tp target.
      assert (Hc' : cwd w' = cwd w) by (rewrite Hw'; reflexivity).
      rewrite (Eq w' Hc'), Ep.
      split; [eexists; exact Hmk|]. intros _.
      split; [exact Hmk|]. split; [exact Hloc|].
      rewrite Hw'. cbn [fs add_log set_fs]. apply lookup_insert_eq.
  - (* the save fails: directories at most have been made *)
    split; [|split; [|split]].
    + rewrite Hw'. unfold output_ready. fold po.
      change (base _ po) with (base w po). cbn [fs cwd add_log set_fs].
      split; [exact Hnul|]. split; [exact Hpo|]. split; [exact Hbase'|].
      split; [exact Hway1|].
      intros k c n Hk. unfold key_of in Hk. change (base _ po) with (base w po) in Hk.
      fold (key_of w po) in Hk. cbn [fs cwd add_log set_fs] in Hk.
      exact (HJ' k c n Hk).
    + rewrite Hw'. split; [reflexivity|]. cbn [fs add_log set_fs]. split.
      * intros k Hk. exact (Hold' _ _ Hk).
      * intros k d Hk. rewrite (Hold' _ _ Hk). eauto.
    + intros k n _ Hn. rewrite Hw'. cbn [fs add_log set_fs]. exact (Hold' k n Hn).
    + unfold block_settled. fold po segs tp target.
      rewrite Ep. split; [exact Hsettled|]. intros Hfit'. congruence.
Qed.

Lemma walk_persist (f g : gmap (list str) node) ps : forall cur d,
  (forall k, f !! k = Some NDir -> g !! k = Some NDir) ->
  walk f cur ps = Some d -> walk g cur ps = Some d.
Proof.
  induction ps as [|p ps IH]; intros cur d H Hw; [exact Hw|].
  simpl in Hw |- *.
  set (nxt := if str_eqb p dotdot then parent_dir cur else cur ++ [p]) in *.
  destruct (is_dir f nxt) eqn:Hd; [|discriminate].
  assert (Hg : is_dir g nxt = true).
  { unfold is_dir in *. destruct nxt as [|x y]; [reflexivity|].
    destruct (f !! (x :: y)) as [[|?]|] eqn:E; try discriminate.
    rewrite (H _ E). reflexivity. }
  rewrite Hg. exact (IH _ _ H Hw).
Qed.

Lemma is_dir_persist (f g : gmap (list str) node) x :
  (forall k, f !! k = Some NDir -> g !! k = Some NDir) ->
  is_dir f x = true -> is_dir g x = true.
Proof.
  intros H. unfold is_dir. destruct x as [|u v]; [reflexivity|].
  destruct (f !! (u :: v)) as [[|?]|] eqn:E; try discriminate.
  rewrite (H _ E). reflexivity.
Qed.

Lemma locate_persist w w' p q :
  cwd w' = cwd w ->
  (forall k, fs w !! k = Some NDir -> fs w' !! k = Some NDir) ->
  locate w p = Some q -> locate w' p = Some q.
Proof.
  intros Hc H. unfold locate, base. rewrite Hc.
  destruct (parts p) as [|x y]; [discriminate|].
  destruct (str_eqb _ dotdot); [discriminate|].
  set (bs := if absolute p then [] else cwd w).
  destruct (is_dir (fs w) bs) eqn:Hd; [|discriminate].
  rewrite (is_dir_persist _ _ _ H Hd).
  destruct (walk (fs w) bs (removelast (x :: y))) as [d|] eqn:Hw; [|discriminate].
  rewrite (walk_persist _ _ _ _ _ H Hw). auto.
Qed.

Lemma key_of_name w w' output_dir b b' :
  key_of w (block_path output_dir b) = key_of w' (block_path output_dir b') ->
  fileName b = fileName b'.
Proof.
  unfold key_of, block_path. cbn [parts]. rewrite !app_assoc. intros E.
  apply app_inj_tail in E. tauto.
Qed.

Lemma key_of_cwd w w' p : cwd w' = cwd w -> key_of w' p = key_of w p.
Proof. intros H. unfold key_of, base. rewrite H. reflexivity. Qed.

Lemma kept_refl w : kept w w.
Proof. split; [reflexivity|]. split; eauto. Qed.

Lemma kept_trans w1 w2 w3 : kept w1 w2 -> kept w2 w3 -> kept w1 w3.
Proof.
  intros (Hc1 & Hd1 & Hf1) (Hc2 & Hd2 & Hf2). split; [congruence|]. split.
  - intros k Hk. exact (Hd2 _ (Hd1 _ Hk)).
  - intros k d Hk. destruct (Hf1 _ _ Hk) as [d' Hk']. exact (Hf2 _ _ Hk').
Qed.

Lemma kept_same_files w w' : same_files w w' -> kept w w'.
Proof.
  intros [Hf Hc]. split; [congruence|]. rewrite <- Hf. split; eauto.
Qed.

(** Making a directory again, when the first time changed nothing,
    changes nothing again, whatever has been written since. *)
Lemma mkdir_parents_again p w r w' :
  is_dir (fs w) (base w p) = true ->
  mkdir_parents p w = (r, w) -> kept w w' -> mkdir_parents p w' = (r, w').
Proof.
  intros Hbase H (Hc & Hd & Hf). unfold mkdir_parents in *.
  destruct (has_nul p); [inversion H; reflexivity|].
  destruct (PATH_MAX <=? utf8_length (path_str p))%N; [inversion H; reflexivity|].
  assert (Eb : base w' p = base w p) by (unfold base; rewrite Hc; reflexivity).
  rewrite Eb. rewrite Hbase in H. rewrite (is_dir_persist _ _ _ Hd Hbase).
  destruct (mkdir_walk (fs w) (base w p) (parts p)) as [f ok] eqn:Hwalk.
  assert (Ef : f = fs w).
  { injection H as Hr Hw. apply (f_equal fs) in Hw. exact Hw. }
  subst f.
  rewrite (mkdir_walk_settled _ _ _ _ _ Hwalk (fs w') Hd Hf), set_fs_same.
  injection H as Hr _. rewrite Hr. reflexivity.
Qed.

Lemma block_settled_kept output_dir b w w' :
  output_ready w output_dir -> block_settled output_dir b w -> kept w w' ->
  (forall n, fs w !! key_of w (block_path output_dir b) = Some n ->
             fs w' !! key_of w (block_path output_dir b) = Some n) ->
  block_settled output_dir b w'.
Proof.
  intros (_ & _ & Hbase & _) ([r Hmk] & Hfile) Hkept Hkey.
  pose proof Hkept as (Hc & Hd & _).
  split.
  - exists r. eapply mkdir_parents_again; [|exact Hmk|exact Hkept]. exact Hbase.
  - intros Hfit. destruct (Hfile Hfit) as (Hmk' & Hloc & Hq).
    rewrite (key_of_cwd w w' _ Hc).
    split; [eapply mkdir_parents_again; [|exact Hmk'|exact Hkept]; exact Hbase|].
    split; [exact (locate_persist _ _ _ _ Hc Hd Hloc)|exact (Hkey _ Hq)].
Qed.

Lemma process_blocks_write guess_type output_dir custom bs :
  new_tags custom ->
  forall w,
    output_ready w output_dir -> Forall good_block bs ->
    List.NoDup (map fileName bs) ->
    exists w',
      process_blocks guess_type output_dir custom bs w = (Ret tt, w')
      /\ output_ready w' output_dir
      /\ kept w w'
      /\ (forall k n, (forall b, In b bs -> k <> key_of w (block_path output_dir b)) ->
            fs w !! k = Some n -> fs w' !! k = Some n)
      /\ (forall b, In b bs -> block_settled output_dir b w').
Proof.
  intros Hnew. induction bs as [|b bs IH]; intros w Hready Hgood Hnd.
  - exists w. split; [reflexivity|]. split; [exact Hready|]. split; [apply kept_refl|].
    split; [auto|]. intros b [].
  - inversion Hgood as [|? ? Hb Hgood']; subst.
    inversion Hnd as [|? ? Hnotin Hnd']; subst.
    destruct (process_block_writes guess_type output_dir custom b w Hnew Hready Hb)
      as (w1 & Hrun1 & Hready1 & Hkept1 & Hold1 & Hset1).
    destruct (IH w1 Hready1 Hgood' Hnd')
      as (w' & Hrun & Hready' & Hkept & Hold & Hall).
    pose proof Hkept1 as (Hc1 & _).
    exists w'. simpl process_blocks. rewrite (bind_ret _ _ _ _ _ Hrun1).
    split; [exact Hrun|]. split; [exact Hready'|].
    split; [exact (kept_trans _ _ _ Hkept1 Hkept)|]. split.
    + intros k n Hk Hn. apply Hold.
      * intros b' Hb'. rewrite (key_of_cwd w w1 _ Hc1). apply Hk. right. exact Hb'.
      * apply Hold1; [apply Hk; left; reflexivity|exact Hn].
    + intros b0 [<-|Hin]; [|exact (Hall b0 Hin)].
      apply (block_settled_kept output_dir b w1 w' Hready1 Hset1 Hkept).
      intros n Hn. apply Hold; [|exact Hn].
      intros b' Hb' E. apply key_of_name in E. apply Hnotin.
      rewrite E. apply in_map. exact Hb'.
Qed.

Lemma block_path_no_nul output_dir b w :
  output_ready w output_dir -> good_block b ->
  has_nul (block_path output_dir b) = false.
Proof.
  intros (Hnul & _) Hgood.
  destruct (good_block_name b Hgood) as (_ & _ & _ & Hnn).
  destruct Hgood as (_ & Hext & _).
  destruct (builtin_segments_of _ Hext) as (_ & Hsegs).
  unfold has_nul, block_path in *. cbn [parts]. rewrite !existsb_app.
  apply orb_false_iff. split; [exact Hnul|]. apply orb_false_iff. split.
  - apply not_true_is_false. intros E.
    apply existsb_exists in E. destruct E as (s & Hin & Hs).
    rewrite List.Forall_forall in Hsegs. destruct (Hsegs s Hin) as (_ & _ & _ & Hz).
    congruence.
  - cbn [existsb]. rewrite orb_false_r. exact Hnn.
Qed.

Lemma scanned_blocks_good document :
  Forall (fun b => plain_name (fileName b) = true) (scan document) ->
  Forall good_block (scan document).
Proof.
  intros Hnames. rewrite List.Forall_forall in Hnames. apply List.Forall_forall.
  intros b Hb.
  destruct (block_names _ _ Hb) as (stem & ext & Hne & _ & Hext & Hname & Hde).
  split; [exists stem; rewrite Hde; auto|]. split; [rewrite Hde; exact Hext|].
  exact (Hnames b Hb).
Qed.

(** A run into an output directory that is ready returns, and leaves
    every block settled. *)
Lemma extract_settles
    (guess_type : str -> option str) file_path output_dir custom
    (w : world) (document : str) :
  isfile file_path w = (Ret true, w) ->
  read_text file_path w = (Ret document, w) ->
  new_tags custom ->
  output_ready w output_dir ->
  Forall (fun b => plain_name (fileName b) = true) (scan document) ->
  List.NoDup (map fileName (scan document)) ->
  exists w',
    extract_full_files guess_type file_path output_dir custom w = (Ret tt, w')
    /\ output_ready w' output_dir
    /\ forall b, In b (scan document) -> block_settled output_dir b w'.
Proof.
  intros Hfile Hread Hnew Hready Hnames Hnd.
  pose proof (scanned_blocks_good document Hnames) as Hgood.
  rewrite extract_full_files_eq, Hfile, Hread. cbv zeta.
  destruct (scan document) as [|b bs] eqn:Hs.
  { eexists. split; [reflexivity|]. split; [|intros b []].
    apply (output_ready_same_files w); [split; reflexivity|exact Hready]. }
  set (w0 := add_log (INFO, MsgFound (length (b :: bs)))
               (add_log (INFO, MsgProcessing file_path) w)).
  assert (Hready0 : output_ready w0 output_dir)
    by (apply (output_ready_same_files w); [split; reflexivity|exact Hready]).
  destruct (process_blocks_write guess_type output_dir custom (b :: bs) Hnew w0
              Hready0 Hgood Hnd)
    as (w1 & Hrun & Hready1 & _ & _ & Hall).
  rewrite (bind_ret _ _ _ _ _ Hrun).
  eexists. split; [reflexivity|]. split.
  - apply (output_ready_same_files w1); [split; reflexivity|exact Hready1].
  - intros b0 Hb0.
    apply (block_settled_kept output_dir b0 w1 _ Hready1 (Hall b0 Hb0)).
    + apply kept_same_files. split; reflexivity.
    + intros n Hn. exact Hn.
Qed.

(** A run with the built-in rules (and rules under new tags) into an
    output directory that is ready writes every block whose path is within
    the limits of the file system: when the names of the blocks are
    distinct and have neither slash nor NUL, the run returns, and for every
    such block of the scan the file at the output directory, then the
    directory of the built-in rule of the block's extension, then the
    block's name, holds the block's content. *)
Theorem extract_writes_every_block
    (guess_type : str -> option str) file_path output_dir custom
    (w : world) (document : str) :
  isfile file_path w = (Ret true, w) ->
  read_text file_path w = (Ret document, w) ->
  new_tags custom ->
  output_ready w output_dir ->
  Forall (fun b => plain_name (fileName b) = true) (scan document) ->
  List.NoDup (map fileName (scan document)) ->
  exists w',
    extract_full_files guess_type file_path output_dir custom w = (Ret tt, w')
    /\ forall b, In b (scan document) ->
         path_fits (block_path output_dir b) = true ->
         file_content w' (block_path output_dir b) = Some (content b).
Proof.
  intros Hfile Hread Hnew Hready Hnames Hnd.
  destruct (extract_settles guess_type file_path output_dir custom w document
              Hfile Hread Hnew Hready Hnames Hnd) as (w' & Hrun & Hready' & Hall).
  exists w'. split; [exact Hrun|]. intros b Hb Hfit.
  destruct (Hall b Hb) as (_ & Hfile').
  destruct (Hfile' Hfit) as (_ & Hloc & Hq).
  pose proof (scanned_blocks_good document Hnames) as Hgood.
  rewrite List.Forall_forall in Hgood.
  unfold file_content.
  rewrite (block_path_no_nul output_dir b w' Hready' (Hgood b Hb)), Hloc, Hq.
  f_equal. apply scan_In in Hb. destruct Hb as (s & e & _ & ->).
  apply strip_idem.
Qed.

(** ** Rules under new tags *)

Lemma detect_scanned guess_type document b custom w :
  In b (scan document) -> new_tags custom ->
  detect_language_and_directory guess_type (fileName b) custom w
  = detect_language_and_directory guess_type (fileName b) [] w.
Proof.
  intros Hin Hnew.
  destruct (block_names _ _ Hin) as (stem & ext & _ & _ & Hext & Hname & _).
  destruct (extension_has_tag ext Hext) as (Hlow & tag & directory & pattern & Htag & Hget).
  destruct (dict_update_new custom default_patterns Hnew) as [x Hx].
  rewrite Hname.
  rewrite (detect_first_match guess_type _ custom (tag, directory) w
             (add_log (DEBUG, MsgDetected tag (stem ++ "."%char :: ext)) w)).
  - symmetry. apply detect_first_match.
    change (dict_update default_patterns []) with default_patterns.
    rewrite <- (app_nil_r default_patterns).
    apply (first_match_extension stem ext tag directory pattern);
      [rewrite Hlow; exact Htag|exact Hget].
  - rewrite Hx.
    apply (first_match_extension stem ext tag directory pattern);
      [rewrite Hlow; exact Htag|exact Hget].
Qed.

Lemma process_blocks_scanned guess_type document output_dir custom bs :
  new_tags custom ->
  (forall b, In b bs -> In b (scan document)) ->
  forall w,
    process_blocks guess_type output_dir custom bs w
    = process_blocks guess_type output_dir [] bs w.
Proof.
  intros Hnew. induction bs as [|b bs IH]; intros Hin w; [reflexivity|].
  simpl. unfold bind.
  assert (Hb : process_block guess_type output_dir custom b w
               = process_block guess_type output_dir [] b w).
  { unfold process_block. unfold bind.
    destruct (logger DEBUG _ w) as [[[]|e|] w0]; try reflexivity.
    rewrite (detect_scanned guess_type document b custom w0 (Hin b (or_introl eq_refl)) Hnew).
    reflexivity. }
  rewrite Hb. destruct (process_block guess_type output_dir [] b w) as [[[]|e|] w1];
    try reflexivity.
  apply IH. intros b' Hb'. apply Hin. right. exact Hb'.
Qed.

(** Rules that the caller adds under tags the built-in table does not
    have change nothing in a run, whatever they are, compilable or not:
    every name the scanner emits is matched by a built-in rule before they
    are reached. *)
Theorem new_tag_rules_change_nothing
    (guess_type : str -> option str) file_path output_dir custom (w : world) :
  new_tags custom ->
  extract_full_files guess_type file_path output_dir custom w
  = extract_full_files guess_type file_path output_dir [] w.
Proof.
  intros Hnew. rewrite !extract_full_files_eq. cbv zeta.
  destruct (isfile file_path w) as [[[|]|e|] w1]; try reflexivity.
  destruct (read_text file_path w) as [[document|e|] w2]; try reflexivity.
  destruct (scan document) as [|b bs] eqn:Hs; [reflexivity|].
  unfold bind.
  rewrite (process_blocks_scanned guess_type document output_dir custom (b :: bs) Hnew).
  - reflexivity.
  - intros b' Hb'. rewrite Hs. exact Hb'.
Qed.

(** ** A second run *)

(** Saving a block that is settled changes no file. *)
Lemma settled_save output_dir b (tag : str) w :
  output_ready w output_dir -> good_block b -> block_settled output_dir b w ->
  exists w',
    save_file (fileName b)
      (snd (tag, VList (map VStr (builtin_segments (declaredExtension b)))))
      (content b) output_dir w = (Ret tt, w')
    /\ same_files w w'.
Proof.
  intros Hready Hgood ([r Hmk] & Hfile).
  pose proof (block_path_no_nul output_dir b w Hready Hgood) as Hnul.
  destruct (good_block_name b Hgood) as (Hcomp & _).
  destruct Hgood as (_ & Hext & _).
  destruct (builtin_segments_of _ Hext) as (_ & Hsegs).
  set (segs := builtin_segments (declaredExtension b)) in *.
  assert (Hsegs_comp : Forall (fun s => component s = true) segs)
    by (eapply List.Forall_impl; [|exact Hsegs]; intros s (H1 & _); exact H1).
  assert (Ep : join1 {| absolute := absolute (Path output_dir);
                        parts := parts (Path output_dir) ++ segs |} (fileName b)
               = block_path output_dir b).
  { rewrite join1_component by exact Hcomp. unfold block_path. cbn [absolute parts].
    fold segs. rewrite <- app_assoc. reflexivity. }
  cbn [snd]. rewrite save_file_eq. cbn [star_args]. rewrite all_str_strs. cbv zeta.
  rewrite joinpath_components by exact Hsegs_comp. rewrite Hmk, Ep.
  destruct r as [[]|e|].
  - unfold write_text. rewrite Hnul.
    destruct (too_long (path_str (block_path output_dir b))
                (parts (block_path output_dir b))) eqn:Hlong.
    { eexists. split; [reflexivity|]. split; reflexivity. }
    assert (Hfit : path_fits (block_path output_dir b) = true)
      by (unfold path_fits; rewrite Hlong; reflexivity).
    destruct (Hfile Hfit) as (_ & Hloc & Hq). rewrite Hloc, Hq.
    rewrite insert_id by exact Hq. rewrite set_fs_same.
    eexists. split; [reflexivity|]. split; reflexivity.
  - eexists. split; [reflexivity|]. split; reflexivity.
  - destruct (mkdir_parents_log _ _ _ _ Hmk) as (_ & _ & Hno). congruence.
Qed.

Lemma process_block_settled guess_type output_dir custom b w :
  new_tags custom -> output_ready w output_dir -> good_block b ->
  block_settled output_dir b w ->
  exists w',
    process_block guess_type output_dir custom b w = (Ret tt, w')
    /\ same_files w w'.
Proof.
  intros Hnew Hready Hgood Hset.
  pose proof Hgood as ((stem & Hsne & Hname) & Hext & _).
  destruct (builtin_segments_of _ Hext) as ((tag & pattern & Htag & Hget) & _).
  destruct (extension_has_tag _ Hext) as (Hlow & _).
  set (w0 := add_log (DEBUG, MsgExtracting (fileName b) (fenceLanguage b)) w).
  assert (Hdet : detect_language_and_directory guess_type (fileName b) custom w0
                 = (Ret (tag, VList (map VStr (builtin_segments (declaredExtension b)))),
                    add_log (DEBUG, MsgDetected tag (fileName b)) w0)).
  { destruct (dict_update_new custom default_patterns Hnew) as [x Hx].
    apply detect_first_match. rewrite Hx, Hname.
    apply (first_match_extension stem (declaredExtension b) tag _ pattern);
      [rewrite Hlow; exact Htag|exact Hget]. }
  set (w1 := add_log (DEBUG, MsgDetected tag (fileName b)) w0) in *.
  assert (Hsame : same_files w w1) by (split; reflexivity).
  destruct (settled_save output_dir b tag w1) as (w' & Hrun & Hs).
  - exact (output_ready_same_files _ _ _ Hsame Hready).
  - exact Hgood.
  - apply (block_settled_kept output_dir b w w1 Hready Hset (kept_same_files _ _ Hsame)).
    intros n Hn. exact Hn.
  - exists w'. split; [|exact (same_files_trans _ _ _ Hsame Hs)].
    unfold process_block. rewrite (bind_ret _ _ _ _ _ (logger_run _ _ _)).
    fold (add_log (DEBUG, MsgExtracting (fileName b) (fenceLanguage b)) w). fold w0.
    rewrite (bind_ret _ _ _ _ _ Hdet). exact Hrun.
Qed.

Lemma process_blocks_settled guess_type output_dir custom bs :
  new_tags custom -> Forall good_block bs ->
  forall w,
    output_ready w output_dir ->
    (forall b, In b bs -> block_settled output_dir b w) ->
    exists w',
      process_blocks guess_type output_dir custom bs w = (Ret tt, w')
      /\ same_files w w'.
Proof.
  intros Hnew Hgood. induction Hgood as [|b bs Hb Hbs IH]; intros w Hready Hall.
  - exists w. split; [reflexivity|apply same_files_refl].
  - destruct (process_block_settled guess_type output_dir custom b w Hnew Hready Hb
                (Hall b (or_introl eq_refl))) as (w1 & Hrun & Hsame).
    destruct (IH w1) as (w2 & Hrun2 & Hsame2).
    { exact (output_ready_same_files _ _ _ Hsame Hready). }
    { intros b' Hb'.
      apply (block_settled_kept output_dir b' w w1 Hready (Hall b' (or_intror Hb'))
               (kept_same_files _ _ Hsame)).
      intros n Hn. destruct Hsame as [Hf _]. rewrite <- Hf. exact Hn. }
    exists w2. split; [|exact (same_files_trans _ _ _ Hsame Hsame2)].
    simpl. rewrite (bind_ret _ _ _ _ _ Hrun). exact Hrun2.
Qed.

Lemma read_text_isfile path w document :
  read_text path w = (Ret document, w) -> isfile path w = (Ret true, w).
Proof.
  unfold read_text, isfile. destruct (has_nul (Path path)); [discriminate|].
  destruct (dir_required path); [discriminate|].
  destruct (too_long path (parts (Path path))); [discriminate|].
  destruct (locate w (Path path)) as [q|]; [|discriminate].
  destruct (fs w !! q) as [[|[t|]]|]; try discriminate. reflexivity.
Qed.

(** A second run over the same input changes no file: after a run with
    the built-in rules into an output directory that is ready, with distinct
    block names that have neither slash nor NUL, a run over the input as it
    was (the first run has not written over it) returns and leaves every
    file and directory as the first run left it. *)
Theorem second_run_changes_no_file
    (guess_type : str -> option str) file_path output_dir custom
    (w w1 : world) (document : str) :
  read_text file_path w = (Ret document, w) ->
  new_tags custom ->
  output_ready w output_dir ->
  Forall (fun b => plain_name (fileName b) = true) (scan document) ->
  List.NoDup (map fileName (scan document)) ->
  extract_full_files guess_type file_path output_dir custom w = (Ret tt, w1) ->
  read_text file_path w1 = (Ret document, w1) ->
  exists w2,
    extract_full_files guess_type file_path output_dir custom w1 = (Ret tt, w2)
    /\ fs w2 = fs w1 /\ cwd w2 = cwd w1.
Proof.
  intros Hread Hnew Hready Hnames Hnd Hrun1 Hread1.
  destruct (extract_settles guess_type file_path output_dir custom w document
              (read_text_isfile _ _ _ Hread) Hread Hnew Hready Hnames Hnd)
    as (w1' & Hrun1' & Hready1 & Hall).
  rewrite Hrun1 in Hrun1'. inversion Hrun1'; subst w1'. clear Hrun1'.
  pose proof (scanned_blocks_good document Hnames) as Hgood.
  rewrite extract_full_files_eq, (read_text_isfile _ _ _ Hread1), Hread1. cbv zeta.
  destruct (scan document) as [|b bs] eqn:Hs.
  { eexists. split; [reflexivity|]. split; reflexivity. }
  set (w0 := add_log (INFO, MsgFound (length (b :: bs)))
               (add_log (INFO, MsgProcessing file_path) w1)).
  assert (Hsame0 : same_files w1 w0) by (split; reflexivity).
  destruct (process_blocks_settled guess_type output_dir custom (b :: bs) Hnew Hgood w0)
    as (w2 & Hrun2 & Hf & Hc).
  { exact (output_ready_same_files _ _ _ Hsame0 Hready1). }
  { intros b0 Hb0.
    apply (block_settled_kept output_dir b0 w1 w0 Hready1 (Hall b0 Hb0)
             (kept_same_files _ _ Hsame0)).
    intros n Hn. exact Hn. }
  rewrite (bind_ret _ _ _ _ _ Hrun2).
  eexists. split; [reflexivity|]. split; [symmetry; exact Hf|symmetry; exact Hc].
Qed.

(** ** A heading marker inside a fenced text *)

Lemma body_open b u rest cs :
  plain u -> quiet b u = true ->
  starts_with (py "# ") rest = true -> bolb (rev u ++ b) = true ->
  Re.mt Re.MULTILINE body_pattern Some (St b (u ++ rest) cs)
  = Some (St (rev u ++ b) rest ((4, (length b, length (rev u ++ b))) :: cs)).
Proof.
  intros Hp Hq HR Hbol.
  unfold body_pattern, content_group. rewrite mt_seq, mt_group.
  unfold any_set. rewrite star_set_lazy.
  rewrite lazy_exact; [|apply any_run|apply terminator_fails; assumption].
  apply lazy_here. unfold Re.set_cap, Re.pos. cbn [Re.bef Re.aft Re.caps].
  rewrite terminator_spec.
  rewrite (marker_not_backticks rest HR), Hbol, HR. reflexivity.
Qed.

(** A line that starts with a heading marker ends a fenced text before
    its closing fence.  When what follows the marker is not a file name
    with a recognized extension, the rest of the fenced text, closing fence
    included, is in no block: the scan gives the one block, whose content is
    the text above that line. *)
Theorem marker_line_cuts_fenced_text
    (preamble stem ext lang text tok rest : str) :
  quiet [] preamble = true -> ends_line preamble = true ->
  stem <> [] -> Forall (fun c => Chars.is_space c = false) stem ->
  In ext extensions ->
  Forall (fun c => Chars.is_word c = true) lang ->
  plain text -> quiet [nl] text = true -> ends_line text = true ->
  tok <> [] ->
  Forall (fun c => Chars.is_space c = false) tok ->
  (forall stem' ext', In ext' extensions -> tok <> stem' ++ "."%char :: ext') ->
  quiet [nl] rest = true ->
  scan (preamble ++ py "# " ++ stem ++ "."%char :: ext ++ nl
          :: py "```" ++ lang ++ nl :: text ++ py "# " ++ tok ++ nl :: rest)
  = [ {| fileName := stem ++ "."%char :: ext; declaredExtension := ext;
         fenceLanguage := lang; content := strip text |} ].
Proof.
  intros Hpre Hend Hne Hstem Hext Hlang Hplain Hq Hel Htne Htok Hno Hrest.
  set (junk := py "# " ++ tok ++ nl :: rest).
  set (b0 := rev preamble).
  set (b1 := " "%char :: "#"%char :: b0).
  set (name := stem ++ "."%char :: ext).
  set (b2 := rev name ++ b1).
  set (cs1 := [(1, (length b1, length b2));
               (2, (length ("."%char :: rev stem ++ b1),
                    length (rev ext ++ "."%char :: rev stem ++ b1)))]).
  set (b4 := rev (py "```") ++ nl :: b2).
  set (b6 := nl :: rev lang ++ b4).
  set (cs3 := match lang with
              | [] => cs1
              | _ => (3, (length b4, length (rev lang ++ b4))) :: cs1
              end).
  set (e := St (rev text ++ b6) junk ((4, (length b6, length (rev text ++ b6))) :: cs3)).
  assert (Hq6 : quiet b6 text = true)
    by (rewrite (quiet_bol _ b6 [nl]) by reflexivity; exact Hq).
  assert (Htail : Re.mt Re.MULTILINE tail_pattern Some
                    (St b2 (nl :: py "```" ++ lang ++ nl :: text ++ junk) cs1) = Some e).
  { set (L := lang ++ nl :: text ++ junk).
    change (nl :: py "```" ++ L) with (nl :: "`"%char :: (py "``" ++ L)).
    rewrite tail_at_text by reflexivity.
    change ("`"%char :: (py "``" ++ L)) with (py "```" ++ L). unfold L.
    unfold fenced_pattern. rewrite mt_seq, mt_opt.
    rewrite (fence_open _ _ _ _ _ e Hlang); [reflexivity|].
    fold b4. fold b6. fold cs3. apply body_open; try assumption; [reflexivity|].
    unfold b6. apply ends_line_bol. exact Hel. }
  assert (Hm : Re.mt Re.MULTILINE file_pattern Some
                 (St b0 ("#"%char :: " "%char :: stem ++ "."%char :: ext
                           ++ nl :: py "```" ++ lang ++ nl :: text ++ junk) [])
               = Some e)
    by (apply heading_fwd; assumption).
  unfold scan, scan_raw, Re.findall, Re.finditer.
  match goal with
  | |- context [Re.finditer_fuel ?d] =>
      replace (Re.finditer_fuel d) with (S (S (2 * length d)))
        by (unfold Re.finditer_fuel; lia)
  end.
  rewrite (finditer_loop_quiet _ _ _ _ Hpre), app_nil_r. fold b0.
  rewrite finditer_loop_eq, search_eq.
  change (py "# " ++ stem ++ "."%char :: ext ++ nl
            :: py "```" ++ lang ++ nl :: text ++ junk)
    with ("#"%char :: " "%char :: stem ++ "."%char :: ext
            ++ nl :: py "```" ++ lang ++ nl :: text ++ junk).
  set (a0 := "#"%char :: " "%char :: stem ++ "."%char :: ext
               ++ nl :: py "```" ++ lang ++ nl :: text ++ junk).
  change (Re.final false (St b0 a0 [])) with (@Some Re.mstate).
  unfold a0 at 1. rewrite Hm.
  assert (Hpos : (Re.pos e =? Re.pos (St b0 a0 [])) = false).
  { apply Nat.eqb_neq. unfold Re.pos, e, b6, b4, b2, b1. cbn [Re.bef].
    repeat (rewrite length_app || cbn [length]). lia. }
  rewrite Hpos. unfold e at 2 3. cbn [Re.bef Re.aft].
  rewrite finditer_loop_eq, search_eq.
  unfold junk. cbn [py list_ascii_of_string app].
  rewrite heading_line_dead by assumption.
  assert (Hnone : Re.search Re.MULTILINE file_pattern false
                    ("#"%char :: rev text ++ b6) (" "%char :: tok ++ nl :: rest) = None).
  { rewrite <- (app_nil_r (" "%char :: tok ++ nl :: rest)).
    rewrite search_quiet; [apply search_at_end| |left; discriminate].
    change (" "%char :: tok ++ nl :: rest) with ((" "%char :: tok) ++ nl :: rest).
    apply quiet_line; [reflexivity| |exact Hrest].
    constructor; [discriminate|].
    eapply List.Forall_impl; [|exact Htok]. intros c Hc E. subst c. discriminate Hc. }
  change (Re.bef e) with (rev text ++ b6).
  rewrite Hnone. cbn [map snd]. f_equal.
  change (St (rev text ++ b6) ("#"%char :: " "%char :: tok ++ nl :: rest)
            ((4, (length b6, length (rev text ++ b6))) :: cs3)) with e.
  destruct (tail_groups Some b1 stem ext
              (nl :: py "```" ++ lang ++ nl :: text ++ junk) [] e
              (fun z Hz => f_equal (fun o => match o with Some a => a | None => z end) Hz)
              Htail) as (H1 & H2).
  destruct (extension_chars ext Hext) as [_ Hec].
  assert (Hn : Forall (fun c => Chars.is_space c = false) name).
  { apply Forall_app. split; [exact Hstem|]. constructor; [reflexivity|exact Hec]. }
  assert (H3 : Re.group 3 e = lang).
  { unfold Re.group, e, cs3. cbn [Re.caps Re.cap_get Nat.eqb].
    destruct lang as [|c lang'] eqn:El; [reflexivity|].
    cbn [Re.cap_get Nat.eqb]. rewrite subject_St.
    replace (rev (rev text ++ b6) ++ junk)
      with (rev b4 ++ (c :: lang') ++ (nl :: text ++ junk)).
    - apply substr_zipper.
    - unfold b6. list_norm. reflexivity. }
  assert (H4 : Re.group 4 e = text).
  { unfold Re.group, e. cbn [Re.caps Re.cap_get Nat.eqb]. rewrite subject_St.
    replace (rev (rev text ++ b6) ++ junk) with (rev b6 ++ text ++ junk)
      by (list_norm; reflexivity).
    apply substr_zipper. }
  unfold block_of, nth_str. cbn [nth Re.groups seq map].
  rewrite H1, H2, H3, H4. fold name.
  rewrite !strip_no_space by assumption.
  f_equal. destruct lang as [|c lang'] eqn:El; [reflexivity|].
  apply strip_no_space. eapply List.Forall_impl; [|exact Hlang].
  intros a. apply word_not_space.
Qed.

(** ** A failure does not stop the run *)


(** ** The properties at sample inputs *)

Lemma load_custom_patterns_malformed_witness :
  exists e l w',
    load_custom_patterns (fun _ => Some (VDict sample_config)) (py "rules.json")
      sample_world = (Ret [], w')
    /\ fs w' = fs sample_world
    /\ log w' = log sample_world ++ l ++ [(ERROR, MsgLoadFailed e)].
Proof.
  apply (load_custom_patterns_malformed_loses_all
           (fun _ => Some (VDict sample_config)) (py "rules.json") (py "rules")
           sample_config sample_world).
  - vm_compute. reflexivity.
  - vm_compute. reflexivity.
  - reflexivity.
  - apply Exists_cons_tl. apply Exists_cons_hd. reflexivity.
Defined.

Lemma detect_returns_witness :
  exists tag segments w',
    detect_language_and_directory (fun _ => None) (py "lib.rs") good_rules
      empty_world = (Ret (tag, segments), w')
    /\ fs w' = fs empty_world.
Proof.
  apply (detect_returns_when_patterns_compile (fun _ => None) (py "lib.rs")
           good_rules empty_world).
  repeat constructor.
Defined.

Lemma good_rules_nodup : List.NoDup (keys good_rules).
Proof.
  constructor.
  - intros [H|[]]. vm_compute in H. discriminate H.
  - constructor; [intros []|constructor].
Qed.

Lemma merge_keeps_order_witness :
  keys (merged_patterns good_rules)
  = keys default_patterns ++ [py "rust"]
  /\ detect_language_and_directory (fun _ => None) (py "main.PY") good_rules
       empty_world
     = (Ret (py "python", VList [VStr (py "src")]),
        add_log (DEBUG, MsgDetected (py "python") (py "main.PY")) empty_world).
Proof.
  destruct (merge_keeps_order_first_match_wins (fun _ => None) good_rules
              good_rules_nodup) as (Hkeys & _ & _ & Hfirst).
  split; [exact Hkeys|].
  apply (Hfirst (py "main.PY") [] (py "python")
           (VList [VList [VStr (py "src")]; VStr (py "\.pyw?$")])
           (tl (merged_patterns good_rules))).
  - reflexivity.
  - constructor.
  - reflexivity.
Defined.

Lemma detect_falls_back_witness :
  detect_language_and_directory (fun _ => None) (py "notes.zzz") [] empty_world
  = (Ret (py "txt", VList [VStr (py "misc")]),
     add_log (WARNING, MsgNoType (py "notes.zzz")) empty_world).
Proof.
  apply (detect_falls_back_to_misc (fun _ => None) (py "notes.zzz") [] empty_world).
  - repeat constructor; eexists; vm_compute; reflexivity.
  - reflexivity.
Defined.



Lemma sample_headings_well_formed : well_formed sample_preamble sample_headings.
Proof.
  split; [reflexivity|]. split; [reflexivity|]. split.
  - constructor; [|constructor; [|constructor]].
    + split; [discriminate|]. split; [repeat constructor|].
      split; [left; reflexivity|reflexivity].
    + split; [discriminate|]. split; [repeat constructor|].
      split; [simpl; tauto|reflexivity].
  - simpl. split; [reflexivity|exact I].
Qed.

Lemma scan_returns_blocks_witness :
  length (scan (document_of sample_preamble sample_headings)) = 2
  /\ map fileName (scan (document_of sample_preamble sample_headings))
     = [py "app.py"; py "notes.md"]
  /\ map declaredExtension (scan (document_of sample_preamble sample_headings))
     = [py "py"; py "md"].
Proof.
  apply (scan_returns_blocks_in_heading_order sample_preamble sample_headings).
  exact sample_headings_well_formed.
Defined.

Lemma sample_paragraph_plain (name body : string) :
  Forall (fun c => Chars.is_space c = false) (py name) ->
  py name <> [] ->
  Forall (fun c => c <> "`"%char) (py body ++ [nl]) ->
  quiet [nl] (py body ++ [nl]) = true ->
  plain_heading {| hb_stem := py name; hb_ext := py "md"; hb_body := py body ++ [nl] |}.
Proof.
  intros Hn Hne Hp Hq. split; [|exact Hp].
  split; [exact Hne|]. split; [exact Hn|]. split; [simpl; tauto|exact Hq].
Qed.

Lemma content_stops_witness :
  scan (document_of [] sample_paragraphs)
  = [ {| fileName := py "a.md"; declaredExtension := py "md"; fenceLanguage := [];
         content := py "first paragraph" |};
      {| fileName := py "b.md"; declaredExtension := py "md"; fenceLanguage := [];
         content := py "second paragraph" |} ].
Proof.
  apply (proj2 content_stops_at_nearest_boundary
           {| hb_stem := py "a"; hb_ext := py "md"; hb_body := py "first paragraph" ++ [nl] |}
           {| hb_stem := py "b"; hb_ext := py "md"; hb_body := py "second paragraph" ++ [nl] |}).
  - apply (sample_paragraph_plain "a" "first paragraph");
      [repeat constructor|discriminate|repeat constructor; discriminate|reflexivity].
  - apply (sample_paragraph_plain "b" "second paragraph");
      [repeat constructor|discriminate|repeat constructor; discriminate|reflexivity].
  - reflexivity.
Defined.

Lemma no_blocks_witness :
  scan (py "  " ++ [nl; nl]) = []
  /\ exists w',
       extract_full_files (fun _ => None) (py "in.md") (py "out") [] blank_world
       = (Ret tt, w')
       /\ fs w' = fs blank_world
       /\ log w' = log blank_world
                   ++ [(INFO, MsgProcessing (py "in.md")); (ERROR, MsgNoFiles)].
Proof.
  destruct (no_blocks_is_reported (fun _ => None) (py "in.md") (py "out") []
              blank_world (py "  " ++ [nl; nl])) as [Hblank Hrun].
  - vm_compute. reflexivity.
  - vm_compute. reflexivity.
  - assert (Hscan : scan (py "  " ++ [nl; nl]) = []).
    { apply Hblank. repeat constructor. }
    split; [exact Hscan|]. apply Hrun. exact Hscan.
Defined.

Lemma scanned_file_names_witness :
  Forall (fun c => Chars.is_space c = false) (py "app.py")
  /\ exists stem ext,
       stem <> [] /\ In ext extensions
       /\ py "app.py" = stem ++ "."%char :: ext
       /\ py "py" = ext.
Proof.
  apply (scanned_file_names (document_of sample_preamble sample_headings)
           {| fileName := py "app.py"; declaredExtension := py "py";
              fenceLanguage := py "python"; content := py "print(1)" |}).
  vm_compute. left. reflexivity.
Defined.

(** ** Runs *)

(** One heading followed by a fenced block of three lines: one file,
    under [backend], holding exactly those lines. *)
Example run_fenced_document :
  let r := extract_full_files (fun _ => None) (py "in.md") (py "out") []
             fenced_world in
  fst r = Ret tt
  /\ List.filter not_debug (log (snd r))
     = [ (INFO, MsgProcessing (py "in.md"));
         (INFO, MsgFound 1);
         (INFO, MsgSaved {| absolute := false;
                            parts := [py "out"; py "backend"; py "app.py"] |});
         (INFO, MsgAllProcessed) ]
  /\ file_content (snd r)
       {| absolute := false; parts := [py "out"; py "backend"; py "app.py"] |}
     = Some (py "import sys" ++ nl :: py "print(sys.argv)" ++ nl :: py "sys.exit(0)").
Proof. vm_compute. repeat split; reflexivity. Qed.

(** A block whose directory cannot be created, because [out/docs] is a
    file, fails; the block after it is written. *)
Example run_with_collision :
  let r := process_blocks (fun _ => None) (py "out") []
             [ block_of (sample_match "notes.md" "md" "hello");
               block_of (sample_match "app.py" "py" "print(1)") ]
             sample_world in
  fst r = Ret tt
  /\ List.filter not_debug (log (snd r))
     = [ (ERROR, MsgSaveFailed (py "notes.md") OSError);
         (INFO, MsgSaved {| absolute := false;
                            parts := [py "out"; py "backend"; py "app.py"] |}) ]
  /\ file_content (snd r)
       {| absolute := false; parts := [py "out"; py "backend"; py "app.py"] |}
     = Some (py "print(1)").
Proof. vm_compute. repeat split; reflexivity. Qed.

(** The configuration with one malformed entry comes back empty. *)
Example run_load_malformed :
  let r := load_custom_patterns (fun _ => Some (VDict sample_config))
             (py "rules.json") sample_world in
  fst r = Ret []
  /\ log (snd r)
     = [ (WARNING, MsgInvalidPattern (py "docs"));
         (ERROR, MsgLoadFailed RuntimeError) ].
Proof. vm_compute. split; reflexivity. Qed.

(** And without it, whole. *)
Example run_load_well_formed :
  fst (load_custom_patterns (fun _ => Some (VDict good_rules))
         (py "rules.json") sample_world)
  = Ret good_rules.
Proof. vm_compute. reflexivity. Qed.

(** ** Headings with a tab

    The pattern takes the marker, any whitespace and a file name as a
    heading, but ends the text of a block without a fence only before the
    marker and a space. *)

(** Where the marker is followed by a space, the headings of the
    specification are the blocks of the scan. *)
Example spec_headings_sample :
  spec_headings (document_of sample_preamble sample_headings)
  = map fileName (scan (document_of sample_preamble sample_headings)).
Proof. vm_compute. reflexivity. Qed.

(** C1 at a document of two headings whose marker is followed by a tab:
    the specification counts two headings, [a.py] and [b.py]; the scan
    returns one block, for the first. *)
Theorem tab_headings_give_one_block :
  spec_headings tab_document = [py "a.py"; py "b.py"]
  /\ map fileName (scan tab_document) = [py "a.py"].
Proof. vm_compute. split; reflexivity. Qed.

(** C2 at the same document: the content of the block of [a.py] does not
    stop at the next heading; it runs over the heading of [b.py] and over
    its paragraph, to the end of the document. *)
Theorem tab_heading_is_swallowed :
  scan tab_document
  = [ {| fileName := py "a.py"; declaredExtension := py "py"; fenceLanguage := [];
         content := py "one" ++ nl :: py "#" ++ "009"%char :: py "b.py" ++ nl
                    :: py "two" |} ].
Proof. vm_compute. reflexivity. Qed.

(** And at a heading with a space followed by a heading with a tab. *)
Example space_then_tab_heading :
  map content
    (scan (py "# a.py" ++ nl :: py "one" ++ nl
           :: py "#" ++ "009"%char :: py "b.py" ++ nl :: py "two" ++ [nl]))
  = [ py "one" ++ nl :: py "#" ++ "009"%char :: py "b.py" ++ nl :: py "two" ].
Proof. vm_compute. reflexivity. Qed.

(** ** The limits of the file system, paths of directories, the log file *)

(** A block whose name has 256 letters is not saved: the directory is
    made, the file cannot be opened, and the failure is logged. *)
Example long_name_is_refused :
  let r := save_file long_name (VList [VStr (py "backend")]) (py "print(1)")
             (py "out") empty_world in
  fst r = Ret tt
  /\ log (snd r) = [(ERROR, MsgSaveFailed long_name OSError)]
  /\ fs (snd r) !! [py "out"; py "backend"] = Some NDir
  /\ fs (snd r) !! [py "out"; py "backend"; long_name] = None.
Proof. cbv zeta. repeat split; vm_compute; reflexivity. Qed.

(** A path that ends in a slash names no file, also where a file is. *)
Example trailing_slash_is_no_file :
  fst (isfile (py "in.md") fenced_world) = Ret true
  /\ fst (isfile (py "in.md/") fenced_world) = Ret false
  /\ fst (read_text (py "in.md/") fenced_world) = Raise OSError.
Proof. vm_compute. repeat split; reflexivity. Qed.

(** With a log file that cannot be opened the script raises before it
    has logged or written anything. *)
Example log_file_cannot_be_opened :
  main (fun _ => None) (fun _ => None) (py "in.md") (py "out") AtInfo
    (Some (py "nodir/run.log")) None fenced_world
  = (Raise OSError, fenced_world).
Proof. vm_compute. reflexivity. Qed.

(** ** The further properties at sample inputs *)

Lemma detect_by_extension_witness :
  detect_language_and_directory (fun _ => None) (py "Main.PY") rust_rules empty_world
  = (Ret (py "python", VList [VStr (py "backend")]),
     add_log (DEBUG, MsgDetected (py "python") (py "Main.PY")) empty_world).
Proof.
  apply (detect_by_extension (fun _ => None) (py "Main") (py "PY") (py "python")
           (VList [VStr (py "backend")]) (VStr (py "\.py$")) rust_rules empty_world).
  - left. reflexivity.
  - reflexivity.
  - repeat constructor.
Defined.

Lemma scanned_blocks_match_witness :
  exists tag directory pattern,
    In (declaredExtension app_block, tag) extension_tags
    /\ dict_get tag default_patterns = Some (VTuple [directory; pattern])
    /\ detect_language_and_directory (fun _ => None) (fileName app_block)
         rust_rules empty_world
       = (Ret (tag, directory),
          add_log (DEBUG, MsgDetected tag (fileName app_block)) empty_world).
Proof.
  apply (scanned_blocks_match_builtin_rules (fun _ => None) fenced_document
           app_block rust_rules empty_world).
  - vm_compute. left. reflexivity.
  - repeat constructor.
Defined.

Lemma detect_media_type_witness :
  detect_language_and_directory (fun _ => Some (py "text/plain")) (py "notes.txt")
    [] empty_world
  = (Ret (py "text/plain", VList [VStr (py "text")]),
     add_log (DEBUG, MsgMime (py "text/plain") (py "notes.txt")) empty_world).
Proof.
  apply (detect_falls_back_to_media_type (fun _ => Some (py "text/plain"))
           (py "notes.txt") [] "t"%char (py "ext/plain") empty_world).
  - repeat constructor; eexists; vm_compute; reflexivity.
  - reflexivity.
Defined.

Lemma detect_logs_one_event_witness :
  log (snd (detect_language_and_directory (fun _ => None) (py "notes.zzz") []
              empty_world))
  = [(WARNING, MsgNoType (py "notes.zzz"))].
Proof.
  pose proof (detect_logs_one_event (fun _ => None) (py "notes.zzz") [] empty_world
                (Ret (py "txt", VList [VStr (py "misc")]))
                (add_log (WARNING, MsgNoType (py "notes.zzz")) empty_world)) as H.
  destruct H as (_ & _ & [H|[H|[_ H]]]).
  - vm_compute. reflexivity.
  - vm_compute in H. discriminate H.
  - vm_compute in H. discriminate H.
  - vm_compute. reflexivity.
Defined.


Lemma save_file_again_witness :
  let w1 := snd (save_file (py "app.py") (VList [VStr (py "backend")]) (py "print(1)")
                   (py "out") sample_world) in
  fs (snd (save_file (py "app.py") (VList [VStr (py "backend")]) (py "print(1)")
             (py "out") w1))
  = fs w1.
Proof.
  intros w1.
  rewrite (save_file_again (py "app.py") (VList [VStr (py "backend")]) (py "print(1)")
             (py "out") sample_world w1
             {| absolute := false; parts := [py "out"; py "backend"; py "app.py"] |}).
  - reflexivity.
  - vm_compute. reflexivity.
  - vm_compute. reflexivity.
Defined.

Lemma save_writes_one_file_witness :
  let w' := snd (save_file (py "app.py") (VList [VStr (py "backend")]) (py "print(1)")
                   (py "out") sample_world) in
  exists q,
    locate w' {| absolute := false; parts := [py "out"; py "backend"; py "app.py"] |}
    = Some q
    /\ fs w' !! q = Some (NFile (Some (strip (py "print(1)"))))
    /\ fs sample_world !! q <> Some NDir
    /\ forall k, k <> q ->
         fs w' !! k = fs sample_world !! k
         \/ (fs sample_world !! k = None /\ fs w' !! k = Some NDir).
Proof.
  apply (save_writes_one_file (py "app.py") (VList [VStr (py "backend")])
           (py "print(1)") (py "out") sample_world).
  - vm_compute. reflexivity.
  - vm_compute. reflexivity.
Defined.

Lemma saved_path_layout_witness :
  {| absolute := false; parts := [py "out"; py "static"; py "css"; py "site.css"] |}
  = {| absolute := absolute (Path (py "out"));
       parts := parts (Path (py "out")) ++ [py "static"; py "css"] ++ [py "site.css"] |}.
Proof.
  apply (saved_path_layout (py "site.css") [py "static"; py "css"] (py "a{}")
           (py "out") sample_world
           (snd (save_file (py "site.css") (VList (map VStr [py "static"; py "css"]))
                   (py "a{}") (py "out") sample_world))).
  - repeat constructor.
  - reflexivity.
  - vm_compute. reflexivity.
  - vm_compute. reflexivity.
Defined.

Lemma absolute_name_witness :
  {| absolute := true; parts := [py "srv"; py "app.py"] |} = Path (py "/srv/app.py")
  /\ absolute {| absolute := true; parts := [py "srv"; py "app.py"] |} = true.
Proof.
  apply (absolute_name_leaves_output_directory (py "srv/app.py")
           (VList [VStr (py "backend")]) (py "print(1)") (py "out") served_world
           (snd (save_file (py "/srv/app.py") (VList [VStr (py "backend")])
                   (py "print(1)") (py "out") served_world))).
  - vm_compute. reflexivity.
  - vm_compute. reflexivity.
Defined.

Lemma nested_name_witness :
  exists e w',
    save_file (py "src/app.py") (VList (map VStr [py "backend"])) (py "print(1)")
      (py "out") sample_world
    = (Ret tt, w')
    /\ log w' = log sample_world ++ [(ERROR, MsgSaveFailed (py "src/app.py") e)].
Proof.
  apply (nested_name_needs_its_directory (py "src") (py "app.py") [py "backend"]
           (py "print(1)") (py "out") sample_world).
  - reflexivity.
  - discriminate.
  - reflexivity.
  - repeat constructor.
  - repeat constructor; discriminate.
  - vm_compute. discriminate.
Defined.

Lemma missing_input_witness :
  extract_full_files (fun _ => None) (py "out") (py "dest") broken_rules sample_world
  = (Ret tt, add_log (ERROR, MsgNoInput (py "out"))
               (add_log (INFO, MsgProcessing (py "out")) sample_world)).
Proof.
  apply (missing_input_is_reported (fun _ => None) (py "out") (py "dest")
           broken_rules sample_world).
  vm_compute. reflexivity.
Defined.

Lemma unreadable_input_witness :
  extract_full_files (fun _ => None) (py "blob.md") (py "out") [] served_world
  = (Ret tt, add_log (ERROR, MsgReadFailed UnicodeDecodeError)
               (add_log (INFO, MsgProcessing (py "blob.md")) served_world)).
Proof.
  apply (unreadable_input_is_reported (fun _ => None) (py "blob.md") (py "out")
           [] served_world UnicodeDecodeError).
  - vm_compute. reflexivity.
  - vm_compute. reflexivity.
Defined.

Lemma every_block_witness :
  exists l w',
    extract_full_files (fun _ => None) (py "in.md") (py "out") [] fenced_world
    = (Ret tt, w')
    /\ log w' = log fenced_world
                ++ [(INFO, MsgProcessing (py "in.md"));
                    (INFO, MsgFound (length (scan fenced_document)))]
                ++ l ++ [(INFO, MsgAllProcessed)]
    /\ Forall2 outcome_of (scan fenced_document) (List.filter is_outcome l).
Proof.
  apply (every_block_is_accounted_for (fun _ => None) (py "in.md") (py "out") []
           fenced_world fenced_document).
  - vm_compute. reflexivity.
  - vm_compute. reflexivity.
  - vm_compute. discriminate.
  - constructor.
Defined.

Lemma extract_returns_witness :
  exists l w',
    extract_full_files (fun _ => None) (py "in.md") (py "out") good_rules fenced_world
    = (Ret tt, w')
    /\ log w' = log fenced_world ++ (INFO, MsgProcessing (py "in.md")) :: l.
Proof.
  apply (extract_full_files_returns (fun _ => None) (py "in.md") (py "out")
           good_rules fenced_world).
  repeat constructor.
Defined.

Lemma load_well_formed_witness :
  load_custom_patterns (fun _ => Some (VDict good_rules)) (py "rules.json") sample_world
  = (Ret good_rules, add_log (INFO, MsgLoaded (py "rules.json")) sample_world).
Proof.
  apply (load_returns_well_formed_rules (fun _ => Some (VDict good_rules))
           (py "rules.json") (py "rules") good_rules sample_world).
  - vm_compute. reflexivity.
  - vm_compute. reflexivity.
  - reflexivity.
  - repeat constructor.
Defined.

Lemma missing_configuration_witness :
  load_custom_patterns (fun _ => None) (py "nothere.json") sample_world
  = (Ret [], add_log (ERROR, MsgNoConfig (py "nothere.json")) sample_world).
Proof.
  apply (missing_configuration_gives_no_rules (fun _ => None) (py "nothere.json")
           sample_world).
  vm_compute. reflexivity.
Defined.


Lemma main_reports_completion_witness :
  exists l w',
    main (fun _ => None) (fun _ => Some (VDict good_rules)) (py "in.md") (py "out")
      AtInfo None (Some (py "rules.json")) sample_world
    = (Ret tt, w')
    /\ log w' = log sample_world ++ l ++ [(INFO, MsgCompleted)].
Proof.
  apply (main_reports_completion (fun _ => None) (fun _ => Some (VDict good_rules))
           (py "in.md") (py "out") AtInfo None (Some (py "rules.json")) sample_world).
  { reflexivity. }
  assert (E : loaded_rules (fun _ => Some (VDict good_rules)) (Some (py "rules.json"))
                sample_world = good_rules) by (vm_compute; reflexivity).
  rewrite E. repeat constructor.
Defined.

Lemma no_dot_no_name (tok : str) :
  existsb (fun c => Chars.eqb c ".") tok = false ->
  forall stem ext, In ext extensions -> tok <> stem ++ "."%char :: ext.
Proof.
  intros H stem ext _ E. subst tok. rewrite existsb_app in H.
  apply orb_false_iff in H. destruct H as [_ H]. simpl in H. discriminate H.
Qed.

Ltac pick_member := first [left; reflexivity | right; pick_member].

Lemma scan_of_entries_witness :
  scan (document_of sample_preamble (map heading_of sample_entries))
  = map block_of_entry sample_entries.
Proof.
  apply (scan_of_entries sample_preamble sample_entries).
  - reflexivity.
  - reflexivity.
  - constructor; [|constructor; [|constructor]].
    + split; [|split].
      * split; [discriminate|]. split; [repeat constructor|].
        split; [simpl; pick_member|reflexivity].
      * repeat constructor.
      * repeat constructor; discriminate.
    + split; [|repeat constructor; discriminate].
      split; [discriminate|]. split; [repeat constructor|].
      split; [simpl; pick_member|reflexivity].
  - split; [reflexivity|exact I].
Defined.


Lemma unrecognised_heading_witness :
  scan (sample_preamble ++ render_block first_paragraph
          ++ py "# " ++ py "Notes" ++ nl :: py "lost" ++ [nl])
  = [block_of_heading first_paragraph].
Proof.
  apply (unrecognised_heading_drops_its_text sample_preamble first_paragraph
           (py "Notes") (py "lost" ++ [nl])).
  - reflexivity.
  - reflexivity.
  - split; [|repeat constructor; discriminate].
    split; [discriminate|]. split; [repeat constructor|].
    split; [simpl; pick_member|reflexivity].
  - reflexivity.
  - discriminate.
  - repeat constructor.
  - apply no_dot_no_name. reflexivity.
  - reflexivity.
Defined.

Lemma marker_line_witness :
  scan (sample_preamble ++ py "# " ++ py "app" ++ "."%char :: py "py" ++ nl
          :: py "```" ++ py "python" ++ nl :: (py "import os" ++ [nl])
          ++ py "# " ++ py "TODO" ++ nl :: py "print(1)" ++ nl :: py "```" ++ [nl])
  = [ {| fileName := py "app" ++ "."%char :: py "py"; declaredExtension := py "py";
         fenceLanguage := py "python"; content := strip (py "import os" ++ [nl]) |} ].
Proof.
  apply (marker_line_cuts_fenced_text sample_preamble (py "app") (py "py")
           (py "python") (py "import os" ++ [nl]) (py "TODO")
           (py "print(1)" ++ nl :: py "```" ++ [nl])).
  - reflexivity.
  - reflexivity.
  - discriminate.
  - repeat constructor.
  - simpl. pick_member.
  - repeat constructor.
  - repeat constructor; discriminate.
  - reflexivity.
  - reflexivity.
  - discriminate.
  - repeat constructor.
  - apply no_dot_no_name. reflexivity.
  - reflexivity.
Defined.

Lemma save_file_succeeds_witness :
  exists w',
    save_file (py "app.py") (VList (map VStr [py "backend"]))
      (py "print(1)" ++ [nl]) (py "out") empty_world
    = (Ret tt, w')
    /\ log w' = log empty_world
                ++ [(INFO, MsgSaved {| absolute := false;
                                       parts := [py "out"; py "backend"; py "app.py"] |})]
    /\ file_content w' {| absolute := false;
                          parts := [py "out"; py "backend"; py "app.py"] |}
       = Some (strip (py "print(1)" ++ [nl])).
Proof.
  apply (save_file_succeeds (py "app.py") [py "backend"] (py "print(1)" ++ [nl])
           (py "out") empty_world).
  - reflexivity.
  - discriminate.
  - repeat constructor.
  - repeat constructor; discriminate.
  - reflexivity.
  - vm_compute. reflexivity.
  - reflexivity.
  - intros i d _. cbn [fs empty_world]. rewrite lookup_empty. discriminate.
  - cbn [fs empty_world]. rewrite lookup_empty. discriminate.
Defined.

Lemma fenced_world_ready : output_ready fenced_world (py "out").
Proof.
  split; [reflexivity|]. split; [repeat constructor; discriminate|].
  split; [reflexivity|]. split.
  - intros i d Hi. change (length (parts (Path (py "out")))) with 1 in Hi.
    assert (E : i = 1) by lia. subst i. vm_compute. discriminate.
  - intros k c n H.
    change (key_of fenced_world (Path (py "out"))) with [py "out"] in H.
    cbn [fs fenced_world] in H.
    apply lookup_singleton_Some in H. destruct H as [E _]. discriminate E.
Qed.

Lemma extract_writes_every_block_witness :
  exists w',
    extract_full_files (fun _ => None) (py "in.md") (py "out") rust_rules fenced_world
    = (Ret tt, w')
    /\ forall b, In b (scan fenced_document) ->
         path_fits (block_path (py "out") b) = true ->
         file_content w' (block_path (py "out") b) = Some (content b).
Proof.
  apply (extract_writes_every_block (fun _ => None) (py "in.md") (py "out")
           rust_rules fenced_world fenced_document).
  - vm_compute. reflexivity.
  - vm_compute. reflexivity.
  - repeat constructor.
  - exact fenced_world_ready.
  - vm_compute. repeat constructor.
  - vm_compute. constructor; [intros []|constructor].
Defined.

Lemma new_tag_rules_witness :
  extract_full_files (fun _ => None) (py "in.md") (py "out") broken_rules fenced_world
  = extract_full_files (fun _ => None) (py "in.md") (py "out") [] fenced_world.
Proof.
  apply (new_tag_rules_change_nothing (fun _ => None) (py "in.md") (py "out")
           broken_rules fenced_world).
  repeat constructor.
Defined.

Lemma second_run_witness :
  let w1 := snd (extract_full_files (fun _ => None) (py "in.md") (py "out") []
                   fenced_world) in
  exists w2,
    extract_full_files (fun _ => None) (py "in.md") (py "out") [] w1 = (Ret tt, w2)
    /\ fs w2 = fs w1 /\ cwd w2 = cwd w1.
Proof.
  intros w1.
  apply (second_run_changes_no_file (fun _ => None) (py "in.md") (py "out") []
           fenced_world w1 fenced_document).
  - vm_compute. reflexivity.
  - constructor.
  - exact fenced_world_ready.
  - vm_compute. repeat constructor.
  - vm_compute. constructor; [intros []|constructor].
  - vm_compute. reflexivity.
  - vm_compute. reflexivity.
Defined.
